(* ===== verification/_CoqProject ===== *)
-Q . S2P
Prelude.v
Encoding.v
Checked.v
GoSlice.v
VMTypes.v
Entries.v
TxData.v
Opcode.v
Machine.v
Ops.v
Interp.v
Gas.v
Mint.v
Alias.v
Script.v
Builder.v
Spend.v
Numeric.v
Utxo.v
Orphans.v
Checkpoint.v
Tree.v
CasperState.v
Casper.v
CasperInv.v
CasperSpec.v
CasperBlocks.v
CasperSafety.v
Restart.v
CasperRuns.v
RestartRuns.v
Rollback.v
Ancestry.v
Merkle.v
MapTx.v
Validate.v
ValidateSpec.v
Ledger.v
Fees.v
MapTxTyped.v
BlockData.v
BlockValidation.v
Supply.v
TxPool.v
TxPoolSpec.v
ContractView.v
UtxoStore.v
Store.v
Chain.v
ChainSpec.v
CasperLinks.v
ChainInv.v
ChainRuns.v
ChainInvRuns.v
UtxoKeeper.v
UtxoKeeperSpec.v
Proposal.v
ProposalSpec.v
ProposalUtxo.v
ProposalRuns.v
BlockProposer.v
Bech32.v
Bech32Spec.v
Address.v
AddressSpec.v
