(* ===== verification/Prelude.v ===== *)
(** * The core of Bytom, verified

    Bytom is a proof-of-stake chain written in Go.  This library models its
    consensus core (under src/bytom): the virtual machine that authorises
    spending, transactions and blocks with their validation, the stored chain
    with its unspent outputs, the Casper consensus that finalizes blocks, the
    pools, the proposer of blocks, the reservation of outputs in the wallet, and
    addresses.
    Definitions keep the names of the Go functions and follow their control flow,
    error and panic paths included; theorems say what the parts promise to each
    other, and, where the code does not keep a promise, exhibit a run that breaks
    it.

    ** Parts and files

    Shared vocabulary.
    - [Prelude]: bytes, machine words as integers with their wrap-around, list
      lemmas, tactics.  [Checked]: math/checked.
    - [Encoding]: encoding/blockchain, the varints and strings of the wire
      format, with the rules from which round trips are composed.

    Virtual machine (protocol/vm).
    - [GoSlice]: byte slices behind an interface, once as views of shared arrays
      as in Go, once as values.  [VMTypes]: errors, value conversions, and the
      interfaces to the hash, signature and 256-bit integer libraries.
    - [Opcode] (ops.go, pushdata.go), [Machine] (vm.go, context.go), [Ops] (the
      opcode functions), [Interp] (step, run, Verify).
    - [Gas]: a program logic for the opcodes; every run of a program returns, with
      fuel for the iterations of each loop and gas left within the limit, for
      contexts whose fields, the program among them, have at most 56 bytes.
      [Mint]: a program of 62 bytes runs for ever.  [Alias]: the
      machine on Go slices does what the machine on values does, unless an
      append writes in place; the program that makes it.  [Numeric]: the
      arithmetic opcodes compute integer arithmetic.
    - [Script] (vmutil, consensus/bcrp, consensus/segwit), [Builder] (jumps are
      resolved), [Spend] (who can spend the standard programs).

    Transactions and blocks.
    - [Entries] (protocol/bc): entries and the identifiers that bind them.
      [TxData] (protocol/bc/types): the wire format and its round trip.
      [MapTx] (map.go): from a transaction to its entries, well typed
      ([MapTxTyped]).  [Merkle] (merkle.go): roots and proofs.  [BlockData]
      (block.go, block_header.go and the commitments): blocks on the wire, and
      what the hash of a block binds.
    - [Validate] (protocol/validation/tx.go, vmcontext.go); [ValidateSpec]: a
      declarative notion of validity, refined by [ValidateTx]; [Ledger] and
      [Fees]: what follows for transactions [MapTx] built: conservation of every
      asset, authorisation of every input, fee and gas, and that validation
      returns.
    - [BlockValidation] (protocol/validation/block.go): [ValidateBlock] accepts
      exactly the valid blocks.  [Supply]: a valid block creates no value but
      the rewards of its checkpoint.

    State.
    - [Utxo] (protocol/state/utxo_view.go): blocks and transactions applied to
      the unspent outputs and detached again.  [UtxoStore]
      (database/utxo_view.go): views loaded from and saved to the database.
      [ContractView]: registered contracts.
    - [Store] (database/store.go, store_geter.go): headers and transactions as
      texts, the index by height, the status of the chain.

    Consensus.
    - [Orphans] (orphan_manage.go and saveSubBlock): the pool of blocks whose
      parent is missing.
    - [Checkpoint] (state/checkpoint.go, reward.go, sup_link.go): votes,
      validators, supermajority links.
    - [Tree] (casper/tree_node.go): the checkpoint tree and the fork choice.
    - [CasperState], [Casper]: the state of the consensus with the database
      behind it, and every operation of protocol/casper.  [CasperInv],
      [CasperSpec], [CasperBlocks]: its invariant, and that every operation
      keeps it and neither panics nor loops.  [CasperSafety]: what follows for
      reachable states.  [CasperRuns]: concrete runs, those among them that get
      around the slashing rules.  [CasperLinks]: the links it writes are well
      formed.  [Ancestry]: the search for the checkpoint of a block, with its
      cache.  [Restart], [RestartRuns]: the tree is rebuilt from the database.
      [Rollback]: consensus and chain as threads, and the deadlock between them.

    Chain.
    - [Chain] (protocol/block.go, protocol.go): the chain over the store, the
      consensus and both pools; what each of its calls changes is read off the
      composed state.  [ChainSpec]: what it means that a chain represents a list
      of blocks, and reorganisations.  [ChainInv]: every message, vote, rollback
      and restart keeps that invariant, and the chain follows the fork choice.
      [ChainRuns], [ChainInvRuns]: concrete nodes.
    - [TxPool], [TxPoolSpec] (txpool.go): the pool of transactions.

    At the edge.
    - [Proposal] (proposal/proposal.go, with the transaction builder of
      blockchain/txbuilder), [ProposalSpec], [ProposalUtxo]: a block template is
      a valid block, and its transactions can be attached.  [BlockProposer]
      (proposal/blockproposer): an iteration of the loop.  [ProposalRuns]: a node
      that proposes its first blocks.
    - [UtxoKeeper], [UtxoKeeperSpec] (account/utxo_keeper.go): the reservation
      of outputs.
    - [Bech32], [Bech32Spec] (common/bech32): the codec, on bits and as a linear
      code.  [Address], [AddressSpec] (common/address.go, with the two functions
      of account and wallet that use it): addresses and control programs
      correspond one to one.

    ** How state and effects are modelled

    Pure functions are functions.  A method that changes its receiver is a
    computation in a small monad of its file: state, and an outcome that is a
    value, an error, a panic, a wait that nobody ends, or lack of fuel.  Pointers that the code shares
    (checkpoints, entries, backing arrays of slices) are indices of a store.  Go
    iterates over maps in any order: the interface [MapRange] of [Orphans] is
    an arbitrary order, and theorems hold for all of them.  So are the sorts of
    package sort, which are not stable: [SortSlice], [SortByTime].  Hashes,
    signatures, 256-bit integers and the LRU cache are interfaces with the laws
    their documentation states; witnesses instantiate them.  A method that holds
    a mutex from its first line to its last is one step of a transition system
    ([chain_step], [keeper_step], the steps of the pools).

    Fuel: the interpreter, [Verify_gas] says how much is enough; the walk over
    the entries of a transaction, [ValidateTx_returns]; the consensus, the height
    of the block ([operations_return]); the orphan pool, the number of orphans
    ([saveSubBlock_chain_safe]); a rebuilt tree, the number of checkpoints
    ([makeTree_spec]); the choice of outputs, their number ([Reserve_exact]).  A
    reorganisation walks down two branches: its statements, and those about whole
    messages and templates, are about runs that return, for any fuel.

    ** Hypotheses worth knowing

    Identifiers are hashes.  Statements about transactions carry the exception
    that two entries of the transaction at hand clash ([Ledger.clash], tied to a
    collision of SHA3 by [EntryID_binding]); statements about the consensus
    assume that the blocks at hand form a tree ([CasperInv.world]); those about
    the chain speak of the blocks a node ever gets to see ([ChainInv.Received]):
    values of the Go types, one height and parent per hash.  Nothing in the code
    keeps a transaction, a coinbase for one, from occurring twice on a branch, and
    then detaching goes wrong ([repeated_coinbase_is_lost]); statements about
    reorganisations assume that the list to detach from has none ([distinct_txs]),
    those about runs that the lists the chain represents on the way have none
    ([proper_step]).  The runs of [CasperSafety.reachable] contain no restart:
    afterwards links count that were never verified ([restart_counts_forged]).
    The reply to a rollback request is a parameter ([chain_reply]) that may be
    missing, in which case the call does not come back; [Rollback] composes the
    consensus with the chain instead.  [ProposalSpec] assumes rewards that name programs and fit
    their width ([rewards_ok]), that the pool holds transactions which validate
    at version 1 and use no negative gas ([decent]), and that the node can verify
    its own signatures ([NodeSigns]).

    ** Not modelled, and why

    Goroutines and tickers, except where they decide the outcome ([Rollback]):
    the workers of the validation share nothing they write, the loop of the
    proposer is one iteration, its start and stop are left out.  LevelDB is a
    map; values kept as JSON or protobuf stay values; the caches in front of the
    store are dropped where it is written.  The closure [checkOutput] of
    vmcontext.go, which distinguishes nil from empty slices, is a parameter.
    Reflection ([writeForHash] of entry.go) is unfolded per type.  Logs and the
    text of errors.  Of the wallet and the accounts only the keeper of outputs and
    the addresses of programs; not the assets, contracts, API, network, tooling, the assembler of programs,
    nor vendored code, which are around the core. *)

From Stdlib Require Export ZArith Lia Bool.
From Stdlib Require Import Strings.Byte.
From stdpp Require Export base tactics list gmap.

#[global] Open Scope Z_scope.
#[global] Set Default Goal Selector "1".

(** ** Bytes *)

Abbreviation byte := Byte.byte.
Abbreviation bytes := (list Byte.byte).

(** Go's [byte] seen as an integer, and the conversion [byte(z)], which wraps. *)
Definition b2z (b : byte) : Z := Z.of_N (Byte.to_N b).
Definition z2b (z : Z) : byte := default x00 (Byte.of_N (Z.to_N (z mod 256))).

Lemma b2z_range b : 0 <= b2z b < 256.
Proof. unfold b2z. pose proof (Byte.to_N_bounded b). lia. Qed.

Lemma z2b_b2z b : z2b (b2z b) = b.
Proof.
  unfold z2b. rewrite Z.mod_small by apply b2z_range.
  unfold b2z. rewrite N2Z.id, Byte.of_to_N. reflexivity.
Qed.

Lemma b2z_z2b z : b2z (z2b z) = z mod 256.
Proof.
  unfold z2b, b2z. pose proof (Z.mod_pos_bound z 256 ltac:(lia)) as Hz.
  destruct (Byte.of_N (Z.to_N (z mod 256))) as [b|] eqn:Hb; simpl.
  - apply Byte.to_of_N in Hb. rewrite Hb. lia.
  - apply Byte.of_N_None_iff in Hb. lia.
Qed.

Lemma b2z_z2b_small z : 0 <= z < 256 -> b2z (z2b z) = z.
Proof. intros. rewrite b2z_z2b. apply Z.mod_small; lia. Qed.

Lemma b2z_inj b1 b2 : b2z b1 = b2z b2 -> b1 = b2.
Proof. intros H. rewrite <- (z2b_b2z b1), <- (z2b_b2z b2). by rewrite H. Qed.

#[export] Instance byte_eq_dec : EqDecision byte := Byte.byte_eq_dec.

(** Go's [len]. *)
Definition zlen {A} (l : list A) : Z := Z.of_nat (length l).

Lemma zlen_nonneg {A} (l : list A) : 0 <= zlen l.
Proof. unfold zlen. lia. Qed.
Lemma zlen_nil {A} : zlen (@nil A) = 0.
Proof. reflexivity. Qed.
Lemma zlen_cons {A} (x : A) l : zlen (x :: l) = 1 + zlen l.
Proof. unfold zlen. simpl length. lia. Qed.
Lemma zlen_app {A} (l k : list A) : zlen (l ++ k) = zlen l + zlen k.
Proof. unfold zlen. rewrite length_app. lia. Qed.
Lemma zlen_reverse {A} (l : list A) : zlen (reverse l) = zlen l.
Proof. unfold zlen. by rewrite length_reverse. Qed.
Lemma zlen_map {A B} (f : A -> B) l : zlen (f <$> l) = zlen l.
Proof. unfold zlen. by rewrite length_fmap. Qed.
Lemma zlen_0_inv {A} (l : list A) : zlen l = 0 -> l = [].
Proof. destruct l; [done|]. rewrite zlen_cons. pose proof (zlen_nonneg l). lia. Qed.

Create HintDb zlen.
Create Rewrite HintDb zlen.
#[export] Hint Rewrite @zlen_nil @zlen_cons @zlen_app @zlen_reverse @zlen_map : zlen.
#[export] Hint Resolve zlen_nonneg : zlen.

(** Go's slice expression [l[lo:hi]] on contents (the callers bound-check). *)
Definition subseq {A} (l : list A) (lo hi : Z) : list A :=
  take (Z.to_nat (hi - lo)) (drop (Z.to_nat lo) l).

Lemma zlen_subseq {A} (l : list A) lo hi :
  0 <= lo -> lo <= hi -> hi <= zlen l -> zlen (subseq l lo hi) = hi - lo.
Proof.
  unfold zlen, subseq. intros. rewrite length_take, length_drop. lia.
Qed.

Lemma subseq_app_mid {A} (p m s : list A) :
  subseq (p ++ m ++ s) (zlen p) (zlen p + zlen m) = m.
Proof.
  unfold subseq, zlen. rewrite drop_app_length', take_app_length'; [done|lia|lia].
Qed.

Lemma subseq_app_r {A} (p l : list A) lo hi :
  0 <= lo -> subseq (p ++ l) (zlen p + lo) (zlen p + hi) = subseq l lo hi.
Proof.
  intros. unfold subseq, zlen.
  replace (Z.to_nat (Z.of_nat (length p) + lo)) with (length p + Z.to_nat lo)%nat by lia.
  rewrite <- drop_drop, drop_app_length. f_equal. lia.
Qed.

(** Indexing [l[i]] by an integer; [None] is Go's run-time panic. *)
Definition zlookup {A} (l : list A) (i : Z) : option A :=
  if i <? 0 then None else l !! Z.to_nat i.

(** Little- and big-endian value of a byte string. *)
Fixpoint le_val (b : bytes) : Z :=
  match b with [] => 0 | x :: b' => b2z x + 256 * le_val b' end.
Definition be_val (b : bytes) : Z := le_val (reverse b).

(** [binary.LittleEndian.PutUint16/PutUint32]: the [n] low bytes of [z]. *)
Fixpoint le_bytes (n : nat) (z : Z) : bytes :=
  match n with O => [] | S m => z2b z :: le_bytes m (z / 256) end.

Lemma le_val_cons x b : le_val (x :: b) = b2z x + 256 * le_val b.
Proof. done. Qed.

Lemma le_val_range b : 0 <= le_val b < 256 ^ zlen b.
Proof.
  induction b as [|x b IH]; [unfold zlen; simpl; lia|].
  rewrite zlen_cons, Z.pow_add_r by auto with zlen lia.
  cbn [le_val]. pose proof (b2z_range x). lia.
Qed.

Lemma le_val_app a b : le_val (a ++ b) = le_val a + 256 ^ zlen a * le_val b.
Proof.
  induction a as [|x a IH]; [unfold zlen; simpl length; rewrite Z.pow_0_r; simpl; lia|].
  rewrite zlen_cons, Z.pow_add_r by auto with zlen lia.
  cbn [le_val app]. rewrite IH, Z.pow_1_r. lia.
Qed.

Lemma be_val_cons x b : be_val (x :: b) = b2z x * 256 ^ zlen b + be_val b.
Proof.
  unfold be_val. rewrite reverse_cons, le_val_app, zlen_reverse. cbn [le_val]. lia.
Qed.

Lemma be_val_range b : 0 <= be_val b < 256 ^ zlen b.
Proof. unfold be_val. rewrite <- (zlen_reverse b). apply le_val_range. Qed.

Lemma length_le_bytes n z : length (le_bytes n z) = n.
Proof. revert z; induction n; intros; simpl; auto. Qed.

Lemma zlen_le_bytes n z : zlen (le_bytes n z) = Z.of_nat n.
Proof. unfold zlen. by rewrite length_le_bytes. Qed.

Lemma le_val_bytes n z : 0 <= z -> le_val (le_bytes n z) = z mod 256 ^ Z.of_nat n.
Proof.
  revert z. induction n as [|n IH]; intros z Hz; [simpl; by rewrite Z.mod_1_r|].
  cbn [le_bytes le_val]. rewrite b2z_z2b, IH by (apply Z.div_pos; lia).
  rewrite Nat2Z.inj_succ, Z.pow_succ_r by lia.
  rewrite Z.rem_mul_r by lia. lia.
Qed.

#[export] Hint Rewrite zlen_le_bytes : zlen.

(** ** Machine words: the wrap-around of Go's fixed-width integers *)

Definition MaxInt32 : Z := 2147483647.
Definition MinInt32 : Z := -2147483648.
Definition MaxInt64 : Z := 9223372036854775807.
Definition MinInt64 : Z := -9223372036854775808.
Definition MaxUint32 : Z := 4294967295.
Definition MaxUint64 : Z := 18446744073709551615.

Definition u32 (z : Z) : Z := z mod 4294967296.
Definition u64 (z : Z) : Z := z mod 18446744073709551616.
Definition i32 (z : Z) : Z := (z + 2147483648) mod 4294967296 - 2147483648.
Definition i64 (z : Z) : Z :=
  (z + 9223372036854775808) mod 18446744073709551616 - 9223372036854775808.

Ltac words := unfold u32, u64, i32, i64, MaxInt32, MinInt32, MaxInt64, MinInt64,
  MaxUint32, MaxUint64 in *.

Lemma i64_id z : MinInt64 <= z <= MaxInt64 -> i64 z = z.
Proof. words. intros. rewrite Z.mod_small; lia. Qed.
Lemma i32_id z : MinInt32 <= z <= MaxInt32 -> i32 z = z.
Proof. words. intros. rewrite Z.mod_small; lia. Qed.
Lemma u64_id z : 0 <= z <= MaxUint64 -> u64 z = z.
Proof. words. intros. rewrite Z.mod_small; lia. Qed.
Lemma u32_id z : 0 <= z <= MaxUint32 -> u32 z = z.
Proof. words. intros. rewrite Z.mod_small; lia. Qed.
Lemma i64_range z : MinInt64 <= i64 z <= MaxInt64.
Proof. words. pose proof (Z.mod_pos_bound (z + 9223372036854775808) 18446744073709551616). lia. Qed.
Lemma u64_range z : 0 <= u64 z <= MaxUint64.
Proof. words. pose proof (Z.mod_pos_bound z 18446744073709551616). lia. Qed.
Lemma u32_range z : 0 <= u32 z <= MaxUint32.
Proof. words. pose proof (Z.mod_pos_bound z 4294967296). lia. Qed.

(** The native asset of consensus/general.go, which several components name. *)
Definition BTMAssetID : bytes := replicate 32 xff.

(** ** Tactics *)

(** Splits the boolean tests of a goal and of the hypotheses, and turns integer
    comparisons into facts [lia] reads. *)
Ltac zbool :=
  repeat match goal with
  | H : (_ && _) = true |- _ => apply andb_true_iff in H; destruct H
  | H : (_ || _) = false |- _ => apply orb_false_iff in H; destruct H
  | H : negb _ = true |- _ => apply negb_true_iff in H
  | H : negb _ = false |- _ => apply negb_false_iff in H
  | H : (_ <? _) = true |- _ => apply Z.ltb_lt in H
  | H : (_ <? _) = false |- _ => apply Z.ltb_ge in H
  | H : (_ <=? _) = true |- _ => apply Z.leb_le in H
  | H : (_ <=? _) = false |- _ => apply Z.leb_gt in H
  | H : (_ >? _) = true |- _ => rewrite Z.gtb_ltb in H
  | H : (_ >? _) = false |- _ => rewrite Z.gtb_ltb in H
  | H : (_ >=? _) = true |- _ => rewrite Z.geb_leb in H
  | H : (_ >=? _) = false |- _ => rewrite Z.geb_leb in H
  | H : (_ =? _) = true |- _ => apply Z.eqb_eq in H
  | H : (_ =? _) = false |- _ => apply Z.eqb_neq in H
  end.

Ltac case_if :=
  match goal with
  | |- context [if ?b then _ else _] =>
      lazymatch type of b with bool => destruct b eqn:? end
  end.

(** ** Go strings and byte slices as keys and in comparisons *)

#[export] Instance byte_countable : Countable byte := inj_countable' b2z z2b z2b_b2z.

(** Go's [<] on strings: bytewise lexicographic. *)
Fixpoint bytes_ltb (a b : bytes) : bool :=
  match a, b with
  | _, [] => false
  | [], _ :: _ => true
  | x :: a', y :: b' => (b2z x <? b2z y) || ((b2z x =? b2z y) && bytes_ltb a' b')
  end.

Lemma bytes_ltb_irrefl a : bytes_ltb a a = false.
Proof.
  induction a as [|x a IH]; [done|]. cbn. rewrite IH, Z.ltb_irrefl, andb_false_r. done.
Qed.

Lemma bytes_ltb_trans a b c : bytes_ltb a b = true -> bytes_ltb b c = true -> bytes_ltb a c = true.
Proof.
  revert b c. induction a as [|x a IH]; intros [|y b] [|z c]; cbn; try done.
  rewrite !orb_true_iff, !andb_true_iff, !Z.ltb_lt, !Z.eqb_eq.
  intros [H1|[H1 H2]] [H3|[H3 H4]]; [left; lia|left; lia|left; lia|right; split; [lia|eauto]].
Qed.

Lemma bytes_ltb_total a b : a = b \/ bytes_ltb a b = true \/ bytes_ltb b a = true.
Proof.
  revert b. induction a as [|x a IH]; intros [|y b]; cbn; auto.
  destruct (Z.lt_trichotomy (b2z x) (b2z y)) as [Hlt|[Heq|Hgt]].
  - right. left. apply Z.ltb_lt in Hlt. by rewrite Hlt.
  - apply b2z_inj in Heq as ->. rewrite Z.ltb_irrefl, Z.eqb_refl. cbn.
    destruct (IH b) as [->|[?|?]]; auto.
  - right. right. apply Z.ltb_lt in Hgt. by rewrite Hgt.
Qed.

Lemma bytes_ltb_asym a b : bytes_ltb a b = true -> bytes_ltb b a = false.
Proof.
  intros Hab. destruct (bytes_ltb b a) eqn:Hba; [|done].
  by rewrite <- (bytes_ltb_irrefl a), (bytes_ltb_trans _ _ _ Hab Hba).
Qed.

(** [encoding/hex]. *)
Definition hex_byte (n : Z) : byte := z2b (if n <? 10 then 48 + n else 87 + n).
Definition hex_encode (b : bytes) : bytes :=
  concat ((fun x => [hex_byte (b2z x / 16); hex_byte (b2z x mod 16)]) <$> b).
