(* ===== verification/Encoding.v ===== *)
(** * Data primitives on the wire: encoding/blockchain/blockchain.go

    A reader is a computation over the unread bytes of a [Reader], a writer the
    bytes it writes, both with the errors of the package.  [roundtrips w r a]
    says that reading what [w] wrote gives back [a] and leaves the rest; its
    rules compose along the code of a reader and its writer, and the hint
    database [wire] applies them.  [binary.PutUvarint] and [binary.ReadUvarint]
    are those of Go 1.16, the version of go.mod. *)

From S2P Require Import Prelude.
From Stdlib Require Import Strings.Byte.
#[local] Open Scope Z_scope.

Inductive wire_error :=
  | EOF
  | ErrUnexpectedEOF
  | ErrUvarintOverflow      (* of encoding/binary *)
  | ErrRangeWire            (* ErrRange *)
  | ErrSerFlags
  | ErrInputType
  | ErrOutputType
  | ErrVMVersion
  | errBadAssetID
  | ErrTrailing
  | ErrHex
  | NilPointer.             (* a panic *)

#[export] Instance wire_error_eq_dec : EqDecision wire_error.
Proof. solve_decision. Defined.

(** ** Readers and writers *)

Definition Rd (A : Type) : Type := bytes -> wire_error + A * bytes.

#[export] Instance Rd_ret : MRet Rd := fun A a r => inr (a, r).
#[export] Instance Rd_bind : MBind Rd := fun A B f m r =>
  match m r with inl e => inl e | inr (a, r') => f a r' end.

Definition rd_fail {A} (e : wire_error) : Rd A := fun _ => inl e.
Definition rd_require (b : bool) (e : wire_error) : Rd unit := if b then mret tt else rd_fail e.

Definition Wr : Type := wire_error + bytes.
Definition wr_nil : Wr := inr [].
Definition wr_app (a b : Wr) : Wr :=
  match a with inl e => inl e | inr x => match b with inl e => inl e | inr y => inr (x ++ y) end end.

Declare Scope wire_scope.
Delimit Scope wire_scope with wire.
Infix "+++" := wr_app (at level 60, right associativity) : wire_scope.
#[global] Open Scope wire_scope.

Definition Write (b : bytes) : Wr := inr b.

(** ** encoding/binary *)

(** [fuel] bounds the bytes: ten for 64 bits. *)
Fixpoint PutUvarint (fuel : nat) (x : Z) : bytes :=
  match fuel with
  | O => []
  | S fuel => if x <? 128 then [z2b x] else z2b (Z.lor x 128) :: PutUvarint fuel (Z.shiftr x 7)
  end.

Definition MaxVarintLen64 : nat := 10.

(** The loop from its [i]-th round: [x] is the sum so far, [s] the shift. *)
Fixpoint ReadUvarint_loop (fuel : nat) (i x s : Z) (r : bytes) : wire_error + Z * bytes :=
  match fuel with
  | O => inl ErrUvarintOverflow
  | S fuel =>
      match r with
      | [] => inl EOF
      | b :: r' =>
          if b2z b <? 128 then
            if (i =? 9) && (b2z b >? 1) then inl ErrUvarintOverflow
            else inr (Z.lor x (u64 (Z.shiftl (b2z b) s)), r')
          else ReadUvarint_loop fuel (i + 1) (Z.lor x (u64 (Z.shiftl (Z.land (b2z b) 127) s))) (s + 7) r'
      end
  end.
Definition ReadUvarint : Rd Z := fun r => ReadUvarint_loop MaxVarintLen64 0 0 0 r.

(** ** Reading *)

Definition ReadByte : Rd byte := fun r => match r with [] => inl EOF | b :: r' => inr (b, r') end.

(** [io.ReadFull] of [n] bytes. *)
Definition ReadFull (n : nat) : Rd bytes := fun r =>
  if (length r =? 0)%nat && negb (n =? 0)%nat then inl EOF
  else if (length r <? n)%nat then inl ErrUnexpectedEOF
  else inr (take n r, drop n r).

Definition ReadVarint31 : Rd Z :=
  val ← ReadUvarint; rd_require (val <=? MaxInt32) ErrRangeWire ;; mret val.
Definition ReadVarint63 : Rd Z :=
  val ← ReadUvarint; rd_require (val <=? MaxInt64) ErrRangeWire ;; mret val.

Definition ReadVarstr31 : Rd bytes :=
  l ← ReadVarint31;
  (fun r => if l =? 0 then inr ([], r)
            else if l >? zlen r then inl ErrUnexpectedEOF
            else inr (take (Z.to_nat l) r, drop (Z.to_nat l) r)) : Rd bytes.

(** A loop of [n] readings that stops at the first error. *)
Fixpoint read_n {A} (n : nat) (rd : Rd A) : Rd (list A) :=
  match n with
  | O => mret []
  | S n => x ← rd; l ← read_n n rd; mret (x :: l)
  end.

(** The loop with [got] strings so far.  The string that fails is counted, and
    when fewer strings were counted than are still to come, the error is
    replaced. *)
Fixpoint ReadVarstrList_loop (nelts got : nat) : Rd (list bytes) := fun r =>
  match nelts with
  | O => inr ([], r)
  | S nelts =>
      match ReadVarstr31 r with
      | inl e => inl (if (S got <? nelts)%nat then ErrUnexpectedEOF else e)
      | inr (s, r) => match ReadVarstrList_loop nelts (S got) r with inl e => inl e | inr (l, r) => inr (s :: l, r) end
      end
  end.
Definition ReadVarstrList : Rd (list bytes) := nelts ← ReadVarint31; ReadVarstrList_loop (Z.to_nat nelts) 0.

(** The value [f] reads from the string, and the unread suffix. *)
Definition ReadExtensibleString {A} (f : Rd A) : Rd (A * bytes) :=
  s ← ReadVarstr31;
  (fun r => match f s with inl e => inl e | inr (a, suffix) => inr ((a, suffix), r) end) : Rd (A * bytes).

(** ** Writing *)

(** The buffers have nine bytes. *)
Definition WriteVarint31 (val : Z) : Wr := if val >? MaxInt32 then inl ErrRangeWire else Write (PutUvarint 9 val).
Definition WriteVarint63 (val : Z) : Wr := if val >? MaxInt64 then inl ErrRangeWire else Write (PutUvarint 9 val).

Definition WriteVarstr31 (str : bytes) : Wr := WriteVarint31 (zlen str) +++ Write str.

Fixpoint write_all {A} (wr : A -> Wr) (l : list A) : Wr :=
  match l with [] => wr_nil | x :: l' => wr x +++ write_all wr l' end.

Definition WriteVarstrList (l : list bytes) : Wr := WriteVarint31 (zlen l) +++ write_all WriteVarstr31 l.

Definition WriteExtensibleString (suffix : bytes) (f : Wr) : Wr :=
  match f +++ Write suffix with inl e => inl e | inr s => WriteVarstr31 s end.

(** ** Round trips *)

Definition roundtrips {A} (w : Wr) (r : Rd A) (a : A) : Prop :=
  forall b, w = inr b -> forall rest, r (b ++ rest) = inr (a, rest).

Create HintDb wire.

Lemma rt_bind {A B} (w1 w2 : Wr) (r : Rd A) (k : A -> Rd B) a c :
  roundtrips w1 r a -> roundtrips w2 (k a) c -> roundtrips (w1 +++ w2) (r ≫= k) c.
Proof.
  intros H1 H2 b. unfold wr_app. destruct w1 as [e|b1]; [done|]. destruct w2 as [e|b2]; [done|]. intros [= <-] rest.
  unfold mbind, Rd_bind. rewrite <- app_assoc, (H1 b1 eq_refl). by apply (H2 b2).
Qed.
Lemma rt_last {A B} (w : Wr) (r : Rd A) (f : A -> B) a c :
  roundtrips w r a -> f a = c -> roundtrips w (r ≫= fun x => mret (f x)) c.
Proof. intros H <- b Hb rest. unfold mbind, Rd_bind. by rewrite (H b Hb). Qed.
Lemma rt_end {A B} (w : Wr) (r : Rd A) (k : A -> Rd B) a c :
  roundtrips w r a -> k a = mret c -> roundtrips w (r ≫= k) c.
Proof. intros H Hk b Hb rest. unfold mbind, Rd_bind. by rewrite (H b Hb), Hk. Qed.
Lemma rt_ret {A} (a : A) : roundtrips wr_nil (mret a) a.
Proof. by intros b [= <-] rest. Qed.
Lemma rt_require {A} (c : bool) e (k : unit -> Rd A) w a :
  c = true -> roundtrips w (k tt) a -> roundtrips w (rd_require c e ≫= k) a.
Proof. intros -> H b Hb rest. exact (H b Hb rest). Qed.
Lemma rt_nil_app {A} w (r : Rd A) a : roundtrips w r a -> roundtrips (wr_nil +++ w) r a.
Proof. intros H b Hb. apply H. by destruct w. Qed.

(** *** Varints *)

Lemma lor_shiftl x b s : 0 <= x < 2 ^ s -> 0 <= s -> 0 <= b -> Z.lor x (Z.shiftl b s) = x + b * 2 ^ s.
Proof.
  intros Hx Hs Hb. rewrite <- Z.shiftl_mul_pow2 by lia. symmetry. apply Z.add_nocarry_lor. apply Z.bits_inj'.
  intros n Hn. rewrite Z.land_spec, Z.bits_0. destruct (Z.lt_ge_cases n s).
  - by rewrite Z.shiftl_spec_low, andb_false_r by lia.
  - destruct (Z.eq_dec x 0) as [->|]; [by rewrite Z.bits_0|]. rewrite (Z.bits_above_log2 x n); [done|lia|].
    apply Z.log2_lt_pow2; [lia|]. eapply Z.lt_le_trans; [apply Hx|]. apply Z.pow_le_mono_r; lia.
Qed.

Lemma land_lor_128 x : 0 <= x -> b2z (z2b (Z.lor x 128)) = x mod 128 + 128.
Proof.
  intros Hx. rewrite b2z_z2b. change 256 with (2 ^ 8). change 128 with (2 ^ 7) at 2. change 128 with (2 ^ 7) at 2.
  rewrite <- !Z.land_ones by lia. rewrite Z.land_lor_distr_l. change (Z.land 128 (Z.ones 8)) with (Z.shiftl 1 7).
  replace (Z.lor (Z.land x (Z.ones 8)) (Z.shiftl 1 7)) with (Z.lor (Z.land x (Z.ones 7)) (Z.shiftl 1 7)).
  - rewrite lor_shiftl; [lia| |lia|lia]. rewrite Z.land_ones by lia. apply Z.mod_pos_bound. lia.
  - apply Z.bits_inj'. intros n Hn. rewrite !Z.lor_spec, !Z.land_spec, Z.shiftl_1_l, Z.pow2_bits_eqb by lia.
    destruct (Z.lt_trichotomy n 7) as [H|[->|H]].
    + by rewrite !Z.ones_spec_low by lia.
    + by rewrite !orb_true_r.
    + rewrite (Z.ones_spec_high 7), (proj2 (Z.eqb_neq 7 n)) by lia. destruct (Z.eq_dec n 7) as [->|]; [lia|].
      by rewrite Z.ones_spec_high by lia.
Qed.

Lemma Uvarint_loop fuel m i x y r s :
  (fuel <= m)%nat -> (fuel <= 9)%nat -> 0 <= i -> i + Z.of_nat fuel <= 9 -> s = 7 * i -> 0 <= x < 2 ^ s -> 0 <= y < 2 ^ (7 * Z.of_nat fuel) ->
  (1 <= fuel)%nat ->
  ReadUvarint_loop m i x s (PutUvarint fuel y ++ r) = inr (x + y * 2 ^ s, r).
Proof.
  revert m i x y s. induction fuel as [|fuel IH]; intros m i x y s Hm H9 Hi Hif -> Hx Hy H1; [lia|].
  destruct m as [|m]; [lia|]. cbn [PutUvarint ReadUvarint_loop].
  assert (Hpow : 2 ^ (7 * i + 7) <= 2 ^ 63) by (apply Z.pow_le_mono_r; lia).
  assert (H7 : 2 ^ (7 * i + 7) = 2 ^ (7 * i) * 128) by (rewrite Z.pow_add_r by lia; reflexivity).
  assert (Hp0 : 0 < 2 ^ (7 * i)) by (apply Z.pow_pos_nonneg; lia).
  destruct (Z.ltb_spec y 128) as [Hlt|Hge]; cbn [app].
  - rewrite b2z_z2b_small by lia. replace (y <? 128) with true by lia. replace (i =? 9) with false by lia. cbn [andb].
    rewrite u64_id, lor_shiftl; [done|lia..|]. rewrite Z.shiftl_mul_pow2 by lia. words. nia.
  - rewrite land_lor_128 by lia. pose proof (Z.mod_pos_bound y 128 ltac:(lia)) as Hm128.
    replace (y mod 128 + 128 <? 128) with false by lia.
    change 127 with (Z.ones 7). rewrite Z.land_ones by lia. change (2 ^ 7) with 128.
    replace ((y mod 128 + 128) mod 128) with (y mod 128) by (rewrite <- Z.add_mod_idemp_r by lia; rewrite Z_mod_same_full, Z.add_0_r; by rewrite Z.mod_mod).
    rewrite Z.shiftr_div_pow2 by lia. change (2 ^ 7) with 128.
    rewrite u64_id, lor_shiftl; [|lia..|]; [|rewrite Z.shiftl_mul_pow2 by lia; words; nia].
    assert (Hd : y = 128 * (y / 128) + y mod 128) by (apply Z.div_mod; lia).
    replace (7 * i + 7) with (7 * (i + 1)) by lia. rewrite IH; try lia.
    + f_equal. f_equal. replace (7 * (i + 1)) with (7 * i + 7) by lia. rewrite H7. nia.
    + replace (7 * (i + 1)) with (7 * i + 7) by lia. rewrite H7. nia.
    + split; [apply Z.div_pos; lia|]. apply Z.div_lt_upper_bound; [lia|].
      replace (128 * 2 ^ (7 * Z.of_nat fuel)) with (2 ^ (7 * Z.of_nat (S fuel))); [lia|].
      rewrite Nat2Z.inj_succ. replace (7 * Z.succ (Z.of_nat fuel)) with (7 + 7 * Z.of_nat fuel) by lia. by rewrite Z.pow_add_r by lia.
    + destruct fuel; [|lia]. exfalso. cbn in Hy. lia.
Qed.

Lemma Write_inv c b : Write c = inr b -> b = c.
Proof. by intros [= <-]. Qed.

Lemma rt_uvarint v : 0 <= v <= MaxInt64 -> roundtrips (Write (PutUvarint 9 v)) ReadUvarint v.
Proof.
  words. intros Hv b ->%Write_inv rest. unfold ReadUvarint.
  rewrite (Uvarint_loop 9 MaxVarintLen64 0 0 v rest 0); unfold MaxVarintLen64; try lia.
  by rewrite Z.pow_0_r, Z.mul_1_r, Z.add_0_l.
Qed.
Lemma rt_varint63 v : 0 <= v -> roundtrips (WriteVarint63 v) ReadVarint63 v.
Proof.
  intros Hv b. unfold WriteVarint63. destruct (Z.gtb_spec v MaxInt64) as [|Hle]; [by intros [=]|]. intros Hb rest.
  unfold ReadVarint63, mbind, Rd_bind. rewrite (rt_uvarint v (conj Hv Hle) b Hb). by rewrite (proj2 (Z.leb_le _ _) Hle).
Qed.
Lemma rt_varint31 v : 0 <= v -> roundtrips (WriteVarint31 v) ReadVarint31 v.
Proof.
  intros Hv b. unfold WriteVarint31. destruct (Z.gtb_spec v MaxInt32) as [|Hle]; [by intros [=]|]. intros Hb rest.
  assert (v <= MaxInt64) by (words; lia).
  unfold ReadVarint31, mbind, Rd_bind. rewrite (rt_uvarint v ltac:(lia) b Hb). by rewrite (proj2 (Z.leb_le _ _) Hle).
Qed.

Lemma rt_byte c : roundtrips (Write [c]) ReadByte c.
Proof. by intros b [= <-] rest. Qed.
Lemma rt_full n c : length c = n -> roundtrips (Write c) (ReadFull n) c.
Proof.
  intros Hc b [= <-] rest. unfold ReadFull. rewrite length_app, Hc.
  replace ((n + length rest =? 0)%nat && negb (n =? 0)%nat) with false
    by (destruct (Nat.eqb_spec n 0); cbn; [by rewrite andb_false_r|destruct (Nat.eqb_spec (n + length rest) 0); [lia|done]]).
  replace (n + length rest <? n)%nat with false by (symmetry; apply Nat.ltb_ge; lia).
  by rewrite take_app_length', drop_app_length'.
Qed.

Lemma rt_varstr s : roundtrips (WriteVarstr31 s) ReadVarstr31 s.
Proof.
  unfold WriteVarstr31, ReadVarstr31. eapply rt_bind; [apply rt_varint31; auto with zlen|].
  intros b [= <-] rest. destruct (Z.eqb_spec (zlen s) 0) as [H0|H0]; [by apply zlen_0_inv in H0 as ->|].
  rewrite zlen_app. pose proof (zlen_nonneg rest). destruct (Z.gtb_spec (zlen s) (zlen s + zlen rest)); [lia|].
  unfold zlen. by rewrite Nat2Z.id, take_app_length, drop_app_length.
Qed.

Lemma to_nat_zlen {A} (l : list A) : Z.to_nat (zlen l) = length l.
Proof. unfold zlen. by rewrite Nat2Z.id. Qed.

Lemma rt_all {A} (wr : A -> Wr) (rd : Rd A) l :
  Forall (fun x => roundtrips (wr x) rd x) l -> roundtrips (write_all wr l) (read_n (length l) rd) l.
Proof.
  induction 1 as [|x l Hx _ IH]; [apply rt_ret|]. cbn [write_all read_n length]. eapply rt_bind; [exact Hx|].
  by apply (rt_last _ _ (fun l => x :: l) l).
Qed.
(** A list behind its length. *)
Lemma rt_list {A} (wr : A -> Wr) (rd : Rd A) l :
  Forall (fun x => roundtrips (wr x) rd x) l ->
  roundtrips (WriteVarint31 (zlen l) +++ write_all wr l) (n ← ReadVarint31; read_n (Z.to_nat n) rd) l.
Proof.
  intros Hl. eapply rt_bind; [apply rt_varint31; auto with zlen|]. unfold zlen. rewrite Nat2Z.id. by apply rt_all.
Qed.
Lemma ReadVarstrList_loop_ok n got r x : read_n n ReadVarstr31 r = inr x -> ReadVarstrList_loop n got r = inr x.
Proof.
  revert got r x. induction n as [|n IH]; intros got r x; cbn; [done|]. unfold mbind, Rd_bind.
  destruct (ReadVarstr31 r) as [e|[s r']]; [done|]. destruct (read_n n ReadVarstr31 r') as [e|[l r'']] eqn:E; [done|].
  intros [= <-]. by rewrite (IH (S got) _ _ E).
Qed.
Lemma rt_varstr_list l : roundtrips (WriteVarstrList l) ReadVarstrList l.
Proof.
  eapply rt_bind; [apply rt_varint31; auto with zlen|]. unfold zlen. rewrite Nat2Z.id.
  intros b Hb rest. apply ReadVarstrList_loop_ok. revert b Hb rest. apply rt_all, Forall_true. intros s. apply rt_varstr.
Qed.

Lemma rt_ext {A} suffix (w : Wr) (f : Rd A) a :
  roundtrips w f a -> roundtrips (WriteExtensibleString suffix w) (ReadExtensibleString f) (a, suffix).
Proof.
  intros Hf b. unfold WriteExtensibleString, wr_app, Write. destruct w as [e|c]; [done|]. intros Hb rest.
  unfold ReadExtensibleString, mbind, Rd_bind. rewrite (rt_varstr _ b Hb). by rewrite (Hf c eq_refl).
Qed.

#[export] Hint Resolve rt_varint63 rt_varint31 rt_byte rt_varstr rt_varstr_list : wire.

(** Writing is injective: a round trip is a left inverse. *)
Lemma roundtrips_inj {A} (w1 w2 : Wr) (r : Rd A) a1 a2 b1 b2 s1 s2 :
  roundtrips w1 r a1 -> roundtrips w2 r a2 -> w1 = inr b1 -> w2 = inr b2 -> b1 ++ s1 = b2 ++ s2 -> a1 = a2 /\ s1 = s2.
Proof. intros H1 H2 Hb1 Hb2 He. pose proof (H1 b1 Hb1 s1) as E1. rewrite He, (H2 b2 Hb2 s2) in E1. by simplify_eq. Qed.

(** ** encoding/hex *)

Definition fromHexChar (c : byte) : option Z :=
  let z := b2z c in
  if (48 <=? z) && (z <=? 57) then Some (z - 48)
  else if (97 <=? z) && (z <=? 102) then Some (z - 87)
  else if (65 <=? z) && (z <=? 70) then Some (z - 55)
  else None.

Fixpoint hex_decode (s : bytes) : option bytes :=
  match s with
  | [] => Some []
  | [_] => None
  | a :: b :: s' => x ← fromHexChar a; y ← fromHexChar b; r ← hex_decode s'; Some (z2b (16 * x + y) :: r)
  end.

Lemma hex_byte_val n : 0 <= n < 16 -> b2z (hex_byte n) = if n <? 10 then 48 + n else 87 + n.
Proof. intros Hn. unfold hex_byte. destruct (Z.ltb_spec n 10); apply b2z_z2b_small; lia. Qed.

Lemma hex_byte_inj m n : 0 <= m < 16 -> 0 <= n < 16 -> hex_byte m = hex_byte n -> m = n.
Proof.
  intros Hm Hn He. apply (f_equal b2z) in He. rewrite !hex_byte_val in He by done.
  destruct (Z.ltb_spec m 10), (Z.ltb_spec n 10); lia.
Qed.

Lemma hex_digits (b : byte) : 0 <= b2z b / 16 < 16 /\ 0 <= b2z b mod 16 < 16.
Proof.
  pose proof (b2z_range b). pose proof (Z.mod_pos_bound (b2z b) 16 ltac:(lia)).
  split; [|done]. split; [apply Z.div_pos; lia|apply Z.div_lt_upper_bound; lia].
Qed.

(** The colon ends the text of a hash. *)
Lemma hex_encode_colon a b x y : hex_encode a ++ x3a :: x = hex_encode b ++ x3a :: y -> a = b.
Proof.
  assert (Hcolon : forall c n, 0 <= n < 16 -> x3a :: c = hex_byte n :: c -> False).
  { intros c n Hn [= He]. apply (f_equal b2z) in He. rewrite hex_byte_val in He by done.
    change (b2z x3a) with 58 in He. destruct (Z.ltb_spec n 10); lia. }
  assert (Hne : forall n, 0 <= n < 16 -> x3a <> hex_byte n) by (intros n Hn He; apply (Hcolon [] n Hn); by rewrite He).
  revert b. induction a as [|c a IH]; intros [|d b]; cbn; [done|..].
  - intros [= He _]. by destruct (Hne _ (proj1 (hex_digits d))).
  - intros [= He _]. by destruct (Hne _ (proj1 (hex_digits c))).
  - intros [= H1 H2 H3]. apply IH in H3 as ->. f_equal. apply b2z_inj.
    apply hex_byte_inj in H1; [|apply hex_digits..]. apply hex_byte_inj in H2; [|apply hex_digits..].
    rewrite (Z.div_mod (b2z c) 16), (Z.div_mod (b2z d) 16) by lia. lia.
Qed.

Lemma hex_roundtrip b : hex_decode (hex_encode b) = Some b.
Proof.
  assert (Hchar : forall n, 0 <= n < 16 -> fromHexChar (hex_byte n) = Some n).
  { intros n Hn. unfold fromHexChar. rewrite hex_byte_val by done. destruct (Z.ltb_spec n 10).
    - replace ((48 <=? 48 + n) && (48 + n <=? 57)) with true by lia. f_equal. lia.
    - replace ((48 <=? 87 + n) && (87 + n <=? 57)) with false by lia.
      replace ((97 <=? 87 + n) && (87 + n <=? 102)) with true by lia. f_equal. lia. }
  induction b as [|x b IH]; [done|]. change (hex_encode (x :: b)) with
    (hex_byte (b2z x / 16) :: hex_byte (b2z x mod 16) :: hex_encode b). cbn [hex_decode].
  rewrite !Hchar by apply hex_digits. cbn. rewrite IH. cbn. repeat f_equal. rewrite <- (z2b_b2z x) at 3. f_equal.
  pose proof (Z.div_mod (b2z x) 16 ltac:(lia)). lia.
Qed.

Lemma zlen_hex_encode b : zlen (hex_encode b) = 2 * zlen b.
Proof.
  induction b as [|x b IH]; [done|]. change (hex_encode (x :: b)) with
    (hex_byte (b2z x / 16) :: hex_byte (b2z x mod 16) :: hex_encode b). rewrite !zlen_cons, IH. lia.
Qed.
