(* ===== verification/Checked.v ===== *)
(** * math/checked: arithmetic with overflow checks

    Every function of [math/checked/checked.go] over machine words.  A Go
    result [(v, true)] is [Some v] and [(0, false)] is [None]; the guards are
    the source's, with the wrap-around of the guard's own arithmetic written
    out by the section's word conversion. *)

From S2P Require Import Prelude.

(** Go's signed division truncates; [>>] on signed words is arithmetic. *)
Section Signed.
Context (wrap : Z -> Z) (lo hi width : Z).

Definition add_s (a b : Z) : option Z :=
  if ((b >? 0) && (a >? wrap (hi - b))) || ((b <? 0) && (a <? wrap (lo - b)))
  then None else Some (wrap (a + b)).

Definition sub_s (a b : Z) : option Z :=
  if ((b >? 0) && (a <? wrap (lo + b))) || ((b <? 0) && (a >? wrap (hi + b)))
  then None else Some (wrap (a - b)).

Definition mul_s (a b : Z) : option Z :=
  if ((a >? 0) && (b >? 0) && (a >? wrap (hi ÷ b)))
     || ((a >? 0) && (b <=? 0) && (b <? wrap (lo ÷ a)))
     || ((a <=? 0) && (b >? 0) && (a <? wrap (lo ÷ b)))
     || ((a <? 0) && (b <=? 0) && (b <? wrap (hi ÷ a)))
  then None else Some (wrap (a * b)).

Definition div_s (a b : Z) : option Z :=
  if (b =? 0) || ((a =? lo) && (b =? -1)) then None else Some (wrap (a ÷ b)).

Definition mod_s (a b : Z) : option Z :=
  if (b =? 0) || ((a =? lo) && (b =? -1)) then None else Some (wrap (Z.rem a b)).

Definition neg_s (a : Z) : option Z :=
  if a =? lo then None else Some (wrap (- a)).

Definition lsh_s (a b : Z) : option Z :=
  if (b <? 0) || (b >=? width) then None
  else if ((a >=? 0) && (a >? Z.shiftr hi b)) || ((a <? 0) && (a <? Z.shiftr lo b))
  then None else Some (wrap (Z.shiftl a b)).
End Signed.

Section Unsigned.
Context (wrap : Z -> Z) (hi width : Z).

Definition add_u (a b : Z) : option Z :=
  if wrap (hi - a) <? b then None else Some (wrap (a + b)).
Definition sub_u (a b : Z) : option Z :=
  if a <? b then None else Some (wrap (a - b)).
Definition mul_u (a b : Z) : option Z :=
  if (b >? 0) && (a >? hi / b) then None else Some (wrap (a * b)).
Definition div_u (a b : Z) : option Z :=
  if b =? 0 then None else Some (a / b).
Definition mod_u (a b : Z) : option Z :=
  if b =? 0 then None else Some (a mod b).
Definition lsh_u (a b : Z) : option Z :=
  if b >=? width then None
  else if a >? Z.shiftr hi b then None else Some (wrap (Z.shiftl a b)).
End Unsigned.

Definition AddInt64 := add_s i64 MinInt64 MaxInt64.
Definition SubInt64 := sub_s i64 MinInt64 MaxInt64.
Definition MulInt64 := mul_s i64 MinInt64 MaxInt64.
Definition DivInt64 := div_s i64 MinInt64.
Definition ModInt64 := mod_s i64 MinInt64.
Definition NegateInt64 := neg_s i64 MinInt64.
Definition LshiftInt64 := lsh_s i64 MinInt64 MaxInt64 64.
Definition AddInt32 := add_s i32 MinInt32 MaxInt32.
Definition SubInt32 := sub_s i32 MinInt32 MaxInt32.
Definition MulInt32 := mul_s i32 MinInt32 MaxInt32.
Definition DivInt32 := div_s i32 MinInt32.
Definition ModInt32 := mod_s i32 MinInt32.
Definition NegateInt32 := neg_s i32 MinInt32.
Definition LshiftInt32 := lsh_s i32 MinInt32 MaxInt32 32.
Definition AddUint64 := add_u u64 MaxUint64.
Definition SubUint64 := sub_u u64.
Definition MulUint64 := mul_u u64 MaxUint64.
Definition DivUint64 := div_u.
Definition ModUint64 := mod_u.
Definition LshiftUint64 := lsh_u u64 MaxUint64 64.
Definition AddUint32 := add_u u32 MaxUint32.
Definition SubUint32 := sub_u u32.
Definition MulUint32 := mul_u u32 MaxUint32.
Definition DivUint32 := div_u.
Definition ModUint32 := mod_u.
Definition LshiftUint32 := lsh_u u32 MaxUint32 32.

(** ** Correctness: each function returns the exact result when it fits the
    word, and fails exactly when it does not. *)

Definition in_range (lo hi z : Z) : bool := (lo <=? z) && (z <=? hi).
Definition exact (lo hi z : Z) : option Z :=
  if in_range lo hi z then Some z else None.

(** A two's complement word: [wrap] is the identity on [lo, hi]. *)
Class SignedWord (wrap : Z -> Z) (lo hi width : Z) : Prop := {
  sw_wrap z : lo <= z <= hi -> wrap z = z;
  sw_lo : lo = - hi - 1;
  sw_width : 0 < width /\ hi = 2 ^ (width - 1) - 1;
}.
Class UnsignedWord (wrap : Z -> Z) (hi width : Z) : Prop := {
  uw_wrap z : 0 <= z <= hi -> wrap z = z;
  uw_width : 0 < width /\ hi = 2 ^ width - 1;
}.

#[export] Instance int64_word : SignedWord i64 MinInt64 MaxInt64 64.
Proof. split; [apply i64_id|reflexivity|split; reflexivity]. Qed.
#[export] Instance int32_word : SignedWord i32 MinInt32 MaxInt32 32.
Proof. split; [apply i32_id|reflexivity|split; reflexivity]. Qed.
#[export] Instance uint64_word : UnsignedWord u64 MaxUint64 64.
Proof. split; [apply u64_id|split; reflexivity]. Qed.
#[export] Instance uint32_word : UnsignedWord u32 MaxUint32 32.
Proof. split; [apply u32_id|split; reflexivity]. Qed.

(** Decides a guarded result: splits the tests of both sides and closes the
    arithmetic contradictions. *)
Ltac decide_guards :=
  unfold exact, in_range;
  repeat match goal with
  | |- context [?a >? ?b] => rewrite (Z.gtb_ltb a b)
  | |- context [?a >=? ?b] => rewrite (Z.geb_leb a b)
  end;
  repeat match goal with
  | |- context [?a <? ?b] => destruct (Z.ltb_spec a b)
  | |- context [?a <=? ?b] => destruct (Z.leb_spec a b)
  | |- context [?a =? ?b] => destruct (Z.eqb_spec a b)
  end; cbn [andb orb].

Section SignedSpec.
Context `{W : SignedWord wrap lo hi width}.

Lemma sw_pos : 0 <= hi.
Proof.
  destruct sw_width as [? ->].
  pose proof (Z.pow_pos_nonneg 2 (width - 1) ltac:(lia) ltac:(lia)). lia.
Qed.

Lemma add_s_exact a b :
  lo <= a <= hi -> lo <= b <= hi -> add_s wrap lo hi a b = exact lo hi (a + b).
Proof.
  pose proof sw_lo. pose proof sw_pos. intros. unfold add_s.
  destruct (Z_lt_le_dec 0 b) as [Hb|Hb]; [|destruct (Z_lt_le_dec b 0)].
  - rewrite (sw_wrap (hi - b)) by lia.
    replace (b <? 0) with false by lia. cbn [andb]. rewrite orb_false_r.
    decide_guards; try lia; try done; rewrite ?sw_wrap by lia; done.
  - rewrite (sw_wrap (lo - b)) by lia.
    replace (b >? 0) with false by lia. cbn [andb orb].
    decide_guards; try lia; try done; rewrite ?sw_wrap by lia; done.
  - replace b with 0 by lia. decide_guards; try lia; rewrite ?sw_wrap by lia; done.
Qed.

Lemma sub_s_exact a b :
  lo <= a <= hi -> lo <= b <= hi -> sub_s wrap lo hi a b = exact lo hi (a - b).
Proof.
  pose proof sw_lo. pose proof sw_pos. intros. unfold sub_s.
  destruct (Z_lt_le_dec 0 b) as [Hb|Hb]; [|destruct (Z_lt_le_dec b 0)].
  - rewrite (sw_wrap (lo + b)) by lia.
    replace (b <? 0) with false by lia. cbn [andb]. rewrite orb_false_r.
    decide_guards; try lia; try done; rewrite ?sw_wrap by lia; done.
  - rewrite (sw_wrap (hi + b)) by lia.
    replace (b >? 0) with false by lia. cbn [andb orb].
    decide_guards; try lia; try done; rewrite ?sw_wrap by lia; done.
  - replace b with 0 by lia. decide_guards; try lia; rewrite ?sw_wrap by lia; done.
Qed.

(** The guards of the multiplication compare with a truncated quotient. *)
Lemma gt_quot_iff h a b : 0 <= h -> 0 < b -> h ÷ b < a <-> h < a * b.
Proof.
  intros. rewrite Z.quot_div_nonneg by lia. split; intros.
  - pose proof (Z.mul_succ_div_gt h b ltac:(lia)). nia.
  - apply Z.div_lt_upper_bound; lia.
Qed.
Lemma lt_quot_neg_iff h a b : 0 <= h -> 0 < a -> b < (- h) ÷ a <-> a * b < - h.
Proof.
  intros. rewrite Z.quot_opp_l by lia.
  pose proof (gt_quot_iff h (- b) a ltac:(lia) ltac:(lia)). nia.
Qed.
Lemma quot_range h a : 0 <= h -> a <> 0 -> - h <= h ÷ a <= h.
Proof.
  intros. destruct (Z_lt_le_dec 0 a).
  - rewrite Z.quot_div_nonneg by lia.
    pose proof (Z.div_pos h a ltac:(lia) ltac:(lia)).
    pose proof (Z.div_le_upper_bound h a h ltac:(lia) ltac:(nia)). lia.
  - replace a with (- (- a)) by lia. rewrite Z.quot_opp_r, Z.quot_div_nonneg by lia.
    pose proof (Z.div_pos h (- a) ltac:(lia) ltac:(lia)).
    pose proof (Z.div_le_upper_bound h (- a) h ltac:(lia) ltac:(nia)). lia.
Qed.

Lemma mul_s_exact a b :
  lo <= a <= hi -> lo <= b <= hi -> mul_s wrap lo hi a b = exact lo hi (a * b).
Proof.
  pose proof sw_lo as Hlo. pose proof sw_pos as Hp. intros Ha Hb. unfold mul_s.
  assert (Hq : forall c, c <> 0 -> wrap (hi ÷ c) = hi ÷ c).
  { intros c Hc. apply sw_wrap. pose proof (quot_range hi c Hp Hc). lia. }
  assert (Hq' : forall c, 0 < c -> wrap (lo ÷ c) = lo ÷ c).
  { intros c Hc. apply sw_wrap.
    replace lo with (- (hi + 1)) by lia. rewrite Z.quot_opp_l by lia.
    rewrite Z.quot_div_nonneg by lia.
    pose proof (Z.div_pos (hi + 1) c ltac:(lia) ltac:(lia)).
    pose proof (Z.div_le_upper_bound (hi + 1) c (hi + 1) ltac:(lia) ltac:(nia)). lia. }
  assert (Hlo' : lo = - (hi + 1)) by lia.
  destruct (Z.lt_trichotomy a 0) as [?|[->|?]], (Z.lt_trichotomy b 0) as [?|[->|?]];
    rewrite ?Z.mul_0_l, ?Z.mul_0_r;
    repeat match goal with
    | |- context [?x >? 0] => first [replace (x >? 0) with true by lia | replace (x >? 0) with false by lia]
    | |- context [?x <? 0] => first [replace (x <? 0) with true by lia | replace (x <? 0) with false by lia]
    | |- context [?x <=? 0] => first [replace (x <=? 0) with true by lia | replace (x <=? 0) with false by lia]
    end; cbn [andb orb];
    rewrite ?Hq, ?Hq' by lia; rewrite ?orb_false_r.
  all: try (decide_guards; try (rewrite sw_wrap by lia); (done || lia)).
  all: try match goal with
    | |- context [0 <? hi ÷ ?c] =>
        assert (hi ÷ c <= 0) by (replace c with (- - c) by lia; rewrite Z.quot_opp_r by lia;
          pose proof (Z.quot_pos hi (- c) ltac:(lia) ltac:(lia)); lia)
    | |- context [0 <? lo ÷ ?c] =>
        assert (lo ÷ c <= 0) by (rewrite Hlo', Z.quot_opp_l by lia;
          pose proof (Z.quot_pos (hi + 1) c ltac:(lia) ltac:(lia)); lia)
    end; try (decide_guards; try (rewrite sw_wrap by lia); (done || lia)).
  - replace (b <? hi ÷ a) with (hi <? a * b).
    + decide_guards; try nia; rewrite ?sw_wrap by nia; done.
    + apply eq_true_iff_eq. rewrite !Z.ltb_lt.
      replace (hi ÷ a) with (- (hi ÷ - a)) by (rewrite Z.quot_opp_r by lia; lia).
      pose proof (gt_quot_iff hi (- b) (- a) Hp ltac:(lia)). nia.
  - rewrite Hlo'. replace (a <? - (hi + 1) ÷ b) with (a * b <? - (hi + 1)).
    + decide_guards; try nia; rewrite ?sw_wrap by nia; done.
    + apply eq_true_iff_eq. rewrite !Z.ltb_lt.
      pose proof (lt_quot_neg_iff (hi + 1) b a ltac:(lia) ltac:(lia)). nia.
  - rewrite Hlo'. replace (b <? - (hi + 1) ÷ a) with (a * b <? - (hi + 1)).
    + decide_guards; try nia; rewrite ?sw_wrap by nia; done.
    + apply eq_true_iff_eq. rewrite !Z.ltb_lt.
      pose proof (lt_quot_neg_iff (hi + 1) a b ltac:(lia) ltac:(lia)). nia.
  - rewrite Z.gtb_ltb. replace (hi ÷ b <? a) with (hi <? a * b).
    + decide_guards; try nia; rewrite ?sw_wrap by nia; done.
    + apply eq_true_iff_eq. rewrite !Z.ltb_lt.
      pose proof (gt_quot_iff hi a b Hp ltac:(lia)). nia.
Qed.

Lemma lsh_s_exact a b :
  lo <= a <= hi ->
  lsh_s wrap lo hi width a b =
    if (0 <=? b) && (b <? width) then exact lo hi (a * 2 ^ b) else None.
Proof.
  pose proof sw_lo as Hlo. pose proof sw_pos as Hp. destruct sw_width as [Hw Hhi].
  intros Ha. unfold lsh_s. rewrite Z.geb_leb.
  destruct (Z.leb_spec 0 b) as [Hb|Hb], (Z.ltb_spec b width) as [Hbw|Hbw];
    (destruct (Z.ltb_spec b 0); [try lia|]); (destruct (Z.leb_spec width b); [try lia|]);
    cbn [orb andb]; try lia; try done.
  rewrite Z.shiftl_mul_pow2, !Z.shiftr_div_pow2 by lia.
  pose proof (Z.pow_pos_nonneg 2 b ltac:(lia) Hb) as Hpow.
  pose proof (Z.mul_succ_div_gt hi (2 ^ b) ltac:(lia)).
  pose proof (Z.mul_div_le hi (2 ^ b) ltac:(lia)).
  pose proof (Z.mul_succ_div_gt lo (2 ^ b) ltac:(lia)).
  pose proof (Z.mul_div_le lo (2 ^ b) ltac:(lia)).
  assert (Hdvd : lo / 2 ^ b * 2 ^ b = lo).
  { replace lo with (- (2 ^ (width - 1 - b)) * 2 ^ b) by (rewrite Z.mul_opp_l, <- Z.pow_add_r by lia;
      replace (width - 1 - b + b) with (width - 1) by lia; lia).
    rewrite Z.div_mul by lia. lia. }
  decide_guards; try nia; rewrite ?sw_wrap by nia; done.
Qed.
End SignedSpec.

Section SignedDivision.
Context `{W : SignedWord wrap lo hi width}.

Lemma div_s_exact a b :
  lo <= a <= hi -> lo <= b <= hi ->
  div_s wrap lo a b = if b =? 0 then None else exact lo hi (a ÷ b).
Proof.
  pose proof sw_lo as Hlo. pose proof sw_pos as Hp. intros Ha Hb. unfold div_s.
  destruct (Z.eqb_spec b 0); [done|]. cbn [orb].
  destruct (Z.eqb_spec b (-1)) as [->|]; rewrite ?andb_false_r, ?andb_true_r.
  - change (-1) with (Z.opp 1). rewrite (Z.quot_opp_r a 1), Z.quot_1_r by lia.
    destruct (Z.eqb_spec a lo); decide_guards; try lia; rewrite ?sw_wrap by lia; done.
  - assert (lo <= a ÷ b <= hi).
    { assert (b = 1 \/ 2 <= Z.abs b) as [->|] by lia; [rewrite Z.quot_1_r; lia|].
      pose proof (Z.quot_abs a b ltac:(lia)) as Habs.
      rewrite Z.quot_div_nonneg in Habs by lia.
      pose proof (Z.div_le_upper_bound (Z.abs a) (Z.abs b) hi ltac:(lia) ltac:(nia)).
      lia. }
    decide_guards; try lia. rewrite sw_wrap by lia. done.
Qed.

Lemma mod_s_spec a b r :
  lo <= a <= hi -> lo <= b <= hi -> mod_s wrap lo a b = Some r ->
  b <> 0 /\ r = Z.rem a b /\ a = b * (a ÷ b) + r.
Proof.
  pose proof sw_lo. pose proof sw_pos. intros Ha Hb. unfold mod_s.
  destruct (Z.eqb_spec b 0); [done|].
  destruct ((a =? lo) && (b =? -1)); [done|]. cbn [orb]. intros [= <-].
  assert (lo <= Z.rem a b <= hi).
  { pose proof (Z.rem_bound_abs a b ltac:(lia)).
    destruct (Z_le_gt_dec 0 a); [pose proof (Z.rem_nonneg a b)|pose proof (Z.rem_nonpos a b)]; lia. }
  rewrite sw_wrap by lia. split; [done|]. split; [done|]. apply Z.quot_rem'.
Qed.

Lemma neg_s_exact a : lo <= a <= hi -> neg_s wrap lo a = exact lo hi (- a).
Proof.
  pose proof sw_lo. pose proof sw_pos. intros. unfold neg_s.
  decide_guards; try lia; rewrite ?sw_wrap by lia; done.
Qed.
End SignedDivision.

Section UnsignedSpec.
Context `{W : UnsignedWord wrap hi width}.

Lemma add_u_exact a b :
  0 <= a <= hi -> 0 <= b <= hi -> add_u wrap hi a b = exact 0 hi (a + b).
Proof.
  intros. unfold add_u. rewrite (uw_wrap (hi - a)) by lia.
  decide_guards; try lia; rewrite ?uw_wrap by lia; done.
Qed.
Lemma sub_u_exact a b :
  0 <= a <= hi -> 0 <= b <= hi -> sub_u wrap a b = exact 0 hi (a - b).
Proof.
  intros. unfold sub_u. decide_guards; try lia; rewrite ?uw_wrap by lia; done.
Qed.
Lemma mul_u_exact a b :
  0 <= a <= hi -> 0 <= b <= hi -> mul_u wrap hi a b = exact 0 hi (a * b).
Proof.
  intros. unfold mul_u. rewrite !Z.gtb_ltb.
  destruct (Z.ltb_spec 0 b); cbn [andb].
  - pose proof (Z.mul_succ_div_gt hi b ltac:(lia)).
    pose proof (Z.mul_div_le hi b ltac:(lia)).
    decide_guards; try nia; rewrite ?uw_wrap by nia; done.
  - replace b with 0 by lia. decide_guards; try lia; rewrite ?uw_wrap by lia; done.
Qed.
Lemma lsh_u_exact a b :
  0 <= a <= hi -> 0 <= b ->
  lsh_u wrap hi width a b = if b <? width then exact 0 hi (a * 2 ^ b) else None.
Proof.
  destruct uw_width as [Hw Hhi]. intros Ha Hb. unfold lsh_u. rewrite Z.geb_leb.
  destruct (Z.ltb_spec b width), (Z.leb_spec width b); try lia; try done.
  rewrite Z.shiftl_mul_pow2, Z.shiftr_div_pow2 by lia.
  pose proof (Z.pow_pos_nonneg 2 b ltac:(lia) Hb).
  pose proof (Z.mul_succ_div_gt hi (2 ^ b) ltac:(lia)).
  pose proof (Z.mul_div_le hi (2 ^ b) ltac:(lia)).
  decide_guards; try nia; rewrite ?uw_wrap by nia; done.
Qed.
End UnsignedSpec.

Definition int64 (z : Z) : Prop := MinInt64 <= z <= MaxInt64.
Definition int32 (z : Z) : Prop := MinInt32 <= z <= MaxInt32.
Definition uint64 (z : Z) : Prop := 0 <= z <= MaxUint64.
Definition uint32 (z : Z) : Prop := 0 <= z <= MaxUint32.

Lemma AddInt64_Some a b c :
  int64 a -> int64 b -> AddInt64 a b = Some c -> c = a + b /\ int64 c.
Proof.
  intros Ha Hb. unfold AddInt64. rewrite (add_s_exact (width := 64)) by assumption.
  unfold exact, in_range. case_if; [|done]. intros [= <-]. zbool. split; [done|split; lia].
Qed.
Lemma SubInt64_Some a b c :
  int64 a -> int64 b -> SubInt64 a b = Some c -> c = a - b /\ int64 c.
Proof.
  intros Ha Hb. unfold SubInt64. rewrite (sub_s_exact (width := 64)) by assumption.
  unfold exact, in_range. case_if; [|done]. intros [= <-]. zbool. split; [done|split; lia].
Qed.
Lemma MulInt64_small a b :
  int64 a -> int64 b -> MinInt64 <= a * b <= MaxInt64 -> MulInt64 a b = Some (a * b).
Proof.
  intros Ha Hb Hr. unfold MulInt64. rewrite (mul_s_exact (width := 64)) by assumption.
  unfold exact, in_range. replace (MinInt64 <=? a * b) with true by lia.
  by replace (a * b <=? MaxInt64) with true by lia.
Qed.
Lemma MulInt64_Some a b c :
  int64 a -> int64 b -> MulInt64 a b = Some c -> c = a * b /\ int64 c.
Proof.
  intros Ha Hb. unfold MulInt64. rewrite (mul_s_exact (width := 64)) by assumption.
  unfold exact, in_range. case_if; [|done]. intros [= <-]. zbool. split; [done|split; lia].
Qed.



(** The unsigned operations used by the program parser, the mux balance and
    the fee sums ([AddUint32], [AddUint64], ...) are exact or fail. *)
Theorem checked_uint_exact a b :
  (uint64 a -> uint64 b ->
     AddUint64 a b = exact 0 MaxUint64 (a + b) /\ SubUint64 a b = exact 0 MaxUint64 (a - b)
     /\ MulUint64 a b = exact 0 MaxUint64 (a * b)
     /\ LshiftUint64 a b = (if b <? 64 then exact 0 MaxUint64 (a * 2 ^ b) else None))
  /\ (uint32 a -> uint32 b ->
     AddUint32 a b = exact 0 MaxUint32 (a + b) /\ SubUint32 a b = exact 0 MaxUint32 (a - b)
     /\ MulUint32 a b = exact 0 MaxUint32 (a * b)
     /\ LshiftUint32 a b = (if b <? 32 then exact 0 MaxUint32 (a * 2 ^ b) else None)).
Proof.
  split; intros Ha Hb; pose proof Hb as [Hb0 _].
  - unfold AddUint64, SubUint64, MulUint64, LshiftUint64.
    rewrite (add_u_exact (width := 64)), (sub_u_exact (hi := MaxUint64) (width := 64)),
      (mul_u_exact (width := 64)), lsh_u_exact by assumption. done.
  - unfold AddUint32, SubUint32, MulUint32, LshiftUint32.
    rewrite (add_u_exact (width := 32)), (sub_u_exact (hi := MaxUint32) (width := 32)),
      (mul_u_exact (width := 32)), lsh_u_exact by assumption. done.
Qed.

Lemma checked_uint_exact_witness : AddUint32 4294967295 1 = None /\ AddUint64 4294967295 1 = Some 4294967296.
Proof.
  split.
  - refine (proj1 (proj2 (checked_uint_exact 4294967295 1) _ _)); split; vm_compute; discriminate.
  - refine (proj1 (proj1 (checked_uint_exact 4294967295 1) _ _)); split; vm_compute; discriminate.
Defined.
