(* ===== verification/GoSlice.v ===== *)
(** * Byte slices: the store interface and its two implementations

    The virtual machine of [protocol/vm] keeps [[]byte] values on its stacks.
    A Go slice is a view (array, offset, length, capacity) of a shared backing
    array, and [append] writes the array in place while the capacity allows.
    The machine is therefore written against the interface [ItemStore]:

    - [SliceStore] is Go's behaviour: a heap of backing arrays, slices as
      views, [append] in place or by reallocation;
    - [ValueStore] is the abstract specification: an item is its contents.

    [Alias.v] proves that the first refines the second as long as no [append]
    writes in place, and what goes wrong when one does. *)

From S2P Require Import Prelude.
From Stdlib Require Import Strings.Byte.

Class ItemStore := {
  heap : Type;
  item : Type;
  st_len : item -> Z;                        (* len(s) *)
  st_get : heap -> item -> bytes;            (* the bytes of s *)
  st_make : bytes -> heap -> item * heap;    (* a fresh slice, cap = len *)
  st_slice : item -> Z -> Z -> item;         (* s[lo:hi], bounds checked by the caller *)
  st_append : item -> bytes -> heap -> item * heap;  (* append(s, b...) *)
  st_true : item;                            (* the package variable trueBytes *)
}.

(** What every client may assume about lengths, whatever the implementation. *)
Class StoreLaws (S : ItemStore) : Prop := {
  get_len h i : zlen (st_get h i) = st_len i;
  make_len b h : st_len (st_make b h).1 = zlen b;
  slice_len i lo hi : 0 <= lo -> lo <= hi -> st_len (st_slice i lo hi) = hi - lo;
  append_len i b h : st_len (st_append i b h).1 = st_len i + zlen b;
  true_len : st_len st_true = 1;
}.

Lemma st_len_nonneg {S : ItemStore} {SL : StoreLaws S} i (h : heap) : 0 <= st_len i.
Proof. rewrite <- (get_len h). apply zlen_nonneg. Qed.

(** ** Items as values *)

Definition ValueStore : ItemStore := {|
  heap := unit;
  item := bytes;
  st_len := zlen;
  st_get := fun _ b => b;
  st_make := fun b h => (b, h);
  st_slice := fun b lo hi => take (Z.to_nat (hi - lo)) (drop (Z.to_nat lo) (resize (Z.to_nat hi) x00 b));
  st_append := fun a b h => (a ++ b, h);
  st_true := [x01];
|}.

#[export] Instance ValueStore_laws : StoreLaws ValueStore.
Proof.
  split; cbn; intros; try done; try apply zlen_app.
  unfold zlen. rewrite length_take, length_drop, length_resize. lia.
Qed.

Lemma value_slice (b : bytes) lo hi :
  0 <= lo -> lo <= hi -> hi <= zlen b ->
  st_slice (ItemStore := ValueStore) b lo hi = subseq b lo hi.
Proof.
  unfold zlen. intros. cbn. unfold subseq. rewrite resize_le by lia.
  rewrite <- (take_drop (Z.to_nat hi) b) at 2.
  rewrite drop_app_le by (rewrite length_take; lia).
  rewrite take_app_le; [done|]. rewrite length_drop, length_take. lia.
Qed.

(** ** Items as Go slices *)

(** The capacity [append] gives a grown slice is the runtime's choice (at least
    the length needed); the language does not fix it. *)
Class GoRuntime := append_cap : nat -> nat -> nat.

Record slice := Slice { s_arr : nat; s_off : nat; s_len : nat; s_cap : nat }.

(** [in_place] is a ghost flag: some [append] has overwritten bytes of an
    existing backing array. *)
Record goheap := Heap { arrays : list bytes; in_place : bool }.

Definition slice_get (h : goheap) (s : slice) : bytes :=
  resize (s_len s) x00 (drop (s_off s) (arrays h !!! s_arr s)).

Definition slice_make (b : bytes) (h : goheap) : slice * goheap :=
  (Slice (length (arrays h)) 0 (length b) (length b),
   Heap (arrays h ++ [b]) (in_place h)).

Definition slice_slice (s : slice) (lo hi : Z) : slice :=
  Slice (s_arr s) (s_off s + Z.to_nat lo) (Z.to_nat (hi - lo)) (s_cap s - Z.to_nat lo).

Definition write_at (pos : nat) (b l : bytes) : bytes :=
  take pos l ++ b ++ drop (pos + length b) l.

Definition slice_append {R : GoRuntime} (s : slice) (b : bytes) (h : goheap) : slice * goheap :=
  let need := (s_len s + length b)%nat in
  if (need <=? s_cap s)%nat then
    (Slice (s_arr s) (s_off s) need (s_cap s),
     Heap (alter (write_at (s_off s + s_len s) b) (s_arr s) (arrays h))
          (in_place h || negb (Nat.eqb (length b) 0)))
  else
    let cap := Nat.max need (append_cap (s_cap s) need) in
    (Slice (length (arrays h)) 0 need cap,
     Heap (arrays h ++ [resize cap x00 (slice_get h s ++ b)]) (in_place h)).

(** Array 0 of every heap is the backing array of the package variable
    [trueBytes = []byte{1}]. *)
Definition trueBytes : slice := Slice 0 0 1 1.

Definition SliceStore {R : GoRuntime} : ItemStore := {|
  heap := goheap;
  item := slice;
  st_len := fun s => Z.of_nat (s_len s);
  st_get := slice_get;
  st_make := slice_make;
  st_slice := slice_slice;
  st_append := slice_append;
  st_true := trueBytes;
|}.

#[export] Instance SliceStore_laws {R : GoRuntime} : StoreLaws SliceStore.
Proof.
  split; cbn; intros.
  - unfold zlen, slice_get. by rewrite length_resize.
  - done.
  - lia.
  - unfold slice_append, zlen. destruct (_ <=? _)%nat; cbn; lia.
  - done.
Qed.

(** ** Representation: a slice of a heap stands for a byte string *)

Definition valid (h : goheap) (s : slice) : Prop :=
  exists a, arrays h !! s_arr s = Some a
         /\ (s_len s <= s_cap s)%nat /\ (s_off s + s_cap s <= length a)%nat.

Definition repr (h : goheap) (s : slice) (b : bytes) : Prop :=
  valid h s /\ slice_get h s = b.

(** Later heaps keep the arrays of earlier ones: only allocations happened. *)
Definition extends (h h' : goheap) : Prop :=
  forall i a, arrays h !! i = Some a -> arrays h' !! i = Some a.

#[export] Instance extends_preorder : PreOrder extends.
Proof. split; [intros h i a; done|intros h1 h2 h3 H1 H2 i a Ha; eauto]. Qed.

Lemma valid_get h s a :
  arrays h !! s_arr s = Some a ->
  (s_len s <= s_cap s)%nat -> (s_off s + s_cap s <= length a)%nat ->
  slice_get h s = take (s_len s) (drop (s_off s) a).
Proof.
  intros Ha Hl Hc. unfold slice_get. rewrite (list_lookup_total_correct _ _ _ Ha).
  apply resize_le. rewrite length_drop. lia.
Qed.

Lemma repr_len h s b : repr h s b -> Z.of_nat (s_len s) = zlen b.
Proof. intros [_ <-]. unfold zlen, slice_get. by rewrite length_resize. Qed.

Lemma repr_extends h h' s b : extends h h' -> repr h s b -> repr h' s b.
Proof.
  intros E [(a & Ha & Hl & Hc) <-]. pose proof (E _ _ Ha) as Ha'. split.
  - exists a. done.
  - by rewrite (valid_get h' s a), (valid_get h s a).
Qed.

Lemma make_extends b h : extends h (slice_make b h).2.
Proof. intros i a Ha. cbn. by apply lookup_app_l_Some. Qed.

Lemma make_repr b h : repr (slice_make b h).2 (slice_make b h).1 b.
Proof.
  assert (arrays (slice_make b h).2 !! length (arrays h) = Some b) as Hb
    by (cbn; by rewrite lookup_app_r, Nat.sub_diag by lia).
  split; [exists b; cbn; split; [exact Hb|lia]|].
  rewrite (valid_get _ _ b); cbn; try lia; [|exact Hb].
  rewrite drop_0. apply take_ge. lia.
Qed.

Lemma slice_repr h s b lo hi :
  0 <= lo -> lo <= hi -> hi <= zlen b ->
  repr h s b -> repr h (slice_slice s lo hi) (subseq b lo hi).
Proof.
  intros H1 H2 H3 Hr. pose proof (repr_len _ _ _ Hr) as Hlen.
  destruct Hr as [(a & Ha & Hl & Hc) Hg]. unfold zlen in *.
  rewrite (valid_get _ _ a) in Hg by done. split.
  - exists a. cbn. split; [done|]. lia.
  - rewrite (valid_get _ _ a); cbn; try done; try lia.
    rewrite <- Hg. unfold subseq.
    rewrite skipn_firstn_comm, take_take, drop_drop. f_equal; lia.
Qed.

(** An append that does not overwrite existing bytes only allocates, and its
    result stands for the concatenation. *)
Lemma append_repr {R : GoRuntime} h s b b' :
  repr h s b -> in_place (slice_append s b' h).2 = false ->
  extends h (slice_append s b' h).2
  /\ repr (slice_append s b' h).2 (slice_append s b' h).1 (b ++ b').
Proof.
  intros Hr. pose proof Hr as [(a & Ha & Hl & Hc) Hg]. unfold slice_append.
  destruct (Nat.leb_spec (s_len s + length b') (s_cap s)) as [Hn|Hn]; cbn.
  - intros Hf. apply orb_false_iff in Hf as [_ Hf]. apply negb_false_iff, Nat.eqb_eq in Hf.
    destruct b'; [|done]. rewrite app_nil_r, Nat.add_0_r.
    assert (Hw : alter (write_at (s_off s + s_len s) []) (s_arr s) (arrays h) = arrays h).
    { apply list_alter_id. intros x. unfold write_at. cbn. rewrite Nat.add_0_r.
      apply take_drop. }
    rewrite Hw. split; [intros i x; done|]. destruct s; cbn in *. split; [|exact Hg].
    exists a. done.
  - intros _. split; [intros i x Hx; cbn; by apply lookup_app_l_Some|].
    set (cap := Nat.max _ _). set (new := resize cap x00 (slice_get h s ++ b')).
    assert (Hnew : (arrays h ++ [new]) !! length (arrays h) = Some new)
      by (by rewrite lookup_app_r, Nat.sub_diag by lia).
    assert (Hcap : length new = cap) by (unfold new; by rewrite length_resize).
    assert (Hgl : length (slice_get h s) = s_len s) by (unfold slice_get; by rewrite length_resize).
    split; [exists new; cbn; split; [exact Hnew|lia]|].
    rewrite (valid_get _ _ new); cbn; [|exact Hnew|lia|lia].
    rewrite drop_0. unfold new. rewrite take_resize_le, resize_le, take_ge;
      rewrite ?length_app; try lia. by rewrite Hg.
Qed.

Lemma append_flag {R : GoRuntime} h s b :
  in_place (slice_append s b h).2 = false -> in_place h = false.
Proof.
  unfold slice_append. destruct (_ <=? _)%nat; cbn; [|done].
  intros H. by apply orb_false_iff in H as [? _].
Qed.

(** Every slice may assume the array of [trueBytes] is there and intact. *)
Definition heap_ok (h : goheap) : Prop := arrays h !! 0%nat = Some [x01].

Lemma heap_ok_true h : heap_ok h -> repr h trueBytes [x01].
Proof.
  intros H. split; [exists [x01]; cbn; split; [exact H|lia]|].
  rewrite (valid_get _ _ [x01]); done || (cbn; lia).
Qed.

Lemma heap_ok_extends h h' : extends h h' -> heap_ok h -> heap_ok h'.
Proof. unfold heap_ok. auto. Qed.

Create HintDb slices.
#[export] Hint Resolve repr_extends heap_ok_extends heap_ok_true make_repr make_extends : slices.
