(* ===== verification/VMTypes.v ===== *)
(** * protocol/vm: errors, value conversions, and the libraries it calls

    - [error] is [errors.go] (plus the errors the machine receives from
      [math/checked] and from [CheckOutput]);
    - [res] is the outcome of a Go call: a value, an error, or a run-time panic;
      [OutOfFuel] is the model's own, for the interpreter's recursion bound;
    - [Uint256] and [Crypto] are the third-party integer library and the hash
      and signature functions, as parameters with their documented laws;
    - the conversions of [types.go]. *)

From S2P Require Import Prelude.
From Stdlib Require Import Strings.Byte.

Inductive error :=
  | ErrAltStackUnderflow
  | ErrBadValue
  | ErrContext
  | ErrDataStackUnderflow
  | ErrDisallowedOpcode
  | ErrDivZero
  | ErrFalseVMResult
  | ErrLongProgram
  | ErrRange
  | ErrReturn
  | ErrRunLimitExceeded
  | ErrShortProgram
  | ErrToken
  | ErrUnexpected
  | ErrUnsupportedVM
  | ErrVerifyFailed
  | ErrOverflow          (* checked.ErrOverflow *)
  | ErrMissingEntry      (* bc.ErrMissingEntry, from CheckOutput *).

#[export] Instance error_eq_dec : EqDecision error.
Proof. solve_decision. Defined.

Inductive res (A : Type) :=
  | Ok (a : A)
  | Err (e : error)
  | Panic
  | OutOfFuel.
Arguments Ok {A} a.
Arguments Err {A} e.
Arguments Panic {A}.
Arguments OutOfFuel {A}.

#[export] Instance res_bind : MBind res := fun A B f m =>
  match m with Ok a => f a | Err e => Err e | Panic => Panic | OutOfFuel => OutOfFuel end.
#[export] Instance res_ret : MRet res := fun A a => Ok a.

(** ** github.com/holiman/uint256 *)

Class Uint256 := {
  u256 : Type;
  NewInt : Z -> u256;               (* of a uint64 *)
  SetBytes : bytes -> u256;         (* big endian *)
  Bytes : u256 -> bytes;            (* big endian, no leading zeros *)
  Sign : u256 -> Z;
  IsUint64 : u256 -> bool;
  Uint64 : u256 -> Z;               (* low 64 bits *)
  LtUint64 : u256 -> Z -> bool;
  IsZero : u256 -> bool;
  Cmp : u256 -> u256 -> Z;
  Eq : u256 -> u256 -> bool;
  uAdd : u256 -> u256 -> u256;
  uSub : u256 -> u256 -> u256;
  uMul : u256 -> u256 -> u256;
  MulOverflow : u256 -> u256 -> u256 * bool;
  uDiv : u256 -> u256 -> u256;
  uMod : u256 -> u256 -> u256;
  Lsh : u256 -> Z -> u256;
  Rsh : u256 -> Z -> u256;
}.

(** The documented behaviour: an [Int] is an integer modulo 2^256, [Sign]
    reads it in two's complement. *)
Class Uint256Laws (U : Uint256) := {
  uval : u256 -> Z;
  uval_range x : 0 <= uval x < 2 ^ 256;
  uval_NewInt n : 0 <= n <= MaxUint64 -> uval (NewInt n) = n;
  uval_SetBytes b : zlen b <= 32 -> uval (SetBytes b) = be_val b;
  Bytes_uval x : be_val (Bytes x) = uval x;
  Bytes_len x : zlen (Bytes x) <= 32;
  Bytes_minimal x b l : Bytes x = b :: l -> b <> x00;
  Sign_uval x : Sign x = if uval x =? 0 then 0 else if uval x <? 2 ^ 255 then 1 else -1;
  IsUint64_uval x : IsUint64 x = (uval x <=? MaxUint64);
  Uint64_uval x : Uint64 x = u64 (uval x);
  LtUint64_uval x n : LtUint64 x n = (uval x <? n);
  IsZero_uval x : IsZero x = (uval x =? 0);
  Cmp_uval x y : Cmp x y = if uval x <? uval y then -1 else if uval x =? uval y then 0 else 1;
  Eq_uval x y : Eq x y = (uval x =? uval y);
  uAdd_uval x y : uval (uAdd x y) = (uval x + uval y) mod 2 ^ 256;
  uSub_uval x y : uval (uSub x y) = (uval x - uval y) mod 2 ^ 256;
  uMul_uval x y : uval (uMul x y) = (uval x * uval y) mod 2 ^ 256;
  MulOverflow_uval x y :
    uval (MulOverflow x y).1 = (uval x * uval y) mod 2 ^ 256
    /\ (MulOverflow x y).2 = (2 ^ 256 <=? uval x * uval y);
  uDiv_uval x y : uval y <> 0 -> uval (uDiv x y) = uval x / uval y;
  uMod_uval x y : uval y <> 0 -> uval (uMod x y) = uval x mod uval y;
  Lsh_uval x n : 0 <= n -> uval (Lsh x n) = (uval x * 2 ^ n) mod 2 ^ 256;
  Rsh_uval x n : 0 <= n -> uval (Rsh x n) = uval x / 2 ^ n;
}.

(** ** Hash and signature functions *)

Class Crypto := {
  sha256 : bytes -> bytes;
  sha3_256 : bytes -> bytes;
  ripemd160 : bytes -> bytes;
  ed25519_verify : bytes -> bytes -> bytes -> bool;  (* public key, message, signature *)
}.

Class CryptoLaws (C : Crypto) : Prop := {
  sha256_len b : zlen (sha256 b) = 32;
  sha3_256_len b : zlen (sha3_256 b) = 32;
  ripemd160_len b : zlen (ripemd160 b) = 20;
}.

(** Stand-ins with the right output lengths, for evaluating concrete programs:
    the signature scheme accepts a signature equal to the key followed by the
    message. *)
Definition StubCrypto : Crypto := {|
  sha256 := resize 32 x2a;
  sha3_256 := resize 32 x2b;
  ripemd160 := resize 20 x2c;
  ed25519_verify := fun pk m s => bool_decide (s = pk ++ m);
|}.

#[export] Instance StubCrypto_laws : CryptoLaws StubCrypto.
Proof. split; intros; unfold zlen; cbn; by rewrite length_resize. Qed.

(** ** crypto/ed25519/chainkd *)

(** [XPub.Verify] after [copy(xPub[:], pubKey)]: the first half of the 64 bytes is the key. *)
Definition xpub_verify {Cr : Crypto} (pubKey message signature : bytes) : bool :=
  ed25519_verify (take 32 (pubKey ++ replicate 64 x00)) message signature.

(** ** types.go *)

Definition BoolBytes (b : bool) : bytes := if b then [x01] else [].

Definition AsBool (b : bytes) : bool := existsb (fun x => negb (Byte.eqb x x00)) b.

Section Numbers.
Context {U : Uint256}.

Definition BigIntBytes (n : u256) : bytes := reverse (Bytes n).
Definition Uint64Bytes (n : Z) : bytes := BigIntBytes (NewInt n).

Definition AsBigInt (b : bytes) : res u256 :=
  if zlen b >? 32 then Err ErrBadValue
  else let r := SetBytes (reverse b) in
       if Sign r <? 0 then Err ErrRange else Ok r.

Definition bigIntInt64 (n : u256) : res Z :=
  if negb (IsUint64 n) then Err ErrBadValue
  else let i := i64 (Uint64 n) in
       if i <? 0 then Err ErrBadValue else Ok i.

(** [n.Uint64WithOverflow()]: the low word and whether the rest is not zero. *)
Definition Uint64WithOverflow (n : u256) : Z * bool := (Uint64 n, negb (IsUint64 n)).
End Numbers.

(** ** A concrete library: integers modulo 2^256 *)

Fixpoint be_bytes_fuel (fuel : nat) (z : Z) (acc : bytes) : bytes :=
  match fuel with
  | O => acc
  | S f => if z =? 0 then acc else be_bytes_fuel f (z / 256) (z2b z :: acc)
  end.

Definition ZUint256 : Uint256 := {|
  u256 := Z;
  NewInt := fun n => n mod 2 ^ 256;
  SetBytes := fun b => be_val b mod 2 ^ 256;
  Bytes := fun x => be_bytes_fuel 32 (x mod 2 ^ 256) [];
  Sign := fun x => let v := x mod 2 ^ 256 in
                   if v =? 0 then 0 else if v <? 2 ^ 255 then 1 else -1;
  IsUint64 := fun x => x mod 2 ^ 256 <=? MaxUint64;
  Uint64 := fun x => u64 (x mod 2 ^ 256);
  LtUint64 := fun x n => x mod 2 ^ 256 <? n;
  IsZero := fun x => x mod 2 ^ 256 =? 0;
  Cmp := fun x y => let v := x mod 2 ^ 256 in let w := y mod 2 ^ 256 in
                    if v <? w then -1 else if v =? w then 0 else 1;
  Eq := fun x y => x mod 2 ^ 256 =? y mod 2 ^ 256;
  uAdd := fun x y => (x mod 2 ^ 256 + y mod 2 ^ 256) mod 2 ^ 256;
  uSub := fun x y => (x mod 2 ^ 256 - y mod 2 ^ 256) mod 2 ^ 256;
  uMul := fun x y => (x mod 2 ^ 256 * (y mod 2 ^ 256)) mod 2 ^ 256;
  MulOverflow := fun x y => ((x mod 2 ^ 256 * (y mod 2 ^ 256)) mod 2 ^ 256,
                             2 ^ 256 <=? x mod 2 ^ 256 * (y mod 2 ^ 256));
  uDiv := fun x y => (x mod 2 ^ 256) / (y mod 2 ^ 256);
  uMod := fun x y => (x mod 2 ^ 256) mod (y mod 2 ^ 256);
  Lsh := fun x n => (x mod 2 ^ 256 * 2 ^ n) mod 2 ^ 256;
  Rsh := fun x n => x mod 2 ^ 256 / 2 ^ n;
|}.

Lemma be_bytes_fuel_val f z acc :
  0 <= z < 256 ^ Z.of_nat f ->
  be_val (be_bytes_fuel f z acc) = z * 256 ^ zlen acc + be_val acc.
Proof.
  revert z acc. induction f as [|f IH]; intros z acc Hz.
  - simpl in Hz. replace z with 0 by lia. done.
  - cbn [be_bytes_fuel]. destruct (Z.eqb_spec z 0) as [->|]; [lia|].
    rewrite Nat2Z.inj_succ, Z.pow_succ_r in Hz by lia.
    rewrite IH by (split; [apply Z.div_pos; lia|apply Z.div_lt_upper_bound; lia]).
    rewrite zlen_cons, be_val_cons, b2z_z2b, Z.pow_add_r by auto with zlen lia.
    pose proof (Z.div_mod z 256 ltac:(lia)). nia.
Qed.

Lemma be_bytes_fuel_len f z acc : zlen (be_bytes_fuel f z acc) <= Z.of_nat f + zlen acc.
Proof.
  revert z acc. induction f as [|f IH]; intros z acc; cbn [be_bytes_fuel]; [lia|].
  destruct (z =? 0); [lia|]. specialize (IH (z / 256) (z2b z :: acc)).
  rewrite zlen_cons in IH. lia.
Qed.

Lemma be_bytes_fuel_minimal f z acc b l :
  0 <= z < 256 ^ Z.of_nat f ->
  (forall b l, acc = b :: l -> z = 0 -> b <> x00) ->
  be_bytes_fuel f z acc = b :: l -> b <> x00.
Proof.
  revert z acc. induction f as [|f IH]; intros z acc Hz Hacc; cbn [be_bytes_fuel].
  - simpl in Hz. intros H. eapply Hacc; [exact H|lia].
  - destruct (Z.eqb_spec z 0) as [->|Hne]; [intros H; eapply Hacc; eauto|].
    rewrite Nat2Z.inj_succ, Z.pow_succ_r in Hz by lia.
    apply IH; [split; [apply Z.div_pos; lia|apply Z.div_lt_upper_bound; lia]|].
    intros b' l' [= <- <-] Hdiv Hb0. apply (f_equal b2z) in Hb0.
    rewrite b2z_z2b in Hb0. change (b2z x00) with 0 in Hb0.
    pose proof (Z.div_mod z 256 ltac:(lia)). lia.
Qed.

Local Ltac z256 := cbv [ZUint256 u256 NewInt SetBytes Bytes Sign IsUint64 Uint64 LtUint64 IsZero
  Cmp Eq uAdd uSub uMul MulOverflow uDiv uMod Lsh Rsh fst snd].

#[export] Instance ZUint256_laws : Uint256Laws ZUint256.
Proof.
  assert (Hp : forall z : Z, 0 <= z mod 2 ^ 256 < 2 ^ 256) by (intros; apply Z.mod_pos_bound; lia).
  refine {| uval := fun x : u256 (Uint256 := ZUint256) => (x : Z) mod 2 ^ 256 |}; z256; intros;
    try (rewrite Zmod_mod; reflexivity); try (apply Hp); try done.
  - rewrite Zmod_mod. apply Z.mod_small. words. lia.
  - rewrite Zmod_mod. apply Z.mod_small. pose proof (be_val_range b).
    enough (256 ^ zlen b <= 2 ^ 256) by lia.
    change (2 ^ 256) with (256 ^ 32). apply Z.pow_le_mono_r; lia.
  - rewrite be_bytes_fuel_val; [rewrite zlen_nil; change (be_val []) with 0; lia|].
    change (256 ^ Z.of_nat 32) with (2 ^ 256). apply Hp.
  - pose proof (be_bytes_fuel_len 32 (x mod 2 ^ 256) []). rewrite zlen_nil in *. lia.
  - match goal with H : be_bytes_fuel _ _ _ = _ |- _ =>
      refine (be_bytes_fuel_minimal _ _ _ _ _ _ _ H) end; [|discriminate].
    change (256 ^ Z.of_nat 32) with (2 ^ 256). apply Hp.
  - split; [rewrite Zmod_mod|]; reflexivity.
  - apply Z.mod_small. pose proof (Hp x). pose proof (Hp y).
    split; [apply Z.div_pos; lia|]. apply Z.div_lt_upper_bound; nia.
  - apply Z.mod_small. pose proof (Hp x). pose proof (Hp y).
    pose proof (Z.mod_pos_bound (x mod 2 ^ 256) (y mod 2 ^ 256) ltac:(lia)). lia.
  - apply Z.mod_small. pose proof (Hp x).
    pose proof (Z.pow_pos_nonneg 2 n ltac:(lia) ltac:(lia)).
    split; [apply Z.div_pos; lia|]. apply Z.div_lt_upper_bound; nia.
Defined.

(** ** The conversions between stack bytes and integers *)

Section NumberLemmas.
Context {U : Uint256} {UL : Uint256Laws U}.

Lemma BigIntBytes_val n : le_val (BigIntBytes n) = uval n.
Proof. unfold BigIntBytes. rewrite <- (Bytes_uval n). done. Qed.

Lemma BigIntBytes_len n : zlen (BigIntBytes n) <= 32.
Proof. unfold BigIntBytes. rewrite zlen_reverse. apply Bytes_len. Qed.

Lemma le_val_reverse_SetBytes b : zlen b <= 32 -> uval (SetBytes (reverse b)) = le_val b.
Proof.
  intros. rewrite uval_SetBytes by (by rewrite zlen_reverse).
  unfold be_val. by rewrite reverse_involutive.
Qed.

(** [AsBigInt] decodes exactly the little-endian values below 2^255. *)
Lemma AsBigInt_spec b :
  match AsBigInt b with
  | Ok n => zlen b <= 32 /\ uval n = le_val b /\ le_val b < 2 ^ 255
  | Err ErrBadValue => 32 < zlen b
  | Err ErrRange => zlen b <= 32 /\ 2 ^ 255 <= le_val b
  | _ => False
  end.
Proof.
  unfold AsBigInt. case_if; zbool; [lia|].
  rewrite Sign_uval, le_val_reverse_SetBytes by lia. pose proof (le_val_range b).
  destruct (Z.eqb_spec (le_val b) 0) as [He|He]; cbn.
  - rewrite le_val_reverse_SetBytes by lia. lia.
  - destruct (Z.ltb_spec (le_val b) (2 ^ 255)); cbn; [|lia].
    rewrite le_val_reverse_SetBytes by lia. lia.
Qed.

Lemma bigIntInt64_spec n :
  bigIntInt64 n = if uval n <=? MaxInt64 then Ok (uval n) else Err ErrBadValue.
Proof.
  unfold bigIntInt64. rewrite IsUint64_uval, Uint64_uval. pose proof (uval_range n).
  destruct (Z.leb_spec (uval n) MaxUint64) as [Hle|Hgt]; cbn [negb].
  - rewrite u64_id by (words; lia).
    destruct (Z.leb_spec (uval n) MaxInt64).
    + rewrite i64_id by (words; lia). replace (uval n <? 0) with false by lia. done.
    + replace (i64 (uval n) <? 0) with true; [done|]. symmetry. apply Z.ltb_lt. words.
      rewrite <- (Z.mod_unique (uval n + 9223372036854775808) 18446744073709551616 1
        (uval n - 9223372036854775808)); lia.
  - replace (uval n <=? MaxInt64) with false by (words; lia). done.
Qed.
End NumberLemmas.

Lemma AsBool_BoolBytes b : AsBool (BoolBytes b) = b.
Proof. by destruct b. Qed.
