(* ===== verification/Entries.v ===== *)
(** * Transaction entries and their identifiers: protocol/bc

    The structs of bc.pb.go and the [Entry] types, with [writeForHash] of each
    and [EntryID] of entry.go.  A pointer that the code tests against nil, or
    leaves nil, is an option; a hash and an asset id are their 32 bytes
    ([NewHash] and [Byte32] are inverse to each other).  [EntryID] is [None]
    where [mustWriteForHash] panics: for a string or list of more than
    [MaxInt32] elements.  The theorem at the end says which fields an
    identifier fixes, if SHA3 has no collision: witnesses are not among them. *)

From S2P Require Import Prelude Encoding VMTypes.
From Stdlib Require Import Strings.Byte.
From Stdlib Require Strings.String.
Import String.StringSyntax.
#[local] Open Scope string_scope.
#[local] Open Scope list_scope.
#[local] Open Scope Z_scope.

Abbreviation Hash := bytes.
Abbreviation AssetID := bytes.

Record AssetAmount := mkAssetAmount { aa_AssetId : option AssetID; aa_Amount : Z }.
Record Program := mkProgram { VmVersion : Z; prog_Code : bytes }.
Record ValueSource := mkValueSource { src_Ref : option Hash; src_Value : option AssetAmount; src_Position : Z }.
Record ValueDestination := mkValueDestination {
  dst_Ref : option Hash; dst_Value : option AssetAmount; dst_Position : Z
}.
Record AssetDefinition := mkAssetDefinition { def_IssuanceProgram : Program; def_Data : Hash }.

(** ** The entries *)

Record tx_header := mkTxHeader {
  hd_Version : Z; hd_SerializedSize : Z; hd_TimeRange : Z; hd_ResultIds : list Hash
}.
Record mux := mkMux {
  mux_Sources : list ValueSource; mux_Program : Program; mux_Destinations : list ValueDestination
}.
Record output := mkOutput {
  o_Source : option ValueSource; o_Program : Program; o_Ordinal : Z; o_StateData : list bytes
}.
Record issuance := mkIssuance {
  is_NonceHash : Hash; is_Value : AssetAmount; is_Destination : option ValueDestination;
  is_AssetDefinition : AssetDefinition; is_Arguments : list bytes; is_Ordinal : Z
}.
(** A spend or a veto input. *)
Record spend := mkSpend {
  sp_SpentOutputId : option Hash; sp_Destination : option ValueDestination;
  sp_Arguments : list bytes; sp_Ordinal : Z
}.
Record coinbase := mkCoinbase { cb_Destination : option ValueDestination; cb_Arbitrary : bytes }.

Inductive Entry :=
  | TxHeader (h : tx_header)
  | Mux (m : mux)
  | OriginalOutput (o : output)
  | VoteOutput (o : output) (Vote : bytes)
  | Retirement (Source : option ValueSource) (Ordinal : Z)
  | Issuance (i : issuance)
  | Spend (s : spend)
  | VetoInput (s : spend)
  | Coinbase (c : coinbase).

#[export] Instance AssetAmount_eq_dec : EqDecision AssetAmount.
Proof. solve_decision. Defined.

#[export] Instance Program_eq_dec : EqDecision Program.
Proof. solve_decision. Defined.
#[export] Instance ValueSource_eq_dec : EqDecision ValueSource.
Proof. solve_decision. Defined.
#[export] Instance ValueDestination_eq_dec : EqDecision ValueDestination.
Proof. solve_decision. Defined.
#[export] Instance AssetDefinition_eq_dec : EqDecision AssetDefinition.
Proof. solve_decision. Defined.
#[export] Instance tx_header_eq_dec : EqDecision tx_header.
Proof. solve_decision. Defined.
#[export] Instance mux_eq_dec : EqDecision mux.
Proof. solve_decision. Defined.
#[export] Instance output_eq_dec : EqDecision output.
Proof. solve_decision. Defined.
#[export] Instance issuance_eq_dec : EqDecision issuance.
Proof. solve_decision. Defined.
#[export] Instance spend_eq_dec : EqDecision spend.
Proof. solve_decision. Defined.
#[export] Instance coinbase_eq_dec : EqDecision coinbase.
Proof. solve_decision. Defined.
#[export] Instance Entry_eq_dec : EqDecision Entry.
Proof. solve_decision. Defined.

(** ** Hashing: entry.go *)

Definition write_hash (h : option Hash) : Wr := Write (default (replicate 32 x00) h).
Definition write_uint64 (v : Z) : Wr := Write (le_bytes 8 v).
Definition write_AssetAmount (v : option AssetAmount) : Wr :=
  match v with None => wr_nil | Some v => write_hash (aa_AssetId v) +++ write_uint64 (aa_Amount v) end.
Definition write_Program (p : Program) : Wr := write_uint64 (VmVersion p) +++ WriteVarstr31 (prog_Code p).
Definition write_ValueSource (s : ValueSource) : Wr :=
  write_hash (src_Ref s) +++ write_AssetAmount (src_Value s) +++ write_uint64 (src_Position s).
Definition write_Source (s : option ValueSource) : Wr :=
  match s with None => wr_nil | Some s => write_ValueSource s end.
Definition write_slice {A} (wr : A -> Wr) (l : list A) : Wr := WriteVarint31 (zlen l) +++ write_all wr l.

Definition typ (e : Entry) : String.string :=
  match e with
  | TxHeader _ => "txheader"
  | Mux _ => "mux1"
  | OriginalOutput _ => "originalOutput1"
  | VoteOutput _ _ => "voteOutput1"
  | Retirement _ _ => "retirement1"
  | Issuance _ => "issuance1"
  | Spend _ => "spend1"
  | VetoInput _ => "vetoInput1"
  | Coinbase _ => "coinbase1"
  end.

(** The methods [writeForHash] of txheader.go, mux.go, original_output.go,
    vote_output.go, retirement.go, issuance.go, spend.go, veto_input.go and
    coinbase.go. *)
Definition TxHeader_writeForHash (h : tx_header) : Wr :=
  write_uint64 (hd_Version h) +++ write_uint64 (hd_TimeRange h) +++ write_slice (fun id => write_hash (Some id)) (hd_ResultIds h).
Definition Mux_writeForHash (m : mux) : Wr := write_slice write_ValueSource (mux_Sources m) +++ write_Program (mux_Program m).
Definition OriginalOutput_writeForHash (o : output) : Wr :=
  write_Source (o_Source o) +++ write_Program (o_Program o) +++ WriteVarstrList (o_StateData o).
Definition VoteOutput_writeForHash (o : output) (vote : bytes) : Wr :=
  write_Source (o_Source o) +++ write_Program (o_Program o) +++ WriteVarstr31 vote +++ WriteVarstrList (o_StateData o).
Definition Retirement_writeForHash (src : option ValueSource) : Wr := write_Source src.
Definition Issuance_writeForHash (i : issuance) : Wr := write_hash (Some (is_NonceHash i)) +++ write_AssetAmount (Some (is_Value i)).
Definition Spend_writeForHash (s : spend) : Wr := write_hash (sp_SpentOutputId s).
Definition VetoInput_writeForHash (s : spend) : Wr := write_hash (sp_SpentOutputId s).
Definition Coinbase_writeForHash (c : coinbase) : Wr := WriteVarstr31 (cb_Arbitrary c).

Definition writeForHash (e : Entry) : Wr :=
  match e with
  | TxHeader h => TxHeader_writeForHash h
  | Mux m => Mux_writeForHash m
  | OriginalOutput o => OriginalOutput_writeForHash o
  | VoteOutput o vote => VoteOutput_writeForHash o vote
  | Retirement src _ => Retirement_writeForHash src
  | Issuance i => Issuance_writeForHash i
  | Spend s => Spend_writeForHash s
  | VetoInput s => VetoInput_writeForHash s
  | Coinbase c => Coinbase_writeForHash c
  end.

Section Ids.
Context {Cr : Crypto}.

(** [EntryID] of an entry with this type whose [writeForHash] writes this body. *)
Definition hash_input (ty : String.string) (body : bytes) : bytes :=
  String.list_byte_of_string "entryid:" ++ String.list_byte_of_string ty ++ [x3a] ++ sha3_256 body.
Definition entry_id (ty : String.string) (w : Wr) : option Hash :=
  match w with inl _ => None | inr body => Some (sha3_256 (hash_input ty body)) end.
Definition EntryID (e : Entry) : option Hash := entry_id (typ e) (writeForHash e).

(** [ComputeAssetID] of asset.go ignores the error of [writeForHash], which
    has then written the version only. *)
Definition ComputeAssetID (d : AssetDefinition) : AssetID :=
  sha3_256 (match write_Program (def_IssuanceProgram d) +++ write_hash (Some (def_Data d)) with
            | inl _ => le_bytes 8 (VmVersion (def_IssuanceProgram d))
            | inr b => b
            end).

(** [None] is the error of an empty amount or asset id. *)
Definition Equal (a other : option AssetAmount) : option bool :=
  match a, other with
  | Some a, Some b =>
      match aa_AssetId a, aa_AssetId b with
      | Some x, Some y => Some ((aa_Amount a =? aa_Amount b) && bool_decide (x = y))
      | _, _ => None
      end
  | _, _ => None
  end.
End Ids.

Lemma Equal_true a b :
  Equal a b = Some true -> exists v id, a = Some v /\ b = Some v /\ aa_AssetId v = Some id.
Proof.
  unfold Equal. destruct a as [[[x|] m]|], b as [[[y|] n]|]; cbn; try done. intros [= H]. zbool.
  apply bool_decide_eq_true in H0. subst. eauto.
Qed.

(** ** What an identifier fixes *)

(** A destination and the arguments of an input are witnesses. *)
Definition hashed (e : Entry) : Entry :=
  match e with
  | TxHeader h => TxHeader (mkTxHeader (hd_Version h) 0 (hd_TimeRange h) (hd_ResultIds h))
  | Mux m => Mux (mkMux (mux_Sources m) (mux_Program m) [])
  | OriginalOutput o => OriginalOutput (mkOutput (o_Source o) (o_Program o) 0 (o_StateData o))
  | VoteOutput o v => VoteOutput (mkOutput (o_Source o) (o_Program o) 0 (o_StateData o)) v
  | Retirement s _ => Retirement s 0
  | Issuance i => Issuance (mkIssuance (is_NonceHash i) (is_Value i) None (mkAssetDefinition (mkProgram 0 []) []) [] 0)
  | Spend s => Spend (mkSpend (sp_SpentOutputId s) None [] 0)
  | VetoInput s => VetoInput (mkSpend (sp_SpentOutputId s) None [] 0)
  | Coinbase c => Coinbase (mkCoinbase None (cb_Arbitrary c))
  end.

Definition u64_ok (z : Z) : Prop := 0 <= z <= MaxUint64.
Definition id_ok (h : option Hash) : Prop := exists b, h = Some b /\ length b = 32%nat.
Definition amount_ok (v : option AssetAmount) : Prop :=
  exists a, v = Some a /\ id_ok (aa_AssetId a) /\ u64_ok (aa_Amount a).
Definition source_ok (s : ValueSource) : Prop := id_ok (src_Ref s) /\ amount_ok (src_Value s) /\ u64_ok (src_Position s).
Definition program_ok (p : Program) : Prop := u64_ok (VmVersion p).
Definition output_ok (o : output) : Prop := (exists s, o_Source o = Some s /\ source_ok s) /\ program_ok (o_Program o).

(** Every pointer that is hashed is set, and every number has 64 bits. *)
Definition entry_ok (e : Entry) : Prop :=
  match e with
  | TxHeader h => u64_ok (hd_Version h) /\ u64_ok (hd_TimeRange h) /\ Forall (fun id => length id = 32%nat) (hd_ResultIds h)
  | Mux m => Forall source_ok (mux_Sources m) /\ program_ok (mux_Program m)
  | OriginalOutput o | VoteOutput o _ => output_ok o
  | Retirement s _ => exists s', s = Some s' /\ source_ok s'
  | Issuance i => length (is_NonceHash i) = 32%nat /\ amount_ok (Some (is_Value i))
  | Spend s | VetoInput s => id_ok (sp_SpentOutputId s)
  | Coinbase _ => True
  end.

(** *** Readers of the hashed bytes *)

Definition rd_uint64 : Rd Z := b ← ReadFull 8; mret (le_val b).
Definition rd_hash : Rd (option Hash) := b ← ReadFull 32; mret (Some b).
Definition rd_AssetAmount : Rd (option AssetAmount) :=
  id ← rd_hash; n ← rd_uint64; mret (Some (mkAssetAmount id n)).
Definition rd_ValueSource : Rd ValueSource :=
  ref ← rd_hash; v ← rd_AssetAmount; p ← rd_uint64; mret (mkValueSource ref v p).
Definition rd_Program : Rd Program := v ← rd_uint64; c ← ReadVarstr31; mret (mkProgram v c).

Lemma rt_uint64 v : u64_ok v -> roundtrips (write_uint64 v) rd_uint64 v.
Proof.
  intros Hv. apply (rt_last _ _ le_val (le_bytes 8 v)); [apply rt_full, length_le_bytes|].
  rewrite le_val_bytes by apply Hv. change (256 ^ Z.of_nat 8) with (MaxUint64 + 1). apply Z.mod_small. unfold u64_ok in Hv. lia.
Qed.
Lemma rt_hash h : id_ok h -> roundtrips (write_hash h) rd_hash h.
Proof. intros (b & -> & Hb). apply (rt_last _ _ Some b); [by apply rt_full|done]. Qed.
Lemma rt_AssetAmount v : amount_ok v -> roundtrips (write_AssetAmount v) rd_AssetAmount v.
Proof.
  intros ([id n] & -> & Hid & Hn). cbn in Hid, Hn. eapply rt_bind; [by apply rt_hash|].
  by eapply (rt_last _ _ (fun n => Some (mkAssetAmount id n))); [apply rt_uint64|].
Qed.
Lemma rt_ValueSource s : source_ok s -> roundtrips (write_ValueSource s) rd_ValueSource s.
Proof.
  destruct s as [r v p]. intros (Hr & Hv & Hp). cbn in Hr, Hv, Hp. eapply rt_bind; [by apply rt_hash|].
  eapply rt_bind; [by apply rt_AssetAmount|]. by eapply (rt_last _ _ (fun p => mkValueSource r v p)); [apply rt_uint64|].
Qed.
Lemma rt_Program p : program_ok p -> roundtrips (write_Program p) rd_Program p.
Proof.
  destruct p as [v c]. intros Hv. eapply rt_bind; [by apply rt_uint64|].
  by eapply (rt_last _ _ (mkProgram v)); [apply rt_varstr|].
Qed.

(** The hashed fields of an entry of the type of [e]. *)
Definition rd_entry (e : Entry) : Rd Entry :=
  match e with
  | TxHeader _ => v ← rd_uint64; t ← rd_uint64; l ← (n ← ReadVarint31; read_n (Z.to_nat n) (ReadFull 32));
                  mret (TxHeader (mkTxHeader v 0 t l))
  | Mux _ => l ← (n ← ReadVarint31; read_n (Z.to_nat n) rd_ValueSource); p ← rd_Program; mret (Mux (mkMux l p []))
  | OriginalOutput _ => s ← rd_ValueSource; p ← rd_Program; d ← ReadVarstrList; mret (OriginalOutput (mkOutput (Some s) p 0 d))
  | VoteOutput _ _ => s ← rd_ValueSource; p ← rd_Program; v ← ReadVarstr31; d ← ReadVarstrList;
                      mret (VoteOutput (mkOutput (Some s) p 0 d) v)
  | Retirement _ _ => s ← rd_ValueSource; mret (Retirement (Some s) 0)
  | Issuance _ => h ← ReadFull 32; v ← rd_AssetAmount;
                  mret (Issuance (mkIssuance h (default (mkAssetAmount None 0) v) None (mkAssetDefinition (mkProgram 0 []) []) [] 0))
  | Spend _ => h ← rd_hash; mret (Spend (mkSpend h None [] 0))
  | VetoInput _ => h ← rd_hash; mret (VetoInput (mkSpend h None [] 0))
  | Coinbase _ => a ← ReadVarstr31; mret (Coinbase (mkCoinbase None a))
  end.

Lemma rt_entry e : entry_ok e -> roundtrips (writeForHash e) (rd_entry e) (hashed e).
Proof.
  destruct e as [h|m|o|o v|s n|i|s|s|c]; cbn [entry_ok writeForHash rd_entry hashed].
  - intros (Hv & Ht & Hl). eapply rt_bind; [by apply rt_uint64|]. eapply rt_bind; [by apply rt_uint64|].
    eapply (rt_last _ _ (fun l => TxHeader (mkTxHeader _ 0 _ l))); [|done]. apply rt_list.
    eapply Forall_impl; [exact Hl|]. intros id Hid. by apply rt_full.
  - intros (Hl & Hp). eapply rt_bind; [apply rt_list; eapply Forall_impl; [exact Hl|apply rt_ValueSource]|].
    by eapply (rt_last _ _ (fun p => Mux (mkMux _ p []))); [apply rt_Program|].
  - intros ((s & Hs & Hok) & Hp). unfold OriginalOutput_writeForHash, VoteOutput_writeForHash, write_Source. rewrite Hs. eapply rt_bind; [by apply rt_ValueSource|]. eapply rt_bind; [by apply rt_Program|].
    by eapply (rt_last _ _ (fun d => OriginalOutput (mkOutput _ _ 0 d))); [apply rt_varstr_list|].
  - intros ((s & Hs & Hok) & Hp). unfold OriginalOutput_writeForHash, VoteOutput_writeForHash, write_Source. rewrite Hs. eapply rt_bind; [by apply rt_ValueSource|]. eapply rt_bind; [by apply rt_Program|].
    eapply rt_bind; [apply rt_varstr|]. by eapply (rt_last _ _ (fun d => VoteOutput (mkOutput _ _ 0 d) _)); [apply rt_varstr_list|].
  - intros (s' & -> & Hs). by eapply (rt_last _ _ (fun s => Retirement (Some s) 0)); [apply rt_ValueSource|].
  - intros (Hn & Hv). eapply rt_bind; [by apply rt_full|].
    eapply (rt_last _ _ (fun v => Issuance (mkIssuance _ (default _ v) None _ [] 0))); [by apply rt_AssetAmount|done].
  - intros Hs. by eapply (rt_last _ _ (fun h => Spend (mkSpend h None [] 0))); [apply rt_hash|].
  - intros Hs. by eapply (rt_last _ _ (fun h => VetoInput (mkSpend h None [] 0))); [apply rt_hash|].
  - intros _. by eapply (rt_last _ _ (fun a => Coinbase (mkCoinbase None a))); [apply rt_varstr|].
Qed.

Section Binding.
Context {Cr : Crypto}.

(** Two different strings, one hashed here and one there, with one hash. *)
Definition collision (A B : list bytes) : Prop := exists a b, a ∈ A /\ b ∈ B /\ a <> b /\ sha3_256 a = sha3_256 b.

Lemma collision_mono A A' B B' : A ⊆ A' -> B ⊆ B' -> collision A B -> collision A' B'.
Proof. intros HA HB (a & b & Ha & Hb & Hne & Heq). exists a, b. split_and!; auto. Qed.
Lemma collision_cons a b A B : collision A B -> collision (a :: A) (b :: B).
Proof. apply collision_mono; apply list_subseteq_cons; reflexivity. Qed.
Lemma collision_app_l A A' B B' : collision A B -> collision (A ++ A') (B ++ B').
Proof. apply collision_mono; apply list_subseteq_app_l; reflexivity. Qed.
Lemma collision_app_r A A' B B' : collision A' B' -> collision (A ++ A') (B ++ B').
Proof. apply collision_mono; apply list_subseteq_app_r; reflexivity. Qed.
Lemma collision_or A B a b : a ∈ A -> b ∈ B -> sha3_256 a = sha3_256 b -> a = b \/ collision A B.
Proof. intros Ha Hb Heq. destruct (decide (a = b)); [by left|right]. by exists a, b. Qed.

(** What is hashed on the way to an identifier. *)
Definition hash_inputs (ty : String.string) (w : Wr) : list bytes :=
  match w with inl _ => [] | inr body => [hash_input ty body; body] end.
Definition preimages (e : Entry) : list bytes := hash_inputs (typ e) (writeForHash e).
Definition collides (e1 e2 : Entry) : Prop := collision (preimages e1) (preimages e2).

Lemma typ_prefix e1 e2 s1 s2 :
  String.list_byte_of_string (typ e1) ++ x3a :: s1 = String.list_byte_of_string (typ e2) ++ x3a :: s2 -> typ e1 = typ e2 /\ s1 = s2.
Proof. destruct e1, e2; cbn; intros H; simplify_eq; done. Qed.

Lemma rd_entry_typ e1 e2 : typ e1 = typ e2 -> rd_entry e1 = rd_entry e2.
Proof. by destruct e1, e2. Qed.

Lemma entry_id_binding ty w1 w2 id :
  entry_id ty w1 = Some id -> entry_id ty w2 = Some id -> w1 = w2 \/ collision (hash_inputs ty w1) (hash_inputs ty w2).
Proof.
  destruct w1 as [|b1], w2 as [|b2]; cbn; try done. intros [= <-] [= He].
  destruct (collision_or [hash_input ty b1; b1] [hash_input ty b2; b2] (hash_input ty b1) (hash_input ty b2)) as [Hp|]; [left..|done| |by right].
  apply app_inv_head, app_inv_head, app_inv_head in Hp.
  destruct (collision_or [hash_input ty b1; b1] [hash_input ty b2; b2] b1 b2) as [->|]; [right; left..|done|by left|by right].
Qed.

(** C14.  An entry identifier binds the hashed contents: two well-formed entries
    with one identifier have the same type and equal hashed fields, or two
    different byte strings hashed on the way to their identifiers collide under
    SHA3. *)
Theorem EntryID_binding e1 e2 id :
  entry_ok e1 -> entry_ok e2 -> EntryID e1 = Some id -> EntryID e2 = Some id -> hashed e1 = hashed e2 \/ collides e1 e2.
Proof.
  unfold EntryID, collides, collision, preimages. intros Ok1 Ok2 H1 H2.
  destruct (writeForHash e1) as [|b1] eqn:W1; [done|]. destruct (writeForHash e2) as [|b2] eqn:W2; [done|].
  apply (inj Some) in H1, H2. rewrite <- H2 in H1. clear H2. match type of H1 with sha3_256 ?x = sha3_256 ?y => set (p1 := x) in *; set (p2 := y) in * end.
  destruct (decide (p1 = p2)) as [Hp|Hp]; [|right; exists p1, p2; split_and!; [left..|done|done]].
  unfold p1, p2 in Hp. apply app_inv_head, typ_prefix in Hp as [Ht Hs].
  destruct (decide (b1 = b2)) as [->|Hb]; [|right; exists b1, b2; split_and!; [right; left..|done|done]].
  left. destruct (roundtrips_inj (writeForHash e1) (writeForHash e2) (rd_entry e1) (hashed e1) (hashed e2) b2 b2 [] []); try done.
  - by apply rt_entry.
  - rewrite (rd_entry_typ _ _ Ht). by apply rt_entry.
Qed.
End Binding.

(** Two spends of one output, with different arguments and destinations. *)
Definition spend_a : Entry := Spend (mkSpend (Some (replicate 32 x01)) None [[x05]] 0).
Definition spend_b : Entry := Spend (mkSpend (Some (replicate 32 x01)) None [] 7).

Lemma EntryID_binding_witness :
  hashed spend_a = hashed spend_b \/ collides (Cr := StubCrypto) spend_a spend_b.
Proof.
  apply (EntryID_binding (Cr := StubCrypto) spend_a spend_b (default [] (EntryID (Cr := StubCrypto) spend_a))).
  - exists (replicate 32 x01). split; reflexivity.
  - exists (replicate 32 x01). split; reflexivity.
  - vm_compute. reflexivity.
  - vm_compute. reflexivity.
Defined.
