(* ===== verification/TxData.v ===== *)
(** * Transactions and their wire format: protocol/bc/types

    [TxData] with its inputs and outputs, and the [readFrom] and [writeTo]
    methods of transaction.go, txinput.go, txoutput.go, spend_commitment.go,
    output_commitment.go, spend.go, issuance.go, veto_input.go, coinbase.go and
    vote_output.go.  A method that fills its receiver returns the value it
    fills; a field that is not read keeps its zero value.  The text form is the
    hexadecimal of the bytes. *)

From S2P Require Import Prelude Encoding VMTypes Entries.
From Stdlib Require Import Strings.Byte.
#[local] Open Scope Z_scope.

(** ** Data *)

Record SpendCommitment := mkSpendCommitment {
  sc_AssetAmount : AssetAmount;
  sc_SourceID : Hash;
  sc_SourcePosition : Z;
  sc_VMVersion : Z;
  sc_ControlProgram : bytes;
  sc_StateData : list bytes;
}.

Record OutputCommitment := mkOutputCommitment {
  oc_AssetAmount : AssetAmount;
  oc_VMVersion : Z;
  oc_ControlProgram : bytes;
  oc_StateData : list bytes;
}.

Record IssuanceInput := mkIssuanceInput {
  ii_Nonce : bytes;
  ii_Amount : Z;
  ii_AssetDefinition : bytes;
  ii_VMVersion : Z;
  ii_IssuanceProgram : bytes;
  ii_Arguments : list bytes;
  ii_assetId : AssetID;
}.

Inductive TypedInput :=
  | TIssuance (i : IssuanceInput)
  | TSpend (SpendCommitmentSuffix : bytes) (Arguments : list bytes) (c : SpendCommitment)
  | TCoinbase (Arbitrary : bytes)
  | TVeto (VetoCommitmentSuffix : bytes) (Arguments : list bytes) (Vote : bytes) (c : SpendCommitment).

(** The interface [TypedInput] is nil when the asset version is not 1. *)
Record TxInput := mkTxInput {
  ti_AssetVersion : Z;
  ti_TypedInput : option TypedInput;
  ti_CommitmentSuffix : bytes;
  ti_WitnessSuffix : bytes;
}.

(** An original output has no data of its own. *)
Inductive TypedOutput := originalTxOutput | TVoteOutput (Vote : bytes).

Record TxOutput := mkTxOutput {
  to_AssetVersion : Z;
  to_Commitment : OutputCommitment;
  to_CommitmentSuffix : bytes;
  to_TypedOutput : TypedOutput;
}.

Record TxData := mkTxData {
  Version : Z;
  SerializedSize : Z;
  TimeRange : Z;
  Inputs : list TxInput;
  Outputs : list TxOutput;
}.

#[export] Instance IssuanceInput_eq_dec : EqDecision IssuanceInput.
Proof. solve_decision. Defined.
#[export] Instance SpendCommitment_eq_dec : EqDecision SpendCommitment.
Proof. solve_decision. Defined.
#[export] Instance TypedInput_eq_dec : EqDecision TypedInput.
Proof. solve_decision. Defined.
#[export] Instance TxInput_eq_dec : EqDecision TxInput.
Proof. solve_decision. Defined.
#[export] Instance OutputCommitment_eq_dec : EqDecision OutputCommitment.
Proof. solve_decision. Defined.
#[export] Instance TypedOutput_eq_dec : EqDecision TypedOutput.
Proof. solve_decision. Defined.
#[export] Instance TxOutput_eq_dec : EqDecision TxOutput.
Proof. solve_decision. Defined.
#[export] Instance TxData_eq_dec : EqDecision TxData.
Proof. solve_decision. Defined.

Definition zeroOutputCommitment : OutputCommitment := mkOutputCommitment (mkAssetAmount None 0) 0 [] [].

Section Wire.
Context {Cr : Crypto}.

(** ** issuance.go *)

Definition AssetDefinitionHash (ii : IssuanceInput) : Hash := sha3_256 (ii_AssetDefinition ii).
Definition NonceHash (ii : IssuanceInput) : Hash := sha3_256 (ii_Nonce ii).

Definition asset_definition (ii : IssuanceInput) : AssetDefinition :=
  mkAssetDefinition (mkProgram (ii_VMVersion ii) (ii_IssuanceProgram ii)) (AssetDefinitionHash ii).
Definition calcAssetID (ii : IssuanceInput) : AssetID := ComputeAssetID (asset_definition ii).

Definition IsZero (id : bytes) : bool := bool_decide (id = replicate 32 x00).
Definition issuance_AssetID (ii : IssuanceInput) : AssetID := if IsZero (ii_assetId ii) then calcAssetID ii else ii_assetId ii.

(** ** Writing *)

(** [AssetAmount.WriteTo] and [ReadFrom] of bc/asset.go. *)
Definition write_amount (a : AssetAmount) : Wr :=
  match aa_AssetId a with None => inl NilPointer | Some id => Write id +++ WriteVarint63 (aa_Amount a) end.
Definition read_amount : Rd AssetAmount := id ← ReadFull 32; n ← ReadVarint63; mret (mkAssetAmount (Some id) n).

(** spend_commitment.go: the suffix is part of the contents, and is written
    again behind them. *)
Definition sc_writeContents (suffix : bytes) (assetVersion : Z) (sc : SpendCommitment) : Wr :=
  (if assetVersion =? 1 then
     Write (sc_SourceID sc) +++ write_amount (sc_AssetAmount sc) +++ WriteVarint63 (sc_SourcePosition sc)
     +++ WriteVarint63 (sc_VMVersion sc) +++ WriteVarstr31 (sc_ControlProgram sc) +++ WriteVarstrList (sc_StateData sc)
   else wr_nil)
  +++ Write suffix.
Definition sc_writeExtensibleString (suffix : bytes) (assetVersion : Z) (sc : SpendCommitment) : Wr :=
  WriteExtensibleString suffix (sc_writeContents suffix assetVersion sc).

Definition oc_writeTo (assetVersion : Z) (oc : OutputCommitment) : Wr :=
  if assetVersion =? 1 then
    write_amount (oc_AssetAmount oc) +++ WriteVarint63 (oc_VMVersion oc) +++ WriteVarstr31 (oc_ControlProgram oc)
    +++ WriteVarstrList (oc_StateData oc)
  else wr_nil.

Definition IssuanceInputType : Z := 0.
Definition SpendInputType : Z := 1.
Definition CoinbaseInputType : Z := 2.
Definition VetoInputType : Z := 3.

(** issuance.go *)
Definition issuance_writeCommitment (ii : IssuanceInput) : Wr :=
  Write [z2b IssuanceInputType] +++ WriteVarstr31 (ii_Nonce ii) +++ Write (issuance_AssetID ii) +++ WriteVarint63 (ii_Amount ii).
Definition issuance_writeWitness (ii : IssuanceInput) : Wr :=
  WriteVarstr31 (ii_AssetDefinition ii) +++ WriteVarint63 (ii_VMVersion ii)
  +++ WriteVarstr31 (ii_IssuanceProgram ii) +++ WriteVarstrList (ii_Arguments ii).

(** spend.go *)
Definition spend_writeCommitment (suffix : bytes) (assetVersion : Z) (sc : SpendCommitment) : Wr :=
  Write [z2b SpendInputType] +++ sc_writeExtensibleString suffix assetVersion sc.
Definition spend_writeWitness (args : list bytes) : Wr := WriteVarstrList args.

(** coinbase.go *)
Definition coinbase_writeCommitment (arbitrary : bytes) : Wr := Write [z2b CoinbaseInputType] +++ WriteVarstr31 arbitrary.
Definition coinbase_writeWitness : Wr := wr_nil.

(** veto_input.go *)
Definition veto_writeCommitment (suffix : bytes) (assetVersion : Z) (vote : bytes) (sc : SpendCommitment) : Wr :=
  Write [z2b VetoInputType] +++ sc_writeExtensibleString suffix assetVersion sc +++ WriteVarstr31 vote.
Definition veto_writeWitness (args : list bytes) : Wr := WriteVarstrList args.

(** The methods of the interface [TypedInput]. *)
Definition writeCommitment (assetVersion : Z) (t : TypedInput) : Wr :=
  match t with
  | TIssuance ii => issuance_writeCommitment ii
  | TSpend suffix _ sc => spend_writeCommitment suffix assetVersion sc
  | TCoinbase arbitrary => coinbase_writeCommitment arbitrary
  | TVeto suffix _ vote sc => veto_writeCommitment suffix assetVersion vote sc
  end.
Definition InputType (t : TypedInput) : Z :=
  match t with
  | TIssuance _ => IssuanceInputType
  | TSpend _ _ _ => SpendInputType
  | TCoinbase _ => CoinbaseInputType
  | TVeto _ _ _ _ => VetoInputType
  end.
Definition writeWitness (t : TypedInput) : Wr :=
  match t with
  | TIssuance ii => issuance_writeWitness ii
  | TSpend _ args _ => spend_writeWitness args
  | TCoinbase _ => coinbase_writeWitness
  | TVeto _ args _ _ => veto_writeWitness args
  end.

Definition writeInputCommitment (t : TxInput) : Wr :=
  if ti_AssetVersion t =? 1 then
    match ti_TypedInput t with None => inl NilPointer | Some ti => writeCommitment (ti_AssetVersion t) ti end
  else wr_nil.
Definition writeInputWitness (t : TxInput) : Wr :=
  if ti_AssetVersion t =? 1 then
    match ti_TypedInput t with None => inl NilPointer | Some ti => writeWitness ti end
  else wr_nil.

Definition ti_writeTo (t : TxInput) : Wr :=
  WriteVarint63 (ti_AssetVersion t)
  +++ WriteExtensibleString (ti_CommitmentSuffix t) (writeInputCommitment t)
  +++ WriteExtensibleString (ti_WitnessSuffix t) (writeInputWitness t).

Definition OutputType (t : TypedOutput) : Z := match t with originalTxOutput => 0 | TVoteOutput _ => 1 end.
(** original_output.go and vote_output.go *)
Definition original_writeTo : Wr := wr_nil.
Definition vote_writeTo (vote : bytes) : Wr := WriteVarstr31 vote.
Definition typed_writeTo (t : TypedOutput) : Wr :=
  match t with originalTxOutput => original_writeTo | TVoteOutput vote => vote_writeTo vote end.

Definition to_writeTo (t : TxOutput) : Wr :=
  WriteVarint63 (to_AssetVersion t) +++ Write [z2b (OutputType (to_TypedOutput t))]
  +++ WriteExtensibleString (to_CommitmentSuffix t)
        (typed_writeTo (to_TypedOutput t) +++ oc_writeTo (to_AssetVersion t) (to_Commitment t))
  +++ WriteVarstr31 [].

Definition serRequired : Z := 7.

Definition tx_writeTo (tx : TxData) : Wr :=
  Write [z2b serRequired] +++ WriteVarint63 (Version tx) +++ WriteVarint63 (TimeRange tx)
  +++ WriteVarint31 (zlen (Inputs tx)) +++ write_all ti_writeTo (Inputs tx)
  +++ WriteVarint31 (zlen (Outputs tx)) +++ write_all to_writeTo (Outputs tx).

Definition MarshalText (tx : TxData) : Wr :=
  match tx_writeTo tx with inl e => inl e | inr b => inr (hex_encode b) end.

(** ** Reading *)

Definition sc_readFrom (assetVersion : Z) : Rd (SpendCommitment * bytes) :=
  ReadExtensibleString
    (if assetVersion =? 1 then
       id ← ReadFull 32;
       a ← read_amount;
       pos ← ReadVarint63;
       v ← ReadVarint63;
       rd_require (v =? 1) ErrVMVersion ;;
       prog ← ReadVarstr31;
       st ← ReadVarstrList;
       mret (mkSpendCommitment a id pos v prog st)
     else mret (mkSpendCommitment (mkAssetAmount None 0) (replicate 32 x00) 0 0 [] [])).

Definition oc_readFrom (assetVersion : Z) : Rd OutputCommitment :=
  if assetVersion =? 1 then
    a ← read_amount;
    v ← ReadVarint63;
    rd_require (v =? 1) ErrVMVersion ;;
    prog ← ReadVarstr31;
    st ← ReadVarstrList;
    mret (mkOutputCommitment a v prog st)
  else mret zeroOutputCommitment.

(** A fresh input has only what [readCommitment] fills in. *)
Definition issuance_readCommitment : Rd TypedInput :=
  nonce ← ReadVarstr31;
  id ← ReadFull 32;
  n ← ReadVarint63;
  mret (TIssuance (mkIssuanceInput nonce n [] 0 [] [] id)).
Definition spend_readCommitment : Rd TypedInput :=
  '(sc, suffix) ← sc_readFrom 1;
  mret (TSpend suffix [] sc).
Definition coinbase_readCommitment : Rd TypedInput :=
  a ← ReadVarstr31;
  mret (TCoinbase a).
Definition veto_readCommitment : Rd TypedInput :=
  '(sc, suffix) ← sc_readFrom 1;
  vote ← ReadVarstr31;
  mret (TVeto suffix [] vote sc).

(** [parseTypedInput], and [readCommitment] of the type it finds. *)
Definition parseTypedInput : Rd (Rd TypedInput) :=
  ty ← ReadFull 1;
  let ty := b2z (default x00 (head ty)) in
  if ty =? IssuanceInputType then mret issuance_readCommitment
  else if ty =? SpendInputType then mret spend_readCommitment
  else if ty =? CoinbaseInputType then mret coinbase_readCommitment
  else if ty =? VetoInputType then mret veto_readCommitment
  else rd_fail ErrInputType.
Definition readCommitment : Rd TypedInput := rd ← parseTypedInput; rd.

Definition issuance_readWitness (ii : IssuanceInput) : Rd TypedInput :=
  def ← ReadVarstr31;
  v ← ReadVarint63;
  prog ← ReadVarstr31;
  let ii := mkIssuanceInput (ii_Nonce ii) (ii_Amount ii) def v prog [] (ii_assetId ii) in
  rd_require (bool_decide (calcAssetID ii = ii_assetId ii)) errBadAssetID ;;
  args ← ReadVarstrList;
  mret (TIssuance (mkIssuanceInput (ii_Nonce ii) (ii_Amount ii) def v prog args (ii_assetId ii))).
Definition spend_readWitness (suffix : bytes) (sc : SpendCommitment) : Rd TypedInput :=
  args ← ReadVarstrList; mret (TSpend suffix args sc).
Definition veto_readWitness (suffix vote : bytes) (sc : SpendCommitment) : Rd TypedInput :=
  args ← ReadVarstrList; mret (TVeto suffix args vote sc).
Definition readWitness (t : TypedInput) : Rd TypedInput :=
  match t with
  | TIssuance ii => issuance_readWitness ii
  | TSpend suffix _ sc => spend_readWitness suffix sc
  | TVeto suffix _ vote sc => veto_readWitness suffix vote sc
  | TCoinbase _ => mret t
  end.

Definition ti_readFrom : Rd TxInput :=
  v ← ReadVarint63;
  '(t, cs) ← ReadExtensibleString (if v =? 1 then t ← readCommitment; mret (Some t) else mret None);
  '(t, ws) ← ReadExtensibleString (match t with
                                   | Some t => if v =? 1 then t ← readWitness t; mret (Some t) else mret (Some t)
                                   | None => mret None
                                   end);
  mret (mkTxInput v t cs ws).

Definition original_readFrom : Rd TypedOutput := mret originalTxOutput.
Definition vote_readFrom : Rd TypedOutput := vote ← ReadVarstr31; mret (TVoteOutput vote).
(** [parseTypedOutput], and [readFrom] of the type it finds. *)
Definition parseTypedOutput : Rd (Rd TypedOutput) :=
  ty ← ReadFull 1;
  let ty := b2z (default x00 (head ty)) in
  if ty =? 0 then mret original_readFrom else if ty =? 1 then mret vote_readFrom else rd_fail ErrOutputType.

Definition to_readFrom : Rd TxOutput :=
  v ← ReadVarint63;
  typed ← parseTypedOutput;
  '(t, oc, suffix) ← ReadExtensibleString
    (t ← typed;
     oc ← oc_readFrom v;
     mret (t, oc));
  _ ← ReadVarstr31;
  mret (mkTxOutput v oc suffix t).

Definition tx_readFrom : Rd TxData := fun r0 =>
  (flags ← ReadFull 1;
   rd_require (b2z (default x00 (head flags)) =? serRequired) ErrSerFlags ;;
   v ← ReadVarint63;
   t ← ReadVarint63;
   n ← ReadVarint31;
   ins ← read_n (Z.to_nat n) ti_readFrom;
   m ← ReadVarint31;
   outs ← read_n (Z.to_nat m) to_readFrom;
   (fun r => inr (mkTxData v (zlen r0 - zlen r) t ins outs, r)) : Rd TxData) r0.

Definition UnmarshalText (p : bytes) : wire_error + TxData :=
  match hex_decode p with
  | None => inl ErrHex
  | Some b =>
      match tx_readFrom b with
      | inl e => inl e
      | inr (tx, r) => if zlen r >? 0 then inl ErrTrailing else inr tx
      end
  end.
End Wire.

(** ** The round trip *)

Definition amount_wf (a : AssetAmount) : Prop := id_ok (aa_AssetId a) /\ 0 <= aa_Amount a.
Definition sc_wf (sc : SpendCommitment) : Prop :=
  amount_wf (sc_AssetAmount sc) /\ length (sc_SourceID sc) = 32%nat /\ 0 <= sc_SourcePosition sc /\ sc_VMVersion sc = 1.
Definition oc_wf (oc : OutputCommitment) : Prop := amount_wf (oc_AssetAmount oc) /\ oc_VMVersion oc = 1.

Section RoundTrip.
Context {Cr : Crypto}.

(** An issuance carries the id of its asset, as the input does after reading. *)
Definition typed_wf (t : TypedInput) : Prop :=
  match t with
  | TIssuance ii => length (ii_assetId ii) = 32%nat /\ IsZero (ii_assetId ii) = false /\ calcAssetID ii = ii_assetId ii
                    /\ 0 <= ii_Amount ii /\ 0 <= ii_VMVersion ii
  | TSpend _ _ sc | TVeto _ _ _ sc => sc_wf sc
  | TCoinbase _ => True
  end.
Definition input_wf (t : TxInput) : Prop :=
  0 <= ti_AssetVersion t
  /\ match ti_TypedInput t with Some ty => ti_AssetVersion t = 1 /\ typed_wf ty | None => ti_AssetVersion t <> 1 end.
Definition output_wf (t : TxOutput) : Prop :=
  0 <= to_AssetVersion t
  /\ if to_AssetVersion t =? 1 then oc_wf (to_Commitment t) else to_Commitment t = zeroOutputCommitment.
Definition tx_wf (tx : TxData) : Prop :=
  0 <= Version tx /\ 0 <= TimeRange tx /\ Forall input_wf (Inputs tx) /\ Forall output_wf (Outputs tx).

(** What comes back: the suffix of a spend commitment is doubled. *)
Definition typed_back (t : TypedInput) : TypedInput :=
  match t with
  | TSpend suffix args sc => TSpend (suffix ++ suffix) args sc
  | TVeto suffix args vote sc => TVeto (suffix ++ suffix) args vote sc
  | _ => t
  end.
Definition input_back (t : TxInput) : TxInput :=
  mkTxInput (ti_AssetVersion t) (typed_back <$> ti_TypedInput t) (ti_CommitmentSuffix t) (ti_WitnessSuffix t).
Definition tx_back (size : Z) (tx : TxData) : TxData :=
  mkTxData (Version tx) size (TimeRange tx) (input_back <$> Inputs tx) (Outputs tx).

Lemma rt_amount a : amount_wf a -> roundtrips (write_amount a) read_amount a.
Proof.
  destruct a as [id n]. intros [(b & Hid & Hb) Hn]. cbn in Hid, Hn. subst id.
  eapply rt_bind; [by apply rt_full|]. by eapply (rt_last _ _ (mkAssetAmount _)); [apply rt_varint63|].
Qed.

Lemma WriteExtensibleString_app s t w : WriteExtensibleString s (w +++ Write t) = WriteExtensibleString (t ++ s) w.
Proof. unfold WriteExtensibleString, wr_app, Write. destruct w as [e|c]; [done|]. by rewrite <- app_assoc. Qed.

Lemma rt_sc suffix sc :
  sc_wf sc -> roundtrips (sc_writeExtensibleString suffix 1 sc) (sc_readFrom 1) (sc, suffix ++ suffix).
Proof.
  destruct sc as [a id pos v prog st]. intros (Ha & Hid & Hpos & Hv). cbn in Ha, Hid, Hpos, Hv. subst v.
  unfold sc_writeExtensibleString, sc_writeContents. rewrite WriteExtensibleString_app. apply rt_ext.
  eapply rt_bind; [by apply rt_full|]. eapply rt_bind; [by apply rt_amount|].
  do 2 (eapply rt_bind; [by apply rt_varint63|]). apply rt_require; [done|].
  eapply rt_bind; [apply rt_varstr|]. by eapply (rt_last _ _ (mkSpendCommitment _ _ _ _ _)); [apply rt_varstr_list|].
Qed.

(** [readWitness] continues the value [readCommitment] left. *)
Definition before_witness (t : TypedInput) : TypedInput :=
  match t with
  | TIssuance ii => TIssuance (mkIssuanceInput (ii_Nonce ii) (ii_Amount ii) [] 0 [] [] (ii_assetId ii))
  | TSpend suffix _ sc => TSpend (suffix ++ suffix) [] sc
  | TVeto suffix _ vote sc => TVeto (suffix ++ suffix) [] vote sc
  | TCoinbase a => TCoinbase a
  end.

(** The type byte selects the reader of the rest. *)
Lemma rt_input_type t w back :
  roundtrips w (match t with TIssuance _ => issuance_readCommitment | TSpend _ _ _ => spend_readCommitment
                | TCoinbase _ => coinbase_readCommitment | TVeto _ _ _ _ => veto_readCommitment end) back ->
  roundtrips (Write [z2b (InputType t)] +++ w) readCommitment back.
Proof.
  intros H. unfold readCommitment, parseTypedInput.
  assert (Hw : roundtrips (Write [z2b (InputType t)]) parseTypedInput
    (match t with TIssuance _ => issuance_readCommitment | TSpend _ _ _ => spend_readCommitment
     | TCoinbase _ => coinbase_readCommitment | TVeto _ _ _ _ => veto_readCommitment end)) by (intros b [= <-]; by destruct t).
  by eapply rt_bind.
Qed.

Lemma rt_commitment t : typed_wf t -> roundtrips (writeCommitment 1 t) readCommitment (before_witness t).
Proof.
  destruct t as [ii|suffix args sc|a|suffix args vote sc];
    cbn [typed_wf writeCommitment before_witness]; intros Hw;
    [apply (rt_input_type (TIssuance ii))|apply (rt_input_type (TSpend suffix args sc))|apply (rt_input_type (TCoinbase a))
    |apply (rt_input_type (TVeto suffix args vote sc))].
  - destruct Hw as (Hl & Hz & _ & Hn & _). eapply rt_bind; [apply rt_varstr|]. unfold issuance_AssetID. rewrite Hz.
    eapply rt_bind; [by apply rt_full|].
    by eapply (rt_last _ _ (fun n => TIssuance (mkIssuanceInput _ n [] 0 [] [] _))); [apply rt_varint63|].
  - by eapply rt_end; [apply rt_sc|].
  - by eapply (rt_last _ _ TCoinbase); [apply rt_varstr|].
  - eapply rt_bind; [by apply rt_sc|]. by eapply (rt_last _ _ (fun vote => TVeto _ [] vote sc)); [apply rt_varstr|].
Qed.

Lemma rt_witness t : typed_wf t -> roundtrips (writeWitness t) (readWitness (before_witness t)) (typed_back t).
Proof.
  destruct t as [ii|suffix args sc|a|suffix args vote sc]; cbn [typed_wf writeWitness before_witness readWitness typed_back];
    unfold issuance_writeWitness, spend_writeWitness, coinbase_writeWitness, veto_writeWitness; intros Hw.
  - destruct ii as [nonce n def v prog args id]. destruct Hw as (_ & _ & Hc & _ & Hv). cbn in Hc, Hv.
    eapply rt_bind; [apply rt_varstr|]. eapply rt_bind; [by apply rt_varint63|]. eapply rt_bind; [apply rt_varstr|].
    cbn zeta. apply rt_require; [by apply bool_decide_eq_true|].
    by eapply (rt_last _ _ (fun args => TIssuance (mkIssuanceInput _ _ def v prog args _))); [apply rt_varstr_list|].
  - by eapply (rt_last _ _ (fun args => TSpend _ args sc)); [apply rt_varstr_list|].
  - apply rt_ret.
  - by eapply (rt_last _ _ (fun args => TVeto _ args vote sc)); [apply rt_varstr_list|].
Qed.

Lemma rt_input t : input_wf t -> roundtrips (ti_writeTo t) ti_readFrom (input_back t).
Proof.
  destruct t as [v ty cs ws]. intros [Hv Ht]. cbn in Hv, Ht. unfold ti_writeTo, ti_readFrom, writeInputCommitment, writeInputWitness.
  cbn [ti_AssetVersion ti_TypedInput ti_CommitmentSuffix ti_WitnessSuffix]. eapply rt_bind; [by apply rt_varint63|].
  destruct ty as [ty|].
  - destruct Ht as [-> Ht]. cbn [Z.eqb Pos.eqb].
    eapply rt_bind; [apply rt_ext; by eapply (rt_last _ _ Some); [apply rt_commitment|]|]. cbn beta iota.
    by eapply rt_end; [apply rt_ext; by eapply (rt_last _ _ Some); [apply rt_witness|]|].
  - replace (v =? 1) with false by lia. eapply rt_bind; [apply rt_ext, rt_ret|]. cbn beta iota.
    by eapply rt_end; [apply rt_ext, rt_ret|].
Qed.

Lemma rt_output t : output_wf t -> roundtrips (to_writeTo t) to_readFrom t.
Proof.
  destruct t as [v oc cs ty]. intros [Hv Hoc]. cbn in Hv, Hoc. unfold to_writeTo, to_readFrom.
  cbn [to_AssetVersion to_Commitment to_CommitmentSuffix to_TypedOutput].
  eapply rt_bind; [by apply rt_varint63|].
  set (typed := match ty with originalTxOutput => original_readFrom | TVoteOutput _ => vote_readFrom end).
  assert (Hty : roundtrips (Write [z2b (OutputType ty)]) parseTypedOutput typed) by (intros b [= <-]; by destruct ty).
  eapply rt_bind; [exact Hty|].
  assert (Hrt : roundtrips (typed_writeTo ty +++ oc_writeTo v oc)
            (t ← typed;
             oc ← oc_readFrom v; mret (t, oc)) (ty, oc)).
  { eapply rt_bind; [|eapply (rt_last _ _ (fun oc => (ty, oc)) oc); [|done]].
    - subst typed. destruct ty; [apply rt_ret|]. by eapply (rt_last _ _ TVoteOutput); [apply rt_varstr|].
    - unfold oc_writeTo, oc_readFrom. destruct (v =? 1); [|rewrite Hoc; apply rt_ret].
      destruct oc as [a vm prog st]. destruct Hoc as [Ha Hvm]. cbn in Ha, Hvm. subst vm.
      eapply rt_bind; [by apply rt_amount|]. eapply rt_bind; [by apply rt_varint63|]. apply rt_require; [done|].
      eapply rt_bind; [apply rt_varstr|]. by eapply (rt_last _ _ (mkOutputCommitment _ _ _)); [apply rt_varstr_list|]. }
  eapply rt_bind; [by apply rt_ext|]. cbn beta iota. by eapply rt_end; [apply rt_varstr|].
Qed.

(** One step of a reader in front of a known writer. *)
Lemma rd_step {A B} (w1 w2 : Wr) (r : Rd A) (k : A -> Rd B) a b rest :
  roundtrips w1 r a -> w1 +++ w2 = inr b -> exists b2, w2 = inr b2 /\ (r ≫= k) (b ++ rest) = k a (b2 ++ rest).
Proof.
  intros H1. unfold wr_app. destruct w1 as [e|b1]; [done|]. destruct w2 as [e|b2]; [done|]. intros [= <-].
  exists b2. split; [done|]. unfold mbind, Rd_bind. by rewrite <- app_assoc, (H1 b1 eq_refl).
Qed.

Lemma rt_all_back {A} (wr : A -> Wr) (rd : Rd A) (back : A -> A) l :
  Forall (fun x => roundtrips (wr x) rd (back x)) l -> roundtrips (write_all wr l) (read_n (length l) rd) (back <$> l).
Proof.
  induction 1 as [|x l Hx _ IH]; [apply rt_ret|]. cbn [write_all read_n length]. eapply rt_bind; [exact Hx|].
  by apply (rt_last _ _ (fun l => back x :: l) (back <$> l)).
Qed.

Lemma tx_readFrom_writeTo tx b rest :
  tx_wf tx -> tx_writeTo tx = inr b -> tx_readFrom (b ++ rest) = inr (tx_back (zlen b) tx, rest).
Proof.
  destruct tx as [v size t ins outs]. intros (Hv & Ht & Hi & Ho) Hb. cbn in Hv, Ht, Hi, Ho. unfold tx_readFrom.
  set (n0 := zlen (b ++ rest)). assert (Hn0 : n0 = zlen b + zlen rest) by apply zlen_app. clearbody n0.
  assert (Hlen : zlen b = n0 - zlen rest) by lia. clear Hn0. rewrite Hlen. clear Hlen. revert Hb. unfold tx_writeTo. cbn [Version TimeRange Inputs Outputs].
  intros Hb. eapply rd_step in Hb as (b1 & Hb & ->); [|by apply rt_full].
  match goal with |- context [rd_require ?c ErrSerFlags] => change c with true end. change (rd_require true ErrSerFlags ≫= ?k) with (k tt).
  eapply rd_step in Hb as (b2 & Hb & ->); [|by apply rt_varint63]. eapply rd_step in Hb as (b3 & Hb & ->); [|by apply rt_varint63].
  eapply rd_step in Hb as (b4 & Hb & ->); [|apply rt_varint31; auto with zlen]. rewrite to_nat_zlen.
  eapply rd_step in Hb as (b5 & Hb & ->); [|apply (rt_all_back _ _ input_back); eapply Forall_impl; [exact Hi|apply rt_input]].
  eapply rd_step in Hb as (b6 & Hb & ->); [|apply rt_varint31; auto with zlen]. rewrite to_nat_zlen.
  assert (Hall : roundtrips (write_all to_writeTo outs) (read_n (length outs) to_readFrom) outs)
    by (apply rt_all; eapply Forall_impl; [exact Ho|apply rt_output]).
  unfold mbind at 1, Rd_bind at 1. by rewrite (Hall b6 Hb rest).
Qed.

(** C35.  Reading back a well-formed transaction from its text gives the same
    transaction, its size filled in, except that the suffix of every spend
    commitment comes back doubled; so every transaction without such suffixes
    round-trips. *)
Theorem TxData_roundtrip tx p :
  tx_wf tx -> MarshalText tx = inr p -> UnmarshalText p = inr (tx_back (zlen p / 2) tx).
Proof.
  unfold MarshalText, UnmarshalText. intros Hw. destruct (tx_writeTo tx) as [e|b] eqn:Hb; [by intros [=]|]. intros Hp.
  assert (p = hex_encode b) as -> by congruence. rewrite hex_roundtrip. pose proof (tx_readFrom_writeTo tx b [] Hw Hb) as Hr.
  rewrite app_nil_r in Hr. rewrite Hr. change (zlen (A := byte) [] >? 0) with false. cbn iota. do 2 f_equal.
  rewrite zlen_hex_encode, Z.mul_comm. symmetry. by apply Z.div_mul.
Qed.
End RoundTrip.

(** A transaction with an input of each type, and an input and an output of an
    unknown asset version; the spend has a suffix of one byte. *)
Definition sample_commitment : SpendCommitment :=
  mkSpendCommitment (mkAssetAmount (Some BTMAssetID) 300) (replicate 32 x07) 2 1 [x51] [[x01]; []].
Definition sample_issuance {Cr : Crypto} : IssuanceInput :=
  let ii := mkIssuanceInput [x01] 5 [x02] 1 [x51] [[x09]] [] in
  mkIssuanceInput [x01] 5 [x02] 1 [x51] [[x09]] (calcAssetID ii).
Definition sample_tx {Cr : Crypto} : TxData := mkTxData 1 0 0
  [mkTxInput 1 (Some (TIssuance sample_issuance)) [] []; mkTxInput 1 (Some (TSpend [x0a] [[x03]] sample_commitment)) [] [x0b];
   mkTxInput 1 (Some (TVeto [] [] [x04] sample_commitment)) [x0c] []; mkTxInput 1 (Some (TCoinbase [x05])) [] [];
   mkTxInput 2 None [x0d] []]
  [mkTxOutput 1 (mkOutputCommitment (mkAssetAmount (Some BTMAssetID) 200) 1 [x51] []) [] originalTxOutput;
   mkTxOutput 1 (mkOutputCommitment (mkAssetAmount (Some BTMAssetID) 90) 1 [x51] [[x01]]) [x0e] (TVoteOutput [x06]);
   mkTxOutput 2 zeroOutputCommitment [] originalTxOutput].

Lemma sample_tx_wf : tx_wf (Cr := StubCrypto) (sample_tx (Cr := StubCrypto)).
Proof.
  split; [cbn; lia|]. split; [cbn; lia|].
  split; repeat (apply Forall_cons; split); try apply Forall_nil_2; (split; [cbn; lia|]); cbn -[replicate]; try done.
  - split; [done|]. split_and!; [split; [by exists BTMAssetID|done]|done..].
  - split; [done|]. split_and!; [split; [by exists BTMAssetID|done]|done..].
  - split; [split; [by exists BTMAssetID|done]|done].
  - split; [split; [by exists BTMAssetID|done]|done].
Qed.

Lemma TxData_roundtrip_witness :
  exists p, MarshalText (Cr := StubCrypto) (sample_tx (Cr := StubCrypto)) = inr p
    /\ UnmarshalText (Cr := StubCrypto) p = inr (tx_back (zlen p / 2) (sample_tx (Cr := StubCrypto))).
Proof.
  set (p := match MarshalText (Cr := StubCrypto) (sample_tx (Cr := StubCrypto)) with inr p => p | inl _ => [] end).
  assert (Hp : MarshalText (Cr := StubCrypto) (sample_tx (Cr := StubCrypto)) = inr p) by (vm_compute; reflexivity).
  exists p. split; [exact Hp|]. exact (TxData_roundtrip (Cr := StubCrypto) _ p sample_tx_wf Hp).
Defined.
