(* ===== verification/Opcode.v ===== *)
(** * protocol/vm: opcodes, instructions and the program parser

    [ops.go]: the opcode constants, the opcode table as [init] completes it, the
    instruction parser [ParseOp]/[ParseProgram]; [pushdata.go]: the encoders
    [PushDataBytes] and [PushDataUint64].  The parser theorems: a parsed
    instruction lies inside the program, a program is the concatenation of its
    instructions, and the encoder is the parser's inverse. *)

From S2P Require Import Prelude Checked VMTypes.
From Stdlib Require Import Strings.Byte Strings.String.

(** ** Opcode constants *)

Definition OP_FALSE : Z := 0x00.
Definition OP_0 : Z := 0x00.
Definition OP_1 : Z := 0x51.
Definition OP_TRUE : Z := 0x51.
Definition OP_2 : Z := 0x52.
Definition OP_3 : Z := 0x53.
Definition OP_4 : Z := 0x54.
Definition OP_5 : Z := 0x55.
Definition OP_6 : Z := 0x56.
Definition OP_7 : Z := 0x57.
Definition OP_8 : Z := 0x58.
Definition OP_9 : Z := 0x59.
Definition OP_10 : Z := 0x5a.
Definition OP_11 : Z := 0x5b.
Definition OP_12 : Z := 0x5c.
Definition OP_13 : Z := 0x5d.
Definition OP_14 : Z := 0x5e.
Definition OP_15 : Z := 0x5f.
Definition OP_16 : Z := 0x60.
Definition OP_DATA_1 : Z := 0x01.
Definition OP_DATA_2 : Z := 0x02.
Definition OP_DATA_3 : Z := 0x03.
Definition OP_DATA_4 : Z := 0x04.
Definition OP_DATA_5 : Z := 0x05.
Definition OP_DATA_6 : Z := 0x06.
Definition OP_DATA_7 : Z := 0x07.
Definition OP_DATA_8 : Z := 0x08.
Definition OP_DATA_9 : Z := 0x09.
Definition OP_DATA_10 : Z := 0x0a.
Definition OP_DATA_11 : Z := 0x0b.
Definition OP_DATA_12 : Z := 0x0c.
Definition OP_DATA_13 : Z := 0x0d.
Definition OP_DATA_14 : Z := 0x0e.
Definition OP_DATA_15 : Z := 0x0f.
Definition OP_DATA_16 : Z := 0x10.
Definition OP_DATA_17 : Z := 0x11.
Definition OP_DATA_18 : Z := 0x12.
Definition OP_DATA_19 : Z := 0x13.
Definition OP_DATA_20 : Z := 0x14.
Definition OP_DATA_21 : Z := 0x15.
Definition OP_DATA_22 : Z := 0x16.
Definition OP_DATA_23 : Z := 0x17.
Definition OP_DATA_24 : Z := 0x18.
Definition OP_DATA_25 : Z := 0x19.
Definition OP_DATA_26 : Z := 0x1a.
Definition OP_DATA_27 : Z := 0x1b.
Definition OP_DATA_28 : Z := 0x1c.
Definition OP_DATA_29 : Z := 0x1d.
Definition OP_DATA_30 : Z := 0x1e.
Definition OP_DATA_31 : Z := 0x1f.
Definition OP_DATA_32 : Z := 0x20.
Definition OP_DATA_33 : Z := 0x21.
Definition OP_DATA_34 : Z := 0x22.
Definition OP_DATA_35 : Z := 0x23.
Definition OP_DATA_36 : Z := 0x24.
Definition OP_DATA_37 : Z := 0x25.
Definition OP_DATA_38 : Z := 0x26.
Definition OP_DATA_39 : Z := 0x27.
Definition OP_DATA_40 : Z := 0x28.
Definition OP_DATA_41 : Z := 0x29.
Definition OP_DATA_42 : Z := 0x2a.
Definition OP_DATA_43 : Z := 0x2b.
Definition OP_DATA_44 : Z := 0x2c.
Definition OP_DATA_45 : Z := 0x2d.
Definition OP_DATA_46 : Z := 0x2e.
Definition OP_DATA_47 : Z := 0x2f.
Definition OP_DATA_48 : Z := 0x30.
Definition OP_DATA_49 : Z := 0x31.
Definition OP_DATA_50 : Z := 0x32.
Definition OP_DATA_51 : Z := 0x33.
Definition OP_DATA_52 : Z := 0x34.
Definition OP_DATA_53 : Z := 0x35.
Definition OP_DATA_54 : Z := 0x36.
Definition OP_DATA_55 : Z := 0x37.
Definition OP_DATA_56 : Z := 0x38.
Definition OP_DATA_57 : Z := 0x39.
Definition OP_DATA_58 : Z := 0x3a.
Definition OP_DATA_59 : Z := 0x3b.
Definition OP_DATA_60 : Z := 0x3c.
Definition OP_DATA_61 : Z := 0x3d.
Definition OP_DATA_62 : Z := 0x3e.
Definition OP_DATA_63 : Z := 0x3f.
Definition OP_DATA_64 : Z := 0x40.
Definition OP_DATA_65 : Z := 0x41.
Definition OP_DATA_66 : Z := 0x42.
Definition OP_DATA_67 : Z := 0x43.
Definition OP_DATA_68 : Z := 0x44.
Definition OP_DATA_69 : Z := 0x45.
Definition OP_DATA_70 : Z := 0x46.
Definition OP_DATA_71 : Z := 0x47.
Definition OP_DATA_72 : Z := 0x48.
Definition OP_DATA_73 : Z := 0x49.
Definition OP_DATA_74 : Z := 0x4a.
Definition OP_DATA_75 : Z := 0x4b.
Definition OP_PUSHDATA1 : Z := 0x4c.
Definition OP_PUSHDATA2 : Z := 0x4d.
Definition OP_PUSHDATA4 : Z := 0x4e.
Definition OP_NOP : Z := 0x61.
Definition OP_JUMP : Z := 0x63.
Definition OP_JUMPIF : Z := 0x64.
Definition OP_VERIFY : Z := 0x69.
Definition OP_FAIL : Z := 0x6a.
Definition OP_CHECKPREDICATE : Z := 0xc0.
Definition OP_TOALTSTACK : Z := 0x6b.
Definition OP_FROMALTSTACK : Z := 0x6c.
Definition OP_2DROP : Z := 0x6d.
Definition OP_2DUP : Z := 0x6e.
Definition OP_3DUP : Z := 0x6f.
Definition OP_2OVER : Z := 0x70.
Definition OP_2ROT : Z := 0x71.
Definition OP_2SWAP : Z := 0x72.
Definition OP_IFDUP : Z := 0x73.
Definition OP_DEPTH : Z := 0x74.
Definition OP_DROP : Z := 0x75.
Definition OP_DUP : Z := 0x76.
Definition OP_NIP : Z := 0x77.
Definition OP_OVER : Z := 0x78.
Definition OP_PICK : Z := 0x79.
Definition OP_ROLL : Z := 0x7a.
Definition OP_ROT : Z := 0x7b.
Definition OP_SWAP : Z := 0x7c.
Definition OP_TUCK : Z := 0x7d.
Definition OP_CAT : Z := 0x7e.
Definition OP_SUBSTR : Z := 0x7f.
Definition OP_LEFT : Z := 0x80.
Definition OP_RIGHT : Z := 0x81.
Definition OP_SIZE : Z := 0x82.
Definition OP_CATPUSHDATA : Z := 0x89.
Definition OP_INVERT : Z := 0x83.
Definition OP_AND : Z := 0x84.
Definition OP_OR : Z := 0x85.
Definition OP_XOR : Z := 0x86.
Definition OP_EQUAL : Z := 0x87.
Definition OP_EQUALVERIFY : Z := 0x88.
Definition OP_1ADD : Z := 0x8b.
Definition OP_1SUB : Z := 0x8c.
Definition OP_2MUL : Z := 0x8d.
Definition OP_2DIV : Z := 0x8e.
Definition OP_NOT : Z := 0x91.
Definition OP_0NOTEQUAL : Z := 0x92.
Definition OP_ADD : Z := 0x93.
Definition OP_SUB : Z := 0x94.
Definition OP_MUL : Z := 0x95.
Definition OP_DIV : Z := 0x96.
Definition OP_MOD : Z := 0x97.
Definition OP_LSHIFT : Z := 0x98.
Definition OP_RSHIFT : Z := 0x99.
Definition OP_BOOLAND : Z := 0x9a.
Definition OP_BOOLOR : Z := 0x9b.
Definition OP_NUMEQUAL : Z := 0x9c.
Definition OP_NUMEQUALVERIFY : Z := 0x9d.
Definition OP_NUMNOTEQUAL : Z := 0x9e.
Definition OP_LESSTHAN : Z := 0x9f.
Definition OP_GREATERTHAN : Z := 0xa0.
Definition OP_LESSTHANOREQUAL : Z := 0xa1.
Definition OP_GREATERTHANOREQUAL : Z := 0xa2.
Definition OP_MIN : Z := 0xa3.
Definition OP_MAX : Z := 0xa4.
Definition OP_WITHIN : Z := 0xa5.
Definition OP_SHA256 : Z := 0xa8.
Definition OP_SHA3 : Z := 0xaa.
Definition OP_HASH160 : Z := 0xab.
Definition OP_CHECKSIG : Z := 0xac.
Definition OP_CHECKMULTISIG : Z := 0xad.
Definition OP_TXSIGHASH : Z := 0xae.
Definition OP_CHECKOUTPUT : Z := 0xc1.
Definition OP_ASSET : Z := 0xc2.
Definition OP_AMOUNT : Z := 0xc3.
Definition OP_PROGRAM : Z := 0xc4.
Definition OP_INDEX : Z := 0xc9.
Definition OP_ENTRYID : Z := 0xca.
Definition OP_OUTPUTID : Z := 0xcb.
Definition OP_BLOCKHEIGHT : Z := 0xcd.

(** ** The opcode table *)

(** The functions of the table, by name ([Interp.exec] runs them). *)
Inductive opFn :=
  | fn_opFalse
  | fn_opPushdata
  | fn_opNop
  | fn_opJump
  | fn_opJumpIf
  | fn_opVerify
  | fn_opFail
  | fn_opToAltStack
  | fn_opFromAltStack
  | fn_op2Drop
  | fn_op2Dup
  | fn_op3Dup
  | fn_op2Over
  | fn_op2Rot
  | fn_op2Swap
  | fn_opIfDup
  | fn_opDepth
  | fn_opDrop
  | fn_opDup
  | fn_opNip
  | fn_opOver
  | fn_opPick
  | fn_opRoll
  | fn_opRot
  | fn_opSwap
  | fn_opTuck
  | fn_opCat
  | fn_opSubstr
  | fn_opLeft
  | fn_opRight
  | fn_opSize
  | fn_opCatpushdata
  | fn_opInvert
  | fn_opAnd
  | fn_opOr
  | fn_opXor
  | fn_opEqual
  | fn_opEqualVerify
  | fn_op1Add
  | fn_op1Sub
  | fn_op2Mul
  | fn_op2Div
  | fn_opNot
  | fn_op0NotEqual
  | fn_opAdd
  | fn_opSub
  | fn_opMul
  | fn_opDiv
  | fn_opMod
  | fn_opLshift
  | fn_opRshift
  | fn_opBoolAnd
  | fn_opBoolOr
  | fn_opNumEqual
  | fn_opNumEqualVerify
  | fn_opNumNotEqual
  | fn_opLessThan
  | fn_opGreaterThan
  | fn_opLessThanOrEqual
  | fn_opGreaterThanOrEqual
  | fn_opMin
  | fn_opMax
  | fn_opWithin
  | fn_opSha256
  | fn_opSha3
  | fn_opHash160
  | fn_opCheckSig
  | fn_opCheckMultiSig
  | fn_opTxSigHash
  | fn_opCheckOutput
  | fn_opAsset
  | fn_opAmount
  | fn_opProgram
  | fn_opIndex
  | fn_opEntryID
  | fn_opOutputID
  | fn_opBlockHeight
  | fn_opCheckPredicate.

#[export] Instance opFn_eq_dec : EqDecision opFn.
Proof. solve_decision. Defined.

Record opInfo := OpInfo { info_op : Z; info_name : string; info_fn : opFn }.

Local Open Scope string_scope.

(** The composite literal of [ops]. *)
Definition ops_literal : list opInfo := [
  OpInfo OP_FALSE "FALSE" fn_opFalse;
  OpInfo OP_PUSHDATA1 "PUSHDATA1" fn_opPushdata;
  OpInfo OP_PUSHDATA2 "PUSHDATA2" fn_opPushdata;
  OpInfo OP_PUSHDATA4 "PUSHDATA4" fn_opPushdata;
  OpInfo OP_NOP "NOP" fn_opNop;
  OpInfo OP_JUMP "JUMP" fn_opJump;
  OpInfo OP_JUMPIF "JUMPIF" fn_opJumpIf;
  OpInfo OP_VERIFY "VERIFY" fn_opVerify;
  OpInfo OP_FAIL "FAIL" fn_opFail;
  OpInfo OP_TOALTSTACK "TOALTSTACK" fn_opToAltStack;
  OpInfo OP_FROMALTSTACK "FROMALTSTACK" fn_opFromAltStack;
  OpInfo OP_2DROP "2DROP" fn_op2Drop;
  OpInfo OP_2DUP "2DUP" fn_op2Dup;
  OpInfo OP_3DUP "3DUP" fn_op3Dup;
  OpInfo OP_2OVER "2OVER" fn_op2Over;
  OpInfo OP_2ROT "2ROT" fn_op2Rot;
  OpInfo OP_2SWAP "2SWAP" fn_op2Swap;
  OpInfo OP_IFDUP "IFDUP" fn_opIfDup;
  OpInfo OP_DEPTH "DEPTH" fn_opDepth;
  OpInfo OP_DROP "DROP" fn_opDrop;
  OpInfo OP_DUP "DUP" fn_opDup;
  OpInfo OP_NIP "NIP" fn_opNip;
  OpInfo OP_OVER "OVER" fn_opOver;
  OpInfo OP_PICK "PICK" fn_opPick;
  OpInfo OP_ROLL "ROLL" fn_opRoll;
  OpInfo OP_ROT "ROT" fn_opRot;
  OpInfo OP_SWAP "SWAP" fn_opSwap;
  OpInfo OP_TUCK "TUCK" fn_opTuck;
  OpInfo OP_CAT "CAT" fn_opCat;
  OpInfo OP_SUBSTR "SUBSTR" fn_opSubstr;
  OpInfo OP_LEFT "LEFT" fn_opLeft;
  OpInfo OP_RIGHT "RIGHT" fn_opRight;
  OpInfo OP_SIZE "SIZE" fn_opSize;
  OpInfo OP_CATPUSHDATA "CATPUSHDATA" fn_opCatpushdata;
  OpInfo OP_INVERT "INVERT" fn_opInvert;
  OpInfo OP_AND "AND" fn_opAnd;
  OpInfo OP_OR "OR" fn_opOr;
  OpInfo OP_XOR "XOR" fn_opXor;
  OpInfo OP_EQUAL "EQUAL" fn_opEqual;
  OpInfo OP_EQUALVERIFY "EQUALVERIFY" fn_opEqualVerify;
  OpInfo OP_1ADD "1ADD" fn_op1Add;
  OpInfo OP_1SUB "1SUB" fn_op1Sub;
  OpInfo OP_2MUL "2MUL" fn_op2Mul;
  OpInfo OP_2DIV "2DIV" fn_op2Div;
  OpInfo OP_NOT "NOT" fn_opNot;
  OpInfo OP_0NOTEQUAL "0NOTEQUAL" fn_op0NotEqual;
  OpInfo OP_ADD "ADD" fn_opAdd;
  OpInfo OP_SUB "SUB" fn_opSub;
  OpInfo OP_MUL "MUL" fn_opMul;
  OpInfo OP_DIV "DIV" fn_opDiv;
  OpInfo OP_MOD "MOD" fn_opMod;
  OpInfo OP_LSHIFT "LSHIFT" fn_opLshift;
  OpInfo OP_RSHIFT "RSHIFT" fn_opRshift;
  OpInfo OP_BOOLAND "BOOLAND" fn_opBoolAnd;
  OpInfo OP_BOOLOR "BOOLOR" fn_opBoolOr;
  OpInfo OP_NUMEQUAL "NUMEQUAL" fn_opNumEqual;
  OpInfo OP_NUMEQUALVERIFY "NUMEQUALVERIFY" fn_opNumEqualVerify;
  OpInfo OP_NUMNOTEQUAL "NUMNOTEQUAL" fn_opNumNotEqual;
  OpInfo OP_LESSTHAN "LESSTHAN" fn_opLessThan;
  OpInfo OP_GREATERTHAN "GREATERTHAN" fn_opGreaterThan;
  OpInfo OP_LESSTHANOREQUAL "LESSTHANOREQUAL" fn_opLessThanOrEqual;
  OpInfo OP_GREATERTHANOREQUAL "GREATERTHANOREQUAL" fn_opGreaterThanOrEqual;
  OpInfo OP_MIN "MIN" fn_opMin;
  OpInfo OP_MAX "MAX" fn_opMax;
  OpInfo OP_WITHIN "WITHIN" fn_opWithin;
  OpInfo OP_SHA256 "SHA256" fn_opSha256;
  OpInfo OP_SHA3 "SHA3" fn_opSha3;
  OpInfo OP_HASH160 "HASH160" fn_opHash160;
  OpInfo OP_CHECKSIG "CHECKSIG" fn_opCheckSig;
  OpInfo OP_CHECKMULTISIG "CHECKMULTISIG" fn_opCheckMultiSig;
  OpInfo OP_TXSIGHASH "TXSIGHASH" fn_opTxSigHash;
  OpInfo OP_CHECKOUTPUT "CHECKOUTPUT" fn_opCheckOutput;
  OpInfo OP_ASSET "ASSET" fn_opAsset;
  OpInfo OP_AMOUNT "AMOUNT" fn_opAmount;
  OpInfo OP_PROGRAM "PROGRAM" fn_opProgram;
  OpInfo OP_INDEX "INDEX" fn_opIndex;
  OpInfo OP_ENTRYID "ENTRYID" fn_opEntryID;
  OpInfo OP_OUTPUTID "OUTPUTID" fn_opOutputID;
  OpInfo OP_BLOCKHEIGHT "BLOCKHEIGHT" fn_opBlockHeight
].
Local Close Scope string_scope.

Fixpoint decimal_fuel (fuel : nat) (n : Z) (acc : string) : string :=
  match fuel with
  | O => acc
  | S f =>
      let d := String (Ascii.ascii_of_N (Z.to_N (48 + n mod 10))) acc in
      if n <? 10 then d else decimal_fuel f (n / 10) d
  end.
(** [%d] and [%02x] of a byte. *)
Definition fmt_d (n : Z) : string := decimal_fuel 3 n EmptyString.
Definition hex_digit (n : Z) : string :=
  String (Ascii.ascii_of_N (Z.to_N (if n <? 10 then 48 + n else 87 + n))) EmptyString.
Definition fmt_02x (n : Z) : string := (hex_digit (n / 16) ++ hex_digit (n mod 16))%string.

(** An entry of the literal; Go's array holds the zero [opInfo] elsewhere. *)
Definition literal_entry (o : Z) : option opInfo :=
  find (fun i => info_op i =? o) ops_literal.

(** The table after the first loops of [init]. *)
Definition ops_named (o : Z) : option opInfo :=
  if (1 <=? o) && (o <=? 75) then Some (OpInfo o ("DATA_" ++ fmt_d o)%string fn_opPushdata)
  else if (OP_1 <=? o) && (o <=? OP_1 + 15) then
    Some (OpInfo o (fmt_d (o - OP_1 + 1)) fn_opPushdata)
  else if o =? OP_CHECKPREDICATE then
    Some (OpInfo OP_CHECKPREDICATE "CHECKPREDICATE"%string fn_opCheckPredicate)
  else literal_entry o.

(** [ops[o]] and [isExpansion[o]] after [init]. *)
Definition ops (o : Z) : opInfo :=
  match ops_named o with
  | Some i => i
  | None => OpInfo o ("NOPx" ++ fmt_02x o)%string fn_opNop
  end.

Definition isExpansion (o : Z) : bool :=
  match ops_named o with Some _ => false | None => true end.

Definition op_String (o : Z) : string := info_name (ops o).

(** ** Instructions *)

Record Instruction := Inst { inst_Op : Z; inst_Len : Z; inst_Data : bytes }.

Definition IsPushdata (i : Instruction) : bool :=
  bool_decide (info_fn (ops (inst_Op i)) = info_fn (ops OP_1))
  || bool_decide (info_fn (ops (inst_Op i)) = info_fn (ops OP_0)).

(** The bytes [prog[lo:hi]]; [ParseOp] has checked the bounds. *)
Definition byte_at (prog : bytes) (i : Z) : Z := b2z (nth (Z.to_nat i) prog x00).

(** The tail shared by the data-carrying cases: [end, ok := AddUint32(pc, len)],
    the overflow and length checks, and the data from [pc+skip]. *)
Definition parse_data (prog : bytes) (l pc op len skip : Z) : res Instruction :=
  match AddUint32 pc len with
  | None => Err ErrOverflow
  | Some end_ =>
      if end_ >? l then Err ErrShortProgram
      else Ok (Inst op len (subseq prog (u32 (pc + skip)) end_))
  end.

Definition ParseOp (prog : bytes) (pc : Z) : res Instruction :=
  let l := u32 (zlen prog) in
  if l >? MaxInt32 then Err ErrLongProgram
  else if pc >=? l then Err ErrShortProgram
  else
    let opcode := byte_at prog pc in
    if (opcode >=? OP_1) && (opcode <=? OP_16) then
      Ok (Inst opcode 1 [z2b (opcode - OP_1 + 1)])
    else if (opcode >=? OP_DATA_1) && (opcode <=? OP_DATA_75) then
      parse_data prog l pc opcode (u32 (1 + (opcode - OP_DATA_1 + 1))) 1
    else if opcode =? OP_PUSHDATA1 then
      if pc =? u32 (l - 1) then Err ErrShortProgram
      else
        let n := byte_at prog (pc + 1) in
        parse_data prog l pc opcode (u32 (1 + (n + 1))) 2
    else if opcode =? OP_PUSHDATA2 then
      if (zlen prog <? 3) || (pc >? u32 (l - 3)) then Err ErrShortProgram
      else
        let n := le_val (subseq prog (pc + 1) (pc + 3)) in
        parse_data prog l pc opcode (u32 (1 + (n + 2))) 3
    else if opcode =? OP_PUSHDATA4 then
      if (zlen prog <? 5) || (pc >? u32 (l - 5)) then Err ErrShortProgram
      else
        let n := le_val (subseq prog (pc + 1) (pc + 5)) in
        match AddUint32 5 n with
        | None => Err ErrOverflow
        | Some len => parse_data prog l pc opcode len 5
        end
    else if (opcode =? OP_JUMP) || (opcode =? OP_JUMPIF) then
      parse_data prog l pc opcode 5 1
    else Ok (Inst opcode 1 []).

(** The loop of [ParseProgram]; [fuel] bounds the number of instructions. *)
Fixpoint ParseProgram_from (fuel : nat) (prog : bytes) (pc : Z) : res (list Instruction) :=
  match fuel with
  | O => OutOfFuel
  | S f =>
      if pc <? u32 (zlen prog) then
        inst ← ParseOp prog pc;
        match AddUint32 pc (inst_Len inst) with
        | None => Err ErrOverflow
        | Some pc' => rest ← ParseProgram_from f prog pc'; Ok (inst :: rest)
        end
      else Ok []
  end.

Definition ParseProgram (prog : bytes) : res (list Instruction) :=
  ParseProgram_from (S (List.length prog)) prog 0.

(** ** pushdata.go *)

Definition PushDataBytes (data : bytes) : bytes :=
  let l := zlen data in
  if l =? 0 then [z2b OP_0]
  else if l <=? 75 then z2b (OP_DATA_1 + l - 1) :: data
  else if l <? 256 then z2b OP_PUSHDATA1 :: z2b l :: data
  else if l <? 65536 then z2b OP_PUSHDATA2 :: le_bytes 2 l ++ data
  else z2b OP_PUSHDATA4 :: le_bytes 4 l ++ data.

Definition PushDataUint64 {U : Uint256} (n : Z) : bytes :=
  if n =? 0 then [z2b OP_0]
  else if (n >=? 1) && (n <=? 16) then [z2b (OP_1 + n - 1)]
  else PushDataBytes (Uint64Bytes n).

(** ** The parser against a reference definition

    [parse_spec] reads one instruction off the front of a byte string, with no
    machine arithmetic: the instruction occupies its first [inst_Len] bytes. *)

Definition parse_len (rest : bytes) (len skip : Z) : option Instruction :=
  if len <=? zlen rest then Some (Inst (byte_at rest 0) len (subseq rest skip len)) else None.

Definition parse_spec (rest : bytes) : option Instruction :=
  match rest with
  | [] => None
  | b :: _ =>
      let op := b2z b in
      if (op >=? OP_1) && (op <=? OP_16) then Some (Inst op 1 [z2b (op - OP_1 + 1)])
      else if (op >=? OP_DATA_1) && (op <=? OP_DATA_75) then parse_len rest (1 + op) 1
      else if op =? OP_PUSHDATA1 then
        if zlen rest <? 2 then None else parse_len rest (2 + byte_at rest 1) 2
      else if op =? OP_PUSHDATA2 then
        if zlen rest <? 3 then None else parse_len rest (3 + le_val (subseq rest 1 3)) 3
      else if op =? OP_PUSHDATA4 then
        if zlen rest <? 5 then None else parse_len rest (5 + le_val (subseq rest 1 5)) 5
      else if (op =? OP_JUMP) || (op =? OP_JUMPIF) then parse_len rest 5 1
      else Some (Inst op 1 [])
  end.

Lemma byte_at_range p i : 0 <= byte_at p i < 256.
Proof. apply b2z_range. Qed.

Lemma byte_at_drop p k i : 0 <= k -> 0 <= i -> byte_at (drop (Z.to_nat k) p) i = byte_at p (k + i).
Proof.
  intros. unfold byte_at. rewrite !nth_lookup, lookup_drop. do 3 f_equal. lia.
Qed.

Lemma subseq_drop {A} (p : list A) k lo hi :
  0 <= k -> 0 <= lo -> subseq (drop (Z.to_nat k) p) lo hi = subseq p (k + lo) (k + hi).
Proof. intros. unfold subseq. rewrite drop_drop. f_equal; [lia|]. f_equal. lia. Qed.

Lemma zlen_drop {A} (p : list A) k : 0 <= k <= zlen p -> zlen (drop (Z.to_nat k) p) = zlen p - k.
Proof. unfold zlen. rewrite length_drop. lia. Qed.

Section ParserSpec.
Context (prog : bytes) (pc : Z).
Context (Hprog : zlen prog <= MaxInt32) (Hpc : 0 <= pc < zlen prog).
Let rest := drop (Z.to_nat pc) prog.

Lemma parse_data_spec op len skip i :
  op = byte_at rest 0 -> 0 <= len <= MaxUint32 -> 0 <= skip <= len ->
  parse_data prog (zlen prog) pc op len skip = Ok i <-> parse_len rest len skip = Some i.
Proof.
  intros -> Hlen Hskip. unfold parse_data, parse_len, AddUint32. pose proof Hpc as Hpc'.
  rewrite (add_u_exact (width := 32)) by (words; lia).
  unfold rest. rewrite zlen_drop by lia. unfold exact, in_range.
  replace (0 <=? pc + len) with true by lia. cbn [andb].
  destruct (Z.leb_spec len (zlen prog - pc)).
  - replace (pc + len <=? MaxUint32) with true by (words; lia).
    replace (pc + len >? zlen prog) with false by lia.
    rewrite subseq_drop, u32_id by (words; lia). split; intros [= <-]; done.
  - destruct (pc + len <=? MaxUint32); [|done].
    replace (pc + len >? zlen prog) with true by lia. done.
Qed.

Lemma ParseOp_spec i : ParseOp prog pc = Ok i <-> parse_spec rest = Some i.
Proof.
  pose proof (zlen_nonneg prog). assert (Hl : zlen rest = zlen prog - pc)
    by (unfold rest; apply zlen_drop; lia).
  unfold ParseOp, parse_spec. rewrite (u32_id (zlen prog)) by (words; lia).
  replace (zlen prog >? MaxInt32) with false by lia.
  replace (pc >=? zlen prog) with false by lia.
  assert (Hop : byte_at prog pc = byte_at rest 0)
    by (unfold rest; rewrite byte_at_drop by lia; f_equal; lia).
  destruct rest as [|b tl] eqn:Hrest; [rewrite zlen_nil in Hl; lia|].
  change (byte_at (b :: tl) 0) with (b2z b) in Hop. rewrite Hop.
  change (b2z b) with (byte_at (b :: tl) 0). rewrite <- Hrest in *.
  set (op := byte_at rest 0). pose proof (byte_at_range rest 0 : 0 <= op < 256).
  case_if; [split; intros [= <-]; done|].
  case_if; zbool.
  { unfold OP_DATA_1, OP_DATA_75 in *. rewrite u32_id by (words; lia).
    replace (1 + (op - 1 + 1)) with (1 + op) by lia.
    apply parse_data_spec; [done|words; lia|lia]. }
  case_if; zbool.
  { rewrite Hl. rewrite (u32_id (zlen prog - 1)) by (words; lia).
    destruct (Z.eqb_spec pc (zlen prog - 1)); destruct (Z.ltb_spec (zlen prog - pc) 2);
      try lia; [done|].
    replace (byte_at prog (pc + 1)) with (byte_at rest 1)
      by (unfold rest; rewrite byte_at_drop by lia; done).
    pose proof (byte_at_range rest 1). rewrite u32_id by (words; lia).
    replace (1 + (byte_at rest 1 + 1)) with (2 + byte_at rest 1) by lia.
    apply parse_data_spec; [done|words; lia|lia]. }
  assert (Hsub : forall n, 0 < n -> subseq prog (pc + 1) (pc + n) = subseq rest 1 n)
    by (intros; unfold rest; rewrite subseq_drop by lia; done).
  assert (Hval : forall k n, 1 <= n <= zlen rest -> 256 ^ (n - 1) = k ->
            0 <= le_val (subseq rest 1 n) < k).
  { intros k n Hn <-. pose proof (le_val_range (subseq rest 1 n)) as Hr.
    rewrite zlen_subseq in Hr by lia. exact Hr. }
  case_if; zbool.
  { rewrite Hl. destruct (Z.ltb_spec (zlen prog) 3); cbn [orb].
    { destruct (Z.ltb_spec (zlen prog - pc) 3); [done|lia]. }
    rewrite (u32_id (zlen prog - 3)) by (words; lia). rewrite Z.gtb_ltb.
    destruct (Z.ltb_spec (zlen prog - 3) pc), (Z.ltb_spec (zlen prog - pc) 3);
      try lia; [done|].
    rewrite Hsub by lia. specialize (Hval 65536 3 ltac:(lia) ltac:(done)).
    rewrite u32_id by (words; lia).
    replace (1 + (le_val (subseq rest 1 3) + 2)) with (3 + le_val (subseq rest 1 3)) by lia.
    apply parse_data_spec; [done|words; lia|lia]. }
  case_if; zbool.
  { rewrite Hl. destruct (Z.ltb_spec (zlen prog) 5); cbn [orb].
    { destruct (Z.ltb_spec (zlen prog - pc) 5); [done|lia]. }
    rewrite (u32_id (zlen prog - 5)) by (words; lia). rewrite Z.gtb_ltb.
    destruct (Z.ltb_spec (zlen prog - 5) pc), (Z.ltb_spec (zlen prog - pc) 5);
      try lia; [done|].
    rewrite Hsub by lia. specialize (Hval 4294967296 5 ltac:(lia) ltac:(done)).
    unfold AddUint32. rewrite (add_u_exact (width := 32)) by (words; lia).
    unfold exact, in_range.
    replace (0 <=? 5 + le_val (subseq rest 1 5)) with true by lia. cbn [andb].
    destruct (Z.leb_spec (5 + le_val (subseq rest 1 5)) MaxUint32).
    - apply parse_data_spec; [done|words; lia|lia].
    - unfold parse_len. rewrite Hl. replace (5 + le_val (subseq rest 1 5) <=? zlen prog - pc)
        with false by (words; lia). done. }
  case_if; [|split; intros [= <-]; done].
  apply parse_data_spec; [done|words; lia|lia].
Qed.
End ParserSpec.

(** ** Instructions inside a program *)

Lemma parse_len_Some r len skip i :
  parse_len r len skip = Some i ->
  inst_Len i = len /\ len <= zlen r /\ inst_Op i = byte_at r 0 /\ inst_Data i = subseq r skip len.
Proof. unfold parse_len. case_if; [|done]. intros [= <-]. zbool. done. Qed.

Lemma parse_spec_bounds r i :
  parse_spec r = Some i -> 1 <= inst_Len i <= zlen r /\ inst_Op i = byte_at r 0.
Proof.
  destruct r as [|b tl] eqn:Hr; [done|]. unfold parse_spec.
  change (b2z b) with (byte_at (b :: tl) 0). rewrite <- Hr. pose proof (zlen_nonneg tl) as Htl.
  assert (1 <= zlen r) by (subst r; rewrite zlen_cons; lia).
  pose proof (byte_at_range r 0). pose proof (byte_at_range r 1).
  pose proof (le_val_range (subseq r 1 3)). pose proof (le_val_range (subseq r 1 5)).
  repeat case_if; intros Hp; try discriminate; zbool;
    first [ injection Hp as <-; cbn; lia
          | apply parse_len_Some in Hp as (-> & ? & -> & _); lia ].
Qed.

Lemma byte_at_app r s i : 0 <= i < zlen r -> byte_at (r ++ s) i = byte_at r i.
Proof. unfold zlen. intros. unfold byte_at. f_equal. apply app_nth1. lia. Qed.

Lemma subseq_app_l {A} (r s : list A) lo hi :
  0 <= lo -> hi <= zlen r -> subseq (r ++ s) lo hi = subseq r lo hi.
Proof.
  unfold zlen. intros. unfold subseq. destruct (Z_le_gt_dec lo hi).
  - rewrite drop_app_le, take_app_le by (rewrite ?length_drop; lia). done.
  - replace (Z.to_nat (hi - lo)) with 0%nat by lia. done.
Qed.

Lemma parse_len_app r s len skip :
  0 < zlen r -> 0 <= skip -> len <= zlen r -> parse_len (r ++ s) len skip = parse_len r len skip.
Proof.
  intros. unfold parse_len. pose proof (zlen_nonneg s). rewrite zlen_app.
  replace (len <=? zlen r + zlen s) with true by lia. replace (len <=? zlen r) with true by lia.
  rewrite byte_at_app, subseq_app_l by lia. done.
Qed.

Lemma parse_spec_app r s i : parse_spec r = Some i -> parse_spec (r ++ s) = Some i.
Proof.
  destruct r as [|b tl] eqn:Hr; [done|]. unfold parse_spec at 1.
  cbn [app parse_spec]. change (b :: tl ++ s) with ((b :: tl) ++ s). rewrite <- Hr.
  assert (1 <= zlen r) by (subst r; rewrite zlen_cons; pose proof (zlen_nonneg tl); lia).
  pose proof (zlen_nonneg s). rewrite !zlen_app.
  repeat case_if; intros Hp; try discriminate; zbool; try done; try lia;
    rewrite ?subseq_app_l, ?byte_at_app by lia;
    (rewrite parse_len_app; [done|lia|lia|apply parse_len_Some in Hp as (_ & ? & _); lia]).
Qed.

(** A program that is a sequence of instructions. *)
Inductive parses : bytes -> list Instruction -> Prop :=
  | parses_nil : parses [] []
  | parses_cons p i insts :
      parse_spec p = Some i -> parses (drop (Z.to_nat (inst_Len i)) p) insts -> parses p (i :: insts).

Lemma parses_app p insts q js : parses p insts -> parses q js -> parses (p ++ q) (insts ++ js).
Proof.
  induction 1 as [|p i insts Hi Hr IH]; intros Hq; [done|].
  pose proof (parse_spec_bounds _ _ Hi) as [Hl _]. unfold zlen in Hl.
  cbn. constructor; [by apply parse_spec_app|].
  rewrite drop_app_le by lia. auto.
Qed.

Lemma parses_one p i : parse_spec p = Some i -> inst_Len i = zlen p -> parses p [i].
Proof.
  intros Hi Hl. constructor; [done|]. rewrite Hl. unfold zlen.
  rewrite Nat2Z.id, drop_all. constructor.
Qed.

Lemma parses_lens p insts : parses p insts -> foldr (fun i n => inst_Len i + n) 0 insts = zlen p.
Proof.
  induction 1 as [|p i insts Hi Hr IH]; [done|]. cbn. rewrite IH.
  pose proof (parse_spec_bounds _ _ Hi). rewrite zlen_drop by lia. lia.
Qed.

Lemma parses_inv p insts :
  parses p insts ->
  match insts with
  | [] => p = []
  | i :: js => parse_spec p = Some i /\ parses (drop (Z.to_nat (inst_Len i)) p) js
  end.
Proof. by destruct 1. Qed.

Lemma AddUint32_small a b : 0 <= a -> 0 <= b -> a + b <= MaxUint32 -> AddUint32 a b = Some (a + b).
Proof.
  intros. unfold AddUint32. rewrite (add_u_exact (width := 32)) by lia.
  unfold exact, in_range. replace (0 <=? a + b) with true by lia.
  replace (a + b <=? MaxUint32) with true by lia. done.
Qed.

Lemma ParseProgram_from_spec f prog pc insts :
  zlen prog <= MaxInt32 -> 0 <= pc <= zlen prog -> (List.length prog - Z.to_nat pc < f)%nat ->
  ParseProgram_from f prog pc = Ok insts <-> parses (drop (Z.to_nat pc) prog) insts.
Proof.
  intros Hp. revert pc insts. induction f as [|f IH]; intros pc insts Hpc Hf; [lia|].
  cbn [ParseProgram_from]. rewrite u32_id by (words; pose proof (zlen_nonneg prog); lia).
  destruct (Z.ltb_spec pc (zlen prog)) as [Hlt|Hge].
  - pose proof (ParseOp_spec prog pc Hp ltac:(lia)) as Hop.
    assert (Hnil : drop (Z.to_nat pc) prog <> []).
    { intros Hn. pose proof (zlen_drop prog pc ltac:(lia)) as Hd. rewrite Hn, zlen_nil in Hd. lia. }
    destruct (ParseOp prog pc) as [i|e| |] eqn:Hres.
    2,3,4: split; [done|]; intros Hps%parses_inv; destruct insts as [|j js]; [done|];
      destruct Hps as [Hj _]; apply Hop in Hj; done.
    pose proof (proj1 (Hop i) eq_refl) as Hi.
    pose proof (parse_spec_bounds _ _ Hi) as [Hl _]. rewrite zlen_drop in Hl by lia.
    unfold mbind, res_bind. rewrite AddUint32_small by (words; lia).
    specialize (IH (pc + inst_Len i)). unfold zlen in *.
    assert (Hdrop : drop (Z.to_nat (inst_Len i)) (drop (Z.to_nat pc) prog)
              = drop (Z.to_nat (pc + inst_Len i)) prog) by (rewrite drop_drop; f_equal; lia).
    split.
    + destruct (ParseProgram_from f prog (pc + inst_Len i)) as [js|e| |] eqn:Hjs; try done.
      intros [= <-]. constructor; [done|]. rewrite Hdrop. by apply IH; [lia|lia|].
    + intros Hps%parses_inv. destruct insts as [|j js]; [done|]. destruct Hps as [Hj Hjs].
      apply Hop in Hj as [= <-]. rewrite Hdrop in Hjs.
      apply IH in Hjs; [|lia|lia]. rewrite Hjs. done.
  - unfold zlen in *. rewrite drop_ge by lia. split.
    + intros [= <-]. constructor.
    + intros Hps%parses_inv. destruct insts; [done|]. by destruct Hps.
Qed.

Lemma ParseProgram_iff prog insts :
  zlen prog <= MaxInt32 -> ParseProgram prog = Ok insts <-> parses prog insts.
Proof.
  intros Hp. unfold ParseProgram. pose proof (zlen_nonneg prog).
  rewrite ParseProgram_from_spec by (done || lia). done.
Qed.

(** C34.  [ParseProgram] accepts exactly the programs that are a concatenation of
    well-formed instructions, and returns those instructions in order (the
    reference grammar [parses] has no machine arithmetic). *)
Theorem ParseProgram_correct prog insts :
  zlen prog <= MaxInt32 -> ParseProgram prog = Ok insts <-> parses prog insts.
Proof. apply ParseProgram_iff. Qed.

Lemma ParseProgram_correct_witness :
  parses [x51; x02; xaa; xbb; x63; x00; x00; x00; x00]
    [Inst 81 1 [x01]; Inst 2 3 [xaa; xbb]; Inst 99 5 [x00; x00; x00; x00]].
Proof.
  apply (proj1 (ParseProgram_correct [x51; x02; xaa; xbb; x63; x00; x00; x00; x00]
    [Inst 81 1 [x01]; Inst 2 3 [xaa; xbb]; Inst 99 5 [x00; x00; x00; x00]] ltac:(vm_compute; discriminate))).
  vm_compute. reflexivity.
Defined.

Lemma ParseOp_not_fuel prog pc : ParseOp prog pc <> OutOfFuel /\ ParseOp prog pc <> Panic.
Proof.
  unfold ParseOp, parse_data.
  repeat match goal with
  | |- context [match ?x with Some _ => _ | None => _ end] => destruct x
  | |- _ => case_if
  end; done.
Qed.

Lemma ParseProgram_from_total f prog pc :
  zlen prog <= MaxUint32 -> 0 <= pc <= zlen prog -> (List.length prog - Z.to_nat pc < f)%nat ->
  ParseProgram_from f prog pc <> OutOfFuel /\ ParseProgram_from f prog pc <> Panic.
Proof.
  intros Hp. revert pc. induction f as [|f IH]; intros pc Hpc Hf; [lia|].
  cbn [ParseProgram_from]. rewrite u32_id by (words; pose proof (zlen_nonneg prog); lia).
  destruct (Z.ltb_spec pc (zlen prog)) as [Hlt|Hge]; [|done].
  destruct (Z_le_gt_dec (zlen prog) MaxInt32) as [Hs|Hs].
  - pose proof (ParseOp_spec prog pc Hs ltac:(lia)) as Hop.
    pose proof (ParseOp_not_fuel prog pc) as [Hf1 Hf2].
    destruct (ParseOp prog pc) as [i|e| |]; try done.
    pose proof (parse_spec_bounds _ _ (proj1 (Hop i) eq_refl)) as [Hl _].
    rewrite zlen_drop in Hl by lia. unfold mbind, res_bind.
    rewrite AddUint32_small by (words; lia).
    destruct (IH (pc + inst_Len i)) as [H1 H2]; [lia|unfold zlen in *; lia|].
    destruct (ParseProgram_from f prog (pc + inst_Len i)); done.
  - unfold ParseOp. rewrite u32_id by (words; lia).
    replace (zlen prog >? MaxInt32) with true by lia. done.
Qed.

(** The parser always returns: on every program of a representable length it
    yields instructions or an error. *)
Theorem ParseProgram_total prog :
  zlen prog <= MaxUint32 -> exists r, ParseProgram prog = r /\ r <> OutOfFuel /\ r <> Panic.
Proof.
  intros Hp. eexists. split; [reflexivity|]. apply ParseProgram_from_total; [done| |lia].
  pose proof (zlen_nonneg prog). lia.
Qed.

Lemma ParseProgram_total_witness :
  exists r, ParseProgram [x4e; xff; xff; xff; xff] = r /\ r <> OutOfFuel /\ r <> Panic.
Proof. apply (ParseProgram_total [x4e; xff; xff; xff; xff]). vm_compute. discriminate. Defined.

(** ** Encoding a push and parsing it back *)

(** The instruction that pushes [d]. *)
Definition push_inst (d : bytes) : Instruction :=
  Inst (byte_at (PushDataBytes d) 0) (zlen (PushDataBytes d)) d.

Lemma subseq_skip {A} (h d : list A) :
  subseq (h ++ d) (zlen h) (zlen (h ++ d)) = d.
Proof.
  rewrite <- (app_nil_r d) at 1. rewrite zlen_app. apply subseq_app_mid.
Qed.

Lemma parse_spec_push d : zlen d <= MaxUint32 -> parse_spec (PushDataBytes d) = Some (push_inst d).
Proof.
  intros Hd. unfold push_inst. unfold PushDataBytes. pose proof (zlen_nonneg d) as Hd0.
  case_if; zbool; [by rewrite (zlen_0_inv d)|].
  case_if; zbool.
  { unfold parse_spec. unfold OP_DATA_1. cbn [byte_at]. change (byte_at (?b :: d) 0) with (b2z b).
    rewrite b2z_z2b_small by lia. unfold OP_1, OP_16, OP_DATA_1, OP_DATA_75.
    replace ((1 + zlen d - 1 >=? 81) && (1 + zlen d - 1 <=? 96)) with false by lia.
    replace ((1 + zlen d - 1 >=? 1) && (1 + zlen d - 1 <=? 75)) with true by lia.
    unfold parse_len. rewrite zlen_cons.
    replace (1 + (1 + zlen d - 1) <=? 1 + zlen d) with true by lia.
    do 2 f_equal; [|lia|].
    - change (byte_at (?b :: d) 0) with (b2z b). rewrite b2z_z2b_small; lia.
    - replace (1 + (1 + zlen d - 1)) with (zlen ([z2b (1 + zlen d - 1)] ++ d))
        by (rewrite zlen_app; change (zlen [_]) with 1; lia).
      apply (subseq_skip [_]). }
  case_if; zbool.
  { change (z2b OP_PUSHDATA1) with x4c. unfold parse_spec. cbn -[parse_len byte_at zlen].
    replace (zlen (x4c :: z2b (zlen d) :: d) <? 2) with false by (rewrite !zlen_cons; lia).
    change (byte_at (x4c :: z2b (zlen d) :: d) 1) with (b2z (z2b (zlen d))).
    rewrite b2z_z2b_small by lia. unfold parse_len. rewrite !zlen_cons.
    replace (2 + zlen d <=? 1 + (1 + zlen d)) with true by lia.
    do 2 f_equal; [lia|].
    replace (2 + zlen d) with (zlen ([x4c; z2b (zlen d)] ++ d))
      by (rewrite zlen_app; change (zlen [_; _]) with 2; lia).
    apply (subseq_skip [_; _]). }
  case_if; zbool.
  { change (z2b OP_PUSHDATA2) with x4d. set (r := x4d :: le_bytes 2 (zlen d) ++ d).
    assert (Hr : r = (x4d :: le_bytes 2 (zlen d)) ++ d) by reflexivity.
    assert (Hz : zlen r = 3 + zlen d) by (rewrite Hr, zlen_app; reflexivity).
    unfold parse_spec. unfold r at 1. cbn -[parse_len byte_at zlen subseq le_bytes r].
    rewrite Hz. replace (3 + zlen d <? 3) with false by lia.
    replace (subseq r 1 3) with (le_bytes 2 (zlen d))
      by (symmetry; apply (subseq_app_mid [x4d] (le_bytes 2 (zlen d)) d)).
    rewrite le_val_bytes by lia. change (256 ^ Z.of_nat 2) with 65536. rewrite Z.mod_small by lia.
    unfold parse_len. rewrite Hz. rewrite Z.leb_refl. do 2 f_equal.
    rewrite <- Hz, Hr. apply subseq_skip. }
  { change (z2b OP_PUSHDATA4) with x4e. set (r := x4e :: le_bytes 4 (zlen d) ++ d).
    assert (Hr : r = (x4e :: le_bytes 4 (zlen d)) ++ d) by reflexivity.
    assert (Hz : zlen r = 5 + zlen d) by (rewrite Hr, zlen_app; reflexivity).
    unfold parse_spec. unfold r at 1. cbn -[parse_len byte_at zlen subseq le_bytes r].
    rewrite Hz. replace (5 + zlen d <? 5) with false by lia.
    replace (subseq r 1 5) with (le_bytes 4 (zlen d))
      by (symmetry; apply (subseq_app_mid [x4e] (le_bytes 4 (zlen d)) d)).
    rewrite le_val_bytes by lia. change (256 ^ Z.of_nat 4) with 4294967296.
    rewrite Z.mod_small by (words; lia).
    unfold parse_len. rewrite Hz. rewrite Z.leb_refl. do 2 f_equal.
    rewrite <- Hz, Hr. apply subseq_skip. }
Qed.

(** Every opcode [PushDataBytes] emits is a data push. *)
Lemma IsPushdata_low o l d : 0 <= o <= 78 -> IsPushdata (Inst o l d) = true.
Proof.
  intros Ho. unfold IsPushdata. cbn [inst_Op].
  assert (Hall : forallb (fun n => bool_decide (info_fn (ops (Z.of_nat n)) = info_fn (ops OP_1))
            || bool_decide (info_fn (ops (Z.of_nat n)) = info_fn (ops OP_0))) (seq 0 79) = true)
    by (vm_compute; reflexivity).
  rewrite forallb_forall in Hall. specialize (Hall (Z.to_nat o)).
  rewrite Z2Nat.id in Hall by lia. apply Hall. apply in_seq. lia.
Qed.

Lemma IsPushdata_push d : IsPushdata (push_inst d) = true.
Proof.
  unfold push_inst. apply IsPushdata_low. unfold PushDataBytes. pose proof (zlen_nonneg d).
  repeat case_if; zbool; change (byte_at (?b :: ?l) 0) with (b2z b);
    first [ vm_compute; split; discriminate
          | unfold OP_DATA_1; rewrite b2z_z2b_small by lia; lia ].
Qed.

Lemma ParseOp_at pre c post i :
  zlen (pre ++ c ++ post) <= MaxInt32 -> parse_spec c = Some i ->
  ParseOp (pre ++ c ++ post) (zlen pre) = Ok i.
Proof.
  intros Hl Hi. pose proof (parse_spec_bounds _ _ Hi) as [Hb _].
  pose proof (zlen_nonneg pre). pose proof (zlen_nonneg post).
  apply ParseOp_spec; [done|rewrite !zlen_app; lia|].
  unfold zlen. rewrite Nat2Z.id, drop_app_length. by apply parse_spec_app.
Qed.

(** Round trip of the push encoding: wherever it is placed in a program,
    [PushDataBytes d] parses back to one data-push instruction that carries
    exactly [d] and spans exactly the encoding. *)
Theorem PushDataBytes_roundtrip pre d post :
  zlen (pre ++ PushDataBytes d ++ post) <= MaxInt32 ->
  ParseOp (pre ++ PushDataBytes d ++ post) (zlen pre) = Ok (push_inst d)
  /\ inst_Data (push_inst d) = d
  /\ inst_Len (push_inst d) = zlen (PushDataBytes d)
  /\ IsPushdata (push_inst d) = true.
Proof.
  intros Hl. split; [|split; [done|split; [done|apply IsPushdata_push]]].
  apply ParseOp_at; [done|]. apply parse_spec_push.
  assert (zlen d <= zlen (PushDataBytes d)).
  { unfold PushDataBytes. repeat case_if; zbool; rewrite ?zlen_cons, ?zlen_app, ?zlen_le_bytes, ?zlen_nil; lia. }
  pose proof (zlen_nonneg pre). pose proof (zlen_nonneg post).
  rewrite !zlen_app in Hl. words. lia.
Qed.

Lemma PushDataBytes_roundtrip_witness :
  ParseOp ([x51] ++ PushDataBytes (replicate 80 xab) ++ [x61]) 1 = Ok (push_inst (replicate 80 xab)).
Proof.
  refine (proj1 (PushDataBytes_roundtrip [x51] (replicate 80 xab) [x61] _)).
  vm_compute. discriminate.
Defined.

(** The table sends every opcode byte to a function, and marks as expansion
    exactly the bytes [init] fills with NOPx. *)
Lemma isExpansion_nop o : isExpansion o = true -> info_fn (ops o) = fn_opNop.
Proof. unfold isExpansion, ops. by destruct (ops_named o). Qed.

(** ** What a successful [ParseOp] guarantees, whatever the program's length *)

Lemma subseq_len_le {A} (l : list A) lo hi : 0 <= lo -> zlen (subseq l lo hi) <= Z.max 0 hi.
Proof. unfold zlen, subseq. intros. rewrite length_take. lia. Qed.

Lemma AddUint32_Some a b c :
  0 <= a <= MaxUint32 -> 0 <= b <= MaxUint32 -> AddUint32 a b = Some c -> c = a + b /\ c <= MaxUint32.
Proof.
  intros Ha Hb. unfold AddUint32. rewrite (add_u_exact (width := 32)) by (words; lia).
  unfold exact, in_range. case_if; [|done]. zbool. intros [= <-]. lia.
Qed.

Lemma parse_data_bounds prog l pc op len skip i :
  0 <= pc <= MaxUint32 -> 1 <= len <= MaxUint32 -> l <= MaxInt32 ->
  parse_data prog l pc op len skip = Ok i ->
  1 <= inst_Len i /\ pc + inst_Len i <= l /\ zlen (inst_Data i) <= MaxInt32.
Proof.
  intros Hpc Hlen Hl. unfold parse_data. destruct (AddUint32 pc len) as [e|] eqn:He; [|done].
  apply AddUint32_Some in He as [-> _]; [|lia|lia]. case_if; [done|]. zbool. intros [= <-]. cbn.
  pose proof (u32_range (pc + skip)).
  pose proof (subseq_len_le prog (u32 (pc + skip)) (pc + len) ltac:(lia)). lia.
Qed.

Lemma ParseOp_bounds prog pc i :
  0 <= pc -> ParseOp prog pc = Ok i ->
  1 <= inst_Len i /\ pc + inst_Len i <= u32 (zlen prog) <= MaxInt32
  /\ zlen (inst_Data i) <= MaxInt32.
Proof.
  intros Hpc. unfold ParseOp. case_if; [done|]. case_if; [done|]. zbool.
  set (l := u32 (zlen prog)) in *.
  pose proof (byte_at_range prog pc). pose proof (byte_at_range prog (pc + 1)).
  assert (Hle : forall n, 0 <= n -> 0 <= le_val (subseq prog (pc + 1) (pc + 1 + n)) < 256 ^ n).
  { intros n Hn. pose proof (le_val_range (subseq prog (pc + 1) (pc + 1 + n))) as Hr.
    assert (Hz : zlen (subseq prog (pc + 1) (pc + 1 + n)) <= n)
      by (unfold zlen, subseq; rewrite length_take; lia).
    pose proof (Z.pow_le_mono_r 256 _ n ltac:(lia) Hz). lia. }
  pose proof (Hle 2 ltac:(lia)) as H2. pose proof (Hle 4 ltac:(lia)) as H4.
  rewrite <- Z.add_assoc in H2, H4. clear Hle.
  change (1 + 2) with 3 in H2. change (1 + 4) with 5 in H4. change (256 ^ 2) with 65536 in H2.
  change (256 ^ 4) with 4294967296 in H4.
  unfold OP_1, OP_DATA_1, OP_DATA_75, MaxInt32 in *.
  repeat case_if; zbool; try discriminate.
  5: destruct (AddUint32 5 _) as [len|] eqn:Hlen; [|discriminate];
     apply AddUint32_Some in Hlen; [|words; lia|words; lia].
  all: intros Hi; first
    [ injection Hi as <-; cbn [inst_Len inst_Data]; rewrite ?zlen_cons, ?zlen_nil; lia
    | apply parse_data_bounds in Hi; [words; lia|words; lia|rewrite ?u32_id by (words; lia); words; lia|done] ].
Qed.
