(* ===== verification/Machine.v ===== *)
(** * protocol/vm: the machine state and its primitive operations

    [vm.go] and [context.go].  [vm] is [virtualMachine] and [Context] the
    execution context; stacks are lists whose head is the top (Go keeps the top
    at the end of the slice).  A Go method of the machine is a computation [M]
    that threads the byte store and the machine and ends in a [res]: an error
    keeps the state at the point of the [return], as in the source. *)

From S2P Require Import Prelude GoSlice VMTypes.

Section Machine.
Context {S : ItemStore} {U : Uint256}.

(** [Context]: a [nil] pointer or function is [None].  [TxSigHash] is the slice
    the (memoising) closure returns. *)
Record Context_ := mkContext {
  VMVersion : Z;
  Code : item;
  StateData : list item;
  Arguments : list item;
  EntryID : item;
  TxVersion : option Z;
  BlockHeight : option Z;
  NumResults : option Z;
  AssetID : option item;
  Amount : option Z;
  DestPos : option Z;
  SpentOutputID : option item;
  TxSigHash : option item;
  (* of index, amount, assetID, vmVersion, code, state (bottom first), expansion;
     a result or an error *)
  CheckOutput : option (Z -> Z -> bytes -> Z -> bytes -> list bytes -> bool -> bool + error);
}.

Record vm := mkVM {
  vm_context : Context_;
  vm_program : item;
  vm_pc : Z;
  vm_nextPC : Z;
  vm_runLimit : Z;
  vm_deferredCost : Z;
  vm_expansionReserved : bool;
  vm_data : bytes;
  vm_depth : Z;
  vm_dataStack : list item;
  vm_altStack : list item;
}.

Definition set_pc (x : Z) (v : vm) : vm :=
  let 'mkVM c p _ n r d e dt dp ds al := v in mkVM c p x n r d e dt dp ds al.
Definition set_nextPC (x : Z) (v : vm) : vm :=
  let 'mkVM c p pc _ r d e dt dp ds al := v in mkVM c p pc x r d e dt dp ds al.
Definition set_runLimit (x : Z) (v : vm) : vm :=
  let 'mkVM c p pc n _ d e dt dp ds al := v in mkVM c p pc n x d e dt dp ds al.
Definition set_deferredCost (x : Z) (v : vm) : vm :=
  let 'mkVM c p pc n r _ e dt dp ds al := v in mkVM c p pc n r x e dt dp ds al.
Definition set_data (x : bytes) (v : vm) : vm :=
  let 'mkVM c p pc n r d e _ dp ds al := v in mkVM c p pc n r d e x dp ds al.
Definition set_dataStack (x : list item) (v : vm) : vm :=
  let 'mkVM c p pc n r d e dt dp _ al := v in mkVM c p pc n r d e dt dp x al.
Definition set_altStack (x : list item) (v : vm) : vm :=
  let 'mkVM c p pc n r d e dt dp ds _ := v in mkVM c p pc n r d e dt dp ds x.

(** ** The computation type *)

Definition world : Type := heap * vm.
Definition M (A : Type) : Type := world -> res A * world.

#[global] Instance M_ret : MRet M := fun A a w => (Ok a, w).
#[global] Instance M_bind : MBind M := fun A B f m w =>
  match m w with
  | (Ok a, w') => f a w'
  | (Err e, w') => (Err e, w')
  | (Panic, w') => (Panic, w')
  | (OutOfFuel, w') => (OutOfFuel, w')
  end.

Definition throw {A} (e : error) : M A := fun w => (Err e, w).
Definition panic {A} : M A := fun w => (Panic, w).
Definition gets {A} (f : vm -> A) : M A := fun w => (Ok (f w.2), w).
Definition modify (f : vm -> vm) : M unit := fun w => (Ok tt, (w.1, f w.2)).
(** The bytes of an item, a fresh item, [append], and a pure result. *)
Definition read (i : item) : M bytes := fun w => (Ok (st_get w.1 i), w).
Definition alloc (b : bytes) : M item := fun w =>
  let '(i, h) := st_make b w.1 in (Ok i, (h, w.2)).
Definition append_ (i : item) (b : bytes) : M item := fun w =>
  let '(j, h) := st_append i b w.1 in (Ok j, (h, w.2)).
Definition lift {A} (r : res A) : M A := fun w => (r, w).

(** ** Costs *)

Definition applyCost (n : Z) : M unit :=
  rl ← gets vm_runLimit;
  if n >? rl then (modify (set_runLimit 0) ;; throw ErrRunLimitExceeded)
  else modify (set_runLimit (i64 (rl - n))).

Definition deferCost (n : Z) : M unit :=
  modify (fun v => set_deferredCost (i64 (vm_deferredCost v + n)) v).

(** [8 + int64(len(data))]. *)
Definition item_cost (i : item) : Z := i64 (8 + st_len i).

Definition stackCost (stack : list item) : Z :=
  foldl (fun result i => i64 (result + st_len i)) (i64 (8 * zlen stack)) stack.

(** ** Stack operations *)

Definition pushDataStack (i : item) (deferred : bool) : M unit :=
  (if deferred then deferCost (item_cost i) else applyCost (item_cost i)) ;;
  modify (fun v => set_dataStack (i :: vm_dataStack v) v).

Definition pushAltStack (i : item) (deferred : bool) : M unit :=
  (if deferred then deferCost (item_cost i) else applyCost (item_cost i)) ;;
  modify (fun v => set_altStack (i :: vm_altStack v) v).

(** [BoolBytes] returns the package variable [trueBytes], or a fresh empty slice. *)
Definition pushBool (b : bool) (deferred : bool) : M unit :=
  if b then pushDataStack st_true deferred
  else (i ← alloc []; pushDataStack i deferred).

Definition pushBigInt (n : u256) (deferred : bool) : M unit :=
  i ← alloc (BigIntBytes n); pushDataStack i deferred.

Definition pop (deferred : bool) : M item :=
  ds ← gets vm_dataStack;
  match ds with
  | [] => throw ErrDataStackUnderflow
  | r :: ds' =>
      modify (set_dataStack ds') ;;
      (if deferred then deferCost (- item_cost r)
       else modify (fun v => set_runLimit (i64 (vm_runLimit v + item_cost r)) v)) ;;
      mret r
  end.

Definition popBigInt (deferred : bool) : M u256 :=
  i ← pop deferred;
  b ← read i;
  lift (AsBigInt b).

Definition top : M item :=
  ds ← gets vm_dataStack;
  match ds with [] => throw ErrDataStackUnderflow | r :: _ => mret r end.

(** [falseResult]: the stack is empty or its top is false. *)
Definition falseResult (w : world) : bool :=
  match vm_dataStack w.2 with
  | [] => true
  | t :: _ => negb (AsBool (st_get w.1 t))
  end.
End Machine.

#[global] Arguments Context_ S : clear implicits.
#[global] Arguments vm S : clear implicits.
#[global] Arguments world S : clear implicits.
