(* ===== verification/Ops.v ===== *)
(** * protocol/vm: the opcode functions

    One definition per function of [stack.go], [numeric.go], [bitwise.go],
    [splice.go], [control.go], [crypto.go], [introspection.go] and
    [pushdata.go], under the source's name.  The child machine of
    [opCheckPredicate] is run by the argument [run], which [Interp.v] ties to
    the interpreter. *)

From S2P Require Import Prelude Checked GoSlice VMTypes Opcode Machine.
From Stdlib Require Import Strings.Byte.

Section Ops.
Context {S : ItemStore} {U : Uint256} {C : Crypto}.

Abbreviation M := (@M S).

(** ** pushdata.go *)

Definition opFalse : M unit := applyCost 1 ;; pushBool false false.

Definition opPushdata : M unit :=
  applyCost 1 ;;
  d ← gets vm_data;
  i ← alloc d;
  pushDataStack i false.

Definition opNop : M unit := applyCost 1.

(** ** stack.go *)

Definition opToAltStack : M unit :=
  applyCost 2 ;;
  ds ← gets vm_dataStack;
  match ds with
  | [] => throw ErrDataStackUnderflow
  | x :: ds' => modify (fun v => set_altStack (x :: vm_altStack v) v) ;; modify (set_dataStack ds')
  end.

Definition opFromAltStack : M unit :=
  applyCost 2 ;;
  al ← gets vm_altStack;
  match al with
  | [] => throw ErrAltStackUnderflow
  | x :: al' => modify (fun v => set_dataStack (x :: vm_dataStack v) v) ;; modify (set_altStack al')
  end.

(** A counted Go loop. *)
Fixpoint repeat_ (n : nat) (m : M unit) : M unit :=
  match n with O => mret tt | Datatypes.S k => m ;; repeat_ k m end.

Definition op2Drop : M unit :=
  applyCost 2 ;; repeat_ 2 (_ ← pop false; mret tt).

(** Pushes a copy of the [k]-th item from the top; the callers have checked the depth. *)
Definition push_nth (k : nat) : M unit :=
  ds ← gets vm_dataStack;
  match ds !! k with
  | Some x => pushDataStack x false
  | None => panic
  end.

Definition nDup (n : nat) : M unit :=
  applyCost (Z.of_nat n) ;;
  ds ← gets vm_dataStack;
  if zlen ds <? Z.of_nat n then throw ErrDataStackUnderflow
  else repeat_ n (push_nth (n - 1)).

Definition op2Dup : M unit := nDup 2.
Definition op3Dup : M unit := nDup 3.

Definition op2Over : M unit :=
  applyCost 2 ;;
  ds ← gets vm_dataStack;
  if zlen ds <? 4 then throw ErrDataStackUnderflow
  else repeat_ 2 (push_nth 3).

Definition op2Rot : M unit :=
  applyCost 2 ;;
  ds ← gets vm_dataStack;
  match ds with
  | x1 :: x2 :: x3 :: x4 :: x5 :: x6 :: ds' =>
      modify (set_dataStack (x5 :: x6 :: x1 :: x2 :: x3 :: x4 :: ds'))
  | _ => throw ErrDataStackUnderflow
  end.

Definition op2Swap : M unit :=
  applyCost 2 ;;
  ds ← gets vm_dataStack;
  match ds with
  | x1 :: x2 :: x3 :: x4 :: ds' => modify (set_dataStack (x3 :: x4 :: x1 :: x2 :: ds'))
  | _ => throw ErrDataStackUnderflow
  end.

Definition opIfDup : M unit :=
  applyCost 1 ;;
  item ← top;
  b ← read item;
  if AsBool b then pushDataStack item false else mret tt.

Definition opDepth : M unit :=
  applyCost 1 ;;
  ds ← gets vm_dataStack;
  pushBigInt (NewInt (zlen ds)) false.

Definition opDrop : M unit := applyCost 1 ;; (_ ← pop false; mret tt).

Definition opDup : M unit := nDup 1.

Definition opNip : M unit :=
  applyCost 1 ;;
  t ← top;
  modify (fun v => set_dataStack (tail (vm_dataStack v)) v) ;;
  pop false ;;
  modify (fun v => set_dataStack (t :: vm_dataStack v) v).

Definition opOver : M unit :=
  applyCost 1 ;;
  ds ← gets vm_dataStack;
  if zlen ds <? 2 then throw ErrDataStackUnderflow else push_nth 1.

(** [off, ok := checked.AddInt64(int64(n.Uint64()), 1)]. *)
Definition pick_offset (n : u256) : option Z := AddInt64 (i64 (Uint64 n)) 1.

(** [vm.dataStack[i]] with Go's index (0 is the bottom). *)
Definition go_index (ds : list item) (i : Z) : option item :=
  zlookup ds (zlen ds - 1 - i).

Definition opPick : M unit :=
  applyCost 2 ;;
  n ← popBigInt false;
  match pick_offset n with
  | None => throw ErrBadValue
  | Some off =>
      ds ← gets vm_dataStack;
      let dataStackSize := zlen ds in
      if dataStackSize <? off then throw ErrDataStackUnderflow
      else match go_index ds (i64 (dataStackSize - off)) with
           | Some x => pushDataStack x false
           | None => panic
           end
  end.

Definition rot (n : Z) : M unit :=
  if n <? 1 then throw ErrBadValue
  else
    ds ← gets vm_dataStack;
    if zlen ds <? n then throw ErrDataStackUnderflow
    else
      let k := Z.to_nat (n - 1) in
      match ds !! k with
      | Some x => modify (set_dataStack (x :: take k ds ++ drop (k + 1) ds))
      | None => panic
      end.

Definition opRoll : M unit :=
  applyCost 2 ;;
  n ← popBigInt false;
  match pick_offset n with
  | None => throw ErrBadValue
  | Some off => rot off
  end.

Definition opRot : M unit := applyCost 2 ;; rot 3.

Definition opSwap : M unit :=
  applyCost 1 ;;
  ds ← gets vm_dataStack;
  match ds with
  | x :: y :: ds' => modify (set_dataStack (y :: x :: ds'))
  | _ => throw ErrDataStackUnderflow
  end.

Definition opTuck : M unit :=
  applyCost 1 ;;
  ds ← gets vm_dataStack;
  match ds with
  | x :: y :: ds' =>
      modify (set_dataStack ds') ;;
      pushDataStack x false ;;
      modify (fun v => set_dataStack (x :: y :: vm_dataStack v) v)
  | _ => throw ErrDataStackUnderflow
  end.

(** ** numeric.go *)

(** [num.Sign() < 0] after an operation: the result does not fit. *)
Definition push_signed (num : u256) : M unit :=
  if Sign num <? 0 then throw ErrRange else pushBigInt num true.

Definition op1Add : M unit :=
  applyCost 2 ;; n ← popBigInt true; push_signed (uAdd n (NewInt 1)).

Definition op1Sub : M unit :=
  applyCost 2 ;; n ← popBigInt true; push_signed (uSub n (NewInt 1)).

Definition op2Mul : M unit :=
  applyCost 2 ;; n ← popBigInt true; push_signed (uMul n (NewInt 2)).

Definition op2Div : M unit :=
  applyCost 2 ;; n ← popBigInt true; pushBigInt (Rsh n 1) true.

Definition opNot : M unit :=
  applyCost 2 ;; n ← popBigInt true; pushBool (Cmp n (NewInt 0) =? 0) true.

Definition op0NotEqual : M unit :=
  applyCost 2 ;; n ← popBigInt true; pushBool (negb (Cmp n (NewInt 0) =? 0)) true.

Definition opAdd : M unit :=
  applyCost 2 ;; y ← popBigInt true; x ← popBigInt true; push_signed (uAdd x y).

Definition opSub : M unit :=
  applyCost 2 ;; y ← popBigInt true; x ← popBigInt true; push_signed (uSub x y).

Definition opMul : M unit :=
  applyCost 8 ;; y ← popBigInt true; x ← popBigInt true;
  let '(p, overflow) := MulOverflow x y in
  if overflow || (Sign p <? 0) then throw ErrRange else pushBigInt p true.

Definition opDiv : M unit :=
  applyCost 8 ;; y ← popBigInt true; x ← popBigInt true;
  if IsZero y then throw ErrDivZero else pushBigInt (uDiv x y) true.

Definition opMod : M unit :=
  applyCost 8 ;; y ← popBigInt true; x ← popBigInt true;
  if IsZero y then throw ErrDivZero else pushBigInt (uMod x y) true.

Definition opLshift : M unit :=
  applyCost 8 ;; y ← popBigInt true; x ← popBigInt true;
  push_signed (if LtUint64 y 256 then Lsh x (Uint64 y) else NewInt 0).

Definition opRshift : M unit :=
  applyCost 8 ;; y ← popBigInt true; x ← popBigInt true;
  pushBigInt (if LtUint64 y 256 then Rsh x (Uint64 y) else NewInt 0) true.

Definition opBoolAnd : M unit :=
  applyCost 2 ;; b ← pop true; a ← pop true;
  va ← read a; vb ← read b;
  pushBool (AsBool va && AsBool vb) true.

Definition opBoolOr : M unit :=
  applyCost 2 ;; b ← pop true; a ← pop true;
  va ← read a; vb ← read b;
  pushBool (AsBool va || AsBool vb) true.

Inductive cmpOp := cmpLess | cmpLessEqual | cmpGreater | cmpGreaterEqual | cmpEqual | cmpNotEqual.

Definition cmp_result (op : cmpOp) (c : Z) : bool :=
  match op with
  | cmpLess => c <? 0
  | cmpLessEqual => c <=? 0
  | cmpGreater => c >? 0
  | cmpGreaterEqual => c >=? 0
  | cmpEqual => c =? 0
  | cmpNotEqual => negb (c =? 0)
  end.

Definition doNumCompare (op : cmpOp) : M unit :=
  applyCost 2 ;; y ← popBigInt true; x ← popBigInt true;
  pushBool (cmp_result op (Cmp x y)) true.

Definition opNumEqual : M unit := doNumCompare cmpEqual.

Definition opNumEqualVerify : M unit :=
  applyCost 2 ;; y ← popBigInt true; x ← popBigInt true;
  if Eq x y then mret tt else throw ErrVerifyFailed.

Definition opNumNotEqual : M unit := doNumCompare cmpNotEqual.
Definition opLessThan : M unit := doNumCompare cmpLess.
Definition opGreaterThan : M unit := doNumCompare cmpGreater.
Definition opLessThanOrEqual : M unit := doNumCompare cmpLessEqual.
Definition opGreaterThanOrEqual : M unit := doNumCompare cmpGreaterEqual.

Definition opMin : M unit :=
  applyCost 2 ;; y ← popBigInt true; x ← popBigInt true;
  if Cmp x y >? 0 then pushBigInt y true else pushBigInt x true.

Definition opMax : M unit :=
  applyCost 2 ;; y ← popBigInt true; x ← popBigInt true;
  if Cmp x y <? 0 then pushBigInt y true else pushBigInt x true.

Definition opWithin : M unit :=
  applyCost 4 ;; max ← popBigInt true; min ← popBigInt true; x ← popBigInt true;
  pushBool ((Cmp x min >=? 0) && (Cmp x max <? 0)) true.

(** ** bitwise.go *)

Definition opInvert : M unit :=
  applyCost 1 ;;
  t ← top;
  applyCost (st_len t) ;;
  b ← read t;
  newTop ← alloc ((fun x => z2b (Z.lxor (b2z x) 255)) <$> b);
  modify (fun v => set_dataStack (newTop :: tail (vm_dataStack v)) v).

Definition byte_and (x y : byte) : byte := z2b (Z.land (b2z x) (b2z y)).
Definition byte_or (x y : byte) : byte := z2b (Z.lor (b2z x) (b2z y)).
Definition byte_xor (x y : byte) : byte := z2b (Z.lxor (b2z x) (b2z y)).

Definition opAnd : M unit :=
  applyCost 1 ;;
  b ← pop true; a ← pop true;
  applyCost (Z.min (st_len a) (st_len b)) ;;
  va ← read a; vb ← read b;
  r ← alloc (zip_with byte_and va vb);
  pushDataStack r true.

(** The loop of [doOr]: the shorter operand is padded with zero bytes. *)
Definition zip_padded (f : byte -> byte -> byte) (a b : bytes) : bytes :=
  let max := Nat.max (length a) (length b) in
  zip_with f (resize max x00 a) (resize max x00 b).

Definition doOr (xor : bool) : M unit :=
  applyCost 1 ;;
  b ← pop true; a ← pop true;
  applyCost (Z.max (st_len a) (st_len b)) ;;
  va ← read a; vb ← read b;
  r ← alloc (zip_padded (if xor then byte_xor else byte_or) va vb);
  pushDataStack r true.

Definition opOr : M unit := doOr false.
Definition opXor : M unit := doOr true.

Definition doEqual : M bool :=
  applyCost 1 ;;
  b ← pop true; a ← pop true;
  applyCost (Z.min (st_len a) (st_len b)) ;;
  va ← read a; vb ← read b;
  mret (bool_decide (va = vb)).

Definition opEqual : M unit := r ← doEqual; pushBool r true.

Definition opEqualVerify : M unit :=
  r ← doEqual; if r : bool then mret tt else throw ErrVerifyFailed.

(** ** splice.go *)

(** [vm.popBigInt(true)] followed by [bigIntInt64]. *)
Definition popInt64 : M Z := n ← popBigInt true; lift (bigIntInt64 n).

Definition opCat : M unit :=
  applyCost 4 ;;
  b ← pop true; a ← pop true;
  let lens := i64 (st_len a + st_len b) in
  applyCost lens ;;
  deferCost (- lens) ;;
  vb ← read b;
  r ← append_ a vb;
  pushDataStack r true.

Definition opSubstr : M unit :=
  applyCost 4 ;;
  size ← popInt64;
  applyCost size ;;
  deferCost (- size) ;;
  offset ← popInt64;
  str ← pop true;
  match AddInt64 offset size with
  | None => throw ErrBadValue
  | Some end_ =>
      if end_ >? st_len str then throw ErrBadValue
      else pushDataStack (st_slice str offset end_) true
  end.

Definition opLeft : M unit :=
  applyCost 4 ;;
  size ← popInt64;
  applyCost size ;;
  deferCost (- size) ;;
  str ← pop true;
  if size >? st_len str then throw ErrBadValue
  else pushDataStack (st_slice str 0 size) true.

Definition opRight : M unit :=
  applyCost 4 ;;
  size ← popInt64;
  applyCost size ;;
  deferCost (- size) ;;
  str ← pop true;
  let lstr := st_len str in
  if size >? lstr then throw ErrBadValue
  else pushDataStack (st_slice str (lstr - size) lstr) true.

Definition opSize : M unit :=
  applyCost 1 ;;
  str ← top;
  pushBigInt (NewInt (st_len str)) true.

Definition opCatpushdata : M unit :=
  applyCost 4 ;;
  b ← pop true; a ← pop true;
  let lens := i64 (st_len a + st_len b) in
  applyCost lens ;;
  deferCost (- lens) ;;
  vb ← read b;
  r ← append_ a (PushDataBytes vb);
  pushDataStack r true.

(** ** control.go *)

Definition opVerify : M unit :=
  applyCost 1 ;;
  p ← pop true;
  b ← read p;
  if AsBool b then mret tt else throw ErrVerifyFailed.

Definition opFail : M unit := applyCost 1 ;; throw ErrReturn.

(** Runs [m] on the child machine over the shared byte store: the child's error
    is returned as a value, a panic or the lack of fuel goes through. *)
Definition run_child (m : M unit) (child : vm S) : M (option error * vm S) := fun w =>
  match m (w.1, child) with
  | (Ok _, (h, child')) => (Ok (None, child'), (h, w.2))
  | (Err e, (h, child')) => (Ok (Some e, child'), (h, w.2))
  | (Panic, (h, _)) => (Panic, (h, w.2))
  | (OutOfFuel, (h, _)) => (OutOfFuel, (h, w.2))
  end.

Definition is_nil (e : option error) : bool := match e with None => true | Some _ => false end.

Definition child_vm (v : vm S) (predicate : item) (limit : Z) (n : nat) : vm S := {|
  vm_context := vm_context v;
  vm_program := predicate;
  vm_pc := 0;
  vm_nextPC := 0;
  vm_runLimit := limit;
  vm_deferredCost := 0;
  vm_expansionReserved := false;
  vm_data := [];
  vm_depth := vm_depth v + 1;
  vm_dataStack := take n (vm_dataStack v);
  vm_altStack := [];
|}.

Definition opCheckPredicate (run : M unit) : M unit :=
  applyCost 256 ;;
  deferCost (-256 + 64) ;;
  limit ← popInt64;
  predicate ← pop true;
  n ← popInt64;
  ds ← gets vm_dataStack;
  let l := zlen ds in
  let n := if n =? 0 then l else n in
  if n >? l then throw ErrDataStackUnderflow
  else
    rl ← gets vm_runLimit;
    let limit := if limit =? 0 then rl else limit in
    applyCost limit ;;
    child ← gets (fun v => child_vm v predicate limit (Z.to_nat n));
    modify (fun v => set_dataStack (drop (Z.to_nat n) (vm_dataStack v)) v) ;;
    '(childErr, child') ← run_child run child;
    deferCost (- vm_runLimit child') ;;
    deferCost (- stackCost (vm_dataStack child')) ;;
    deferCost (- stackCost (vm_altStack child')) ;;
    false_ ← (fun w => (Ok (falseResult (w.1, child')), w));
    pushBool (is_nil childErr && negb false_) true.

Definition opJump : M unit :=
  applyCost 1 ;;
  modify (fun v => set_nextPC (le_val (vm_data v)) v).

Definition opJumpIf : M unit :=
  applyCost 1 ;;
  p ← pop true;
  b ← read p;
  if AsBool b then modify (fun v => set_nextPC (le_val (vm_data v)) v) else mret tt.

(** ** crypto.go *)

(** [Sum(nil)] of a hash: [append(nil, digest...)], with the capacity the runtime chooses. *)
Definition Sum (digest : bytes) : M item :=
  nil_ ← alloc [];
  append_ nil_ digest.
Definition doHash (hash : bytes -> bytes) : M unit :=
  x ← pop false;
  let cost := if st_len x <? 64 then 64 else st_len x in
  applyCost cost ;;
  b ← read x;
  r ← Sum (hash b);
  pushDataStack r false.

Definition opSha256 : M unit := doHash sha256.
Definition opSha3 : M unit := doHash sha3_256.

Definition PublicKeySize : Z := 32.

Definition opCheckSig : M unit :=
  applyCost 1024 ;;
  pubkeyBytes ← pop true;
  msg ← pop true;
  sig ← pop true;
  if negb (st_len msg =? 32) then throw ErrBadValue
  else if negb (st_len pubkeyBytes =? PublicKeySize) then pushBool false true
  else
    pk ← read pubkeyBytes; m ← read msg; s ← read sig;
    pushBool (ed25519_verify pk m s) true.

Fixpoint pop_list (n : nat) : M (list item) :=
  match n with
  | O => mret []
  | Datatypes.S k => x ← pop true; rest ← pop_list k; mret (x :: rest)
  end.

Fixpoint read_list (l : list item) : M (list bytes) :=
  match l with
  | [] => mret []
  | i :: l' => b ← read i; rest ← read_list l'; mret (b :: rest)
  end.

(** The final loop: keys are consumed in order, a key that verifies the next
    signature consumes it; true when no signature is left. *)
Fixpoint multisig_match (msg : bytes) (sigs pubkeys : list bytes) : bool :=
  match sigs, pubkeys with
  | [], _ => true
  | _ :: _, [] => false
  | s :: sigs', p :: pubkeys' =>
      if ed25519_verify p msg s then multisig_match msg sigs' pubkeys'
      else multisig_match msg sigs pubkeys'
  end.

Definition opCheckMultiSig : M unit :=
  numPubkeys ← popInt64;
  match MulInt64 numPubkeys 1024 with
  | None => throw ErrBadValue
  | Some pubCost =>
      if numPubkeys <? 0 then throw ErrBadValue
      else
        applyCost pubCost ;;
        numSigs ← popInt64;
        if (numSigs <? 0) || (numSigs >? numPubkeys) || ((numPubkeys >? 0) && (numSigs =? 0))
        then throw ErrBadValue
        else
          pubkeyByteses ← pop_list (Z.to_nat numPubkeys);
          msg ← pop true;
          if negb (st_len msg =? 32) then throw ErrBadValue
          else
            sigs ← pop_list (Z.to_nat numSigs);
            if existsb (fun p => negb (st_len p =? PublicKeySize)) pubkeyByteses
            then pushBool false true
            else
              m ← read msg; ss ← read_list sigs; ps ← read_list pubkeyByteses;
              pushBool (multisig_match m ss ps) true
  end.

Definition opTxSigHash : M unit :=
  applyCost 256 ;;
  c ← gets vm_context;
  match TxSigHash c with
  | None => throw ErrContext
  | Some h => pushDataStack h false
  end.

Definition opHash160 : M unit :=
  data ← pop false;
  applyCost (i64 (st_len data + 64)) ;;
  b ← read data;
  r ← Sum (ripemd160 b);
  pushDataStack r false.

(** ** introspection.go *)

Definition opCheckOutput : M unit :=
  applyCost 16 ;;
  code ← pop true;
  vmVersion ← popBigInt true;
  assetID ← pop true;
  amountInt ← popBigInt true;
  let '(amount, overflow) := Uint64WithOverflow amountInt in
  if overflow : bool then throw ErrBadValue
  else
    index ← popBigInt true;
    c ← gets vm_context;
    match CheckOutput c with
    | None => throw ErrContext
    | Some check =>
        code_b ← read code; assetID_b ← read assetID;
        alt ← gets vm_altStack;
        state ← read_list (reverse alt);
        exp ← gets vm_expansionReserved;
        match check (Uint64 index) amount assetID_b (Uint64 vmVersion) code_b state exp with
        | inr e => throw e
        | inl ok => pushBool ok true
        end
    end.

(** An opcode that pushes an optional field of the context. *)
Definition push_field {A} (f : Context_ S -> option A) (push : A -> M unit) : M unit :=
  applyCost 1 ;;
  c ← gets vm_context;
  match f c with
  | None => throw ErrContext
  | Some x => push x
  end.

Definition opAsset : M unit := push_field AssetID (fun i => pushDataStack i true).
Definition opAmount : M unit := push_field Amount (fun n => pushBigInt (NewInt n) true).
Definition opProgram : M unit :=
  applyCost 1 ;; c ← gets vm_context; pushDataStack (Code c) true.
Definition opIndex : M unit := push_field DestPos (fun n => pushBigInt (NewInt n) true).
Definition opEntryID : M unit :=
  applyCost 1 ;; c ← gets vm_context; pushDataStack (EntryID c) true.
Definition opOutputID : M unit := push_field SpentOutputID (fun i => pushDataStack i true).
Definition opBlockHeight : M unit := push_field BlockHeight (fun n => pushBigInt (NewInt n) true).
End Ops.
