(* ===== verification/Interp.v ===== *)
(** * protocol/vm: the interpreter

    [vm.go]: dispatch of an opcode, [step], [run] and [Verify].  The recursion
    (the loop of [run], and the child machines of CHECKPREDICATE inside a step)
    is bounded by [fuel]; [Gas.v] proves how much is enough. *)

From S2P Require Import Prelude Checked GoSlice VMTypes Opcode Machine Ops.

Section Interp.
Context {S : ItemStore} {U : Uint256} {C : Crypto}.

Abbreviation M := (@M S).

(** [ops[op].fn(vm)]. *)
Definition exec (run : M unit) (f : opFn) : M unit :=
  match f with
  | fn_opFalse => opFalse
  | fn_opPushdata => opPushdata
  | fn_opNop => opNop
  | fn_opJump => opJump
  | fn_opJumpIf => opJumpIf
  | fn_opVerify => opVerify
  | fn_opFail => opFail
  | fn_opToAltStack => opToAltStack
  | fn_opFromAltStack => opFromAltStack
  | fn_op2Drop => op2Drop
  | fn_op2Dup => op2Dup
  | fn_op3Dup => op3Dup
  | fn_op2Over => op2Over
  | fn_op2Rot => op2Rot
  | fn_op2Swap => op2Swap
  | fn_opIfDup => opIfDup
  | fn_opDepth => opDepth
  | fn_opDrop => opDrop
  | fn_opDup => opDup
  | fn_opNip => opNip
  | fn_opOver => opOver
  | fn_opPick => opPick
  | fn_opRoll => opRoll
  | fn_opRot => opRot
  | fn_opSwap => opSwap
  | fn_opTuck => opTuck
  | fn_opCat => opCat
  | fn_opSubstr => opSubstr
  | fn_opLeft => opLeft
  | fn_opRight => opRight
  | fn_opSize => opSize
  | fn_opCatpushdata => opCatpushdata
  | fn_opInvert => opInvert
  | fn_opAnd => opAnd
  | fn_opOr => opOr
  | fn_opXor => opXor
  | fn_opEqual => opEqual
  | fn_opEqualVerify => opEqualVerify
  | fn_op1Add => op1Add
  | fn_op1Sub => op1Sub
  | fn_op2Mul => op2Mul
  | fn_op2Div => op2Div
  | fn_opNot => opNot
  | fn_op0NotEqual => op0NotEqual
  | fn_opAdd => opAdd
  | fn_opSub => opSub
  | fn_opMul => opMul
  | fn_opDiv => opDiv
  | fn_opMod => opMod
  | fn_opLshift => opLshift
  | fn_opRshift => opRshift
  | fn_opBoolAnd => opBoolAnd
  | fn_opBoolOr => opBoolOr
  | fn_opNumEqual => opNumEqual
  | fn_opNumEqualVerify => opNumEqualVerify
  | fn_opNumNotEqual => opNumNotEqual
  | fn_opLessThan => opLessThan
  | fn_opGreaterThan => opGreaterThan
  | fn_opLessThanOrEqual => opLessThanOrEqual
  | fn_opGreaterThanOrEqual => opGreaterThanOrEqual
  | fn_opMin => opMin
  | fn_opMax => opMax
  | fn_opWithin => opWithin
  | fn_opSha256 => opSha256
  | fn_opSha3 => opSha3
  | fn_opHash160 => opHash160
  | fn_opCheckSig => opCheckSig
  | fn_opCheckMultiSig => opCheckMultiSig
  | fn_opTxSigHash => opTxSigHash
  | fn_opCheckOutput => opCheckOutput
  | fn_opAsset => opAsset
  | fn_opAmount => opAmount
  | fn_opProgram => opProgram
  | fn_opIndex => opIndex
  | fn_opEntryID => opEntryID
  | fn_opOutputID => opOutputID
  | fn_opBlockHeight => opBlockHeight
  | fn_opCheckPredicate => opCheckPredicate run
  end.

Definition program_bytes : M bytes := p ← gets vm_program; read p.

(** [vm.step()]; [run] runs a child machine. *)
Definition step (run : M unit) : M unit :=
  prog ← program_bytes;
  pc ← gets vm_pc;
  inst ← lift (ParseOp prog pc);
  modify (set_nextPC (u32 (pc + inst_Len inst))) ;;
  if isExpansion (inst_Op inst) then
    reserved ← gets vm_expansionReserved;
    if reserved : bool then throw ErrDisallowedOpcode
    else modify (fun v => set_pc (vm_nextPC v) v) ;; applyCost 1
  else
    modify (set_deferredCost 0) ;;
    modify (set_data (inst_Data inst)) ;;
    exec run (info_fn (ops (inst_Op inst))) ;;
    d ← gets vm_deferredCost;
    applyCost d ;;
    modify (fun v => set_pc (vm_nextPC v) v).

(** The loop of [vm.run()], and [vm.run()] itself. *)
Fixpoint run_loop (fuel : nat) : M unit :=
  match fuel with
  | O => fun w => (OutOfFuel, w)
  | Datatypes.S f =>
      prog ← program_bytes;
      pc ← gets vm_pc;
      if pc <? u32 (zlen prog) then
        step (modify (set_pc 0) ;; run_loop f) ;; run_loop f
      else mret tt
  end.

Definition run (fuel : nat) : M unit := modify (set_pc 0) ;; run_loop fuel.

Definition init_vm (ctx : Context_ S) (gasLimit : Z) : vm S := {|
  vm_context := ctx;
  vm_program := Code ctx;
  vm_pc := 0;
  vm_nextPC := 0;
  vm_runLimit := gasLimit;
  vm_deferredCost := 0;
  vm_expansionReserved :=
    match TxVersion ctx with Some n => n =? 1 | None => false end;
  vm_data := [];
  vm_depth := 0;
  vm_dataStack := [];
  vm_altStack := [];
|}.

Fixpoint push_all (push : item -> M unit) (l : list item) : M unit :=
  match l with [] => mret tt | i :: l' => push i ;; push_all push l' end.

(** The body of [Verify] from the initial pushes to the verdict. *)
Definition verify_body (fuel : nat) (ctx : Context_ S) : M unit :=
  push_all (fun i => pushAltStack i false) (StateData ctx) ;;
  push_all (fun i => pushDataStack i false) (Arguments ctx) ;;
  run fuel ;;
  false_ ← (fun w => (Ok (falseResult w), w));
  if false_ : bool then throw ErrFalseVMResult else mret tt.

(** What [Verify] returns: the gas left and the error, if any; a panic is
    recovered into [ErrUnexpected] with the zero value of [gasLeft]. *)
Record verdict := Verdict { gasLeft : Z; verify_err : option error }.

Definition Verify (fuel : nat) (ctx : Context_ S) (gasLimit : Z) (h : heap) : option verdict * heap :=
  if negb (VMVersion ctx =? 1) then (Some (Verdict gasLimit (Some ErrUnsupportedVM)), h)
  else
    match verify_body fuel ctx (h, init_vm ctx gasLimit) with
    | (Ok _, (h', v)) => (Some (Verdict (vm_runLimit v) None), h')
    | (Err e, (h', v)) => (Some (Verdict (vm_runLimit v) (Some e)), h')
    | (Panic, (h', _)) => (Some (Verdict 0 (Some ErrUnexpected)), h')
    | (OutOfFuel, (h', _)) => (None, h')
    end.
End Interp.

(** ** Fuel only matters until it suffices *)

Section FuelIrrelevant.
Context {S : ItemStore} {U : Uint256} {C : Crypto}.

Abbreviation M := (@M S).

(** [m'] does what [m] does, unless [m] ran out of fuel. *)
Definition refines {A} (m m' : M A) : Prop := forall w, (m w).1 <> OutOfFuel -> m' w = m w.

Lemma refines_refl {A} (m : M A) : refines m m.
Proof. by intros w. Qed.
Lemma refines_bind {A B} (m m' : M A) (k k' : A -> M B) :
  refines m m' -> (forall a, refines (k a) (k' a)) -> refines (m ≫= k) (m' ≫= k').
Proof.
  intros Hm Hk w. unfold mbind, M_bind. specialize (Hm w).
  destruct (m w) as [[a|e| |] w'] eqn:Hw; cbn; intros Hf; try by rewrite Hm.
  rewrite Hm by done. by apply Hk.
Qed.
Lemma refines_if {A} (b : bool) (m m' k k' : M A) :
  refines m m' -> refines k k' -> refines (if b then m else k) (if b then m' else k').
Proof. by destruct b. Qed.
Lemma refines_run_child m m' c : refines m m' -> refines (run_child m c) (run_child m' c).
Proof.
  intros Hm w. unfold run_child. specialize (Hm (w.1, c)).
  destruct (m (w.1, c)) as [[a|e| |] [h v]]; cbn; intros Hf; by rewrite ?Hm.
Qed.

Lemma refines_exec m m' f : refines m m' -> refines (exec m f) (exec m' f).
Proof.
  intros Hm. destruct f; cbn [exec]; try apply refines_refl. unfold opCheckPredicate.
  repeat first [ apply refines_bind; [apply refines_refl|intros ?]
               | apply refines_bind; [by apply refines_run_child|intros [? ?]]
               | apply refines_if | apply refines_refl | cbv zeta ].
Qed.

Lemma refines_step m m' : refines m m' -> refines (step m) (step m').
Proof.
  intros Hm. unfold step.
  repeat first [ apply refines_bind; [apply refines_refl|intros ?]
               | apply refines_bind; [by apply refines_exec|intros ?]
               | apply refines_if | apply refines_refl ].
Qed.

Lemma refines_run_loop f g : (f <= g)%nat -> refines (run_loop f) (run_loop g).
Proof.
  revert g. induction f as [|f IH]; intros g Hg; [by intros w|].
  destruct g as [|g]; [lia|]. cbn [run_loop].
  do 2 (apply refines_bind; [apply refines_refl|intros ?]).
  apply refines_if; [|apply refines_refl]. apply refines_bind; [|intros _; apply IH; lia].
  apply refines_step, refines_bind; [apply refines_refl|intros _; apply IH; lia].
Qed.

Lemma Verify_fuel_mono f g ctx gasLimit h r h' :
  (f <= g)%nat -> Verify f ctx gasLimit h = (Some r, h') -> Verify g ctx gasLimit h = (Some r, h').
Proof.
  intros Hfg. unfold Verify. destruct (negb _); [done|].
  assert (Hr : refines (verify_body f ctx) (verify_body g ctx)).
  { unfold verify_body, run.
    repeat first [ apply refines_bind; [apply refines_refl|intros ?]
                 | apply refines_bind; [|intros ?; apply refines_refl]
                 | by apply refines_run_loop ]. }
  specialize (Hr (h, init_vm ctx gasLimit)).
  destruct (verify_body f ctx (h, init_vm ctx gasLimit)) as [[[]|e| |] [h1 v1]]; cbn in Hr;
    intros Hv; try done; by rewrite Hr.
Qed.
End FuelIrrelevant.
