(* ===== verification/Gas.v ===== *)
(** * Gas accounting of the virtual machine

    [energy v] is the gas left plus the cost of everything on the two stacks
    ([8 + len] per item): what a machine could still spend.  The program logic
    below ([wp], one rule per machine primitive) shows for every opcode
    function that it never raises the energy, that only two of them may leave
    it unchanged, and that no 64-bit gas computation wraps.

    The accounting has one hole, which the rules make visible: when the
    deferred cost of a push exceeds the limit, [step] fails with the unpaid item
    left on the stack, and CHECKPREDICATE refunds a failed child's stacks.  The
    positive theorems therefore assume the items the context can push cost at
    most the 64 units a CHECKPREDICATE keeps ([small_context]: every standard
    segwit control program qualifies); [Mint.v] shows what happens otherwise. *)

From S2P Require Import Prelude Checked GoSlice VMTypes Opcode Machine Ops Interp.

(** Some heap of the store: lengths are read off items through one. *)
Class SomeHeap (S : ItemStore) := some_heap : heap.

Section Gas.
Context {S : ItemStore} {SL : StoreLaws S} {U : Uint256} {UL : Uint256Laws U}
        {C : Crypto} {CL : CryptoLaws C}.

Abbreviation M := (@M S).

Context {h0 : SomeHeap S}.

(** ** Quantities *)

(** The cost of a stack, in unbounded arithmetic. *)
Definition scost (l : list item) : Z := foldr (fun i n => 8 + st_len i + n) 0 l.

Definition stacks (v : vm S) : Z := scost (vm_dataStack v) + scost (vm_altStack v).
Definition energy (v : vm S) : Z := vm_runLimit v + stacks v.

(** What no opcode function changes. *)
Definition frame (v : vm S) := (vm_context v, vm_program v, vm_pc v, vm_expansionReserved v).

Definition small_context (c : Context_ S) : Prop :=
  st_len (Code c) <= 56 /\ st_len (EntryID c) <= 56
  /\ (forall i, AssetID c = Some i -> st_len i <= 56)
  /\ (forall i, SpentOutputID c = Some i -> st_len i <= 56)
  /\ (forall i, TxSigHash c = Some i -> st_len i <= 56).

(** ** Weakest preconditions, for every byte store *)

Definition wp {A} (m : M A) (Q : res A -> vm S -> Prop) (v : vm S) : Prop :=
  forall h, Q (m (h, v)).1 (m (h, v)).2.2.

Lemma wp_bind {A B} (m : M A) (k : A -> M B) Q v :
  wp m (fun r v' => match r with
                    | Ok a => wp (k a) Q v'
                    | Err e => Q (Err e) v'
                    | Panic => Q Panic v'
                    | OutOfFuel => Q OutOfFuel v' end) v ->
  wp (m ≫= k) Q v.
Proof.
  intros Hm h. specialize (Hm h). unfold mbind, M_bind.
  destruct (m (h, v)) as [[a|e| |] [h' v']]; cbn in *; try exact Hm. apply Hm.
Qed.

Lemma wp_mono {A} (m : M A) (Q Q' : res A -> vm S -> Prop) v :
  wp m Q v -> (forall r v', Q r v' -> Q' r v') -> wp m Q' v.
Proof. intros Hm HQ h. apply HQ, Hm. Qed.

Lemma wp_ret {A} (a : A) Q v : Q (Ok a) v -> wp (mret a) Q v.
Proof. intros H h. exact H. Qed.
Lemma wp_throw {A} e (Q : res A -> vm S -> Prop) v : Q (Err e) v -> wp (throw e) Q v.
Proof. intros H h. exact H. Qed.
Lemma wp_panic {A} (Q : res A -> vm S -> Prop) v : Q Panic v -> wp panic Q v.
Proof. intros H h. exact H. Qed.
Lemma wp_gets {A} (f : vm S -> A) Q v : Q (Ok (f v)) v -> wp (gets f) Q v.
Proof. intros H h. exact H. Qed.
Lemma wp_modify f (Q : res unit -> vm S -> Prop) v : Q (Ok tt) (f v) -> wp (modify f) Q v.
Proof. intros H h. exact H. Qed.
Lemma wp_lift {A} (r : res A) (Q : res A -> vm S -> Prop) v : Q r v -> wp (lift r) Q v.
Proof. intros H h. exact H. Qed.
Lemma wp_read i (Q : res bytes -> vm S -> Prop) v :
  (forall b, zlen b = st_len i -> Q (Ok b) v) -> wp (read i) Q v.
Proof. intros H h. apply H. apply get_len. Qed.
Lemma wp_alloc b (Q : res item -> vm S -> Prop) v :
  (forall i, st_len i = zlen b -> Q (Ok i) v) -> wp (alloc b) Q v.
Proof.
  intros H h. unfold alloc. pose proof (make_len b h).
  cbn. destruct (st_make b h) as [i h']. cbn in *. auto.
Qed.
Lemma wp_append i b (Q : res item -> vm S -> Prop) v :
  (forall j, st_len j = st_len i + zlen b -> Q (Ok j) v) -> wp (append_ i b) Q v.
Proof.
  intros H h. unfold append_. pose proof (append_len i b h).
  cbn. destruct (st_append i b h) as [j h']. cbn in *. auto.
Qed.

Lemma wp_Sum b (Q : res item -> vm S -> Prop) v :
  (forall i, st_len i = zlen b -> Q (Ok i) v) -> wp (Sum b) Q v.
Proof.
  intros H h. unfold Sum, mbind, M_bind, alloc, append_. cbn [fst snd]. pose proof (make_len [] h) as Hm. destruct (st_make [] h) as [i h1].
  pose proof (append_len i b h1) as Ha. cbn [fst snd] in *. destruct (st_append i b h1) as [j h2]. cbn [fst snd] in *. apply H. rewrite Ha, Hm, zlen_nil. lia.
Qed.

(** A value computed from the world, without changing it. *)
Lemma wp_observe {A} (f : world S -> A) (Q : res A -> vm S -> Prop) v :
  (forall a, Q (Ok a) v) -> wp (fun w => (Ok (f w), w)) Q v.
Proof. intros H h. apply H. Qed.

Lemma scost_nil : scost [] = 0.
Proof. done. Qed.
Lemma scost_cons i l : scost (i :: l) = 8 + st_len i + scost l.
Proof. done. Qed.

(** At least 8 per item, whatever the lengths. *)
Lemma scost_zlen l : 8 * zlen l <= scost l.
Proof.
  induction l as [|i l IH]; [done|]. rewrite zlen_cons, scost_cons.
  pose proof (st_len_nonneg i some_heap). lia.
Qed.
Lemma scost_nonneg l : 0 <= scost l.
Proof. pose proof (scost_zlen l). pose proof (zlen_nonneg l). lia. Qed.
Lemma scost_app l k : scost (l ++ k) = scost l + scost k.
Proof. induction l as [|i l IH]; cbn [app]; rewrite ?scost_cons, ?scost_nil; lia. Qed.
Lemma scost_lookup l k i : l !! k = Some i -> 8 + st_len i <= scost l.
Proof.
  revert k. induction l as [|j l IH]; intros [|k] Hk; cbn in Hk; try done; rewrite scost_cons.
  - injection Hk as ->. pose proof (scost_nonneg l). lia.
  - apply IH in Hk. pose proof (st_len_nonneg j some_heap). lia.
Qed.

Lemma stacks_nonneg v : 0 <= stacks v.
Proof.
  unfold stacks. pose proof (scost_nonneg (vm_dataStack v)).
  pose proof (scost_nonneg (vm_altStack v)). lia.
Qed.

(** [stackCost] computes the cost, as long as it fits. *)
Lemma stackCost_scost l : scost l <= MaxInt64 -> stackCost l = scost l.
Proof.
  intros Hl. unfold stackCost.
  assert (Hgen : forall k a, 0 <= a -> a + (scost k - 8 * zlen k) <= MaxInt64 ->
            foldl (fun r i => i64 (r + st_len i)) a k = a + (scost k - 8 * zlen k)).
  { induction k as [|i k IH]; intros a Ha Hle; cbn [foldl]; [cbn; rewrite (@zlen_nil item); lia|].
    rewrite zlen_cons, scost_cons in *. pose proof (st_len_nonneg i some_heap). pose proof (scost_zlen k).
    rewrite i64_id by (words; lia). rewrite IH; lia. }
  pose proof (scost_zlen l). pose proof (zlen_nonneg l).
  rewrite i64_id by (words; lia). rewrite Hgen; lia.
Qed.

(** ** Rules for the machine primitives *)

(** [v'] is [v] with the gas left, the deferred cost and the stacks moved. *)
Record moved (v v' : vm S) (drl ddf : Z) (ds al : list item) : Prop := {
  mv_frame : frame v' = frame v;
  mv_next : vm_nextPC v' = vm_nextPC v;
  mv_data : vm_data v' = vm_data v;
  mv_rl : vm_runLimit v' = vm_runLimit v + drl;
  mv_df : vm_deferredCost v' = vm_deferredCost v + ddf;
  mv_ds : vm_dataStack v' = ds;
  mv_al : vm_altStack v' = al;
  mv_stacks : stacks v' = scost ds + scost al;
  mv_pos : 0 <= stacks v';
}.

Lemma moved_intro v v' drl ddf ds al :
  frame v' = frame v -> vm_nextPC v' = vm_nextPC v -> vm_data v' = vm_data v ->
  vm_runLimit v' = vm_runLimit v + drl -> vm_deferredCost v' = vm_deferredCost v + ddf ->
  vm_dataStack v' = ds -> vm_altStack v' = al -> moved v v' drl ddf ds al.
Proof. intros. split; try done; [unfold stacks; congruence|apply stacks_nonneg]. Qed.

Lemma wp_applyCost n (Q : res unit -> vm S -> Prop) v :
  MinInt64 <= vm_runLimit v - n <= MaxInt64 ->
  (forall v', moved v v' (- n) 0 (vm_dataStack v) (vm_altStack v) -> n <= vm_runLimit v -> Q (Ok tt) v') ->
  (forall v', moved v v' (- vm_runLimit v) 0 (vm_dataStack v) (vm_altStack v) ->
     vm_runLimit v < n -> Q (Err ErrRunLimitExceeded) v') ->
  wp (applyCost n) Q v.
Proof.
  intros Hr Hok Herr h. unfold applyCost, gets, modify, throw, mbind, M_bind. cbn.
  destruct (n >? vm_runLimit v) eqn:Hn; cbn; zbool.
  - apply Herr; [|lia]. destruct v; apply moved_intro; cbn in *; try done; lia.
  - apply Hok; [|lia]. rewrite i64_id by exact Hr.
    destruct v; apply moved_intro; cbn in *; try done; lia.
Qed.

Lemma wp_deferCost n (Q : res unit -> vm S -> Prop) v :
  MinInt64 <= vm_deferredCost v + n <= MaxInt64 ->
  (forall v', moved v v' 0 n (vm_dataStack v) (vm_altStack v) -> Q (Ok tt) v') ->
  wp (deferCost n) Q v.
Proof.
  intros Hr Hok h. apply Hok. cbn. rewrite i64_id by exact Hr.
  destruct v; apply moved_intro; cbn in *; try done; lia.
Qed.

Lemma item_cost_val i : 0 <= st_len i <= MaxInt64 - 8 -> item_cost i = 8 + st_len i.
Proof. intros. unfold item_cost. apply i64_id. words. lia. Qed.

(** Changing a stack without accounting. *)
Lemma wp_set_dataStack f (Q : res unit -> vm S -> Prop) v :
  (forall v', moved v v' 0 0 (f v) (vm_altStack v) -> Q (Ok tt) v') ->
  wp (modify (fun v => set_dataStack (f v) v)) Q v.
Proof. intros H h. apply H. cbn. destruct v; apply moved_intro; cbn; try done; lia. Qed.
Lemma wp_set_dataStack_c l (Q : res unit -> vm S -> Prop) v :
  (forall v', moved v v' 0 0 l (vm_altStack v) -> Q (Ok tt) v') ->
  wp (modify (set_dataStack l)) Q v.
Proof. apply (wp_set_dataStack (fun _ => l)). Qed.
Lemma wp_set_altStack f (Q : res unit -> vm S -> Prop) v :
  (forall v', moved v v' 0 0 (vm_dataStack v) (f v) -> Q (Ok tt) v') ->
  wp (modify (fun v => set_altStack (f v) v)) Q v.
Proof. intros H h. apply H. cbn. destruct v; apply moved_intro; cbn; try done; lia. Qed.
Lemma wp_set_altStack_c l (Q : res unit -> vm S -> Prop) v :
  (forall v', moved v v' 0 0 (vm_dataStack v) l -> Q (Ok tt) v') ->
  wp (modify (set_altStack l)) Q v.
Proof. apply (wp_set_altStack (fun _ => l)). Qed.

Lemma wp_set_runLimit f (Q : res unit -> vm S -> Prop) v :
  (forall v', moved v v' (f v - vm_runLimit v) 0 (vm_dataStack v) (vm_altStack v) -> Q (Ok tt) v') ->
  wp (modify (fun v => set_runLimit (f v) v)) Q v.
Proof. intros H h. apply H. cbn. destruct v; apply moved_intro; cbn; try done; lia. Qed.

(** The effect of a push of [i] and of a pop of [i]. *)
Definition pushed (i : item) (v v' : vm S) (drl ddf : Z) : Prop :=
  moved v v' drl ddf (i :: vm_dataStack v) (vm_altStack v)
  /\ stacks v' = stacks v + (8 + st_len i).
Definition popped (i : item) (v v' : vm S) (drl ddf : Z) : Prop :=
  exists ds, vm_dataStack v = i :: ds /\ moved v v' drl ddf ds (vm_altStack v)
  /\ stacks v' = stacks v - (8 + st_len i).

Lemma moved_trans v1 v2 v3 a b c d ds al ds' al' :
  moved v1 v2 a b ds al -> moved v2 v3 c d ds' al' -> moved v1 v3 (a + c) (b + d) ds' al'.
Proof. intros [] []. apply moved_intro; try congruence; lia. Qed.

Lemma wp_push i (d : bool) (Q : res unit -> vm S -> Prop) v :
  0 <= st_len i <= MaxInt64 - 8 ->
  (if d then MinInt64 <= vm_deferredCost v + (8 + st_len i) <= MaxInt64
   else 0 <= vm_runLimit v <= MaxInt64) ->
  (forall v', (if d then pushed i v v' 0 (8 + st_len i)
               else 8 + st_len i <= vm_runLimit v /\ pushed i v v' (- (8 + st_len i)) 0) ->
     Q (Ok tt) v') ->
  (d = false -> forall v', moved v v' (- vm_runLimit v) 0 (vm_dataStack v) (vm_altStack v) ->
     Q (Err ErrRunLimitExceeded) v') ->
  wp (pushDataStack i d) Q v.
Proof.
  intros Hi Hr Hok Herr. unfold pushDataStack. apply wp_bind. rewrite item_cost_val by done.
  destruct d.
  - apply wp_deferCost; [done|]. intros v1 H1. apply wp_set_dataStack. intros v2 H2. apply Hok.
    destruct H1, H2. split; [apply moved_intro; try congruence; lia|].
    rewrite mv_stacks1, mv_ds0, mv_al0, scost_cons. unfold stacks. lia.
  - apply wp_applyCost; [words; lia| |].
    + intros v1 H1 Hle. apply wp_set_dataStack. intros v2 H2. apply Hok. split; [lia|].
      destruct H1, H2. split; [apply moved_intro; try congruence; lia|].
      rewrite mv_stacks1, mv_ds0, mv_al0, scost_cons. unfold stacks. lia.
    + intros v1 H1 _. by apply Herr.
Qed.

Lemma wp_pushBool b (d : bool) (Q : res unit -> vm S -> Prop) v :
  (if d then MinInt64 <= vm_deferredCost v <= MaxInt64 - 64
   else 0 <= vm_runLimit v <= MaxInt64) ->
  (forall i v', 0 <= st_len i <= 1 ->
     (if d then pushed i v v' 0 (8 + st_len i)
      else 8 + st_len i <= vm_runLimit v /\ pushed i v v' (- (8 + st_len i)) 0) ->
     Q (Ok tt) v') ->
  (d = false -> forall v', moved v v' (- vm_runLimit v) 0 (vm_dataStack v) (vm_altStack v) ->
     Q (Err ErrRunLimitExceeded) v') ->
  wp (pushBool b d) Q v.
Proof.
  intros Hr Hok Herr. unfold pushBool. destruct b; [|apply wp_bind, wp_alloc; intros i Hi; rewrite zlen_nil in Hi].
  - pose proof true_len. apply wp_push; [words; lia|destruct d; words; lia| |done].
    intros. eapply Hok; [|done]. lia.
  - apply wp_push; [words; lia|destruct d; words; lia| |done].
    intros. eapply Hok; [|done]. lia.
Qed.

Lemma wp_pushBigInt n (d : bool) (Q : res unit -> vm S -> Prop) v :
  (if d then MinInt64 <= vm_deferredCost v <= MaxInt64 - 64
   else 0 <= vm_runLimit v <= MaxInt64) ->
  (forall i v', 0 <= st_len i <= 32 ->
     (if d then pushed i v v' 0 (8 + st_len i)
      else 8 + st_len i <= vm_runLimit v /\ pushed i v v' (- (8 + st_len i)) 0) ->
     Q (Ok tt) v') ->
  (d = false -> forall v', moved v v' (- vm_runLimit v) 0 (vm_dataStack v) (vm_altStack v) ->
     Q (Err ErrRunLimitExceeded) v') ->
  wp (pushBigInt n d) Q v.
Proof.
  intros Hr Hok Herr. unfold pushBigInt. apply wp_bind, wp_alloc. intros i Hi.
  pose proof (BigIntBytes_len n). pose proof (zlen_nonneg (BigIntBytes n)).
  apply wp_push; [words; lia|destruct d; words; lia| |done].
  intros. eapply Hok; [|done]. lia.
Qed.

Lemma wp_pop_d (Q : res item -> vm S -> Prop) v :
  MinInt64 + stacks v <= vm_deferredCost v <= MaxInt64 -> stacks v <= MaxInt64 ->
  (forall i v', popped i v v' 0 (- (8 + st_len i)) -> 0 <= st_len i -> Q (Ok i) v') ->
  Q (Err ErrDataStackUnderflow) v ->
  wp (pop true) Q v.
Proof.
  intros Hr Hs Hok Herr. unfold pop. apply wp_bind, wp_gets.
  destruct (vm_dataStack v) as [|i ds] eqn:Hds; [by apply wp_throw|].
  assert (stacks v = 8 + st_len i + scost ds + scost (vm_altStack v)) as Hst
    by (unfold stacks; rewrite Hds, scost_cons; lia).
  pose proof (st_len_nonneg i some_heap). pose proof (scost_nonneg ds).
  pose proof (scost_nonneg (vm_altStack v)).
  apply wp_bind, wp_set_dataStack_c. intros v1 Hm1. apply wp_bind.
  rewrite item_cost_val by (words; lia).
  apply wp_deferCost; [destruct Hm1; words; lia|]. intros v2 Hm2. apply wp_ret, Hok; [|lia].
  exists ds. split; [done|]. destruct Hm1, Hm2. split; [apply moved_intro; try congruence; lia|].
  rewrite mv_stacks1, mv_ds0, mv_al0. lia.
Qed.

Lemma wp_pop_i (Q : res item -> vm S -> Prop) v :
  0 <= vm_runLimit v -> vm_runLimit v + stacks v <= MaxInt64 ->
  (forall i v', popped i v v' (8 + st_len i) 0 -> 0 <= st_len i -> Q (Ok i) v') ->
  Q (Err ErrDataStackUnderflow) v ->
  wp (pop false) Q v.
Proof.
  intros Hr Hs Hok Herr. unfold pop. apply wp_bind, wp_gets.
  destruct (vm_dataStack v) as [|i ds] eqn:Hds; [by apply wp_throw|].
  assert (stacks v = 8 + st_len i + scost ds + scost (vm_altStack v)) as Hst
    by (unfold stacks; rewrite Hds, scost_cons; lia).
  pose proof (st_len_nonneg i some_heap). pose proof (scost_nonneg ds).
  pose proof (scost_nonneg (vm_altStack v)).
  apply wp_bind, wp_set_dataStack_c. intros v1 Hm1.
  rewrite item_cost_val by (words; lia). apply wp_bind.
  apply (wp_set_runLimit (fun v => i64 (vm_runLimit v + (8 + st_len i)))). intros v2 Hm2.
  apply wp_ret, Hok; [|lia]. destruct Hm1, Hm2. rewrite i64_id in mv_rl1 by (words; lia).
  exists ds. split; [done|]. split; [apply moved_intro; try congruence; lia|].
  rewrite mv_stacks1, mv_ds0, mv_al0. lia.
Qed.

Lemma wp_popBigInt_d (Q : res u256 -> vm S -> Prop) v :
  MinInt64 + stacks v <= vm_deferredCost v <= MaxInt64 -> stacks v <= MaxInt64 ->
  (forall i n v', popped i v v' 0 (- (8 + st_len i)) -> 0 <= st_len i <= 32 -> Q (Ok n) v') ->
  (forall i e v', popped i v v' 0 (- (8 + st_len i)) -> 0 <= st_len i -> Q (Err e) v') ->
  Q (Err ErrDataStackUnderflow) v ->
  wp (popBigInt true) Q v.
Proof.
  intros Hr Hs Hok Herr Hund. unfold popBigInt. apply wp_bind, wp_pop_d; try done.
  intros i v' Hp Hi. apply wp_bind, wp_read. intros b Hb. apply wp_lift.
  pose proof (AsBigInt_spec b) as Hspec.
  destruct (AsBigInt b) as [n|e| |]; try done; [|by eapply Herr].
  eapply Hok; [done|]. lia.
Qed.

Lemma wp_popBigInt_i (Q : res u256 -> vm S -> Prop) v :
  0 <= vm_runLimit v -> vm_runLimit v + stacks v <= MaxInt64 ->
  (forall i n v', popped i v v' (8 + st_len i) 0 -> 0 <= st_len i <= 32 -> Q (Ok n) v') ->
  (forall i e v', popped i v v' (8 + st_len i) 0 -> 0 <= st_len i -> Q (Err e) v') ->
  Q (Err ErrDataStackUnderflow) v ->
  wp (popBigInt false) Q v.
Proof.
  intros Hr Hs Hok Herr Hund. unfold popBigInt. apply wp_bind, wp_pop_i; try done.
  intros i v' Hp Hi. apply wp_bind, wp_read. intros b Hb. apply wp_lift.
  pose proof (AsBigInt_spec b) as Hspec.
  destruct (AsBigInt b) as [n|e| |]; try done; [|by eapply Herr].
  eapply Hok; [done|]. lia.
Qed.

Lemma wp_popInt64 (Q : res Z -> vm S -> Prop) v :
  MinInt64 + stacks v <= vm_deferredCost v <= MaxInt64 -> stacks v <= MaxInt64 ->
  (forall i n v', popped i v v' 0 (- (8 + st_len i)) -> 0 <= st_len i <= 32 -> 0 <= n <= MaxInt64 ->
     Q (Ok n) v') ->
  (forall i e v', popped i v v' 0 (- (8 + st_len i)) -> 0 <= st_len i -> Q (Err e) v') ->
  Q (Err ErrDataStackUnderflow) v ->
  wp popInt64 Q v.
Proof.
  intros Hr Hs Hok Herr Hund. unfold popInt64. apply wp_bind, wp_popBigInt_d; try done.
  intros i n v' Hp Hi. apply wp_lift. rewrite bigIntInt64_spec.
  pose proof (uval_range n). destruct (Z.leb_spec (uval n) MaxInt64).
  - eapply Hok; [done|lia|lia].
  - eapply Herr; [done|lia].
Qed.

Lemma wp_top (Q : res item -> vm S -> Prop) v :
  (forall i ds, vm_dataStack v = i :: ds -> 0 <= st_len i -> 8 + st_len i <= stacks v -> Q (Ok i) v) ->
  Q (Err ErrDataStackUnderflow) v ->
  wp top Q v.
Proof.
  intros Hok Herr. unfold top. apply wp_bind, wp_gets.
  destruct (vm_dataStack v) as [|i ds] eqn:Hds; [by apply wp_throw|].
  apply wp_ret. eapply Hok; [done|apply (st_len_nonneg i some_heap)|].
  unfold stacks. rewrite Hds, scost_cons.
  pose proof (scost_nonneg ds). pose proof (scost_nonneg (vm_altStack v)). lia.
Qed.

(** ** The opcode functions *)

(** [G] bounds the energy, so that no 64-bit sum of costs wraps. *)
Context (G : Z) (HG : G + 64 <= MaxInt64).

(** The state in which [step] calls an opcode function. *)
Record op_start (v : vm S) : Prop := {
  os_rl : 0 <= vm_runLimit v;
  os_df : vm_deferredCost v = 0;
  os_next : 0 <= vm_nextPC v;
  os_en : energy v <= G;
  os_data : zlen (vm_data v) <= MaxInt32;
  os_ctx : small_context (vm_context v);
}.

(** What an opcode function may do to the gas: it pays at least [c] (its
    deferred cost included), an error never leaves more energy than there was,
    and the deferred cost it leaves is at most 64. *)
Definition gas_post (c : Z) (v : vm S) (r : res unit) (v' : vm S) : Prop :=
  match r with
  | Ok _ => 0 <= vm_runLimit v' /\ frame v' = frame v /\ vm_deferredCost v' <= 64 /\ 0 <= vm_nextPC v'
            /\ vm_runLimit v' - vm_deferredCost v' + stacks v' <= energy v - c
  | Err _ => 0 <= vm_runLimit v' /\ energy v' <= energy v
  | Panic => True
  | OutOfFuel => False
  end.

Definition gas_op (c : Z) (m : M unit) : Prop :=
  forall v, op_start v -> wp m (gas_post c v) v.

End Gas.

Create HintDb gas.

(** Splits the effects of the primitives met so far into equations. *)
Ltac gas_facts :=
  repeat match goal with
  | H : popped _ _ _ _ _ |- _ => destruct H as (? & ? & H & ?)
  | H : pushed _ _ _ _ _ |- _ => destruct H as [H ?]
  | H : _ /\ pushed _ _ _ _ _ |- _ => destruct H
  | H : moved _ _ _ _ _ _ |- _ => destruct H
  end;
  repeat match goal with
  | H : context [scost (vm_dataStack ?v) + scost (vm_altStack ?v)] |- _ =>
      change (scost (vm_dataStack v) + scost (vm_altStack v)) with (stacks v) in H
  end.

Ltac gas_lia := unfold MinInt64, MaxInt64, MaxInt32 in *; lia.

(** Closes a postcondition. *)
Ltac gas_end :=
  cbn [gas_post]; unfold energy in *;
  first [ exact I | repeat split; try congruence; gas_lia ].

(** One step of symbolic execution. *)
Ltac gas_step :=
  cbv beta iota;
  lazymatch goal with
  | |- wp (mbind _ _) _ _ => apply wp_bind
  | |- wp (mret _) _ _ => apply wp_ret
  | |- wp (throw _) _ _ => apply wp_throw
  | |- wp panic _ _ => apply wp_panic
  | |- wp (gets _) _ _ => apply wp_gets
  | |- wp (lift _) _ _ => apply wp_lift
  | |- wp (read _) _ _ => apply wp_read; intros ? ?
  | |- wp (alloc _) _ _ => apply wp_alloc; intros ? ?
  | |- wp (Sum _) _ _ => apply wp_Sum; intros ? ?
  | |- wp (append_ _ _) _ _ => apply wp_append; intros ? ?
  | |- wp (applyCost _) _ _ => apply wp_applyCost; [gas_lia|intros ? ? ?; gas_facts..]
  | |- wp (deferCost _) _ _ => apply wp_deferCost; [gas_lia|intros ? ?; gas_facts]
  | |- wp (pushBool _ _) _ _ =>
      eapply wp_pushBool; [gas_lia|intros ? ? ? ?; gas_facts|intros ? ? ?; try discriminate; gas_facts]
  | |- wp (pushBigInt _ _) _ _ =>
      eapply wp_pushBigInt; [gas_lia|intros ? ? ? ?; gas_facts|intros ? ? ?; try discriminate; gas_facts]
  | |- wp (pushDataStack _ _) _ _ =>
      eapply wp_push; [gas_lia|gas_lia|intros ? ?; gas_facts|intros ? ? ?; try discriminate; gas_facts]
  | |- wp (pop true) _ _ => eapply wp_pop_d; [gas_lia|gas_lia|intros ? ? ? ?; gas_facts|]
  | |- wp (pop false) _ _ => eapply wp_pop_i; [gas_lia|gas_lia|intros ? ? ? ?; gas_facts|]
  | |- wp (popBigInt true) _ _ =>
      eapply wp_popBigInt_d; [gas_lia|gas_lia|intros ? ? ? ? ?; gas_facts|intros ? ? ? ? ?; gas_facts|]
  | |- wp (popBigInt false) _ _ =>
      eapply wp_popBigInt_i; [gas_lia|gas_lia|intros ? ? ? ? ?; gas_facts|intros ? ? ? ? ?; gas_facts|]
  | |- wp popInt64 _ _ =>
      eapply wp_popInt64; [gas_lia|gas_lia|intros ? ? ? ? ? ?; gas_facts|intros ? ? ? ? ?; gas_facts|]
  | |- wp top _ _ => eapply wp_top; [intros ? ? ? ? ?|]
  | |- wp (if ?b then _ else _) _ _ => destruct b eqn:?; zbool
  | |- wp (let '(_, _) := ?p in _) _ _ => destruct p eqn:?
  end.

Ltac gas_start v := intros v Hstart; 
  pose proof (stacks_nonneg v);
  destruct Hstart as [Hrl Hdf Hnx Hen Hdata Hctx]; unfold energy in Hen.

Ltac gas_solve v := gas_start v; repeat gas_step; try gas_end.

Section GasOps.
Context {S : ItemStore} {SL : StoreLaws S} {U : Uint256} {UL : Uint256Laws U}
        {C : Crypto} {CL : CryptoLaws C} {h0 : SomeHeap S} (G : Z) (HG : G + 64 <= MaxInt64).

Lemma gas_opFalse : gas_op G 1 opFalse.
Proof. unfold opFalse. gas_solve v. Qed.
Lemma gas_opNop : gas_op G 1 opNop.
Proof. unfold opNop. gas_solve v. Qed.
Lemma gas_opIfDup : gas_op G 1 opIfDup.
Proof. unfold opIfDup. gas_solve v. Qed.
Lemma gas_opDepth : gas_op G 1 opDepth.
Proof. unfold opDepth. gas_solve v. Qed.
Lemma gas_opDrop : gas_op G 1 opDrop.
Proof. unfold opDrop. gas_solve v. Qed.
Lemma gas_op1Add : gas_op G 2 op1Add.
Proof. unfold op1Add, push_signed. gas_solve v. Qed.
Lemma gas_op1Sub : gas_op G 2 op1Sub.
Proof. unfold op1Sub, push_signed. gas_solve v. Qed.
Lemma gas_op2Mul : gas_op G 2 op2Mul.
Proof. unfold op2Mul, push_signed. gas_solve v. Qed.
Lemma gas_op2Div : gas_op G 2 op2Div.
Proof. unfold op2Div. gas_solve v. Qed.
Lemma gas_opNot : gas_op G 2 opNot.
Proof. unfold opNot. gas_solve v. Qed.
Lemma gas_op0NotEqual : gas_op G 2 op0NotEqual.
Proof. unfold op0NotEqual. gas_solve v. Qed.
Lemma gas_opAdd : gas_op G 2 opAdd.
Proof. unfold opAdd, push_signed. gas_solve v. Qed.
Lemma gas_opSub : gas_op G 2 opSub.
Proof. unfold opSub, push_signed. gas_solve v. Qed.
Lemma gas_opMul : gas_op G 8 opMul.
Proof. unfold opMul. gas_solve v. Qed.
Lemma gas_opDiv : gas_op G 8 opDiv.
Proof. unfold opDiv. gas_solve v. Qed.
Lemma gas_opMod : gas_op G 8 opMod.
Proof. unfold opMod. gas_solve v. Qed.
Lemma gas_opLshift : gas_op G 8 opLshift.
Proof. unfold opLshift, push_signed. gas_solve v. Qed.
Lemma gas_opRshift : gas_op G 8 opRshift.
Proof. unfold opRshift. gas_solve v. Qed.
Lemma gas_opBoolAnd : gas_op G 2 opBoolAnd.
Proof. unfold opBoolAnd. gas_solve v. Qed.
Lemma gas_opBoolOr : gas_op G 2 opBoolOr.
Proof. unfold opBoolOr. gas_solve v. Qed.
Lemma gas_opNumEqualVerify : gas_op G 2 opNumEqualVerify.
Proof. unfold opNumEqualVerify. gas_solve v. Qed.
Lemma gas_opMin : gas_op G 2 opMin.
Proof. unfold opMin. gas_solve v. Qed.
Lemma gas_opMax : gas_op G 2 opMax.
Proof. unfold opMax. gas_solve v. Qed.
Lemma gas_opWithin : gas_op G 4 opWithin.
Proof. unfold opWithin. gas_solve v. Qed.
Lemma gas_opSize : gas_op G 1 opSize.
Proof. unfold opSize. gas_solve v. Qed.
Lemma gas_opVerify : gas_op G 1 opVerify.
Proof. unfold opVerify. gas_solve v. Qed.
Lemma gas_opFail : gas_op G 1 opFail.
Proof. unfold opFail. gas_solve v. Qed.
Lemma gas_opCheckSig : gas_op G 1024 opCheckSig.
Proof. unfold opCheckSig. gas_solve v. Qed.
Lemma gas_doNumCompare op : gas_op G 2 (doNumCompare op).
Proof. unfold doNumCompare. gas_solve v. Qed.
Lemma gas_doEqual v (Q : res bool -> vm S -> Prop) :
  op_start G v ->
  (forall b v', 0 <= vm_runLimit v' -> frame v' = frame v -> 0 <= vm_nextPC v' ->
     - MaxInt64 <= vm_deferredCost v' <= 0 ->
     vm_runLimit v' - vm_deferredCost v' + stacks v' <= energy v - 1 -> Q (Ok b) v') ->
  (forall e v', 0 <= vm_runLimit v' -> energy v' <= energy v -> Q (Err e) v') ->
  wp doEqual Q v.
Proof.
  unfold doEqual. revert v. gas_start v. intros Hok Herr.
  repeat gas_step; first [apply Hok|apply Herr]; unfold energy in *; first [congruence|gas_lia].
Qed.
Lemma gas_doHash (hash : bytes -> bytes) :
  (forall b, zlen (hash b) <= 64) -> gas_op G 64 (doHash hash).
Proof.
  intros Hh. unfold doHash. gas_start v. do 2 gas_step; [|gas_end]. cbv zeta.
  assert (64 <= (if st_len i <? 64 then 64 else st_len i) <= st_len i + 64
          /\ (if st_len i <? 64 then 64 else st_len i) <= 64 + st_len i) as [Hc _] by (case_if; zbool; lia).
  repeat gas_step; try gas_end.
  all: match goal with H : st_len _ = zlen (?f ?b) |- _ =>
    pose proof (Hh b); pose proof (zlen_nonneg (f b)) end.
  all: repeat gas_step; gas_end.
Qed.

(** ** splice.go *)

Ltac slice_push := match goal with
  | |- context [st_slice ?i ?lo ?hi] =>
      let H := fresh in assert (H : st_len (st_slice i lo hi) = hi - lo)
        by (apply slice_len; unfold MinInt64, MaxInt64 in *; lia)
  end.

Lemma gas_opSubstr : gas_op G 4 opSubstr.
Proof.
  unfold opSubstr. gas_start v. repeat gas_step; try gas_end.
  destruct (AddInt64 n0 n) as [e|] eqn:He; [|apply wp_throw; gas_end].
  apply AddInt64_Some in He as [-> _]; [|split; gas_lia..].
  gas_step; [apply wp_throw; gas_end|]. slice_push. gas_step. gas_end.
Qed.
Lemma gas_opLeft : gas_op G 4 opLeft.
Proof.
  unfold opLeft. gas_start v. repeat gas_step; try gas_end. slice_push. gas_step. gas_end.
Qed.
Lemma gas_opRight : gas_op G 4 opRight.
Proof.
  unfold opRight. gas_start v. repeat gas_step; try gas_end. slice_push. gas_step. gas_end.
Qed.

(** The common body of CAT and CATPUSHDATA: [f] encodes the second operand. *)
Lemma gas_cat (f : bytes -> bytes) :
  (forall b, zlen b <= zlen (f b) <= zlen b + 5) ->
  gas_op G 4 (
    applyCost 4 ;; b ← pop true; a ← pop true;
    let lens := i64 (st_len a + st_len b) in
    applyCost lens ;; deferCost (- lens) ;; vb ← read b; r ← append_ a (f vb);
    pushDataStack r true).
Proof.
  intros Hf. gas_start v. do 6 (try gas_step). all: try gas_end.
  cbv zeta. rewrite i64_id by gas_lia. repeat gas_step; try gas_end.
  all: match goal with H : zlen ?b = st_len _ |- _ => pose proof (Hf b) end.
  all: repeat gas_step; gas_end.
Qed.
Lemma gas_opCat : gas_op G 4 opCat.
Proof. apply (gas_cat id). intros b. unfold id. lia. Qed.
Lemma PushDataBytes_len b : zlen b <= zlen (PushDataBytes b) <= zlen b + 5.
Proof.
  unfold PushDataBytes. repeat case_if; zbool; autorewrite with zlen;
    rewrite ?(zlen_nil (A := byte)); lia.
Qed.
Lemma gas_opCatpushdata : gas_op G 4 opCatpushdata.
Proof. apply (gas_cat PushDataBytes), PushDataBytes_len. Qed.

(** ** stack.go: reshuffling the stacks costs only the flat fee *)

(** Steps through unaccounted changes of a stack. *)
Ltac gas_set :=
  cbv beta iota;
  lazymatch goal with
  | |- wp (modify (fun v => set_dataStack _ v)) _ _ => apply wp_set_dataStack; intros ? ?; gas_facts
  | |- wp (modify (set_dataStack _)) _ _ => apply wp_set_dataStack_c; intros ? ?; gas_facts
  | |- wp (modify (fun v => set_altStack _ v)) _ _ => apply wp_set_altStack; intros ? ?; gas_facts
  | |- wp (modify (set_altStack _)) _ _ => apply wp_set_altStack_c; intros ? ?; gas_facts
  | |- wp (match ?l with [] => _ | _ :: _ => _ end) _ _ => destruct l eqn:?
  | _ => gas_step
  end.

(** Makes the stacks explicit for [lia]. *)
Ltac gas_stacks :=
  cbn [gas_post]; unfold energy, stacks in *; repeat split; try congruence;
  repeat match goal with
  | H : vm_dataStack ?v = _ |- _ => rewrite H in *; clear H
  | H : vm_altStack ?v = _ |- _ => rewrite H in *; clear H
  end;
  cbn [tail] in *; rewrite ?scost_cons, ?scost_nil in *; gas_lia.

Ltac gas_shuffle v := gas_start v; repeat gas_set; try gas_end; gas_stacks.

Lemma gas_opToAltStack : gas_op G 2 opToAltStack.
Proof. unfold opToAltStack. gas_shuffle v. Qed.
Lemma gas_opFromAltStack : gas_op G 2 opFromAltStack.
Proof. unfold opFromAltStack. gas_shuffle v. Qed.
Lemma gas_op2Drop : gas_op G 2 op2Drop.
Proof. unfold op2Drop. cbn [repeat_]. gas_solve v. Qed.
Lemma gas_op2Swap : gas_op G 2 op2Swap.
Proof. unfold op2Swap. gas_shuffle v. Qed.
Lemma gas_op2Rot : gas_op G 2 op2Rot.
Proof. unfold op2Rot. gas_shuffle v. Qed.
Lemma gas_opSwap : gas_op G 1 opSwap.
Proof. unfold opSwap. gas_shuffle v. Qed.
Lemma gas_opNip : gas_op G 1 opNip.
Proof.
  unfold opNip. gas_start v. do 6 (try gas_set); try gas_end.
  match goal with H : vm_dataStack ?w = _ :: _ |- _ =>
    assert (stacks w = 8 + st_len i + scost ds + scost (vm_altStack w))
      by (unfold stacks; rewrite H, scost_cons; lia);
    rewrite H in *; clear H; cbn [tail] in * end.
  pose proof (scost_nonneg ds).
  repeat gas_set; try gas_end. gas_stacks.
Qed.
Lemma gas_opTuck : gas_op G 1 opTuck.
Proof.
  unfold opTuck. gas_start v. do 5 (try gas_set); try gas_end; [repeat gas_set; gas_end|].
  destruct l as [|i' l']; [repeat gas_set; gas_end|].
  match goal with H : vm_dataStack ?w = _ :: _ |- _ =>
    assert (stacks w = 8 + st_len i + (8 + st_len i' + scost l') + scost (vm_altStack w))
      by (unfold stacks; rewrite H, !scost_cons; lia) end.
  pose proof (scost_nonneg l'). pose proof (st_len_nonneg i some_heap). pose proof (st_len_nonneg i' some_heap).
  repeat gas_set; try gas_end; gas_stacks.
Qed.
Lemma gas_opInvert : gas_op G 1 opInvert.
Proof.
  unfold opInvert. gas_start v. repeat gas_set; try gas_end. rewrite zlen_map in *. gas_stacks.
Qed.

Lemma wp_push_nth k (Q : res unit -> vm S -> Prop) v :
  0 <= vm_runLimit v -> vm_runLimit v + stacks v <= G ->
  (forall i v', 0 <= st_len i -> 8 + st_len i <= vm_runLimit v ->
     pushed i v v' (- (8 + st_len i)) 0 -> Q (Ok tt) v') ->
  (forall v', moved v v' (- vm_runLimit v) 0 (vm_dataStack v) (vm_altStack v) ->
     Q (Err ErrRunLimitExceeded) v') ->
  Q Panic v ->
  wp (push_nth k) Q v.
Proof.
  intros Hrl Hen Hok Herr Hpanic. unfold push_nth. apply wp_bind, wp_gets.
  destruct (vm_dataStack v !! k) as [i|] eqn:Hi; [|by apply wp_panic].
  apply scost_lookup in Hi. pose proof (st_len_nonneg i some_heap).
  pose proof (scost_nonneg (vm_altStack v)). unfold stacks in Hen.
  apply wp_push; [gas_lia|gas_lia|intros v' [? ?]; eauto|eauto].
Qed.

(** Copying stack items pays for them. *)
Lemma wp_repeat_push n k v0 v :
  0 <= vm_runLimit v -> energy v <= G -> vm_deferredCost v = 0 -> 0 <= vm_nextPC v -> frame v = frame v0 ->
  energy v <= energy v0 ->
  wp (repeat_ n (push_nth k)) (gas_post (energy v0 - energy v) v0) v.
Proof.
  revert v. induction n as [|n IH]; intros v Hrl Hen Hdf Hnx Hfr Hle; cbn [repeat_].
  - apply wp_ret. cbn. unfold energy. repeat split; try congruence; lia.
  - unfold energy in *. apply wp_bind, wp_push_nth; [lia|lia| | |exact I].
    + intros i v' Hi Hl [Hm Hs]. destruct Hm. eapply wp_mono; [apply IH; [lia..|congruence|lia]|].
      intros r w. unfold energy. replace (vm_runLimit v' + stacks v') with (vm_runLimit v + stacks v) by lia.
      done.
    + intros v' Hm. gas_facts. cbn. unfold energy. lia.
Qed.

(** [gas_post] only bounds the payment from below. *)
Lemma gas_post_le c c' v r v' : c' <= c -> gas_post c v r v' -> gas_post c' v r v'.
Proof. destruct r; cbn; try done. intros ? (? & ? & ? & ? & ?). repeat split; try done. lia. Qed.

Lemma gas_nDup n : (n <= 3)%nat -> gas_op G (Z.of_nat n) (nDup n).
Proof.
  intros Hn. unfold nDup. gas_start v. repeat gas_step; try gas_end.
  eapply wp_mono; [apply (wp_repeat_push _ _ v); unfold energy in *; first [congruence|gas_lia]|].
  intros r w. apply gas_post_le. unfold energy. lia.
Qed.
Lemma gas_opDup : gas_op G 1 opDup.
Proof. apply (gas_nDup 1). lia. Qed.
Lemma gas_op2Dup : gas_op G 2 op2Dup.
Proof. apply (gas_nDup 2). lia. Qed.
Lemma gas_op3Dup : gas_op G 3 op3Dup.
Proof. apply (gas_nDup 3). lia. Qed.
Lemma gas_op2Over : gas_op G 2 op2Over.
Proof.
  unfold op2Over. gas_start v. repeat gas_step; try gas_end.
  eapply wp_mono; [apply (wp_repeat_push _ _ v); unfold energy in *; first [congruence|gas_lia]|].
  intros r w. apply gas_post_le. unfold energy. lia.
Qed.
Lemma gas_opOver : gas_op G 1 opOver.
Proof.
  unfold opOver. gas_start v. repeat gas_step; try gas_end.
  apply wp_push_nth; [gas_lia|gas_lia| | |exact I].
  - intros i w Hi Hl Hp. gas_facts. gas_end.
  - intros w Hm. gas_facts. gas_end.
Qed.

Lemma wp_rot n v0 v :
  0 <= vm_runLimit v -> vm_deferredCost v = 0 -> 0 <= vm_nextPC v -> frame v = frame v0 -> energy v <= energy v0 ->
  wp (rot n) (gas_post (energy v0 - energy v) v0) v.
Proof.
  intros Hrl Hdf Hnx Hfr He. unfold rot. gas_step; [gas_step; gas_end|].
  gas_step; gas_step. gas_step; [gas_step; gas_end|].
  destruct (vm_dataStack v !! Z.to_nat (n - 1)) as [x|] eqn:Hx; [|by apply wp_panic].
  apply wp_set_dataStack_c. intros v' Hm. destruct Hm.
  assert (scost (take (Z.to_nat (n - 1)) (vm_dataStack v) ++ drop (Z.to_nat (n - 1) + 1) (vm_dataStack v))
          = scost (vm_dataStack v) - (8 + st_len x)) as Hs.
  { rewrite <- (take_drop_middle _ _ _ Hx) at 3.
    rewrite !scost_app, scost_cons, Nat.add_1_r. lia. }
  rewrite scost_cons, Hs in mv_stacks0. cbn. unfold energy, stacks in *.
  repeat split; try congruence; lia.
Qed.
Lemma gas_opRot : gas_op G 2 opRot.
Proof.
  unfold opRot. gas_start v. repeat gas_step; try gas_end.
  eapply wp_mono; [apply (wp_rot _ v); unfold energy in *; first [congruence|gas_lia]|].
  intros r w. apply gas_post_le. unfold energy. lia.
Qed.
Lemma gas_opRoll : gas_op G 2 opRoll.
Proof.
  unfold opRoll. gas_start v. repeat gas_step; try gas_end.
  destruct (pick_offset n); [|gas_step; gas_end].
  eapply wp_mono; [apply (wp_rot _ v); unfold energy in *; first [congruence|gas_lia]|].
  intros r w. apply gas_post_le. unfold energy. lia.
Qed.
Lemma gas_opPick : gas_op G 2 opPick.
Proof.
  unfold opPick. gas_start v. repeat gas_step; try gas_end.
  destruct (pick_offset n); [|gas_step; gas_end].
  do 3 gas_step; [gas_step; gas_end|]. unfold go_index, zlookup.
  match goal with |- context [if ?b then None else ?l !! ?k] =>
    destruct b; [by apply wp_panic|]; destruct (l !! k) as [i'|] eqn:Hi end; [|by apply wp_panic].
  apply scost_lookup in Hi. pose proof (st_len_nonneg i' some_heap).
  match goal with H : _ <= scost (vm_dataStack ?w) |- _ =>
    pose proof (scost_nonneg (vm_altStack w));
    assert (scost (vm_dataStack w) + scost (vm_altStack w) = stacks w) by reflexivity end.
  gas_step; gas_end.
Qed.

(** ** bitwise.go *)

Lemma zlen_zip_with {A B E} (f : A -> B -> E) l k : zlen (zip_with f l k) = Z.min (zlen l) (zlen k).
Proof. unfold zlen. rewrite length_zip_with. lia. Qed.
Lemma zlen_zip_padded f a b : zlen (zip_padded f a b) = Z.max (zlen a) (zlen b).
Proof. unfold zip_padded. rewrite zlen_zip_with. unfold zlen. rewrite !length_resize. lia. Qed.

Lemma gas_opAnd : gas_op G 1 opAnd.
Proof. unfold opAnd. gas_start v. repeat gas_step; try gas_end; rewrite zlen_zip_with in *; repeat gas_step; gas_end. Qed.
Lemma gas_doOr x : gas_op G 1 (doOr x).
Proof. unfold doOr. gas_start v. repeat gas_step; try gas_end; rewrite zlen_zip_padded in *; repeat gas_step; gas_end. Qed.
Lemma gas_opOr : gas_op G 1 opOr.
Proof. apply gas_doOr. Qed.
Lemma gas_opXor : gas_op G 1 opXor.
Proof. apply gas_doOr. Qed.
Lemma gas_opEqual : gas_op G 1 opEqual.
Proof.
  unfold opEqual. gas_start v. gas_step. apply (gas_doEqual v).
  - split; unfold energy; done || lia.
  - intros b w ? ? ? ? ?. pose proof (stacks_nonneg w). unfold energy in *. gas_step. gas_end.
  - intros. gas_end.
Qed.
Lemma gas_opEqualVerify : gas_op G 1 opEqualVerify.
Proof.
  unfold opEqualVerify. gas_start v. gas_step. apply (gas_doEqual v).
  - split; unfold energy; done || lia.
  - intros b w ? ? ? ? ?. unfold energy in *. repeat gas_step; gas_end.
  - intros. gas_end.
Qed.

(** ** pushdata.go, control.go, crypto.go *)

Lemma gas_opPushdata : gas_op G 1 opPushdata.
Proof.
  unfold opPushdata. gas_start v. pose proof (zlen_nonneg (vm_data v)).
  gas_step. gas_step; [|gas_end]. do 4 gas_step.
  all: replace (vm_data v') with (vm_data v) in * by congruence.
  gas_step; gas_end.
Qed.

Lemma gas_post_nextPC c v r n w : 0 <= n -> gas_post c v r w -> gas_post c v r (set_nextPC n w).
Proof. intros Hn. destruct w, r; cbn; try done. intuition. Qed.

Lemma gas_opJump : gas_op G 1 opJump.
Proof.
  unfold opJump. gas_start v. repeat gas_step; try gas_end.
  apply wp_modify, gas_post_nextPC; [apply le_val_range|]. gas_end.
Qed.
Lemma gas_opJumpIf : gas_op G 1 opJumpIf.
Proof.
  unfold opJumpIf. gas_start v. repeat gas_step; try gas_end.
  apply wp_modify, gas_post_nextPC; [apply le_val_range|]. gas_end.
Qed.

Lemma gas_opSha256 : gas_op G 64 opSha256.
Proof. apply gas_doHash. intros b. rewrite sha256_len. lia. Qed.
Lemma gas_opSha3 : gas_op G 64 opSha3.
Proof. apply gas_doHash. intros b. rewrite sha3_256_len. lia. Qed.
Lemma gas_opHash160 : gas_op G 64 opHash160.
Proof.
  unfold opHash160. gas_start v. gas_step. gas_step; [|gas_end]. rewrite i64_id by gas_lia.
  repeat gas_step; try gas_end.
  all: rewrite ripemd160_len in *. all: repeat gas_step; gas_end.
Qed.

Lemma frame_context (v v' : vm S) : frame v' = frame v -> vm_context v' = vm_context v.
Proof. by intros [= -> _ _ _]. Qed.

Lemma gas_opTxSigHash : gas_op G 256 opTxSigHash.
Proof.
  unfold opTxSigHash. gas_start v. destruct Hctx as (? & ? & ? & ? & Hh). repeat gas_step; try gas_end.
  rewrite (frame_context _ _ mv_frame0). destruct (TxSigHash _) as [i|]; [|gas_step; gas_end].
  specialize (Hh _ eq_refl). pose proof (st_len_nonneg i some_heap). repeat gas_step; gas_end.
Qed.

(** A sequence of deferred pops. *)
Record pops (v v' : vm S) : Prop := {
  pp_frame : frame v' = frame v;
  pp_next : vm_nextPC v' = vm_nextPC v;
  pp_rl : vm_runLimit v' = vm_runLimit v;
  pp_df : vm_deferredCost v' = vm_deferredCost v - (stacks v - stacks v');
  pp_stacks : 0 <= stacks v' <= stacks v;
}.

Lemma wp_pop_list n (Q : res (list item) -> vm S -> Prop) v :
  MinInt64 + stacks v <= vm_deferredCost v <= MaxInt64 -> stacks v <= MaxInt64 ->
  (forall l v', pops v v' -> Q (Ok l) v') ->
  (forall v', pops v v' -> Q (Err ErrDataStackUnderflow) v') ->
  wp (pop_list n) Q v.
Proof.
  revert Q v. induction n as [|n IH]; intros Q v Hd Hs Hok Herr; cbn [pop_list];
    pose proof (stacks_nonneg v).
  - apply wp_ret, Hok. split; try done; lia.
  - gas_step. gas_step; [|apply Herr; split; try done; lia].
    gas_step. apply IH; [gas_lia|gas_lia| |].
    + intros l w []. repeat gas_step. apply Hok. split; first [congruence|lia].
    + intros w []. apply Herr. split; first [congruence|lia].
Qed.

Lemma wp_read_list l (Q : res (list bytes) -> vm S -> Prop) v :
  (forall b, Q (Ok b) v) -> wp (read_list l) Q v.
Proof.
  revert Q. induction l as [|i l IH]; intros Q HQ; cbn [read_list]; [by apply wp_ret|].
  do 2 gas_step. gas_step. apply IH. intros bs. apply wp_ret, HQ.
Qed.

Lemma MulInt64_cost n c : 0 <= n <= MaxInt64 -> MulInt64 n 1024 = Some c -> c = n * 1024 /\ c <= MaxInt64.
Proof. intros Hn [-> Hc]%MulInt64_Some; unfold int64, MaxInt64, MinInt64 in *; lia. Qed.

(** CHECKMULTISIG with no key is free: it must not move the program counter. *)
Definition gas_free (v : vm S) (r : res unit) (v' : vm S) : Prop :=
  gas_post 0 v r v' /\ vm_nextPC v' = vm_nextPC v.

Ltac free_end := split; [gas_end|congruence].

Lemma gas_opCheckMultiSig v : op_start G v -> wp opCheckMultiSig (gas_free v) v.
Proof.
  unfold opCheckMultiSig. revert v. gas_start v. gas_step. gas_step; try free_end.
  destruct (MulInt64 n 1024) as [c|] eqn:Hc; [|gas_step; free_end].
  apply MulInt64_cost in Hc as [-> Hc]; [|lia].
  repeat gas_step; try free_end.
  apply wp_pop_list; [gas_lia|gas_lia| |intros w []; free_end].
  intros l w []. repeat gas_step; try free_end.
  apply wp_pop_list; [gas_lia|gas_lia| |intros w' []; free_end].
  intros l' w' []. repeat gas_step; try free_end.
  apply wp_read_list. intros ss. gas_step. apply wp_read_list. intros ps. gas_step; free_end.
Qed.

(** ** introspection.go *)

Lemma gas_opCheckOutput : gas_op G 16 opCheckOutput.
Proof.
  unfold opCheckOutput. gas_start v. repeat gas_step; try gas_end.
  destruct (CheckOutput _) as [check|]; [|gas_step; gas_end]. repeat gas_step.
  apply wp_read_list. intros st. repeat gas_step.
  destruct (check _ _ _ _ _ _ _); repeat gas_step; gas_end.
Qed.

(** The fields of the context are small. *)
Lemma gas_push_field {A} (f : Context_ S -> option A) push :
  (forall c a v0 v, small_context c -> f c = Some a -> 0 <= vm_runLimit v -> vm_deferredCost v = 0 ->
     0 <= vm_nextPC v ->
     0 <= stacks v -> frame v = frame v0 -> energy v <= energy v0 - 1 -> energy v <= G ->
     wp (push a) (gas_post 1 v0) v) ->
  gas_op G 1 (push_field f push).
Proof.
  intros Hp. unfold push_field. gas_start v. gas_step. gas_step; try gas_end. do 2 gas_step.
  rewrite (frame_context _ _ mv_frame0). destruct (f _) as [a|] eqn:Ha; [|gas_step; gas_end].
  eapply Hp; unfold energy; try done; lia.
Qed.
Ltac gas_field :=
  apply gas_push_field; intros; unfold energy in *;
  repeat match goal with H : small_context _ |- _ => destruct H as (? & ? & ? & ? & ?) end;
  try match goal with H : forall i, ?f ?c = Some i -> _, H' : ?f ?c = Some ?a |- _ =>
    specialize (H _ H'); pose proof (st_len_nonneg a some_heap) end;
  gas_step; gas_end.
Lemma gas_opAsset : gas_op G 1 opAsset.
Proof. unfold opAsset. gas_field. Qed.
Lemma gas_opAmount : gas_op G 1 opAmount.
Proof. unfold opAmount. gas_field. Qed.
Lemma gas_opIndex : gas_op G 1 opIndex.
Proof. unfold opIndex. gas_field. Qed.
Lemma gas_opOutputID : gas_op G 1 opOutputID.
Proof. unfold opOutputID. gas_field. Qed.
Lemma gas_opBlockHeight : gas_op G 1 opBlockHeight.
Proof. unfold opBlockHeight. gas_field. Qed.
Lemma gas_opProgram : gas_op G 1 opProgram.
Proof.
  unfold opProgram. gas_start v. gas_step. gas_step; try gas_end. do 2 gas_step.
  rewrite (frame_context _ _ mv_frame0). destruct Hctx as (? & _).
  pose proof (st_len_nonneg (Code (vm_context v)) some_heap). gas_step; gas_end.
Qed.
Lemma gas_opEntryID : gas_op G 1 opEntryID.
Proof.
  unfold opEntryID. gas_start v. gas_step. gas_step; try gas_end. do 2 gas_step.
  rewrite (frame_context _ _ mv_frame0). destruct Hctx as (_ & ? & _).
  pose proof (st_len_nonneg (EntryID (vm_context v)) some_heap). gas_step; gas_end.
Qed.

(** ** CHECKPREDICATE *)

(** What the machine promises about its children: a child that starts with
    energy at most [E] ends with at most 64 more. *)
Definition child_end (c : vm S) (r : res unit) (c' : vm S) : Prop :=
  match r with
  | Ok _ | Err _ => 0 <= vm_runLimit c' <= energy c /\ energy c' <= energy c + 64
  | Panic => True
  | OutOfFuel => False
  end.
Definition child_gas (E : Z) (run : M unit) : Prop :=
  forall c, 0 <= vm_runLimit c -> energy c <= E -> small_context (vm_context c) -> wp run (child_end c) c.

Lemma wp_run_child m c (Q : res (option error * vm S) -> vm S -> Prop) v :
  wp m (fun r c' => Q (match r with
                       | Ok _ => Ok (None, c') | Err e => Ok (Some e, c')
                       | Panic => Panic | OutOfFuel => OutOfFuel end) v) c ->
  wp (run_child m c) Q v.
Proof.
  intros Hm h. specialize (Hm h). unfold run_child. cbn [fst snd].
  destruct (m (h, c)) as [[|e| |] [h' c']]; exact Hm.
Qed.

Lemma scost_split k l : scost (take k l) + scost (drop k l) = scost l.
Proof. rewrite <- scost_app. by rewrite take_drop. Qed.

(** The part of [opCheckPredicate] from the start of the child on. *)
Definition child_part (run : M unit) (limit : Z) (predicate : item) (n : nat) : M unit :=
  applyCost limit ;;
  child ← gets (fun v => child_vm v predicate limit n);
  modify (fun v => set_dataStack (drop n (vm_dataStack v)) v) ;;
  '(childErr, child') ← run_child run child;
  deferCost (- vm_runLimit child') ;;
  deferCost (- stackCost (vm_dataStack child')) ;;
  deferCost (- stackCost (vm_altStack child')) ;;
  false_ ← (fun w => (Ok (falseResult (w.1, child')), w));
  pushBool (is_nil childErr && negb false_) true.

Lemma wp_child_part run limit predicate n v0 v :
  child_gas (energy v0 - 256) run -> op_start G v0 -> vm_nextPC v = vm_nextPC v0 ->
  frame v = frame v0 -> 0 <= limit <= MaxInt64 -> 0 <= vm_runLimit v -> energy v <= energy v0 - 256 ->
  vm_deferredCost v = energy v - energy v0 + 64 ->
  wp (child_part run limit predicate n) (gas_free v0) v.
Proof.
  intros Hrun Hs Hnx Hfr Hl Hrl He Hd. pose proof (stacks_nonneg v). unfold child_part.
  destruct Hs as [? ? ? ? _ Hctx]. unfold energy in *.
  gas_step. gas_step; [|free_end]. do 2 gas_step. gas_step. gas_set.
  pose proof (scost_split n (vm_dataStack v')) as Hsp. rewrite mv_ds0 in *.
  pose proof (scost_nonneg (take n (vm_dataStack v))). pose proof (scost_nonneg (drop n (vm_dataStack v))).
  pose proof (scost_nonneg (vm_altStack v)).
  gas_step. set (c := child_vm v' predicate limit n).
  assert (Hc : energy c = limit + scost (take n (vm_dataStack v)))
    by (change (energy c) with (limit + (scost (take n (vm_dataStack v')) + 0)); rewrite mv_ds0; lia).
  assert (Hst : stacks v - scost (vm_altStack v) = scost (vm_dataStack v)) by (unfold stacks; lia).
  rewrite mv_al0 in *.
  apply wp_run_child. eapply wp_mono.
  { apply Hrun; [cbn; lia|unfold energy in *; lia|].
    cbn. rewrite (frame_context v0) by congruence. done. }
  intros r c' Hend. pose proof (stacks_nonneg c').
  pose proof (scost_nonneg (vm_dataStack c')). pose proof (scost_nonneg (vm_altStack c')).
  assert (Hst' : stacks c' - scost (vm_altStack c') = scost (vm_dataStack c')) by (unfold stacks; lia).
  destruct r as [[]|e| |]; [| |split; [exact I|congruence]|destruct Hend];
    destruct Hend as [? Hle]; rewrite Hc in Hle; unfold energy in Hle;
    rewrite !stackCost_scost by gas_lia; repeat gas_step;
    apply wp_observe; intros b; gas_step; free_end.
Qed.

Lemma opCheckPredicate_eq run :
  opCheckPredicate run =
  (applyCost 256 ;;
   deferCost (-256 + 64) ;;
   limit ← popInt64; predicate ← pop true; n ← popInt64;
   ds ← gets vm_dataStack;
   let n := if n =? 0 then zlen ds else n in
   if n >? zlen ds then throw ErrDataStackUnderflow
   else
     rl ← gets vm_runLimit;
     child_part run (if limit =? 0 then rl else limit) predicate (Z.to_nat n)).
Proof. reflexivity. Qed.

Lemma gas_opCheckPredicate run v :
  op_start G v -> child_gas (energy v - 256) run -> wp (opCheckPredicate run) (gas_free v) v.
Proof.
  intros Hs Hrun. pose proof Hs as Hs'. revert v Hs Hrun Hs'. rewrite opCheckPredicate_eq.
  gas_start v. intros Hrun Hs'. repeat gas_step; try free_end. cbv zeta.
  gas_step; [gas_step; free_end|]. do 2 gas_step. apply wp_child_part; try done.
  all: unfold energy; try congruence; try (case_if; gas_lia); try lia.
Qed.

(** ** Any opcode *)

(** Either the operation pays, or it stays on the path of the program. *)
Definition exec_post (v : vm S) (r : res unit) (v' : vm S) : Prop :=
  gas_post 0 v r v' /\
  (r = Ok tt -> vm_runLimit v' - vm_deferredCost v' + stacks v' <= energy v - 1
                \/ vm_nextPC v' = vm_nextPC v).

Lemma exec_paid c m v : 1 <= c -> gas_op G c m -> op_start G v -> wp m (exec_post v) v.
Proof.
  intros Hc Hm Hs. eapply wp_mono; [apply (Hm v Hs)|]. intros r w Hp. split.
  - eapply gas_post_le; [|exact Hp]. lia.
  - intros ->. destruct Hp as (? & ? & ? & ? & ?). left. lia.
Qed.
Lemma exec_free m v : wp m (gas_free v) v -> wp m (exec_post v) v.
Proof. intros Hm. eapply wp_mono; [exact Hm|]. intros r w [Hp Hn]. split; auto. Qed.
End GasOps.

#[export] Hint Resolve gas_opFalse gas_opPushdata gas_opNop gas_opJump gas_opJumpIf gas_opVerify
  gas_opFail gas_opToAltStack gas_opFromAltStack gas_op2Drop gas_op2Dup gas_op3Dup gas_op2Over
  gas_op2Rot gas_op2Swap gas_opIfDup gas_opDepth gas_opDrop gas_opDup gas_opNip gas_opOver
  gas_opPick gas_opRoll gas_opRot gas_opSwap gas_opTuck gas_opCat gas_opSubstr gas_opLeft
  gas_opRight gas_opSize gas_opCatpushdata gas_opInvert gas_opAnd gas_opOr gas_opXor gas_opEqual
  gas_opEqualVerify gas_op1Add gas_op1Sub gas_op2Mul gas_op2Div gas_opNot gas_op0NotEqual
  gas_opAdd gas_opSub gas_opMul gas_opDiv gas_opMod gas_opLshift gas_opRshift gas_opBoolAnd
  gas_opBoolOr gas_opNumEqualVerify gas_opMin gas_opMax gas_opWithin
  gas_opSha256 gas_opSha3 gas_opHash160 gas_opCheckSig gas_opTxSigHash gas_opCheckOutput
  gas_opAsset gas_opAmount gas_opProgram gas_opIndex gas_opEntryID gas_opOutputID
  gas_opBlockHeight : gas.

Section GasRun.
Context {S : ItemStore} {SL : StoreLaws S} {U : Uint256} {UL : Uint256Laws U}
        {C : Crypto} {CL : CryptoLaws C} {h0 : SomeHeap S} (G : Z) (HG : G + 64 <= MaxInt64).

Lemma gas_exec run f v :
  op_start G v -> child_gas (energy v - 256) run -> wp (exec run f) (exec_post v) v.
Proof.
  intros Hs Hrun. destruct f; cbn [exec];
    try (eapply exec_paid; [|first [solve [eauto with gas]|by apply gas_doNumCompare]|exact Hs]; lia).
  - eapply exec_free, gas_opCheckMultiSig; eauto.
  - eapply exec_free, gas_opCheckPredicate; eauto.
Qed.

(** ** A step of the machine *)

(** The state [step] hands to an opcode function. *)
Definition fetched (n : Z) (d : bytes) (v : vm S) : vm S :=
  set_data d (set_deferredCost 0 (set_nextPC n v)).

Lemma fetched_start n d v :
  0 <= vm_runLimit v -> energy v <= G -> 0 <= n -> zlen d <= MaxInt32 ->
  small_context (vm_context v) -> op_start G (fetched n d v).
Proof. destruct v. intros. by split. Qed.

Lemma fetched_facts n d v :
  frame (fetched n d v) = frame v /\ energy (fetched n d v) = energy v
  /\ vm_nextPC (fetched n d v) = n.
Proof. by destruct v. Qed.

Lemma set_pc_facts n v :
  energy (set_pc n v) = energy v /\ vm_runLimit (set_pc n v) = vm_runLimit v
  /\ vm_pc (set_pc n v) = n /\ vm_context (set_pc n v) = vm_context v
  /\ vm_program (set_pc n v) = vm_program v.
Proof. by destruct v. Qed.

Definition prog_len (v : vm S) : Z := u32 (st_len (vm_program v)).

Definition step_end (v : vm S) (r : res unit) (v' : vm S) : Prop :=
  match r with
  | Ok _ => 0 <= vm_runLimit v' /\ energy v' <= energy v /\ 0 <= vm_pc v'
            /\ vm_context v' = vm_context v /\ vm_program v' = vm_program v
            /\ (energy v' <= energy v - 1 \/ vm_pc v + 1 <= vm_pc v' <= prog_len v)
  | Err _ => 0 <= vm_runLimit v' <= energy v /\ energy v' <= energy v + 64
  | Panic => True
  | OutOfFuel => False
  end.

Lemma set_nextPC_facts n v :
  frame (set_nextPC n v) = frame v /\ energy (set_nextPC n v) = energy v
  /\ vm_runLimit (set_nextPC n v) = vm_runLimit v /\ vm_nextPC (set_nextPC n v) = n.
Proof. by destruct v. Qed.

(** After the opcode function: the deferred cost is paid and the program moves on. *)
Lemma wp_step_finish v1 v2 n :
  0 <= energy v1 <= G -> 0 <= n -> vm_nextPC v1 = n -> exec_post v1 (Ok tt) v2 ->
  wp (d ← gets vm_deferredCost; applyCost d ;; modify (fun v => set_pc (vm_nextPC v) v))
     (fun r v' => match r with
                  | Ok _ => 0 <= vm_runLimit v' /\ energy v' <= energy v1 /\ 0 <= vm_pc v'
                            /\ vm_context v' = vm_context v1 /\ vm_program v' = vm_program v1
                            /\ (energy v' <= energy v1 - 1 \/ vm_pc v' = n)
                  | Err _ => 0 <= vm_runLimit v' <= energy v1 /\ energy v' <= energy v1 + 64
                  | Panic => True
                  | OutOfFuel => False
                  end) v2.
Proof.
  intros HE Hn Hn1 [(Hrl & Hfr & Hdf & Hnx & He) Hmove].
  specialize (Hmove eq_refl). injection Hfr as Hc Hp _ _. pose proof (stacks_nonneg v2).
  gas_step. gas_step. gas_step. unfold energy in He, HE. gas_step.
  - apply wp_modify. destruct (set_pc_facts (vm_nextPC v') v') as (-> & -> & -> & -> & ->).
    injection mv_frame0 as Hc' Hp' _ _. unfold energy.
    repeat split; try congruence; try lia. destruct Hmove; [left|right]; unfold energy in *; lia.
  - unfold energy in *. lia.
Qed.

Lemma wp_step_expansion v n :
  0 <= vm_runLimit v -> energy v <= G -> vm_pc v + 1 <= n <= prog_len v -> 0 <= vm_pc v ->
  wp (reserved ← gets vm_expansionReserved;
      if reserved : bool then throw ErrDisallowedOpcode
      else modify (fun v => set_pc (vm_nextPC v) v) ;; applyCost 1)
     (step_end v) (set_nextPC n v).
Proof.
  intros Hrl HE Hn Hpc. pose proof (stacks_nonneg v).
  destruct (set_nextPC_facts n v) as (Hf & He & Hr & Hnn). injection Hf as Hc Hp _ _.
  gas_step. gas_step. gas_step; [gas_step; unfold step_end, energy in *; lia|]. gas_step. apply wp_modify.
  destruct (set_pc_facts (vm_nextPC (set_nextPC n v)) (set_nextPC n v)) as (He' & Hr' & Hpc' & Hc' & Hp').
  unfold energy in *. gas_step; unfold step_end, energy; injection mv_frame0 as Hc'' Hp'' Hpc'' _.
  - repeat split; try congruence; lia.
  - lia.
Qed.

(** One step of the machine, its children included. *)
Lemma gas_step_ok run v :
  0 <= vm_runLimit v -> energy v <= G -> 0 <= vm_pc v -> small_context (vm_context v) ->
  child_gas (energy v - 256) run -> wp (step run) (step_end v) v.
Proof.
  intros Hrl HE Hpc Hctx Hrun. unfold step, program_bytes.
  assert (0 <= energy v) by (pose proof (stacks_nonneg v); unfold energy; lia).
  do 2 gas_step. gas_step. apply wp_read. intros b Hb. do 2 gas_step. gas_step. gas_step.
  destruct (ParseOp _ _) as [inst|e| |] eqn:Hp.
  - apply ParseOp_bounds in Hp as (Hl & [Hn Hmax] & Hd); [|done].
    assert (Hprog : u32 (zlen b) = prog_len v) by (unfold prog_len; by rewrite Hb).
    rewrite Hprog in *. rewrite u32_id by (words; lia). set (n := vm_pc v + inst_Len inst) in *.
    gas_step. apply wp_modify. gas_step.
    + apply wp_step_expansion; try done; lia.
    + gas_step. apply wp_modify. gas_step. apply wp_modify.
      change (set_data _ _) with (fetched n (inst_Data inst) v). gas_step.
      pose proof (fetched_facts n (inst_Data inst) v) as (Hf & He & Hn1).
      eapply wp_mono; [apply gas_exec; [apply fetched_start|rewrite He]; try done; lia|].
      intros r w Hw. destruct r as [[]|e| |].
      * eapply wp_mono; [apply (wp_step_finish (fetched n (inst_Data inst) v) _ n); [rewrite ?He; lia..|exact Hw]|].
        intros r' w' Hr. injection Hf as Hc Hpg _ _. rewrite Hc, Hpg, He in Hr.
        destruct r'; try done. cbn. intuition lia.
      * destruct Hw as [[? ?] _]. rewrite He in *. cbn. pose proof (stacks_nonneg w). unfold energy in *. lia.
      * done.
      * by destruct Hw.
  - unfold step_end. pose proof (stacks_nonneg v). unfold energy. lia.
  - done.
  - by apply ParseOp_not_fuel in Hp.
Qed.

(** ** The loop: energy first, then the distance to the end of the program *)

Definition measure (v : vm S) : Z := energy v * 2 ^ 32 + Z.max 0 (prog_len v - vm_pc v).

Lemma prog_len_range v : 0 <= prog_len v < 2 ^ 32.
Proof. unfold prog_len. pose proof (u32_range (st_len (vm_program v))). words. lia. Qed.

Lemma run_loop_gas f v :
  measure v < Z.of_nat f -> 0 <= vm_runLimit v -> energy v <= G -> 0 <= vm_pc v ->
  small_context (vm_context v) -> wp (run_loop f) (child_end v) v.
Proof.
  revert v. induction f as [|f IH]; intros v Hf Hrl HE Hpc Hctx;
    pose proof (stacks_nonneg v); pose proof (prog_len_range v); unfold measure in *.
  { unfold energy in Hf. lia. }
  cbn [run_loop]. unfold program_bytes at 1.
  do 2 gas_step. gas_step. apply wp_read. intros b Hb. do 2 gas_step. rewrite Hb.
  change (u32 (st_len (vm_program v))) with (prog_len v).
  gas_step; [|gas_step; cbn; unfold energy; lia].
  gas_step. eapply wp_mono; [apply gas_step_ok; try done|].
  - intros c Hc HcE Hcc. gas_step. apply wp_modify.
    destruct (set_pc_facts 0 c) as (He & Hr & Hp & Hx & Hpg).
    eapply wp_mono; [apply IH; [|congruence|lia|lia|congruence]|].
    + rewrite He, Hp. pose proof (prog_len_range (set_pc 0 c)). lia.
    + intros r c'. unfold child_end. by rewrite He.
  - intros r w Hw. destruct r as [[]|e| |]; try done.
    destruct Hw as (Hr & He & Hp & Hc & Hpg & Hm).
    assert (Hl : prog_len w = prog_len v) by (unfold prog_len; by rewrite Hpg).
    eapply wp_mono; [apply IH; [|done|lia|done|congruence]|].
    + rewrite Hl. destruct Hm; lia.
    + intros r w'. unfold child_end. destruct r; try done; lia.
Qed.

Lemma wp_push_all (push : item -> M unit) l (Q : res unit -> vm S -> Prop) v :
  (forall i w, In i l -> 0 <= vm_runLimit w -> energy w <= energy v -> frame w = frame v ->
     wp (push i) (fun r w' => match r with
       | Ok _ => 0 <= vm_runLimit w' /\ energy w' <= energy w /\ frame w' = frame w
       | Err _ => Q r w'
       | _ => False end) w) ->
  0 <= vm_runLimit v ->
  (forall v', 0 <= vm_runLimit v' -> energy v' <= energy v -> frame v' = frame v -> Q (Ok tt) v') ->
  wp (push_all push l) Q v.
Proof.
  revert v. induction l as [|i l IH]; intros v Hp Hrl Hok; cbn [push_all].
  - apply wp_ret, Hok; done || lia.
  - gas_step. eapply wp_mono; [apply Hp; [by left|done|lia|done]|]. cbv beta.
    intros [[]|e| |] w Hw; try done.
    destruct Hw as (Hr & He & Hf). apply IH; [|done|].
    + intros j w' Hj Hr' He' Hf'. apply Hp; [by right|done|lia|congruence].
    + intros v' Hr' He' Hf'. apply Hok; [done|lia|congruence].
Qed.

(** ** Verify *)

(** The lengths a Go slice can have, less the 8 bytes [item_cost] adds. *)
Definition short (i : item) : Prop := st_len i <= MaxInt64 - 8.

Lemma wp_push_args (push : item -> bool -> M unit) l Q v :
  (push = pushDataStack \/ push = pushAltStack) -> Forall short l ->
  0 <= vm_runLimit v -> energy v <= G ->
  (forall v', 0 <= vm_runLimit v' -> energy v' <= energy v -> frame v' = frame v -> Q (Ok tt) v') ->
  (forall v', vm_runLimit v' = 0 -> Q (Err ErrRunLimitExceeded) v') ->
  wp (push_all (fun i => push i false) l) Q v.
Proof.
  intros Hpush Hl Hrl HE Hok Herr. apply wp_push_all; [|done|done].
  intros i w Hi Hr He Hf. apply (proj1 (List.Forall_forall _ _) Hl) in Hi. unfold short in Hi.
  pose proof (st_len_nonneg i some_heap). pose proof (stacks_nonneg w). unfold energy in *.
  destruct Hpush as [-> | ->].
  - apply wp_push; [lia|gas_lia|..].
    + intros w' [? [[] ?]]. unfold energy. repeat split; try congruence; lia.
    + intros _ w' []. apply Herr. lia.
  - unfold pushAltStack. rewrite item_cost_val by lia. gas_step. gas_step.
    + apply wp_set_altStack. intros w' []. unfold energy.
      rewrite scost_cons, mv_al0, mv_ds0 in *. unfold stacks in *.
      repeat split; try congruence; lia.
    + apply Herr. lia.
Qed.

Lemma wp_verify_body fuel ctx gasLimit :
  small_context ctx -> Forall short (StateData ctx ++ Arguments ctx) ->
  0 <= gasLimit <= G -> (gasLimit + 1) * 2 ^ 32 <= Z.of_nat fuel ->
  wp (verify_body fuel ctx)
     (fun r v => match r with
                 | Ok _ | Err _ => 0 <= vm_runLimit v <= gasLimit
                 | Panic => True
                 | OutOfFuel => False end) (init_vm ctx gasLimit).
Proof.
  intros Hctx [Hs Ha]%Forall_app Hg Hf. unfold verify_body.
  assert (He0 : energy (init_vm ctx gasLimit) = gasLimit) by (unfold energy, stacks; cbn; lia).
  gas_step. apply wp_push_args; [by right|done|cbn; lia|lia| |intros; lia].
  intros v1 Hr1 He1 Hf1. gas_step. apply wp_push_args; [by left|done|lia|lia| |intros; lia].
  intros v2 Hr2 He2 Hf2. gas_step. unfold run. gas_step. apply wp_modify.
  destruct (set_pc_facts 0 v2) as (He & Hr & Hp & Hc & _).
  assert (Hctx2 : vm_context v2 = ctx) by (by rewrite (frame_context v1), (frame_context _ _ Hf1)).
  eapply wp_mono; [apply run_loop_gas; [|lia|lia|lia|congruence]|].
  - unfold measure. pose proof (prog_len_range (set_pc 0 v2)). lia.
  - intros [[]|e| |] w Hw; try done; unfold child_end in Hw; [|lia].
    gas_step. apply wp_observe. intros b. gas_step; gas_step; lia.
Qed.
End GasRun.

(** C17.  [Verify] returns: under a context whose pushable fields, the control
    program included, have at most 56 bytes each, whose state data and arguments
    have at most 2^63 - 9 bytes each, and with a gas limit that is not negative
    and at most 2^63 - 65, fuel (gasLimit + 1) * 2^32 is enough for every call.
    The fuel bounds the iterations of one loop; the loop of a nested predicate
    starts with what is left of it. The gas reported left is between zero and the
    limit. *)
Theorem Verify_gas {S : ItemStore} {SL : StoreLaws S} {U : Uint256} {UL : Uint256Laws U}
    {C : Crypto} {CL : CryptoLaws C} (fuel : nat) (ctx : Context_ S) (gasLimit : Z) (h : heap) :
  small_context ctx -> Forall short (StateData ctx ++ Arguments ctx) ->
  0 <= gasLimit -> gasLimit + 64 <= MaxInt64 -> (gasLimit + 1) * 2 ^ 32 <= Z.of_nat fuel ->
  exists r h', Verify fuel ctx gasLimit h = (Some r, h') /\ 0 <= gasLeft r <= gasLimit.
Proof.
  intros Hctx Hl Hg Hmax Hf. unfold Verify. case_if; [eexists _, _; split; [done|cbn; lia]|].
  assert (h0 : SomeHeap S) by exact h.
  pose proof (wp_verify_body gasLimit Hmax fuel ctx gasLimit Hctx Hl ltac:(lia) Hf h) as Hw.
  destruct (verify_body _ _ _) as [[[]|e| |] [h' v]]; cbn [fst snd] in Hw; try done;
    eexists _, _; (split; [done|cbn; lia]).
Qed.

(** A context whose program is [code], with [args] (the last on top). *)
Definition plain_context {S : ItemStore} (code : item) (args : list item) : Context_ S := {|
  VMVersion := 1; Code := code; StateData := []; Arguments := args; EntryID := code;
  TxVersion := Some 1; BlockHeight := None; NumResults := None; AssetID := None; Amount := None;
  DestPos := None; SpentOutputID := None; TxSigHash := None; CheckOutput := None;
|}.

Lemma Verify_gas_witness :
  exists r h', Verify (S := ValueStore) (U := ZUint256) (C := StubCrypto) (Z.to_nat (1001 * 2 ^ 32))
    (plain_context (S := ValueStore) (map z2b [OP_JUMP; 0; 0; 0; 0]) []) 1000 tt = (Some r, h')
  /\ 0 <= gasLeft r <= 1000.
Proof.
  apply (Verify_gas (S := ValueStore)).
  - repeat split; discriminate || done.
  - constructor.
  - discriminate.
  - discriminate.
  - rewrite Z2Nat.id by discriminate. discriminate.
Defined.
