(* ===== verification/Mint.v ===== *)
(** * Gas that comes from nowhere

    What happens without the hypothesis [small_context] of [Gas.v].  A child
    machine with one unit of gas executes PROGRAM: the push is deferred, so the
    control program is already on the child's stack when its cost exceeds the
    limit, and CHECKPREDICATE refunds the cost of that stack.  A control program
    of 200 bytes ends with more gas than it was given, and one of 62 bytes
    breaks even and loops for ever. *)

From S2P Require Import Prelude GoSlice VMTypes Opcode Machine Ops Interp Gas.

#[local] Existing Instance ZUint256.
#[local] Existing Instance StubCrypto.

(** FALSE; DATA_1 [PROGRAM]; TRUE; CHECKPREDICATE; DROP: a predicate PROGRAM run
    with a limit of 1. *)
Definition mint : list Z := [OP_FALSE; OP_DATA_1; OP_PROGRAM; OP_TRUE; OP_CHECKPREDICATE; OP_DROP].

Definition mint_once : bytes :=
  map z2b (mint ++ [OP_JUMP; 199; 0; 0; 0] ++ replicate 188%nat OP_NOP ++ [OP_TRUE]).

(** One iteration of the loop of [run]. *)
Lemma run_loop_S {S : ItemStore} f (h h' : heap) (v v' : vm S) :
  (vm_pc v <? u32 (zlen (st_get h (vm_program v)))) = true ->
  step (run f) (h, v) = (Ok tt, (h', v')) -> run_loop (Datatypes.S f) (h, v) = run_loop f (h', v').
Proof.
  intros Hpc Hs. cbn [run_loop]. unfold program_bytes, gets, read, mbind, M_bind in *. cbn [fst snd].
  rewrite Hpc. unfold run, mbind, M_bind in Hs. by rewrite Hs.
Qed.

(** A control program of 200 bytes runs to success with more gas left (628) than
    the limit it started with (500). *)
Theorem Verify_mints_gas :
  zlen mint_once = 200
  /\ Verify (S := ValueStore) 100 (plain_context (S := ValueStore) mint_once []) 500 tt
     = (Some (Verdict 628 None), tt).
Proof. split; vm_compute; reflexivity. Qed.

Definition mint_loop : bytes := map z2b (mint ++ [OP_JUMP; 0; 0; 0; 0] ++ replicate 51%nat OP_NOP).

Definition mint_vm : vm ValueStore := init_vm (plain_context (S := ValueStore) mint_loop []) 500.

(** The next machine, and the machines of two rounds of the loop: the third
    round starts where the second did. *)
Definition next (v : vm ValueStore) : vm ValueStore := (step (S := ValueStore) (run 1) (tt, v)).2.2.
Definition rounds : list (vm ValueStore) := (fun n => Nat.iter n next mint_vm) <$> seq 0 12.

Lemma rounds_step f v :
  v ∈ rounds -> (vm_pc v <? u32 (zlen mint_loop)) = true /\ vm_program v = mint_loop
    /\ step (S := ValueStore) (run (1 + f)) (tt, v) = (Ok tt, (tt, next v)) /\ next v ∈ rounds.
Proof.
  unfold rounds. intros (n & -> & Hn)%list_elem_of_fmap. apply elem_of_seq in Hn.
  assert (Hr : next (Nat.iter n next mint_vm) ∈ (fun n => Nat.iter n next mint_vm) <$> seq 0 12).
  { destruct (decide (n = 11)%nat) as [->|].
    - apply list_elem_of_fmap. exists 6%nat. split; [vm_compute; reflexivity|apply elem_of_seq; lia].
    - apply list_elem_of_fmap. exists (Datatypes.S n). split; [done|apply elem_of_seq; lia]. }
  split_and!; [| | |done]; clear Hr; do 12 (destruct n as [|n]; [vm_compute; reflexivity|]); lia.
Qed.

Lemma mint_diverges f v : v ∈ rounds -> (run_loop (S := ValueStore) f (tt, v)).1 = OutOfFuel.
Proof.
  revert v. induction f as [|[|f] IH]; intros v Hv; [done| |].
  - clear IH. unfold rounds in Hv. apply list_elem_of_fmap in Hv as (n & -> & Hn). apply elem_of_seq in Hn.
    do 12 (destruct n as [|n]; [vm_compute; reflexivity|]). lia.
  - destruct (rounds_step f v Hv) as (Hpc & Hp & Hs & Hn). specialize (IH _ Hn).
    rewrite <- IH. f_equal. apply (run_loop_S (S := ValueStore)); [by rewrite Hp|done].
Qed.

Lemma Verify_out_of_fuel {S : ItemStore} f (ctx : Context_ S) gasLimit (h : heap) :
  VMVersion ctx = 1 -> StateData ctx = [] -> Arguments ctx = [] ->
  (run_loop f (h, init_vm ctx gasLimit)).1 = OutOfFuel -> (Verify f ctx gasLimit h).1 = None.
Proof.
  intros Hv Hs Ha Hr. unfold Verify, verify_body. rewrite Hv, Hs, Ha. cbn [Z.eqb negb push_all].
  unfold run, mbind, M_bind, mret, M_ret, modify. cbn [fst snd].
  change (set_pc 0 (init_vm ctx gasLimit)) with (init_vm ctx gasLimit).
  destruct (run_loop f (h, init_vm ctx gasLimit)) as [r [h' v]]. cbn [fst] in Hr. by subst.
Qed.

(** C18.  A control program of 62 bytes on which the interpreter never returns: a
    child machine that fails to pay for PROGRAM is refunded the pushed item, which
    pays for the next round, so that with a gas limit of 500 no number of
    iterations is enough. *)
Theorem Verify_diverges fuel :
  zlen mint_loop = 62
  /\ (Verify (S := ValueStore) fuel (plain_context (S := ValueStore) mint_loop []) 500 tt).1 = None.
Proof.
  split; [done|]. apply (Verify_out_of_fuel (S := ValueStore)); [done..|]. apply mint_diverges. left.
Qed.
