(* ===== verification/Alias.v ===== *)
(** * Go slices refine values, until one is written in place

    The interpreter runs on [SliceStore], slices of shared arrays, as Go does;
    [ValueStore] is what a reader of the opcodes has in mind.  A simulation
    shows that both give the same verdict on every program as long as no
    [append] overwrites bytes of an existing array.  The last section has the
    program that does: it overwrites the package variable [trueBytes]. *)

From S2P Require Import Prelude Checked GoSlice VMTypes Opcode Machine Ops Interp Gas.
From Stdlib Require Import Strings.Byte.

Section Simulation.
Context {U : Uint256} {UL : Uint256Laws U} {C : Crypto} {R : GoRuntime}.

Abbreviation VS := ValueStore.
Abbreviation SS := SliceStore.

(** ** The representation relation *)

(** A slice stands for a byte string. *)
Definition irel (h : goheap) (b : bytes) (s : slice) : Prop := repr h s b.

Definition orel (h : goheap) : option bytes -> option slice -> Prop := option_Forall2 (irel h).

Record ctx_rel (h : goheap) (c1 : Context_ VS) (c2 : Context_ SS) : Prop := {
  cr_ver : VMVersion c1 = VMVersion c2;
  cr_code : irel h (Code c1) (Code c2);
  cr_state : Forall2 (irel h) (StateData c1) (StateData c2);
  cr_args : Forall2 (irel h) (Arguments c1) (Arguments c2);
  cr_entry : irel h (EntryID c1) (EntryID c2);
  cr_txver : TxVersion c1 = TxVersion c2;
  cr_height : BlockHeight c1 = BlockHeight c2;
  cr_asset : orel h (AssetID c1) (AssetID c2);
  cr_amount : Amount c1 = Amount c2;
  cr_pos : DestPos c1 = DestPos c2;
  cr_out : orel h (SpentOutputID c1) (SpentOutputID c2);
  cr_hash : orel h (TxSigHash c1) (TxSigHash c2);
  cr_check : CheckOutput c1 = CheckOutput c2;
}.

Record vm_rel (h : goheap) (v1 : vm VS) (v2 : vm SS) : Prop := {
  vr_ctx : ctx_rel h (vm_context v1) (vm_context v2);
  vr_prog : irel h (vm_program v1) (vm_program v2);
  vr_pc : vm_pc v1 = vm_pc v2;
  vr_next : vm_nextPC v1 = vm_nextPC v2;
  vr_rl : vm_runLimit v1 = vm_runLimit v2;
  vr_df : vm_deferredCost v1 = vm_deferredCost v2;
  vr_exp : vm_expansionReserved v1 = vm_expansionReserved v2;
  vr_data : vm_data v1 = vm_data v2;
  vr_depth : vm_depth v1 = vm_depth v2;
  vr_ds : Forall2 (irel h) (vm_dataStack v1) (vm_dataStack v2);
  vr_al : Forall2 (irel h) (vm_altStack v1) (vm_altStack v2);
}.

Lemma irel_extends h h' b s : extends h h' -> irel h b s -> irel h' b s.
Proof. apply repr_extends. Qed.
Lemma irels_extends h h' l k : extends h h' -> Forall2 (irel h) l k -> Forall2 (irel h') l k.
Proof. intros He Hl. eapply Forall2_impl; [exact Hl|]. intros b s. by apply irel_extends. Qed.
Lemma orel_extends h h' o p : extends h h' -> orel h o p -> orel h' o p.
Proof. intros He [b s Hi|]; constructor. by eapply irel_extends. Qed.
Lemma ctx_rel_extends h h' c1 c2 : extends h h' -> ctx_rel h c1 c2 -> ctx_rel h' c1 c2.
Proof.
  intros He []. split; eauto using irel_extends, irels_extends, orel_extends.
Qed.
Lemma vm_rel_extends h h' v1 v2 : extends h h' -> vm_rel h v1 v2 -> vm_rel h' v1 v2.
Proof. intros He []. split; eauto using irel_extends, irels_extends, ctx_rel_extends. Qed.

(** Lengths agree. *)
Lemma irel_len h b s : irel h b s -> st_len (ItemStore := SS) s = st_len (ItemStore := VS) b.
Proof. apply repr_len. Qed.

(** ** Computations *)

(** The flag of in-place writes only goes up. *)
Definition mono {A} (m : @M SS A) : Prop := forall w, in_place (m w).2.1 = false -> in_place w.1 = false.

(** Results are related; the lack of fuel and panics must agree too. *)
Definition res_rel {A B} (P : A -> B -> Prop) (r1 : res A) (r2 : res B) : Prop :=
  match r1, r2 with
  | Ok a, Ok b => P a b
  | Err e, Err e' => e = e'
  | Panic, Panic => True
  | OutOfFuel, OutOfFuel => True
  | _, _ => False
  end.

(** From any heap that extends [h], the two computations keep the machines and
    the results related, if the second one writes no array in place. *)
Definition sim (h : goheap) {A B} (P : goheap -> A -> B -> Prop) (m1 : @M VS A) (m2 : @M SS B) : Prop :=
  forall h1 v1 v2, extends h h1 -> heap_ok h1 -> vm_rel h1 v1 v2 ->
  in_place (m2 (h1, v2)).2.1 = false ->
  extends h1 (m2 (h1, v2)).2.1
  /\ vm_rel (m2 (h1, v2)).2.1 (m1 (tt, v1)).2.2 (m2 (h1, v2)).2.2
  /\ res_rel (P (m2 (h1, v2)).2.1) (m1 (tt, v1)).1 (m2 (h1, v2)).1.

Abbreviation eqr := (fun _ => eq).

Lemma mono_bind {A B} (m : @M SS A) (k : A -> @M SS B) : mono m -> (forall a, mono (k a)) -> mono (m ≫= k).
Proof.
  intros Hm Hk w. unfold mbind, M_bind. specialize (Hm w).
  destruct (m w) as [[a|e| |] w']; cbn [fst snd] in *; auto. intros Hf. apply Hm. by apply (Hk a).
Qed.

Lemma sim_bind h {A A' B B'} (P : goheap -> A -> A' -> Prop) (Q : goheap -> B -> B' -> Prop) m1 m2 k1 k2 :
  sim h P m1 m2 -> (forall a, mono (k2 a)) ->
  (forall h1 a a', extends h h1 -> P h1 a a' -> sim h1 Q (k1 a) (k2 a')) ->
  sim h Q (m1 ≫= k1) (m2 ≫= k2).
Proof.
  intros Hm Hmono Hk h1 v1 v2 He Hok Hv. specialize (Hm h1 v1 v2 He Hok Hv).
  unfold mbind, M_bind. destruct (m2 (h1, v2)) as [r2 [h2 v2']]. destruct (m1 (tt, v1)) as [r1 [[] v1']].
  cbn [fst snd] in *. destruct r2 as [a'|e'| |]; cbn [fst snd]; intros Hf.
  1:{ pose proof (Hmono a' _ Hf) as Hf'. cbn [fst] in Hf'. destruct (Hm Hf') as (He2 & Hv2 & Hr).
      destruct r1 as [a|e| |]; cbn in Hr; try done.
      assert (Hok2 : heap_ok h2) by (by eapply heap_ok_extends).
      destruct (Hk h2 a a' ltac:(by etrans) Hr h2 v1' v2' ltac:(done) Hok2 Hv2 Hf) as (He3 & Hv3 & Hr3).
      split_and!; [by etrans|done|done]. }
  all: destruct (Hm Hf) as (He2 & Hv2 & Hr); destruct r1; cbn in Hr; try done.
Qed.

Lemma mono_ret {A} (a : A) : mono (mret a). Proof. by intros w. Qed.
Lemma mono_throw {A} e : mono (throw (A := A) e). Proof. by intros w. Qed.
Lemma mono_panic {A} : mono (panic (A := A)). Proof. by intros w. Qed.
Lemma mono_gets {A} (f : vm SS -> A) : mono (gets f). Proof. by intros w. Qed.
Lemma mono_modify f : mono (modify f). Proof. by intros w. Qed.
Lemma mono_read i : mono (read (S := SS) i). Proof. by intros w. Qed.
Lemma mono_lift {A} (r : res A) : mono (lift r). Proof. by intros w. Qed.
Lemma mono_alloc b : mono (alloc (S := SS) b). Proof. by intros w. Qed.
Lemma mono_append i b : mono (append_ (S := SS) i b).
Proof.
  intros [h v]. unfold append_. cbn [fst snd]. change (@st_append SS) with (@slice_append R).
  pose proof (append_flag h i b). destruct (slice_append i b h) as [j h']. exact H.
Qed.
Lemma mono_Sum b : mono (Sum (S := SS) b).
Proof. apply mono_bind; [apply mono_alloc|intros; apply mono_append]. Qed.
Lemma mono_observe {A} (f : world SS -> A) : mono (fun w => (Ok (f w), w)).
Proof. by intros w. Qed.
Lemma mono_run_child m c : mono m -> mono (run_child m c).
Proof.
  intros Hm w Hf. specialize (Hm (w.1, c)). unfold run_child in Hf. cbn [fst] in Hm.
  destruct (m (w.1, c)) as [[[]|e| |] [h v]]; auto.
Qed.

(** ** Rules of the simulation *)

Lemma sim_ret h {A B} (P : goheap -> A -> B -> Prop) a b :
  (forall h1, extends h h1 -> P h1 a b) -> sim h P (mret a) (mret b).
Proof. intros HP h1 v1 v2 He Hok Hv Hf. cbn [mret M_ret fst snd]. split_and!; [done|done|by apply HP]. Qed.
Lemma sim_throw h {A B} (P : goheap -> A -> B -> Prop) e : sim h P (throw e) (throw e).
Proof. intros h1 v1 v2 He Hok Hv Hf. by split_and!. Qed.
Lemma sim_panic h {A B} (P : goheap -> A -> B -> Prop) : sim h P panic panic.
Proof. intros h1 v1 v2 He Hok Hv Hf. by split_and!. Qed.
Lemma sim_lift h {A} (r : res A) : sim h eqr (lift r) (lift r).
Proof. intros h1 v1 v2 He Hok Hv Hf. split_and!; [done|done|by destruct r]. Qed.
Lemma sim_read h b i : irel h b i -> sim h eqr (read (S := VS) b) (read (S := SS) i).
Proof.
  intros Hi h1 v1 v2 He Hok Hv Hf. split_and!; [done|done|]. symmetry. apply (irel_extends _ _ _ _ He Hi).
Qed.
Lemma sim_alloc h b : sim h irel (alloc (S := VS) b) (alloc (S := SS) b).
Proof.
  intros h1 v1 v2 He Hok Hv Hf. unfold alloc. cbn [fst snd].
  change (@st_make SS b h1) with (slice_make b h1). change (@st_make VS b tt) with (b, tt).
  pose proof (make_extends b h1) as He'. pose proof (make_repr b h1) as Hr'.
  destruct (slice_make b h1) as [i h2]. cbn [fst snd] in *.
  split_and!; [done|by eapply vm_rel_extends|done].
Qed.
Lemma sim_append h a i b : irel h a i -> sim h irel (append_ (S := VS) a b) (append_ (S := SS) i b).
Proof.
  intros Hi h1 v1 v2 He Hok Hv. unfold append_. cbn [fst snd].
  change (@st_append SS i b h1) with (slice_append i b h1). change (@st_append VS a b tt) with (a ++ b, tt).
  pose proof (append_repr h1 i a b (irel_extends _ _ _ _ He Hi)) as Ha.
  destruct (slice_append i b h1) as [j h2]. cbn [fst snd] in *. intros Hf. destruct (Ha Hf) as [He2 Hr].
  split_and!; [done|by eapply vm_rel_extends|done].
Qed.
Lemma sim_Sum h b : sim h irel (Sum (S := VS) b) (Sum (S := SS) b).
Proof.
  apply (sim_bind h irel); [apply sim_alloc|intros; apply mono_append|]. intros h1 a a' _ Ha.
  change b with ([] ++ b) at 1. apply sim_append. exact Ha.
Qed.
Lemma sim_gets h {A B} (P : goheap -> A -> B -> Prop) f1 f2 :
  (forall h1 v1 v2, extends h h1 -> vm_rel h1 v1 v2 -> P h1 (f1 v1) (f2 v2)) -> sim h P (gets f1) (gets f2).
Proof. intros HP h1 v1 v2 He Hok Hv Hf. split_and!; [done|done|by apply HP]. Qed.
Lemma sim_modify h f1 f2 :
  (forall h1 v1 v2, extends h h1 -> vm_rel h1 v1 v2 -> vm_rel h1 (f1 v1) (f2 v2)) ->
  sim h eqr (modify f1) (modify f2).
Proof. intros HP h1 v1 v2 He Hok Hv Hf. split_and!; [done|by apply HP|done]. Qed.
Lemma sim_observe h {A} (f1 : world VS -> A) (f2 : world SS -> A) :
  (forall h1 v1 v2, extends h h1 -> vm_rel h1 v1 v2 -> f1 (tt, v1) = f2 (h1, v2)) ->
  sim h eqr (fun w => (Ok (f1 w), w)) (fun w => (Ok (f2 w), w)).
Proof. intros Hfx h1 v1 v2 He Hok Hv Hf. cbn [fst snd]. split_and!; [done|done|]. cbn. by apply Hfx. Qed.
Lemma sim_true h h1 : heap_ok h1 -> extends h h1 -> irel h1 (st_true (ItemStore := VS)) (st_true (ItemStore := SS)).
Proof. intros. by apply heap_ok_true. Qed.
End Simulation.

Create HintDb mono.
#[export] Hint Resolve mono_ret mono_throw mono_panic mono_gets mono_modify mono_read mono_lift mono_alloc
  mono_append mono_Sum mono_observe mono_run_child : mono.

(** Proves [mono] by the structure of the computation. *)
Ltac mono_tac :=
  cbv beta zeta;
  repeat first
    [ solve [auto with mono]
    | apply mono_bind; [|intros ?]
    | lazymatch goal with
      | |- mono (if ?b then _ else _) => destruct b
      | |- mono (match ?x with _ => _ end) => destruct x
      | |- mono (let '(_, _) := ?x in _) => destruct x
      end ].

(** Brings the relations of values at older heaps to the newest one. *)
Ltac lift_rel :=
  repeat match goal with
  | He : extends ?h ?h1, H : irel ?h _ _ |- _ => apply (irel_extends _ _ _ _ He) in H
  | He : extends ?h ?h1, H : Forall2 (irel ?h) _ _ |- _ => apply (irels_extends _ _ _ _ He) in H
  | He : extends ?h ?h1, H : ctx_rel ?h _ _ |- _ => apply (ctx_rel_extends _ _ _ _ He) in H
  | He : extends ?h ?h1, H : vm_rel ?h _ _ |- _ => apply (vm_rel_extends _ _ _ _ He) in H
  end;
  try match goal with He : extends ?h ?h1 |- sim ?h1 _ _ _ => clear He end.

(** ** The machine's primitives *)

Section Primitives.
Context {U : Uint256} {UL : Uint256Laws U} {C : Crypto} {R : GoRuntime}.

Abbreviation VS := ValueStore.
Abbreviation SS := SliceStore.
Abbreviation eqr := (fun _ => eq).

Definition irels (h : goheap) : list bytes -> list slice -> Prop := Forall2 (irel h).

Lemma sim_gets_ds h : sim h irels (gets (S := VS) vm_dataStack) (gets (S := SS) vm_dataStack).
Proof. apply sim_gets. intros h1 v1 v2 _ []. done. Qed.
Lemma sim_gets_al h : sim h irels (gets (S := VS) vm_altStack) (gets (S := SS) vm_altStack).
Proof. apply sim_gets. intros h1 v1 v2 _ []. done. Qed.
Lemma sim_gets_ctx h : sim h ctx_rel (gets (S := VS) vm_context) (gets (S := SS) vm_context).
Proof. apply sim_gets. intros h1 v1 v2 _ []. done. Qed.
Lemma sim_gets_prog h : sim h irel (gets (S := VS) vm_program) (gets (S := SS) vm_program).
Proof. apply sim_gets. intros h1 v1 v2 _ []. done. Qed.
Lemma sim_gets_rl h : sim h eqr (gets (S := VS) vm_runLimit) (gets (S := SS) vm_runLimit).
Proof. apply sim_gets. intros h1 v1 v2 _ []. done. Qed.
Lemma sim_gets_df h : sim h eqr (gets (S := VS) vm_deferredCost) (gets (S := SS) vm_deferredCost).
Proof. apply sim_gets. intros h1 v1 v2 _ []. done. Qed.
Lemma sim_gets_pc h : sim h eqr (gets (S := VS) vm_pc) (gets (S := SS) vm_pc).
Proof. apply sim_gets. intros h1 v1 v2 _ []. done. Qed.
Lemma sim_gets_data h : sim h eqr (gets (S := VS) vm_data) (gets (S := SS) vm_data).
Proof. apply sim_gets. intros h1 v1 v2 _ []. done. Qed.
Lemma sim_gets_exp h : sim h eqr (gets (S := VS) vm_expansionReserved) (gets (S := SS) vm_expansionReserved).
Proof. apply sim_gets. intros h1 v1 v2 _ []. done. Qed.
End Primitives.

Create HintDb irels.
Create HintDb sim.
#[export] Hint Resolve sim_throw sim_panic sim_lift sim_read sim_alloc sim_append sim_Sum sim_gets_ds sim_gets_al sim_gets_ctx
  sim_gets_prog sim_gets_rl sim_gets_df sim_gets_pc sim_gets_data sim_gets_exp : sim.

(** A change of the machine that treats both sides alike. *)
Ltac sim_modify_tac :=
  apply sim_modify; intros ? [] [] ? []; cbn in *; lift_rel; subst; split; cbn;
  repeat first [assumption | reflexivity | congruence | solve [auto with irels] | constructor].

Ltac sim_intro :=
  let Hr := fresh "Hr" in intros ? ? ? ? Hr; cbv beta in *; unfold irels in *;
  try lazymatch type of Hr with _ = _ /\ _ => destruct Hr as [<- Hr] end; subst; lift_rel.

(** One step through two computations of the same shape. *)
Ltac sim_step :=
  cbv beta iota zeta;
  lazymatch goal with
  | |- sim _ _ (mbind _ (modify _)) _ => eapply sim_bind; [sim_modify_tac|intros ?; mono_tac|sim_intro]
  | |- sim _ _ (mbind _ _) _ => eapply sim_bind; [solve [eauto with sim]|intros ?; mono_tac|sim_intro]
  | |- sim _ _ (modify _) _ => sim_modify_tac
  | |- sim _ _ (mret _) _ => apply sim_ret; intros ? ?; lift_rel; try done
  | |- sim _ _ (if ?b then _ else _) (if ?b then _ else _) => destruct b eqn:?
  | |- sim _ _ (match ?x with _ => _ end) (match ?x with _ => _ end) => destruct x eqn:?
  | |- sim _ _ _ _ => solve [eauto with sim]
  end.

Section Stack.
Context {U : Uint256} {UL : Uint256Laws U} {C : Crypto} {R : GoRuntime}.

Abbreviation VS := ValueStore.
Abbreviation SS := SliceStore.
Abbreviation eqr := (fun _ => eq).

Lemma sim_applyCost h n : sim h eqr (applyCost (S := VS) n) (applyCost (S := SS) n).
Proof. unfold applyCost. repeat sim_step. Qed.
Lemma mono_applyCost n : mono (applyCost (S := SS) n).
Proof. unfold applyCost. mono_tac. Qed.
Lemma sim_deferCost h n : sim h eqr (deferCost (S := VS) n) (deferCost (S := SS) n).
Proof. unfold deferCost. repeat sim_step. Qed.
Lemma mono_deferCost n : mono (deferCost (S := SS) n).
Proof. unfold deferCost. mono_tac. Qed.

#[local] Hint Resolve sim_applyCost sim_deferCost : sim.
#[local] Hint Resolve mono_applyCost mono_deferCost : mono.

Lemma irel_cost h b s : irel h b s -> item_cost (S := SS) s = item_cost (S := VS) b.
Proof. intros Hi. unfold item_cost. by rewrite (irel_len _ _ _ Hi). Qed.
Lemma irels_zlen h (l : list (@item VS)) (k : list (@item SS)) :
  Forall2 (irel h) l k -> @zlen (@item SS) k = @zlen (@item VS) l.
Proof. intros Hl. unfold zlen. f_equal. symmetry. exact (Forall2_length _ _ _ Hl). Qed.

Lemma sim_pushDataStack h b s d : irel h b s -> sim h eqr (pushDataStack (S := VS) b d) (pushDataStack (S := SS) s d).
Proof. intros Hi. unfold pushDataStack. rewrite (irel_cost _ _ _ Hi). destruct d; repeat sim_step. Qed.
Lemma mono_pushDataStack s d : mono (pushDataStack (S := SS) s d).
Proof. unfold pushDataStack. mono_tac. Qed.
Lemma sim_pushAltStack h b s d : irel h b s -> sim h eqr (pushAltStack (S := VS) b d) (pushAltStack (S := SS) s d).
Proof. intros Hi. unfold pushAltStack. rewrite (irel_cost _ _ _ Hi). destruct d; repeat sim_step. Qed.
Lemma mono_pushAltStack s d : mono (pushAltStack (S := SS) s d).
Proof. unfold pushAltStack. mono_tac. Qed.
#[local] Hint Resolve sim_pushDataStack sim_pushAltStack : sim.
#[local] Hint Resolve mono_pushDataStack mono_pushAltStack : mono.

(** The package variable is intact in every heap the simulation meets. *)
Lemma sim_ok h {A B} (P : goheap -> A -> B -> Prop) m1 m2 :
  (forall h1, extends h h1 -> heap_ok h1 -> sim h1 P m1 m2) -> sim h P m1 m2.
Proof. intros Hs h1 v1 v2 He Hok. by apply (Hs h1 He Hok h1 v1 v2). Qed.

Lemma sim_pushBool h b d : sim h eqr (pushBool (S := VS) b d) (pushBool (S := SS) b d).
Proof.
  unfold pushBool. destruct b; [|repeat sim_step]. apply sim_ok. intros h1 He Hok.
  apply sim_pushDataStack. by apply heap_ok_true.
Qed.
Lemma mono_pushBool b d : mono (pushBool (S := SS) b d).
Proof. unfold pushBool. mono_tac. Qed.
Lemma sim_pushBigInt h n d : sim h eqr (pushBigInt (S := VS) n d) (pushBigInt (S := SS) n d).
Proof. unfold pushBigInt. repeat sim_step. Qed.
Lemma mono_pushBigInt n d : mono (pushBigInt (S := SS) n d).
Proof. unfold pushBigInt. mono_tac. Qed.
#[local] Hint Resolve sim_pushBool sim_pushBigInt : sim.
#[local] Hint Resolve mono_pushBool mono_pushBigInt : mono.

Lemma sim_pop h d : sim h irel (pop (S := VS) d) (pop (S := SS) d).
Proof.
  unfold pop. sim_step. destruct Hr as [|b s l k Hi Hl]; [repeat sim_step|].
  rewrite (irel_cost _ _ _ Hi). sim_step. destruct d; repeat sim_step.
Qed.
Lemma mono_pop d : mono (pop (S := SS) d).
Proof. unfold pop. mono_tac. Qed.
#[local] Hint Resolve sim_pop : sim.
#[local] Hint Resolve mono_pop : mono.

Lemma sim_popBigInt h d : sim h eqr (popBigInt (S := VS) d) (popBigInt (S := SS) d).
Proof. unfold popBigInt. repeat sim_step. Qed.
Lemma mono_popBigInt d : mono (popBigInt (S := SS) d).
Proof. unfold popBigInt. mono_tac. Qed.

Lemma sim_top h : sim h irel (top (S := VS)) (top (S := SS)).
Proof. unfold top. sim_step. destruct Hr; repeat sim_step. Qed.
Lemma mono_top : mono (top (S := SS)).
Proof. unfold top. mono_tac. Qed.
End Stack.

#[export] Hint Resolve sim_applyCost sim_deferCost sim_pushDataStack sim_pushAltStack sim_pushBool sim_pushBigInt
  sim_pop sim_popBigInt sim_top : sim.
#[export] Hint Resolve mono_applyCost mono_deferCost mono_pushDataStack mono_pushAltStack mono_pushBool mono_pushBigInt
  mono_pop mono_popBigInt mono_top : mono.

(** ** The opcode functions *)

Ltac sim_norm :=
  repeat match goal with
  | H : irel _ ?b ?s |- context [@st_len SliceStore ?s] => rewrite (irel_len _ _ _ H)
  | H : irel _ ?b ?s |- context [@item_cost SliceStore ?s] => rewrite (irel_cost _ _ _ H)
  | H : Forall2 (irel _) ?l ?k |- context [zlen ?k] => rewrite (irels_zlen _ _ _ H)
  end.

Ltac sim_auto :=
  repeat (sim_norm; first
    [ lazymatch goal with
      | H : Forall2 (irel _) ?l ?k |- sim _ _ (match ?l with _ => _ end) (match ?k with _ => _ end) => destruct H
      end
    | sim_step ]).

Section Ops.
Context {U : Uint256} {UL : Uint256Laws U} {C : Crypto} {R : GoRuntime}.

Abbreviation VS := ValueStore.
Abbreviation SS := SliceStore.
Abbreviation eqr := (fun _ => eq).

(** Proves [sim] for an operation without slicing, or [mono]. *)
Lemma irels_lookup h (l : list (@item VS)) (s : list (@item SS)) k :
  Forall2 (irel h) l s ->
  option_Forall2 (irel h) (@lookup nat (@item VS) (list (@item VS)) list_lookup k l)
    (@lookup nat (@item SS) (list (@item SS)) list_lookup k s).
Proof.
  intros Hl. revert k. induction Hl as [|b i l s Hi Hl IH]; intros [|k]; cbn; try by constructor. apply IH.
Qed.

Lemma sim_push_nth h k : sim h eqr (push_nth (S := VS) k) (push_nth (S := SS) k).
Proof.
  unfold push_nth. sim_step. destruct (irels_lookup _ _ _ k Hr) as [b s Hi|]; repeat sim_step.
Qed.
Lemma mono_push_nth k : mono (push_nth (S := SS) k).
Proof. unfold push_nth. mono_tac. Qed.

Lemma sim_repeat h n m1 m2 :
  mono m2 -> (forall h1, extends h h1 -> sim h1 eqr m1 m2) -> sim h eqr (repeat_ (S := VS) n m1) (repeat_ (S := SS) n m2).
Proof.
  intros Hmono Hm. revert h Hm. induction n as [|n IH]; intros h Hm; cbn [repeat_]; [by apply sim_ret|].
  eapply sim_bind; [by apply Hm| |].
  - intros _. clear IH Hm. induction n; cbn [repeat_]; [apply mono_ret|]. by apply mono_bind.
  - intros h1 a a' He _. apply IH. intros h2 He2. apply Hm. by etrans.
Qed.
Lemma mono_repeat n m : mono m -> mono (repeat_ (S := SS) n m).
Proof. intros Hm. induction n; cbn [repeat_]; [apply mono_ret|]. by apply mono_bind. Qed.
End Ops.
#[export] Hint Resolve sim_push_nth : sim.
#[export] Hint Resolve mono_push_nth mono_repeat : mono.

Section OpFunctions.
Context {U : Uint256} {UL : Uint256Laws U} {C : Crypto} {R : GoRuntime}.

Abbreviation VS := ValueStore.
Abbreviation SS := SliceStore.
Abbreviation eqr := (fun _ => eq).

(** ** Lists of items *)

Lemma irels_tail h (l : list (@item VS)) (k : list (@item SS)) :
  Forall2 (irel h) l k -> Forall2 (irel h) (tail l) (tail k).
Proof. by intros [|]. Qed.
Lemma irels_reverse h (l : list (@item VS)) (k : list (@item SS)) :
  Forall2 (irel h) l k -> Forall2 (irel h) (reverse l) (reverse k).
Proof. apply Forall2_reverse. Qed.
Lemma irels_drop h n (l : list (@item VS)) (k : list (@item SS)) :
  Forall2 (irel h) l k -> Forall2 (irel h) (drop n l) (drop n k).
Proof. apply Forall2_drop. Qed.
Lemma irels_move h (l : list (@item VS)) (k : list (@item SS)) x y n m :
  Forall2 (irel h) l k -> irel h x y ->
  Forall2 (irel h) (x :: take n l ++ drop m l) (y :: take n k ++ drop m k).
Proof. intros Hl Hx. constructor; [done|]. apply Forall2_app; [by apply Forall2_take|by apply Forall2_drop]. Qed.

Lemma irels_go_index h (l : list (@item VS)) (k : list (@item SS)) i :
  Forall2 (irel h) l k -> option_Forall2 (irel h) (@go_index VS l i) (@go_index SS k i).
Proof.
  intros Hl. unfold go_index, zlookup. rewrite (irels_zlen _ _ _ Hl).
  destruct (_ <? 0); [constructor|]. by apply irels_lookup.
Qed.

Lemma irel_slice h b s lo hi :
  irel h b s -> 0 <= lo -> lo <= hi -> hi <= @st_len VS b ->
  irel h (@st_slice VS b lo hi) (@st_slice SS s lo hi).
Proof.
  intros Hi H1 H2 H3. unfold irel. rewrite (value_slice b lo hi H1 H2 H3). by apply slice_repr.
Qed.

Lemma sim_popInt64 h : sim h (fun _ a b => a = b /\ 0 <= a <= MaxInt64) (popInt64 (S := VS)) (popInt64 (S := SS)).
Proof.
  unfold popInt64. sim_step. intros g v1 v2 He Hok Hv Hf. split_and!; [done|done|]. cbn [lift fst].
  rewrite bigIntInt64_spec. pose proof (uval_range a'). case_if; zbool; cbn; [split; [done|lia]|done].
Qed.
Lemma mono_popInt64 : mono (popInt64 (S := SS)).
Proof. unfold popInt64. mono_tac. Qed.

#[local] Hint Resolve mono_popInt64 : mono.

Lemma mono_pop_list n : mono (pop_list (S := SS) n).
Proof. induction n as [|n IH]; cbn [pop_list]; mono_tac. Qed.
Lemma mono_read_list (k : list (@item SS)) : mono (read_list (S := SS) k).
Proof. induction k as [|i k IH]; cbn [read_list]; mono_tac. Qed.
#[local] Hint Resolve mono_pop_list mono_read_list : mono.

Lemma sim_pop_list h n : sim h irels (pop_list (S := VS) n) (pop_list (S := SS) n).
Proof.
  revert h. induction n as [|n IH]; intros h; cbn [pop_list].
  - apply sim_ret. constructor.
  - sim_step. eapply sim_bind; [apply IH|intros ?; mono_tac|]. sim_intro. apply sim_ret. intros ? ?. lift_rel.
    by constructor.
Qed.

Lemma sim_read_list h (l : list (@item VS)) (k : list (@item SS)) :
  Forall2 (irel h) l k -> sim h eqr (read_list (S := VS) l) (read_list (S := SS) k).
Proof.
  intros Hl. revert h Hl. induction l as [|b l IH] in k |- *; intros h Hl; inversion Hl; subst; cbn [read_list]; [by apply sim_ret|].
  sim_step. eapply sim_bind; [by apply IH|intros ?; mono_tac|]. sim_intro. by apply sim_ret.
Qed.

Lemma irels_existsb h (l : list (@item VS)) (k : list (@item SS)) (f : Z -> bool) :
  Forall2 (irel h) l k -> existsb (fun i => f (@st_len SS i)) k = existsb (fun i => f (@st_len VS i)) l.
Proof. induction 1 as [|b s l k Hi Hl IH]; [done|]. cbn [existsb]. by rewrite IH, (irel_len _ _ _ Hi). Qed.
End OpFunctions.

#[export] Hint Extern 1 (Forall2 (irel _) _ _) =>
  first [apply irels_tail; assumption | apply irels_drop; assumption | apply irels_move; assumption
        | constructor; [assumption|apply irels_tail; assumption]] : irels.
#[export] Hint Resolve sim_popInt64 sim_pop_list sim_read_list : sim.
#[export] Hint Resolve mono_popInt64 mono_pop_list mono_read_list : mono.

Ltac sim_auto2 :=
  repeat (sim_norm; first
    [ lazymatch goal with
      | H : Forall2 (irel _) ?l ?k |- sim _ _ (match ?l with _ => _ end) (match ?k with _ => _ end) => destruct H
      | H : Forall2 (irel _) ?l ?k |- sim _ _ (match ?l !! ?i with _ => _ end) _ => destruct (irels_lookup _ _ _ i H)
      | H : Forall2 (irel _) ?l ?k |- sim _ _ (match go_index ?l ?i with _ => _ end) _ =>
          destruct (irels_go_index _ _ _ i H)
      | |- sim _ _ (repeat_ _ _) _ => apply sim_repeat; [mono_tac|intros ? ?; lift_rel]
      end
    | sim_step ]).

Section Exec.
Context {U : Uint256} {UL : Uint256Laws U} {C : Crypto} {R : GoRuntime}.

Abbreviation VS := ValueStore.
Abbreviation SS := SliceStore.
Abbreviation eqr := (fun _ => eq).

Lemma sim_doEqual h : sim h eqr (doEqual (S := VS)) (doEqual (S := SS)).
Proof. unfold doEqual. sim_auto2. Qed.
Lemma mono_doEqual : mono (doEqual (S := SS)).
Proof. unfold doEqual. mono_tac. Qed.
#[local] Hint Resolve sim_doEqual : sim.
#[local] Hint Resolve mono_doEqual : mono.

Lemma sim_push_field h {A B} (P : goheap -> A -> B -> Prop) f1 f2 p1 p2 :
  (forall h c1 c2, ctx_rel h c1 c2 -> option_Forall2 (P h) (f1 c1) (f2 c2)) ->
  (forall h a b, P h a b -> sim h eqr (p1 a) (p2 b)) -> (forall b, mono (p2 b)) ->
  sim h eqr (push_field (S := VS) f1 p1) (push_field (S := SS) f2 p2).
Proof.
  intros Hf Hp Hm. unfold push_field. do 2 sim_step. destruct (Hf _ _ _ Hr); [by apply Hp|sim_step].
Qed.
Lemma option_eq_rel {A} (x y : option A) : x = y -> option_Forall2 eq x y.
Proof. intros <-. destruct x; by constructor. Qed.

Lemma sim_opCheckMultiSig h : sim h eqr (opCheckMultiSig (S := VS)) (opCheckMultiSig (S := SS)).
Proof.
  unfold opCheckMultiSig. sim_auto2.
  rewrite (irels_existsb _ _ _ (fun n => negb (n =? PublicKeySize)) Hr1). sim_auto2.
Qed.

Lemma sim_opCheckOutput h : sim h eqr (opCheckOutput (S := VS)) (opCheckOutput (S := SS)).
Proof.
  unfold opCheckOutput. sim_auto2. rewrite (cr_check _ _ _ Hr1). sim_auto2.
  eapply sim_bind; [apply sim_read_list; by apply irels_reverse|intros ?; mono_tac|sim_intro]. sim_auto2.
Qed.

(** The slicing opcodes: the bounds they check make the slice expressions safe. *)
Lemma sim_opSubstr h : sim h eqr (opSubstr (S := VS)) (opSubstr (S := SS)).
Proof.
  unfold opSubstr. sim_auto2. apply sim_pushDataStack, irel_slice; [done|lia| |lia].
  apply AddInt64_Some in Heqo; unfold int64; words; lia.
Qed.
Lemma sim_opLeft h : sim h eqr (opLeft (S := VS)) (opLeft (S := SS)).
Proof. unfold opLeft. sim_auto2. apply sim_pushDataStack, irel_slice; done || lia. Qed.
Lemma sim_opRight h : sim h eqr (opRight (S := VS)) (opRight (S := SS)).
Proof. unfold opRight. sim_auto2. apply sim_pushDataStack, irel_slice; done || lia. Qed.

Lemma stackCost_rel h (l : list (@item VS)) (k : list (@item SS)) :
  Forall2 (irel h) l k -> stackCost (S := SS) k = stackCost (S := VS) l.
Proof.
  intros Hl. unfold stackCost. rewrite (irels_zlen _ _ _ Hl). generalize (i64 (8 * zlen l)).
  induction Hl as [|b s l k Hi Hl IH]; intros z; cbn [foldl]; [done|]. by rewrite (irel_len _ _ _ Hi), IH.
Qed.

Lemma falseResult_rel h v1 v2 u : vm_rel h v1 v2 -> falseResult (S := SS) (h, v2) = falseResult (S := VS) (u, v1).
Proof.
  intros []. unfold falseResult. cbn [snd fst]. destruct vr_ds0 as [|b s l k [_ Hi] Hl]; [done|].
  change (@st_get SS h s) with (slice_get h s). by rewrite Hi.
Qed.

(** Running a child keeps the parent's machine as it was. *)
Definition child_rel (h : goheap) (a : option error * vm VS) (b : option error * vm SS) : Prop :=
  a.1 = b.1 /\ vm_rel h a.2 b.2.

Lemma sim_run_child h m1 m2 c1 c2 :
  (forall h, sim h eqr m1 m2) -> vm_rel h c1 c2 -> sim h child_rel (run_child m1 c1) (run_child m2 c2).
Proof.
  intros Hm Hc h1 v1 v2 He Hok Hv. unfold run_child. cbn [fst snd].
  pose proof (Hm h1 h1 c1 c2 ltac:(done) Hok (vm_rel_extends _ _ _ _ He Hc)) as Hs.
  match goal with |- context [m2 ?w] => set (x2 := m2 w); change (m2 (h1, c2)) with x2 in Hs end.
  match goal with |- context [m1 ?w] => set (x1 := m1 w); change (m1 (tt, c1)) with x1 in Hs end.
  destruct x2 as [r2 [h2 c2']], x1 as [r1 [[] c1']]. cbn [fst snd] in Hs.
  intros Hf. assert (Hf' : in_place h2 = false) by (by destruct r2). destruct (Hs Hf') as (He2 & Hc2 & Hr).
  pose proof (vm_rel_extends _ _ _ _ He2 Hv) as Hv2.
  destruct r2, r1; cbn in Hr; try done; cbn [fst snd]; split_and!; try done; split; cbn; [by try f_equal|done..].
Qed.

Lemma sim_child_vm h (v1 : vm VS) (v2 : vm SS) p1 p2 limit n :
  vm_rel h v1 v2 -> irel h p1 p2 -> vm_rel h (child_vm (S := VS) v1 p1 limit n) (child_vm (S := SS) v2 p2 limit n).
Proof.
  intros [] Hp. split; cbn; try done; [congruence|by apply Forall2_take].
Qed.

Lemma sim_opCheckPredicate h (run1 : @M VS unit) (run2 : @M SS unit) :
  mono run2 -> (forall h, sim h eqr run1 run2) ->
  sim h eqr (opCheckPredicate (S := VS) run1) (opCheckPredicate (S := SS) run2).
Proof.
  intros Hm Hrun. unfold opCheckPredicate. sim_auto2.
  eapply (sim_bind _ vm_rel).
  { apply sim_gets. intros h1' v1 v2 He Hv. lift_rel. by apply sim_child_vm. }
  { intros ?. mono_tac. }
  intros h8 c1 c2 He Hc. lift_rel. sim_step.
  eapply sim_bind; [by apply sim_run_child|intros ?; mono_tac|].
  intros hc [e1 d1] [e2 d2] Hec [He1 Hd]. cbn [fst snd] in He1, Hd. subst e2. cbv beta iota.
  pose proof Hd as []. rewrite <- vr_rl0. rewrite (stackCost_rel _ _ _ vr_ds0), (stackCost_rel _ _ _ vr_al0).
  do 3 sim_step. eapply (sim_bind _ eqr); [|intros ?; mono_tac|sim_intro; sim_step].
  apply sim_observe. intros h' v1 v2 He2 _. symmetry.
  eapply (falseResult_rel h'). eapply vm_rel_extends; [|exact Hd]. repeat (etrans; [eassumption|]). done.
Qed.

Lemma mono_opCheckPredicate (run2 : @M SS unit) : mono run2 -> mono (opCheckPredicate (S := SS) run2).
Proof. intros Hm. unfold opCheckPredicate. mono_tac. Qed.

Lemma sim_exec h (run1 : @M VS unit) (run2 : @M SS unit) f :
  mono run2 -> (forall h, sim h eqr run1 run2) -> sim h eqr (exec (S := VS) run1 f) (exec (S := SS) run2 f).
Proof.
  intros Hm Hrun. destruct f; cbn [exec];
    try first [ by apply sim_opCheckPredicate | apply sim_opCheckMultiSig | apply sim_opCheckOutput
              | apply sim_opSubstr | apply sim_opLeft | apply sim_opRight ].
  all: unfold opFalse, opPushdata, opNop, opJump, opJumpIf, opVerify, opFail, opToAltStack, opFromAltStack, op2Drop,
    op2Dup, op3Dup, op2Over, op2Rot, op2Swap, opIfDup, opDepth, opDrop, opDup, opNip, opOver, opPick, opRoll, opRot,
    opSwap, opTuck, opCat, opSize, opCatpushdata, opInvert, opAnd, opOr, opXor, opEqual,
    opEqualVerify, op1Add, op1Sub, op2Mul, op2Div, opNot, op0NotEqual, opAdd, opSub, opMul, opDiv, opMod, opLshift,
    opRshift, opBoolAnd, opBoolOr, opNumEqual, opNumEqualVerify, opNumNotEqual, opLessThan, opGreaterThan,
    opLessThanOrEqual, opGreaterThanOrEqual, opMin, opMax, opWithin, opSha256, opSha3, opHash160, opCheckSig,
    opTxSigHash, opProgram, opEntryID, nDup, rot, push_signed, doNumCompare, doOr, doHash.
  all: try solve [sim_auto2].
  (* the fields of the context *)
  - do 2 sim_step. destruct (cr_hash _ _ _ Hr); sim_step.
  - apply (sim_push_field _ irel); [intros ? ? ? []; done|intros ? ? ? ?; by apply sim_pushDataStack|intros ?; mono_tac].
  - apply (sim_push_field _ eqr); [intros ? ? ? []; by apply option_eq_rel|intros ? ? ? ->; sim_step|intros ?; mono_tac].
  - do 2 sim_step. destruct Hr. by apply sim_pushDataStack.
  - apply (sim_push_field _ eqr); [intros ? ? ? []; by apply option_eq_rel|intros ? ? ? ->; sim_step|intros ?; mono_tac].
  - do 2 sim_step. destruct Hr. by apply sim_pushDataStack.
  - apply (sim_push_field _ irel); [intros ? ? ? []; done|intros ? ? ? ?; by apply sim_pushDataStack|intros ?; mono_tac].
  - apply (sim_push_field _ eqr); [intros ? ? ? []; by apply option_eq_rel|intros ? ? ? ->; sim_step|intros ?; mono_tac].
Qed.

Lemma mono_exec (run2 : @M SS unit) f : mono run2 -> mono (exec (S := SS) run2 f).
Proof.
  intros Hm. destruct f; cbn [exec]; try by apply mono_opCheckPredicate.
  all: unfold opFalse, opPushdata, opNop, opJump, opJumpIf, opVerify, opFail, opToAltStack, opFromAltStack, op2Drop,
    op2Dup, op3Dup, op2Over, op2Rot, op2Swap, opIfDup, opDepth, opDrop, opDup, opNip, opOver, opPick, opRoll, opRot,
    opSwap, opTuck, opCat, opSubstr, opLeft, opRight, opSize, opCatpushdata, opInvert, opAnd, opOr, opXor, opEqual,
    opEqualVerify, op1Add, op1Sub, op2Mul, op2Div, opNot, op0NotEqual, opAdd, opSub, opMul, opDiv, opMod, opLshift,
    opRshift, opBoolAnd, opBoolOr, opNumEqual, opNumEqualVerify, opNumNotEqual, opLessThan, opGreaterThan,
    opLessThanOrEqual, opGreaterThanOrEqual, opMin, opMax, opWithin, opSha256, opSha3, opHash160, opCheckSig,
    opCheckMultiSig, opCheckOutput, opTxSigHash, opProgram, opEntryID, opAsset, opAmount, opIndex, opOutputID,
    opBlockHeight, push_field, nDup, rot, push_signed, doNumCompare, doOr, doHash.
  all: try apply mono_repeat; mono_tac.
Qed.

(** ** The interpreter *)

Lemma sim_program_bytes h : sim h eqr (program_bytes (S := VS)) (program_bytes (S := SS)).
Proof. unfold program_bytes. repeat sim_step. Qed.
Lemma mono_program_bytes : mono (program_bytes (S := SS)).
Proof. unfold program_bytes. mono_tac. Qed.
#[local] Hint Resolve sim_program_bytes : sim.
#[local] Hint Resolve mono_program_bytes : mono.

Lemma mono_step (run2 : @M SS unit) : mono run2 -> mono (step (S := SS) run2).
Proof. intros Hm. unfold step. pose proof mono_exec. mono_tac. Qed.

Lemma sim_vm_step h (run1 : @M VS unit) (run2 : @M SS unit) :
  mono run2 -> (forall h, sim h eqr run1 run2) -> sim h eqr (step (S := VS) run1) (step (S := SS) run2).
Proof.
  intros Hm Hrun. unfold step. pose proof mono_exec as Hme. do 4 sim_step. destruct (isExpansion _); [sim_auto2|]. do 2 sim_step.
  eapply sim_bind; [by apply sim_exec|intros ?; mono_tac|]. sim_intro. sim_auto2.
Qed.

Lemma mono_run_loop f : mono (run_loop (S := SS) f).
Proof.
  induction f as [|f IH]; cbn [run_loop]; [by intros w|].
  pose proof (mono_step (modify (set_pc 0) ;; run_loop f) (mono_bind _ _ (mono_modify _) (fun _ => IH))). mono_tac.
Qed.

Lemma sim_run_loop h f : sim h eqr (run_loop (S := VS) f) (run_loop (S := SS) f).
Proof.
  revert h. induction f as [|f IH]; intros h; cbn [run_loop].
  - intros h1 v1 v2 He Hok Hv Hf. by split_and!.
  - pose proof (mono_run_loop f) as Hml.
    pose proof (mono_step (modify (set_pc 0) ;; run_loop f) (mono_bind _ _ (mono_modify _) (fun _ => Hml))) as Hms.
    do 2 sim_step. destruct (_ <? _); [|by apply sim_ret].
    eapply sim_bind; [apply sim_vm_step|intros ?; mono_tac|intros; apply IH].
    + apply mono_bind; [auto with mono|intros ?; done].
    + intros h'. sim_step. apply IH.
Qed.

Lemma sim_push_all h p1 p2 (l : list (@item VS)) (k : list (@item SS)) :
  (forall h b s, irel h b s -> sim h eqr (p1 b) (p2 s)) -> (forall s, mono (p2 s)) ->
  Forall2 (irel h) l k -> sim h eqr (push_all (S := VS) p1 l) (push_all (S := SS) p2 k).
Proof.
  intros Hp Hm Hl. revert h Hl. induction l as [|b l IH] in k |- *; intros h Hl; inversion Hl; subst; cbn [push_all];
    [by apply sim_ret|].
  assert (Hall : forall k, mono (push_all (S := SS) p2 k)).
  { intros k'. induction k' as [|s k' IHk]; cbn [push_all]; [apply mono_ret|]. by apply mono_bind. }
  eapply sim_bind; [by apply Hp|intros ?; apply Hall|]. sim_intro. by apply IH.
Qed.
Lemma mono_push_all p2 (k : list (@item SS)) : (forall s, mono (p2 s)) -> mono (push_all (S := SS) p2 k).
Proof. intros Hm. induction k as [|s k IH]; cbn [push_all]; [apply mono_ret|]. by apply mono_bind. Qed.

Lemma sim_verify_body h f c1 c2 :
  ctx_rel h c1 c2 -> sim h eqr (verify_body (S := VS) f c1) (verify_body (S := SS) f c2).
Proof.
  intros Hc. pose proof (mono_run_loop f) as Hml.
  assert (Hma : forall k, mono (push_all (S := SS) (fun i => pushDataStack i false) k))
    by (intros k; apply mono_push_all; auto with mono).
  unfold verify_body, run. eapply sim_bind; [apply sim_push_all| |].
  - intros. by apply sim_pushAltStack.
  - auto with mono.
  - apply Hc.
  - intros ?. mono_tac.
  - sim_intro. eapply sim_bind; [apply sim_push_all|intros ?; mono_tac|].
    + intros. by apply sim_pushDataStack.
    + auto with mono.
    + apply Hc.
    + sim_intro. eapply (sim_bind _ eqr); [sim_step; apply sim_run_loop|intros ?; mono_tac|].
      sim_intro. eapply (sim_bind _ eqr); [|intros ?; mono_tac|sim_intro; sim_auto2].
      apply sim_observe. intros h' v1 v2 _ Hv. symmetry. by apply falseResult_rel.
Qed.

(** C19.  The interpreter on Go slices refines the interpreter on values: if no
    [append] of the run overwrites bytes of an existing array, [Verify] returns
    exactly the verdict it returns when every item is its contents, and the heap
    it leaves keeps every earlier array, [trueBytes] included. *)
Theorem Verify_refines fuel h c1 c2 gasLimit r h' :
  heap_ok h -> ctx_rel h c1 c2 ->
  Verify (S := SS) fuel c2 gasLimit h = (r, h') -> in_place h' = false ->
  Verify (S := VS) fuel c1 gasLimit tt = (r, tt) /\ extends h h' /\ heap_ok h'.
Proof.
  intros Hok Hc. unfold Verify. rewrite (cr_ver _ _ _ Hc). destruct (negb _); [by intros [= <- <-]|].
  assert (Hv : vm_rel h (init_vm c1 gasLimit) (init_vm c2 gasLimit)).
  { destruct Hc. split; cbn; try done. by rewrite cr_txver0. }
  pose proof (sim_verify_body h fuel c1 c2 Hc h _ _ ltac:(done) Hok Hv) as Hs.
  destruct (verify_body fuel c2 _) as [r2 [h2 v2]]. destruct (verify_body fuel c1 _) as [r1 [[] v1]].
  cbn [fst snd] in Hs. intros Heq Hf. assert (Hf2 : in_place h2 = false) by (destruct r2; congruence).
  destruct (Hs Hf2) as (He & [] & Hr). assert (heap_ok h2) by (by eapply heap_ok_extends).
  destruct r2, r1; cbn in Hr; try done; simplify_eq; split_and!; try done; by rewrite ?vr_rl0.
Qed.
End Exec.

(** ** A program that overwrites [trueBytes] *)

Section Corruption.
Context {R : GoRuntime}.
#[local] Existing Instance ZUint256.
#[local] Existing Instance StubCrypto.

(** FALSE NOT pushes the slice [trueBytes]; FALSE LEFT takes its empty prefix,
    whose capacity is still 1; CAT appends a zero byte in place. *)
Definition corrupt : bytes :=
  map z2b [OP_FALSE; OP_NOT; OP_FALSE; OP_LEFT; OP_DATA_1; 0; OP_CAT; OP_DROP; OP_FALSE; OP_NOT].
(** "Not false". *)
Definition innocent : bytes := map z2b [OP_FALSE; OP_NOT].

(** The heap of a fresh process: [trueBytes] and the two programs. *)
Definition fresh_heap : goheap := Heap [[x01]; corrupt; innocent] false.
Definition go_context (arr : nat) (code : bytes) : Context_ SliceStore :=
  plain_context (S := SliceStore) (Slice arr 0 (length code) (length code)) [].

(** A control program of ten bytes overwrites the package variable
    [trueBytes]: CAT appends in place to an empty prefix of it. The run itself
    fails although it succeeds on values, and a later run of the two-byte program
    NOT(false) in the same process, which succeeded before, fails as well. *)
Theorem trueBytes_overwritten :
  let h' := (Verify (S := SliceStore) 20 (go_context 1 corrupt) 1000 fresh_heap).2 in
  verify_err <$> (Verify (S := ValueStore) 20 (plain_context (S := ValueStore) corrupt []) 1000 tt).1 = Some None
  /\ verify_err <$> (Verify (S := SliceStore) 20 (go_context 1 corrupt) 1000 fresh_heap).1 = Some (Some ErrFalseVMResult)
  /\ verify_err <$> (Verify (S := SliceStore) 20 (go_context 2 innocent) 1000 fresh_heap).1 = Some None
  /\ verify_err <$> (Verify (S := SliceStore) 20 (go_context 2 innocent) 1000 h').1 = Some (Some ErrFalseVMResult).
Proof. split_and!; vm_compute; reflexivity. Qed.
End Corruption.

Lemma Verify_refines_witness :
  Verify (S := ValueStore) (U := ZUint256) (C := StubCrypto) 20 (plain_context (S := ValueStore) innocent []) 1000 tt
  = (Some (Verdict 988 None), tt).
Proof.
  pose (R := (fun _ need => need) : GoRuntime).
  apply (Verify_refines (U := ZUint256) (C := StubCrypto) (R := R) 20 fresh_heap
           (plain_context (S := ValueStore) innocent []) (go_context (R := R) 2 innocent) 1000 _ (Heap [[x01]; corrupt; innocent; []] false)).
  - reflexivity.
  - assert (Hi : irel fresh_heap innocent (Slice 2 0 2 2)).
    { split; [|reflexivity]. exists innocent. split; [reflexivity|]. split; vm_compute; lia. }
    split; cbn; try reflexivity; try exact Hi; constructor.
  - vm_compute. reflexivity.
  - reflexivity.
Defined.
