(* ===== verification/Script.v ===== *)
(** * Control programs: protocol/vm/vmutil, consensus/bcrp, consensus/segwit

    The program builder ([builder.go]), the standard control programs built
    with it ([script.go]), and the recognisers of the contract-register protocol
    ([bcrp.go]) and of witness programs ([segwit.go]). *)

From S2P Require Import Prelude GoSlice VMTypes Opcode.
From Stdlib Require Import Strings.Byte.

(** The errors of the three packages; [ErrVM] wraps an error of the parser. *)
Inductive script_error :=
  | ErrBadQuorum            (* vmutil.ErrBadValue *)
  | ErrUnresolvedJump
  | ErrUnsupportProgram     (* bcrp: "unsupport program" *)
  | ErrUnknownVersion       (* segwit: "unknow ... version number" *)
  | ErrVM (e : error).

(** A value, an error, or an index-out-of-range panic. *)
Inductive outcome (A : Type) :=
  | Done (a : A)
  | Failed (e : script_error)
  | IndexPanic.
Arguments Done {A} a.
Arguments Failed {A} e.
Arguments IndexPanic {A}.

#[export] Instance outcome_ret : MRet outcome := fun A a => Done a.
#[export] Instance outcome_bind : MBind outcome := fun A B f m =>
  match m with Done a => f a | Failed e => Failed e | IndexPanic => IndexPanic end.

(** [insts, err := vm.ParseProgram(prog); if err != nil { return err }]
    ([ParseProgram] never runs out of fuel: [ParseProgram_total]). *)
Definition parse (prog : bytes) : outcome (list Instruction) :=
  match ParseProgram prog with
  | Ok insts => Done insts
  | Err e => Failed (ErrVM e)
  | Panic | OutOfFuel => IndexPanic
  end.

(** [insts[i]]. *)
Definition inst_at (insts : list Instruction) (i : nat) : outcome Instruction :=
  match insts !! i with Some inst => Done inst | None => IndexPanic end.

(** ** builder.go *)

Record Builder := mkBuilder {
  program : bytes;
  jumpCounter : Z;
  jumpAddr : gmap Z Z;
  jumpPlaceholders : gmap Z (list Z);
}.

Definition NewBuilder : Builder := mkBuilder [] 0 ∅ ∅.

Definition AddRawBytes (data : bytes) (b : Builder) : Builder :=
  mkBuilder (program b ++ data) (jumpCounter b) (jumpAddr b) (jumpPlaceholders b).

Definition AddData (data : bytes) (b : Builder) : Builder :=
  mkBuilder (program b ++ PushDataBytes data) (jumpCounter b) (jumpAddr b) (jumpPlaceholders b).

Definition AddUint64 {U : Uint256} (n : Z) (b : Builder) : Builder :=
  mkBuilder (program b ++ PushDataUint64 n) (jumpCounter b) (jumpAddr b) (jumpPlaceholders b).

Definition AddOp (op : Z) (b : Builder) : Builder :=
  mkBuilder (program b ++ [z2b op]) (jumpCounter b) (jumpAddr b) (jumpPlaceholders b).

Definition NewJumpTarget (b : Builder) : Z * Builder :=
  let n := i64 (jumpCounter b + 1) in
  (n, mkBuilder (program b) n (jumpAddr b) (jumpPlaceholders b)).

Definition addJump (op target : Z) (b : Builder) : Builder :=
  let b := AddOp op b in
  let places := default [] (jumpPlaceholders b !! target) ++ [zlen (program b)] in
  let b := mkBuilder (program b) (jumpCounter b) (jumpAddr b)
             (<[target := places]> (jumpPlaceholders b)) in
  AddRawBytes [x00; x00; x00; x00] b.

Definition AddJump (target : Z) (b : Builder) : Builder := addJump OP_JUMP target b.
Definition AddJumpIf (target : Z) (b : Builder) : Builder := addJump OP_JUMPIF target b.

Definition SetJumpTarget (target : Z) (b : Builder) : Builder :=
  mkBuilder (program b) (jumpCounter b) (<[target := u32 (zlen (program b))]> (jumpAddr b))
    (jumpPlaceholders b).

(** [binary.LittleEndian.PutUint32(p[at:at+4], addr)]. *)
Definition put_uint32 (at_ : Z) (addr : Z) (p : bytes) : outcome bytes :=
  if (0 <=? at_) && (at_ + 4 <=? zlen p) then Done (write_at (Z.to_nat at_) (le_bytes 4 addr) p)
  else IndexPanic.

Fixpoint fill (addr : Z) (places : list Z) (p : bytes) : outcome bytes :=
  match places with
  | [] => Done p
  | at_ :: places' => p' ← put_uint32 at_ addr p; fill addr places' p'
  end.

(** The loop of [Build] over the placeholders, in some order of the map. *)
Fixpoint resolve (addrs : gmap Z Z) (l : list (Z * list Z)) (p : bytes) : outcome bytes :=
  match l with
  | [] => Done p
  | (target, places) :: l' =>
      match addrs !! target with
      | None => Failed ErrUnresolvedJump
      | Some addr => p' ← fill addr places p; resolve addrs l' p'
      end
  end.

Definition Build (b : Builder) : outcome bytes :=
  resolve (jumpAddr b) (map_to_list (jumpPlaceholders b)) (program b).

(** ** script.go *)

Definition IsUnspendable (prog : bytes) : bool :=
  match prog with [] => false | x :: _ => b2z x =? OP_FAIL end.

Definition checkMultiSigParams (nrequired npubkeys : Z) : option script_error :=
  if nrequired <? 0 then Some ErrBadQuorum
  else if npubkeys <? 0 then Some ErrBadQuorum
  else if nrequired >? npubkeys then Some ErrBadQuorum
  else if (nrequired =? 0) && (npubkeys >? 0) then Some ErrBadQuorum
  else None.

Section Programs.
Context {U : Uint256}.

Definition addP2SPMultiSig (pubkeys : list bytes) (nrequired : Z) (b : Builder) : outcome Builder :=
  match checkMultiSigParams nrequired (zlen pubkeys) with
  | Some e => Failed e
  | None =>
      let b := AddOp OP_TXSIGHASH b in
      let b := foldl (fun b p => AddData p b) b pubkeys in
      let b := AddUint64 (u64 nrequired) b in
      let b := AddUint64 (u64 (zlen pubkeys)) b in
      Done (AddOp OP_CHECKMULTISIG b)
  end.

Definition DefaultCoinbaseProgram : outcome bytes := Build (AddOp OP_TRUE NewBuilder).

Definition P2WPKHProgram (hash : bytes) : outcome bytes :=
  Build (AddData hash (AddUint64 0 NewBuilder)).

Definition P2WSHProgram (hash : bytes) : outcome bytes :=
  Build (AddData hash (AddUint64 0 NewBuilder)).

Definition RetireProgram (comment : bytes) : outcome bytes :=
  let b := AddOp OP_FAIL NewBuilder in
  Build (if negb (zlen comment =? 0) then AddData comment b else b).

(** The constants of bcrp.go. *)
Definition BCRP : bytes := [x62; x63; x72; x70].
Definition Version : Z := 1.

Definition RegisterProgram (contract : bytes) : outcome bytes :=
  Build (AddData contract (AddData [z2b Version] (AddData BCRP (AddOp OP_FAIL NewBuilder)))).

Definition CallContractProgram (hash : bytes) : outcome bytes :=
  Build (AddData hash (AddData BCRP NewBuilder)).

Definition P2PKHSigProgram (pubkeyHash : bytes) : outcome bytes :=
  let b := AddOp OP_DUP NewBuilder in
  let b := AddOp OP_HASH160 b in
  let b := AddData pubkeyHash b in
  let b := AddOp OP_EQUALVERIFY b in
  let b := AddOp OP_TXSIGHASH b in
  let b := AddOp OP_SWAP b in
  let b := AddOp OP_CHECKSIG b in
  Build b.

Definition P2SHProgram (scriptHash : bytes) : outcome bytes :=
  let b := AddOp OP_DUP NewBuilder in
  let b := AddOp OP_SHA3 b in
  let b := AddData scriptHash b in
  let b := AddOp OP_EQUALVERIFY b in
  let b := AddUint64 0 b in
  let b := AddOp OP_SWAP b in
  let b := AddUint64 0 b in
  let b := AddOp OP_CHECKPREDICATE b in
  Build b.

Definition P2SPMultiSigProgram (pubkeys : list bytes) (nrequired : Z) : outcome bytes :=
  b ← addP2SPMultiSig pubkeys nrequired NewBuilder; Build b.

Definition P2SPMultiSigProgramWithHeight (pubkeys : list bytes) (nrequired blockHeight : Z) : outcome bytes :=
  let b := NewBuilder in
  let b := if blockHeight >? 0 then
             AddOp OP_VERIFY (AddOp OP_GREATERTHAN (AddOp OP_BLOCKHEIGHT (AddUint64 blockHeight b)))
           else b in
  b ← addP2SPMultiSig pubkeys nrequired b; Build b.

Definition GetIssuanceProgramRestrictHeight (prog : bytes) : Z :=
  match ParseProgram prog with
  | Ok (i0 :: i1 :: i2 :: i3 :: _) =>
      if IsPushdata i0 && (inst_Op i1 =? OP_BLOCKHEIGHT) && (inst_Op i2 =? OP_GREATERTHAN)
         && (inst_Op i3 =? OP_VERIFY)
      then match AsBigInt (inst_Data i0) with
           | Ok heightInt =>
               let '(height, overflow) := Uint64WithOverflow heightInt in
               if overflow : bool then 0 else height
           | _ => 0
           end
      else 0
  | _ => 0
  end.

(** ** bcrp.go *)

Definition BCRPContractHashDataSize : Z := 32.

Definition IsBCRPScript (prog : bytes) : bool :=
  match ParseProgram prog with
  | Ok [i0; i1; i2; i3] =>
      if negb (inst_Op i0 =? OP_FAIL) then false
      else if negb (inst_Op i1 =? OP_DATA_4) || negb (bool_decide (inst_Data i1 = BCRP)) then false
      else if negb (inst_Op i2 =? OP_DATA_1) || negb (bool_decide (inst_Data i2 = [z2b Version])) then false
      else zlen (inst_Data i3) >? 0
  | _ => false
  end.

Definition IsCallContractScript (prog : bytes) : bool :=
  match ParseProgram prog with
  | Ok [i0; i1] =>
      if negb (inst_Op i0 =? OP_DATA_4) || negb (bool_decide (inst_Data i0 = BCRP)) then false
      else (inst_Op i1 =? OP_DATA_32) && (zlen (inst_Data i1) =? BCRPContractHashDataSize)
  | _ => false
  end.

Definition ParseContract (prog : bytes) : outcome bytes :=
  insts ← parse prog;
  if negb (zlen insts =? 4) then Failed ErrUnsupportProgram
  else i3 ← inst_at insts 3; Done (inst_Data i3).

(** [copy(hash[:], data)] into a [32]byte. *)
Definition ParseContractHash (prog : bytes) : outcome bytes :=
  insts ← parse prog;
  if negb (zlen insts =? 2) then Failed ErrUnsupportProgram
  else i1 ← inst_at insts 1; Done (resize 32 x00 (inst_Data i1)).

(** ** segwit.go *)

Definition PayToWitnessPubKeyHashDataSize : Z := 20.
Definition PayToWitnessScriptHashDataSize : Z := 32.

Definition IsStraightforward (prog : bytes) : bool :=
  match ParseProgram prog with
  | Ok [i0] => (inst_Op i0 =? OP_TRUE) || (inst_Op i0 =? OP_FAIL)
  | _ => false
  end.

Definition IsP2WPKHScript (prog : bytes) : bool :=
  match ParseProgram prog with
  | Ok [i0; i1] =>
      if negb (inst_Op i0 =? OP_0) then false
      else (inst_Op i1 =? OP_DATA_20) && (zlen (inst_Data i1) =? PayToWitnessPubKeyHashDataSize)
  | _ => false
  end.

Definition IsP2WSHScript (prog : bytes) : bool :=
  match ParseProgram prog with
  | Ok [i0; i1] =>
      if negb (inst_Op i0 =? OP_0) then false
      else (inst_Op i1 =? OP_DATA_32) && (zlen (inst_Data i1) =? PayToWitnessScriptHashDataSize)
  | _ => false
  end.

Definition IsP2WScript (prog : bytes) : bool :=
  IsP2WPKHScript prog || IsP2WSHScript prog || IsStraightforward prog.

Definition ConvertP2PKHSigProgram (prog : bytes) : outcome bytes :=
  insts ← parse prog;
  i0 ← inst_at insts 0;
  if inst_Op i0 =? OP_0 then (i1 ← inst_at insts 1; P2PKHSigProgram (inst_Data i1))
  else Failed ErrUnknownVersion.

Definition ConvertP2SHProgram (prog : bytes) : outcome bytes :=
  insts ← parse prog;
  i0 ← inst_at insts 0;
  if inst_Op i0 =? OP_0 then (i1 ← inst_at insts 1; P2SHProgram (inst_Data i1))
  else Failed ErrUnknownVersion.

Definition GetHashFromStandardProg (prog : bytes) : outcome bytes :=
  insts ← parse prog;
  i1 ← inst_at insts 1;
  Done (inst_Data i1).
End Programs.

(** ** Instruction sequences of built programs *)

Lemma parses_push d : zlen d <= MaxUint32 -> parses (PushDataBytes d) [push_inst d].
Proof. intros. apply parses_one; [by apply parse_spec_push|done]. Qed.

Lemma parses_op op : parse_spec [z2b op] = Some (Inst op 1 []) -> parses [z2b op] [Inst op 1 []].
Proof. intros. by apply parses_one. Qed.

Lemma parses_step p q i js : parses p [i] -> parses q js -> parses (p ++ q) (i :: js).
Proof. intros. by apply (parses_app p [i]). Qed.

(** [Build] with no jump to resolve. *)
Lemma Build_plain b : jumpPlaceholders b = ∅ -> Build b = Done (program b).
Proof. intros H. unfold Build. by rewrite H, map_to_list_empty. Qed.

Lemma parse_Done prog insts : zlen prog <= MaxInt32 -> parses prog insts -> parse prog = Done insts.
Proof. intros Hl Hp. unfold parse. apply ParseProgram_iff in Hp; [|done]. by rewrite Hp. Qed.

Lemma zlen_push d : zlen d + 1 <= zlen (PushDataBytes d) <= zlen d + 5.
Proof.
  unfold PushDataBytes. pose proof (zlen_nonneg d).
  repeat case_if; zbool; autorewrite with zlen; rewrite ?(zlen_nil (A := byte)); lia.
Qed.

Lemma push_short d : 1 <= zlen d <= 75 -> PushDataBytes d = z2b (zlen d) :: d.
Proof.
  intros. unfold PushDataBytes, OP_DATA_1.
  destruct (Z.eqb_spec (zlen d) 0); [lia|].
  destruct (Z.leb_spec (zlen d) 75); [|lia]. do 2 f_equal. lia.
Qed.

Lemma push_inst_short d : 1 <= zlen d <= 75 -> push_inst d = Inst (zlen d) (1 + zlen d) d.
Proof.
  intros Hd. unfold push_inst. rewrite push_short by done. rewrite zlen_cons.
  change (byte_at (?b :: ?l) 0) with (b2z b). by rewrite b2z_z2b_small by lia.
Qed.

Create HintDb script.
#[export] Hint Resolve parses_step parses_push parses_op parses_nil : script.

Ltac op_step := apply parses_step; [apply parses_op; vm_compute; reflexivity|].
Ltac push_step := apply parses_step; [apply parses_push; words; lia|].
Ltac push_last := apply parses_push; words; lia.

Section ScriptLemmas.
Context {U : Uint256}.

(** *** bcrp *)

(** A contract-registration program is recognised as one, is unspendable,
    and [ParseContract] gives back the contract. *)
Theorem RegisterProgram_roundtrip contract :
  0 < zlen contract <= MaxInt32 - 16 ->
  exists p, RegisterProgram contract = Done p
            /\ IsBCRPScript p = true /\ ParseContract p = Done contract
            /\ IsUnspendable p = true.
Proof.
  intros Hc. unfold RegisterProgram. rewrite Build_plain by done. eexists. split; [done|].
  cbn [program AddData AddOp NewBuilder app]. rewrite <- !app_assoc.
  set (p := (z2b OP_FAIL :: _)).
  assert (Hl : zlen p <= MaxInt32).
  { unfold p. rewrite zlen_cons, !zlen_app. pose proof (zlen_push contract).
    change (zlen (PushDataBytes BCRP)) with 5. change (zlen (PushDataBytes [z2b Version])) with 2.
    words. lia. }
  assert (Hp : parses p [Inst OP_FAIL 1 []; push_inst BCRP; push_inst [z2b Version]; push_inst contract]).
  { unfold p. change (z2b OP_FAIL :: ?l) with ([z2b OP_FAIL] ++ l).
    op_step. do 2 (apply parses_step; [apply parses_push; vm_compute; discriminate|]). push_last. }
  repeat split.
  - unfold IsBCRPScript. apply ParseProgram_iff in Hp; [|done]. rewrite Hp.
    rewrite !(push_inst_short BCRP), !(push_inst_short [z2b Version]) by (vm_compute; split; discriminate).
    transitivity (zlen contract >? 0); [reflexivity|lia].
  - unfold ParseContract. by rewrite (parse_Done _ _ Hl Hp).
Qed.

Lemma RegisterProgram_roundtrip_witness :
  0 < zlen [x51] <= MaxInt32 - 16 /\
  exists p, RegisterProgram [x51] = Done p
            /\ IsBCRPScript p = true /\ ParseContract p = Done [x51] /\ IsUnspendable p = true.
Proof.
  assert (H : 0 < zlen [x51] <= MaxInt32 - 16) by (vm_compute; split; [reflexivity|discriminate]).
  split; [exact H|exact (RegisterProgram_roundtrip [x51] H)].
Defined.

Lemma bool_decide_refl {A} (x : A) `{Decision (x = x)} : bool_decide (x = x) = true.
Proof. by apply bool_decide_eq_true. Qed.

(** A contract-call program is recognised as one and [ParseContractHash]
    gives back the hash. *)
Theorem CallContractProgram_roundtrip hash :
  zlen hash = 32 ->
  exists p, CallContractProgram hash = Done p
            /\ IsCallContractScript p = true /\ ParseContractHash p = Done hash.
Proof.
  intros Hh. unfold CallContractProgram. rewrite Build_plain by done. eexists. split; [done|].
  cbn [program AddData NewBuilder app]. set (p := PushDataBytes BCRP ++ PushDataBytes hash).
  assert (Hl : zlen p <= MaxInt32).
  { unfold p. rewrite zlen_app, (push_short hash), zlen_cons, Hh by lia. vm_compute. discriminate. }
  assert (Hp : parses p [push_inst BCRP; push_inst hash]).
  { apply parses_step; [apply parses_push; vm_compute; discriminate|]. push_last. }
  split.
  - unfold IsCallContractScript. pose proof Hp as Hp'. apply ParseProgram_iff in Hp'; [|done].
    rewrite Hp', (push_inst_short hash), (push_inst_short BCRP), Hh
      by first [lia|vm_compute; split; discriminate].
    cbn [inst_Op inst_Data]. rewrite bool_decide_refl, Hh. done.
  - unfold ParseContractHash. rewrite (parse_Done _ _ Hl Hp). cbn.
    unfold zlen in Hh. rewrite resize_all_alt by lia. done.
Qed.

(** *** segwit *)

Lemma parses_two prog i j :
  parses prog [i; j] ->
  parse_spec prog = Some i /\ parse_spec (drop (Z.to_nat (inst_Len i)) prog) = Some j
  /\ zlen prog = inst_Len i + inst_Len j.
Proof.
  intros Hp. pose proof (parses_lens _ _ Hp) as Hl. cbn in Hl.
  apply parses_inv in Hp as [Hi Hp]. apply parses_inv in Hp as [Hj _]. repeat split; [done..|lia].
Qed.

(** An instruction with a data opcode is its length byte followed by its data. *)
Lemma parse_spec_data r i :
  1 <= inst_Op i <= 75 -> parse_spec r = Some i -> inst_Len i = zlen r ->
  r = z2b (inst_Op i) :: inst_Data i /\ zlen (inst_Data i) = inst_Op i.
Proof.
  intros Hop Hs Hl. pose proof (parse_spec_bounds _ _ Hs) as [_ Ho].
  destruct r as [|x r]; [done|]. change (byte_at (x :: r) 0) with (b2z x) in Ho.
  unfold parse_spec in Hs. rewrite <- Ho in Hs. unfold OP_1, OP_16, OP_DATA_1, OP_DATA_75 in Hs.
  replace ((inst_Op i >=? 81) && (inst_Op i <=? 96)) with false in Hs by lia.
  replace ((inst_Op i >=? 1) && (inst_Op i <=? 75)) with true in Hs by lia.
  apply parse_len_Some in Hs as (Hlen & _ & _ & Hd). rewrite Hl, zlen_cons in Hlen.
  assert (Hr : inst_Data i = r).
  { rewrite Hd. unfold subseq, zlen in *. change (drop (Z.to_nat 1) (x :: r)) with r. apply take_ge. lia. }
  rewrite Hr, Ho, z2b_b2z. split; [done|lia].
Qed.

Lemma witness_program_iff n prog :
  1 <= n <= 75 -> zlen prog <= MaxInt32 ->
  match ParseProgram prog with
  | Ok [i0; i1] =>
      if negb (inst_Op i0 =? OP_0) then false
      else (inst_Op i1 =? n) && (zlen (inst_Data i1) =? n)
  | _ => false
  end = true <-> exists h, zlen h = n /\ prog = z2b OP_0 :: z2b n :: h.
Proof.
  intros Hn Hl. split.
  - destruct (ParseProgram prog) as [insts|e| |] eqn:Hp; try done.
    destruct insts as [|i0 [|i1 [|]]]; try done. apply ParseProgram_iff in Hp; [|done].
    case_if; [done|]. intros Hb. zbool.
    apply parses_two in Hp as (Hi & Hj & Hlen). pose proof (parse_spec_bounds _ _ Hi) as [Hb0 Ho].
    destruct prog as [|x prog]; [done|]. change (byte_at (x :: prog) 0) with (b2z x) in Ho.
    assert (Hx : x = z2b OP_0) by (apply b2z_inj; rewrite <- Ho; done). subst x.
    injection Hi as <-. cbn [inst_Len] in *. change (drop (Z.to_nat 1) (?x :: prog)) with prog in Hj.
    rewrite zlen_cons in Hlen.
    apply parse_spec_data in Hj as [Hj Hd]; [|lia|lia].
    exists (inst_Data i1). split; [lia|]. rewrite Hj at 1. do 2 f_equal. congruence.
  - intros (h & Hh & ->).
    assert (Hp : parses (z2b OP_0 :: z2b n :: h) [Inst OP_0 1 []; push_inst h]).
    { change (z2b OP_0 :: ?l) with ([z2b OP_0] ++ l). op_step.
      replace (z2b n :: h) with (PushDataBytes h) by (rewrite push_short by lia; by rewrite Hh). push_last. }
    apply ParseProgram_iff in Hp; [|done]. rewrite Hp, push_inst_short, Hh by lia.
    cbn [inst_Op inst_Data]. by rewrite Hh, !Z.eqb_refl.
Qed.

(** The witness-program recognisers accept exactly the outputs of
    [P2WPKHProgram] on 20-byte hashes and of [P2WSHProgram] on 32-byte hashes. *)
Theorem IsP2WScript_iff prog :
  zlen prog <= MaxInt32 ->
  (IsP2WPKHScript prog = true <-> exists h, zlen h = 20 /\ P2WPKHProgram h = Done prog)
  /\ (IsP2WSHScript prog = true <-> exists h, zlen h = 32 /\ P2WSHProgram h = Done prog).
Proof.
  intros Hl. unfold IsP2WPKHScript, IsP2WSHScript, P2WPKHProgram, P2WSHProgram,
    PayToWitnessPubKeyHashDataSize, PayToWitnessScriptHashDataSize, OP_DATA_20, OP_DATA_32.
  rewrite !witness_program_iff by lia.
  split; (split; intros (h & Hh & Hp); exists h; (split; [done|]); rewrite Build_plain in * by done;
    cbn [program AddData AddUint64 NewBuilder app] in *; rewrite push_short, Hh in * by lia).
  all: first [by rewrite Hp | by injection Hp as <-].
Qed.

Lemma CallContractProgram_roundtrip_witness :
  exists p, CallContractProgram (replicate 32 x07) = Done p
            /\ IsCallContractScript p = true /\ ParseContractHash p = Done (replicate 32 x07).
Proof. apply (CallContractProgram_roundtrip (replicate 32 x07)). reflexivity. Defined.

(** What the conversions make of a witness program. *)
Lemma parse_witness_prog h :
  1 <= zlen h <= 75 ->
  parse (z2b OP_0 :: PushDataBytes h) = Done [Inst OP_0 1 []; push_inst h].
Proof.
  intros Hh. apply parse_Done.
  - rewrite push_short, !zlen_cons by lia. words. lia.
  - change (z2b OP_0 :: ?l) with ([z2b OP_0] ++ l). op_step. push_last.
Qed.

(** From a witness program the hash is read back, and the conversions yield
    the signature program and the script program of that hash. *)
Theorem witness_program_roundtrip h p :
  1 <= zlen h <= 75 -> P2WPKHProgram h = Done p \/ P2WSHProgram h = Done p ->
  GetHashFromStandardProg p = Done h
  /\ ConvertP2PKHSigProgram p = P2PKHSigProgram h /\ ConvertP2SHProgram p = P2SHProgram h
  /\ IsUnspendable p = false.
Proof.
  intros Hh Hp. assert (p = z2b OP_0 :: PushDataBytes h) as ->
    by (destruct Hp as [Hp|Hp]; injection Hp as <-; reflexivity).
  unfold GetHashFromStandardProg, ConvertP2PKHSigProgram, ConvertP2SHProgram.
  by rewrite !parse_witness_prog by done.
Qed.
End ScriptLemmas.

Lemma witness_program_roundtrip_witness :
  GetHashFromStandardProg (z2b 0 :: z2b 20 :: replicate 20 x07) = Done (replicate 20 x07).
Proof.
  refine (proj1 (witness_program_roundtrip (U := ZUint256) (replicate 20 x07) _ _ _)).
  - vm_compute. split; discriminate.
  - left. reflexivity.
Defined.

Lemma IsP2WScript_iff_witness :
  IsP2WPKHScript (z2b 0 :: z2b 20 :: replicate 20 x07) = true
  <-> exists h, zlen h = 20 /\ P2WPKHProgram (U := ZUint256) h = Done (z2b 0 :: z2b 20 :: replicate 20 x07).
Proof.
  refine (proj1 (IsP2WScript_iff (U := ZUint256) (z2b 0 :: z2b 20 :: replicate 20 x07) _)). vm_compute. discriminate.
Defined.

(** *** Integers in programs *)

Section Numbers.
Context {U : Uint256} {UL : Uint256Laws U}.

Lemma AsBigInt_small b :
  zlen b <= 32 -> le_val b < 2 ^ 255 -> exists m, AsBigInt b = Ok m /\ uval m = le_val b.
Proof.
  intros Hl Hv. pose proof (AsBigInt_spec b) as Hs.
  destruct (AsBigInt b) as [m|[]| |]; try done; try lia. exists m. tauto.
Qed.

Lemma IsPushdata_n o l d : OP_1 <= o <= OP_16 -> IsPushdata (Inst o l d) = true.
Proof.
  intros Ho. unfold IsPushdata, OP_1, OP_16 in *. cbn [inst_Op].
  assert (Hall : forallb (fun n => bool_decide (info_fn (ops (Z.of_nat n)) = info_fn (ops 81))
            || bool_decide (info_fn (ops (Z.of_nat n)) = info_fn (ops OP_0))) (seq 81 16) = true)
    by (vm_compute; reflexivity).
  rewrite forallb_forall in Hall. specialize (Hall (Z.to_nat o)).
  rewrite Z2Nat.id in Hall by lia. apply Hall. apply in_seq. lia.
Qed.

(** [PushDataUint64 n] is one push instruction whose data reads back as [n]. *)
Lemma parses_uint64 n :
  0 <= n <= MaxUint64 ->
  exists i m, parses (PushDataUint64 n) [i] /\ IsPushdata i = true
              /\ AsBigInt (inst_Data i) = Ok m /\ uval m = n.
Proof.
  intros Hn. unfold PushDataUint64. case_if; [|case_if]; zbool.
  - destruct (AsBigInt_small []) as (m & Hm & Hv); [done|done|].
    exists (Inst OP_0 1 []), m. split_and!; [by apply parses_op|done|done|by subst].
  - destruct (AsBigInt_small [z2b n]) as (m & Hm & Hv); [done|cbn [le_val]; pose proof (b2z_range (z2b n)); lia|].
    cbn [le_val] in Hv. rewrite b2z_z2b_small in Hv by lia.
    exists (Inst (OP_1 + n - 1) 1 [z2b n]), m. unfold OP_1 in *. split_and!.
    + apply parses_one; [|done]. unfold parse_spec. rewrite b2z_z2b_small by lia. unfold OP_1, OP_16.
      replace ((81 + n - 1 >=? 81) && (81 + n - 1 <=? 96)) with true by lia.
      replace (81 + n - 1 - 81 + 1) with n by lia. done.
    + apply IsPushdata_n. unfold OP_1, OP_16. lia.
    + done.
    + lia.
  - pose proof (BigIntBytes_len (NewInt n)).
    destruct (AsBigInt_small (Uint64Bytes n)) as (m & Hm & Hv).
    + done.
    + unfold Uint64Bytes. rewrite BigIntBytes_val, uval_NewInt by lia. words. lia.
    + exists (push_inst (Uint64Bytes n)), m. split_and!.
      * apply parses_push. unfold Uint64Bytes. words. lia.
      * apply IsPushdata_push.
      * done.
      * rewrite Hv. unfold Uint64Bytes. by rewrite BigIntBytes_val, uval_NewInt by lia.
Qed.

(** *** The multi-signature programs *)

Lemma AddData_all pubkeys b :
  program (foldl (fun b p => AddData p b) b pubkeys) = program b ++ concat (PushDataBytes <$> pubkeys)
  /\ jumpPlaceholders (foldl (fun b p => AddData p b) b pubkeys) = jumpPlaceholders b.
Proof.
  revert b. induction pubkeys as [|p pubkeys IH]; intros b; cbn [foldl fmap list_fmap concat].
  - by rewrite app_nil_r.
  - destruct (IH (AddData p b)) as [-> ->]. cbn. by rewrite app_assoc.
Qed.

Lemma parses_keys pubkeys :
  zlen (concat (PushDataBytes <$> pubkeys)) <= MaxInt32 ->
  parses (concat (PushDataBytes <$> pubkeys)) (push_inst <$> pubkeys).
Proof.
  induction pubkeys as [|p pubkeys IH]; cbn [fmap list_fmap concat]; intros Hl; [constructor|].
  rewrite zlen_app in Hl. pose proof (zlen_push p). pose proof (zlen_nonneg p).
  pose proof (zlen_nonneg (concat (PushDataBytes <$> pubkeys))).
  apply parses_step; [apply parses_push; words; lia|]. apply IH. lia.
Qed.

(** The instructions [addP2SPMultiSig] appends. *)
Lemma addP2SPMultiSig_parses pubkeys nrequired b b' :
  addP2SPMultiSig pubkeys nrequired b = Done b' -> zlen (program b') <= MaxInt32 ->
  jumpPlaceholders b' = jumpPlaceholders b
  /\ exists q insts, program b' = program b ++ q /\ parses q insts.
Proof.
  unfold addP2SPMultiSig. destruct (checkMultiSigParams _ _); [done|]. intros [= <-].
  cbn [program AddOp AddUint64 AddData jumpPlaceholders].
  destruct (AddData_all pubkeys (AddOp OP_TXSIGHASH b)) as [-> ->]. cbn [program AddOp jumpPlaceholders].
  rewrite <- !app_assoc. intros Hl. split; [done|]. rewrite !zlen_app in Hl.
  match type of Hl with context [zlen (PushDataUint64 ?x)] => idtac end.
  pose proof (zlen_nonneg (program b)). pose proof (zlen_nonneg (PushDataUint64 (u64 nrequired))).
  pose proof (zlen_nonneg (PushDataUint64 (u64 (zlen pubkeys)))).
  destruct (parses_uint64 (u64 nrequired)) as (i & _ & Hi & _); [apply u64_range|].
  destruct (parses_uint64 (u64 (zlen pubkeys))) as (j & _ & Hj & _); [apply u64_range|].
  eexists _, _. split; [done|]. op_step.
  apply parses_app; [apply parses_keys|].
  - change (zlen [z2b OP_TXSIGHASH]) with 1 in Hl. change (zlen [z2b OP_CHECKMULTISIG]) with 1 in Hl. lia.
  - apply parses_step; [exact Hi|]. apply parses_step; [exact Hj|].
    by apply parses_op.
Qed.

(** The height a multi-signature issuance program is restricted to is read
    back from the program. *)
Theorem restrict_height_roundtrip pubkeys nrequired height p :
  0 < height <= MaxUint64 ->
  P2SPMultiSigProgramWithHeight pubkeys nrequired height = Done p -> zlen p <= MaxInt32 ->
  GetIssuanceProgramRestrictHeight p = height.
Proof.
  intros Hh. unfold P2SPMultiSigProgramWithHeight. replace (height >? 0) with true by lia.
  destruct (addP2SPMultiSig _ _ _) as [b'|e|] eqn:Hb; try done.
  unfold mbind, outcome_bind. intros Hp Hl.
  assert (Hprog : jumpPlaceholders b' = ∅ -> p = program b') by (intros He; rewrite Build_plain in Hp by done; congruence).
  assert (Hj : jumpPlaceholders b' = ∅ ).
  { unfold addP2SPMultiSig in Hb. destruct (checkMultiSigParams _ _); [done|]. injection Hb as <-.
    cbn. by destruct (AddData_all pubkeys (AddOp OP_TXSIGHASH (AddOp OP_VERIFY (AddOp OP_GREATERTHAN
      (AddOp OP_BLOCKHEIGHT (AddUint64 height NewBuilder)))))) as [_ ->]. }
  specialize (Hprog Hj). subst p.
  apply addP2SPMultiSig_parses in Hb as (_ & q & insts & Hq & Hpq); [|done].
  cbn [program AddOp AddUint64 NewBuilder app] in Hq. rewrite <- !app_assoc in Hq.
  destruct (parses_uint64 height) as (i & m & Hi & Hip & Hm & Hv); [lia|].
  assert (Hall : parses (program b') (i :: Inst OP_BLOCKHEIGHT 1 [] :: Inst OP_GREATERTHAN 1 []
                                      :: Inst OP_VERIFY 1 [] :: insts)).
  { rewrite Hq. apply parses_step; [done|]. do 3 op_step. done. }
  apply ParseProgram_iff in Hall; [|done].
  unfold GetIssuanceProgramRestrictHeight. rewrite Hall, Hip. cbn [inst_Op inst_Data].
  change ((true && (OP_BLOCKHEIGHT =? OP_BLOCKHEIGHT) && (OP_GREATERTHAN =? OP_GREATERTHAN)
          && (OP_VERIFY =? OP_VERIFY))) with true. cbn [andb].
  rewrite Hm. unfold Uint64WithOverflow. rewrite IsUint64_uval, Uint64_uval, Hv.
  replace (height <=? MaxUint64) with true by lia. apply u64_id. lia.
Qed.
End Numbers.

Lemma restrict_height_roundtrip_witness :
  0 < 1000 <= MaxUint64 /\
  GetIssuanceProgramRestrictHeight (U := ZUint256)
    (match P2SPMultiSigProgramWithHeight (U := ZUint256) [replicate 32 x01] 1 1000 with
     | Done p => p | _ => [] end) = 1000.
Proof.
  assert (H : 0 < 1000 <= MaxUint64) by (vm_compute; split; [reflexivity|discriminate]).
  split; [exact H|].
  apply (restrict_height_roundtrip (U := ZUint256) [replicate 32 x01] 1 1000 _ H).
  - vm_compute. reflexivity.
  - vm_compute. discriminate.
Defined.
