(* ===== verification/Builder.v ===== *)
(** * The program builder resolves every jump

    [Script.v] models [vmutil/builder.go]; here is what [Build] promises of a
    builder reached through the package's own operations: it fails exactly when
    a jump has no target, and otherwise writes the target's address, little
    endian, in every placeholder of that target and nothing else.  Go iterates
    over the placeholders in any order, which the statement does not mention:
    the result does not depend on it. *)

From S2P Require Import Prelude GoSlice VMTypes Opcode Script.
From Stdlib Require Import Strings.Byte.

(** Builders a caller can have. *)
Inductive built {U : Uint256} : Builder -> Prop :=
  | built_new : built NewBuilder
  | built_raw d b : built b -> built (AddRawBytes d b)
  | built_data d b : built b -> built (AddData d b)
  | built_uint64 n b : built b -> built (AddUint64 n b)
  | built_op op b : built b -> built (AddOp op b)
  | built_target b : built b -> built (NewJumpTarget b).2
  | built_jump t b : built b -> built (AddJump t b)
  | built_jumpif t b : built b -> built (AddJumpIf t b)
  | built_set t b : built b -> built (SetJumpTarget t b).

(** The four bytes at [a] and at [b] do not overlap. *)
Definition apart (a b : Z) : Prop := a + 4 <= b \/ b + 4 <= a.

Record slots_ok (b : Builder) : Prop := {
  slot_range t l a : jumpPlaceholders b !! t = Some l -> a ∈ l -> 0 <= a /\ a + 4 <= zlen (program b);
  slot_apart t l a t' l' a' :
    jumpPlaceholders b !! t = Some l -> a ∈ l ->
    jumpPlaceholders b !! t' = Some l' -> a' ∈ l' -> t = t' /\ a = a' \/ apart a a';
}.

Lemma slots_ok_extend b b' :
  slots_ok b -> jumpPlaceholders b' = jumpPlaceholders b -> zlen (program b) <= zlen (program b') ->
  slots_ok b'.
Proof.
  intros [Hr Ha] Hj Hl. split; rewrite Hj.
  - intros t l a Ht Hin. destruct (Hr _ _ _ Ht Hin). lia.
  - exact Ha.
Qed.

Lemma slots_ok_addJump op t b : slots_ok b -> slots_ok (addJump op t b).
Proof.
  intros [Hr Ha]. unfold addJump. cbn [program jumpPlaceholders AddOp AddRawBytes].
  set (new := zlen (program b ++ [z2b op])).
  assert (Hnew : new = zlen (program b) + 1) by (unfold new; by rewrite zlen_app).
  pose proof (zlen_nonneg (program b)).
  (* a slot of the new builder is an old one, or the new one *)
  assert (Hcase : forall t' l a,
    <[t := default [] (jumpPlaceholders b !! t) ++ [new]]> (jumpPlaceholders b) !! t' = Some l -> a ∈ l ->
    (exists l0, jumpPlaceholders b !! t' = Some l0 /\ a ∈ l0) \/ t' = t /\ a = new).
  { intros t' l a. destruct (decide (t = t')) as [<-|Hne].
    - rewrite lookup_insert_eq. intros [= <-]. rewrite elem_of_app, list_elem_of_singleton.
      intros [Hin| ->]; [left|by right].
      destruct (jumpPlaceholders b !! t) as [l0|]; [by exists l0|by apply not_elem_of_nil in Hin].
    - rewrite lookup_insert_ne by done. eauto. }
  unfold AddRawBytes. split; cbn [program jumpPlaceholders].
  - intros t' l a Ht Hin. rewrite zlen_app. fold new.
    change (zlen [x00; x00; x00; x00]) with 4.
    destruct (Hcase _ _ _ Ht Hin) as [(l0 & Hl0 & Hin0)|[-> ->]].
    + destruct (Hr _ _ _ Hl0 Hin0). lia.
    + lia.
  - intros t1 l1 a1 t2 l2 a2 H1 Hin1 H2 Hin2. unfold apart.
    destruct (Hcase _ _ _ H1 Hin1) as [(k1 & Hk1 & Hj1)|[-> ->]];
    destruct (Hcase _ _ _ H2 Hin2) as [(k2 & Hk2 & Hj2)|[-> ->]].
    + exact (Ha _ _ _ _ _ _ Hk1 Hj1 Hk2 Hj2).
    + destruct (Hr _ _ _ Hk1 Hj1). lia.
    + destruct (Hr _ _ _ Hk2 Hj2). lia.
    + by left.
Qed.

Lemma built_slots {U : Uint256} b : built b -> slots_ok b.
Proof.
  induction 1; try (by apply slots_ok_addJump);
    try (eapply slots_ok_extend; [exact IHbuilt|done|cbn [program AddRawBytes AddData AddUint64 AddOp
      NewJumpTarget SetJumpTarget snd]; rewrite ?zlen_app;
      try match goal with |- _ <= _ + zlen ?q => pose proof (zlen_nonneg q) end; lia]).
  split; cbn; intros *; rewrite lookup_empty; done.
Qed.

(** ** Writing addresses *)

Lemma write_at_lookup pos b l x :
  (pos + length b <= length l)%nat ->
  write_at pos b l !! x = if decide (pos <= x < pos + length b)%nat then b !! (x - pos)%nat else l !! x.
Proof.
  intros Hl. unfold write_at. destruct (decide _) as [Hx|Hx].
  - rewrite lookup_app_r, length_take by (rewrite length_take; lia).
    rewrite lookup_app_l by lia. f_equal. lia.
  - destruct (decide (x < pos)%nat).
    + rewrite lookup_app_l by (rewrite length_take; lia). apply lookup_take_lt. lia.
    + rewrite lookup_app_r, length_take by (rewrite length_take; lia).
      rewrite lookup_app_r, lookup_drop by lia. f_equal. lia.
Qed.

Lemma write_at_length pos b l : (pos + length b <= length l)%nat -> length (write_at pos b l) = length l.
Proof. intros. unfold write_at. rewrite !length_app, length_take, length_drop. lia. Qed.

(** Index [x] lies in the slot at [a]. *)
Definition covers (a x : Z) : Prop := a <= x < a + 4.

#[export] Instance covers_dec a x : Decision (covers a x).
Proof. unfold covers. apply _. Defined.

Lemma put_uint32_spec a addr p :
  0 <= a -> a + 4 <= zlen p ->
  exists p', put_uint32 a addr p = Done p' /\ zlen p' = zlen p
    /\ forall x, zlookup p' x = if decide (covers a x) then zlookup (le_bytes 4 addr) (x - a) else zlookup p x.
Proof.
  intros Ha Hl. unfold put_uint32. replace ((0 <=? a) && (a + 4 <=? zlen p)) with true by lia.
  unfold zlen in *. assert (Hlen : (Z.to_nat a + length (le_bytes 4 addr) <= length p)%nat)
    by (rewrite length_le_bytes; lia).
  eexists. split; [done|]. split; [by rewrite write_at_length|].
  intros x. unfold zlookup, covers. destruct (Z.ltb_spec x 0).
  - rewrite decide_False by lia. done.
  - rewrite write_at_lookup by done. rewrite length_le_bytes.
    destruct (decide (a <= x < a + 4)).
    + rewrite decide_True by lia. replace (x - a <? 0) with false by lia. f_equal. lia.
    + rewrite decide_False by lia. done.
Qed.

Lemma fill_spec addr places p :
  (forall a, a ∈ places -> 0 <= a /\ a + 4 <= zlen p) ->
  (forall a a', a ∈ places -> a' ∈ places -> a = a' \/ apart a a') ->
  exists p', fill addr places p = Done p' /\ zlen p' = zlen p
    /\ (forall a x, a ∈ places -> covers a x -> zlookup p' x = zlookup (le_bytes 4 addr) (x - a))
    /\ (forall x, (forall a, a ∈ places -> ~ covers a x) -> zlookup p' x = zlookup p x).
Proof.
  revert p. induction places as [|a places IH]; intros p Hr Ha; cbn [fill].
  - exists p. split_and!; try done. intros a x Hin. by apply not_elem_of_nil in Hin.
  - destruct (put_uint32_spec a addr p) as (p1 & -> & Hl1 & Hx1); [apply Hr; left..|].
    destruct (IH p1) as (p2 & Hp2 & Hl2 & Hs2 & Hu2).
    { intros a' Hin. rewrite Hl1. apply Hr. by right. }
    { intros a1 a2 H1 H2. apply Ha; by right. }
    exists p2. split_and!; [exact Hp2|lia| |].
    + intros a' x Hin Hc.
      destruct (decide (Exists (fun b => covers b x) places)) as [Hex|Hno].
      * apply Exists_exists in Hex as (b & Hb & Hcb). rewrite (Hs2 b x Hb Hcb).
        destruct (Ha a' b Hin) as [-> |Hap]; [by right|done|unfold apart, covers in *; lia].
      * rewrite Hu2; [|intros b Hb Hcb; apply Hno, Exists_exists; eauto].
        apply elem_of_cons in Hin as [-> |Hin]; [by rewrite Hx1, decide_True|].
        exfalso. apply Hno, Exists_exists. eauto.
    + intros x Hx. rewrite Hu2; [|intros b Hb; apply Hx; by right].
      rewrite Hx1, decide_False; [done|]. apply Hx. left.
Qed.

Section Resolve.
Context (addrs : gmap Z Z).

(** The placeholders in [l] are in range of a program of length [n] and do not overlap. *)
Record layout (l : list (Z * list Z)) (n : Z) : Prop := {
  ly_keys : NoDup l.*1;
  ly_range t ps a : (t, ps) ∈ l -> a ∈ ps -> 0 <= a /\ a + 4 <= n;
  ly_apart t ps a t' ps' a' :
    (t, ps) ∈ l -> a ∈ ps -> (t', ps') ∈ l -> a' ∈ ps' -> t = t' /\ a = a' \/ apart a a';
}.

Lemma layout_tail e l n : layout (e :: l) n -> layout l n.
Proof.
  intros [Hk Hr Ha]. rewrite fmap_cons in Hk. apply NoDup_cons in Hk as [_ Hk]. split; [done| |].
  - intros t ps a Hin. apply (Hr t). by right.
  - intros t ps a t' ps' a' H1 Hin H2. apply (Ha t ps a t' ps'); [by right|done|by right].
Qed.

Lemma resolve_spec l p :
  layout l (zlen p) -> (forall t ps, (t, ps) ∈ l -> is_Some (addrs !! t)) ->
  exists p', resolve addrs l p = Done p' /\ zlen p' = zlen p
    /\ (forall t ps a addr x, (t, ps) ∈ l -> a ∈ ps -> addrs !! t = Some addr -> covers a x ->
          zlookup p' x = zlookup (le_bytes 4 addr) (x - a))
    /\ (forall x, (forall t ps a, (t, ps) ∈ l -> a ∈ ps -> ~ covers a x) -> zlookup p' x = zlookup p x).
Proof.
  revert p. induction l as [|[t ps] l IH]; intros p Hl Hset; cbn [resolve].
  - exists p. split_and!; try done. intros t ps a addr x Hin. by apply not_elem_of_nil in Hin.
  - destruct (Hset t ps) as [addr Haddr]; [left|]. rewrite Haddr.
    destruct (fill_spec addr ps p) as (p1 & -> & Hl1 & Hs1 & Hu1).
    { intros a. apply (ly_range _ _ Hl t). left. }
    { intros a a' H1 H2. destruct (ly_apart _ _ Hl t ps a t ps a') as [[_ ?]|?]; [left|done|left|done|by left|by right]. }
    destruct (IH p1) as (p2 & Hp2 & Hl2 & Hs2 & Hu2).
    { rewrite Hl1. by eapply layout_tail. }
    { intros t' ps' Hin. apply (Hset t' ps'). by right. }
    exists p2. split_and!; [exact Hp2|lia| |].
    + intros t' ps' a addr' x Hin Ha Haddr' Hc. apply elem_of_cons in Hin as [[= -> ->]|Hin].
      * rewrite Haddr in Haddr'. injection Haddr' as <-. rewrite Hu2; [by apply Hs1|].
        intros t2 ps2 a2 Hin2 Ha2 Hc2.
        assert (Hne : t2 <> t).
        { intros ->. pose proof (ly_keys _ _ Hl) as Hk. rewrite fmap_cons in Hk.
          apply NoDup_cons in Hk as [Hk _]. apply Hk, list_elem_of_fmap. by exists (t, ps2). }
        destruct (ly_apart _ _ Hl t ps a t2 ps2 a2) as [[? _]|Hap];
          [left|done|by right|done|congruence|unfold apart, covers in *; lia].
      * by apply (Hs2 t' ps').
    + intros x Hx. rewrite Hu2; [apply Hu1|].
      * intros a Ha. apply (Hx t ps); [left|done].
      * intros t' ps' a Hin. apply (Hx t' ps'). by right.
Qed.

Lemma resolve_unresolved l p :
  layout l (zlen p) -> (exists t ps, (t, ps) ∈ l /\ addrs !! t = None) ->
  resolve addrs l p = Failed ErrUnresolvedJump.
Proof.
  revert p. induction l as [|[t ps] l IH]; intros p Hl (t' & ps' & Hin & Hnone).
  - by apply not_elem_of_nil in Hin.
  - cbn [resolve]. destruct (addrs !! t) as [addr|] eqn:Haddr; [|done].
    destruct (fill_spec addr ps p) as (p1 & -> & Hl1 & _).
    { intros a. apply (ly_range _ _ Hl t). left. }
    { intros a a' H1 H2. destruct (ly_apart _ _ Hl t ps a t ps a') as [[_ ?]|?]; [left|done|left|done|by left|by right]. }
    apply IH; [rewrite Hl1; by eapply layout_tail|].
    apply elem_of_cons in Hin as [[= -> ->]|Hin]; [congruence|eauto].
Qed.
End Resolve.

Lemma slots_layout b : slots_ok b -> layout (map_to_list (jumpPlaceholders b)) (zlen (program b)).
Proof.
  intros [Hr Ha]. split.
  - apply NoDup_fst_map_to_list.
  - intros t ps a Hin. apply elem_of_map_to_list in Hin. by apply (Hr t).
  - intros t ps a t' ps' a' H1 Hin1 H2 Hin2. apply elem_of_map_to_list in H1, H2. by apply (Ha t ps a t' ps').
Qed.

Lemma zlookup_subseq4 (p : bytes) a (b : bytes) :
  0 <= a -> length b = 4%nat -> (forall x, covers a x -> zlookup p x = zlookup b (x - a)) ->
  subseq p a (a + 4) = b.
Proof.
  intros Ha Hb Hx. apply list_eq. intros i. unfold subseq.
  replace (Z.to_nat (a + 4 - a)) with 4%nat by lia.
  destruct (decide (i < 4)%nat) as [Hi|Hi].
  - rewrite lookup_take_lt, lookup_drop by lia. specialize (Hx (a + Z.of_nat i)). unfold covers, zlookup in Hx.
    replace (a + Z.of_nat i <? 0) with false in Hx by lia.
    replace (a + Z.of_nat i - a <? 0) with false in Hx by lia.
    rewrite <- (Nat2Z.id i) at 2. replace (Z.of_nat i) with (a + Z.of_nat i - a) by lia.
    rewrite <- Hx by lia. f_equal. lia.
  - rewrite !lookup_ge_None_2; [done|lia|rewrite length_take; lia].
Qed.

Section Spec.
Context {U : Uint256}.

(** [Build] fails exactly when some jump has no target; otherwise every
    placeholder holds its target's address in little endian and every other byte
    of the program is unchanged, whatever the order in which the placeholders are
    visited. *)
Theorem Build_spec b :
  built b ->
  ((exists t places, jumpPlaceholders b !! t = Some places /\ jumpAddr b !! t = None) /\
     Build b = Failed ErrUnresolvedJump)
  \/ exists p, Build b = Done p /\ zlen p = zlen (program b)
     /\ (forall t places a, jumpPlaceholders b !! t = Some places -> a ∈ places ->
           exists addr, jumpAddr b !! t = Some addr /\ subseq p a (a + 4) = le_bytes 4 addr)
     /\ (forall x, (forall t places a, jumpPlaceholders b !! t = Some places -> a ∈ places -> ~ covers a x) ->
           zlookup p x = zlookup (program b) x).
Proof.
  intros Hb%built_slots. pose proof (slots_layout b Hb) as Hl. unfold Build.
  destruct (decide (map_Forall (fun t _ => is_Some (jumpAddr b !! t)) (jumpPlaceholders b))) as [Hall|Hno].
  - right. destruct (resolve_spec (jumpAddr b) _ _ Hl) as (p & Hp & Hlen & Hs & Hu).
    { intros t ps Hin. apply elem_of_map_to_list in Hin. exact (Hall _ _ Hin). }
    exists p. split_and!; [exact Hp|exact Hlen| |].
    + intros t places a Ht Ha. destruct (Hall _ _ Ht) as [addr Haddr]. exists addr. split; [done|].
      apply zlookup_subseq4; [apply (slot_range _ Hb _ _ _ Ht Ha)|apply length_le_bytes|].
      intros x. apply (Hs t places); [by apply elem_of_map_to_list|done..].
    + intros x Hx. apply Hu. intros t ps a Hin. apply elem_of_map_to_list in Hin. by apply (Hx t).
  - left. apply map_not_Forall in Hno as (t & ps & Ht & Hn); [|apply _].
    rewrite <- eq_None_not_Some in Hn. split; [eauto|].
    apply resolve_unresolved; [exact Hl|]. exists t, ps. split; [by apply elem_of_map_to_list|done].
Qed.
End Spec.

(** A forward jump over a FAIL. *)
Definition jump_example : Builder :=
  let '(t, b) := NewJumpTarget NewBuilder in
  SetJumpTarget t (AddOp OP_FAIL (AddJump t b)).

Lemma Build_spec_witness :
  built (U := ZUint256) jump_example /\ Build jump_example = Done (z2b <$> [OP_JUMP; 6; 0; 0; 0; OP_FAIL]).
Proof.
  assert (Hb : built (U := ZUint256) jump_example).
  { unfold jump_example. cbn. apply built_set, built_op, built_jump.
    exact (built_target NewBuilder built_new). }
  split; [exact Hb|].
  destruct (Build_spec jump_example Hb) as [[_ Hf]|(p & Hp & _)].
  - exfalso. vm_compute in Hf. discriminate Hf.
  - vm_compute. reflexivity.
Defined.
