(* ===== verification/Spend.v ===== *)
(** * The standard control programs, executed

    Functional correctness of the programs [Script.v] builds, run by the
    interpreter of [Interp.v] over items as values: what CHECKMULTISIG decides,
    and who can spend a pay-to-public-key-hash output.  The symbolic execution
    reuses the program logic of [Gas.v], with the exact contents of the items
    instead of their lengths. *)

From S2P Require Import Prelude Checked GoSlice VMTypes Opcode Machine Ops Interp Gas Script.
From Stdlib Require Import Strings.Byte.

(** ** The greedy matching of CHECKMULTISIG *)

Section Multisig.
Context {C : Crypto}.

(** [ks] picks keys, in their order, that verify the signatures one for one. *)
Definition signed_by (msg : bytes) (sigs keys ks : list bytes) : Prop :=
  ks `sublist_of` keys /\ Forall2 (fun s k => ed25519_verify k msg s = true) sigs ks.

Lemma multisig_match_sound msg sigs keys :
  multisig_match msg sigs keys = true -> exists ks, signed_by msg sigs keys ks.
Proof.
  revert sigs. induction keys as [|k keys IH]; intros [|s sigs] Hm; cbn in Hm; try done.
  - exists []. split; constructor.
  - exists []. split; [apply sublist_nil_l|constructor].
  - destruct (ed25519_verify k msg s) eqn:Hv.
    + destruct (IH _ Hm) as (ks & Hs & Hf). exists (k :: ks). split; by constructor.
    + destruct (IH _ Hm) as (ks & Hs & Hf). exists ks. split; [by constructor|done].
Qed.

Lemma multisig_match_complete msg sigs keys ks :
  signed_by msg sigs keys ks -> multisig_match msg sigs keys = true.
Proof.
  revert sigs ks. induction keys as [|k keys IH]; intros [|s sigs] ks [Hs Hf]; cbn; try done.
  - apply sublist_nil_r in Hs as ->. by apply Forall2_nil_inv_r in Hf.
  - apply Forall2_cons_inv_l in Hf as (k' & ks' & Hv & Hf & ->).
    apply sublist_cons_r in Hs as [Hs|(l & [= -> ->] & Hs)].
    + destruct (ed25519_verify k msg s).
      * apply (IH _ ks'). split; [|done]. etrans; [|exact Hs]. by apply sublist_cons.
      * apply (IH _ (k' :: ks')). split; [done|by constructor].
    + rewrite Hv. by apply (IH _ l).
Qed.

Lemma multisig_match_iff msg sigs keys :
  multisig_match msg sigs keys = true <-> exists ks, signed_by msg sigs keys ks.
Proof. split; [apply multisig_match_sound|intros [ks Hs]; by eapply multisig_match_complete]. Qed.
End Multisig.

(** ** Exact execution over items as values *)

Section Exact.
Context {U : Uint256} {UL : Uint256Laws U} {C : Crypto} {CL : CryptoLaws C}.

Abbreviation VS := ValueStore.
#[local] Instance some_unit : SomeHeap VS := tt.

Lemma vwp_read (i : bytes) (Q : res bytes -> vm VS -> Prop) v :
  Q (Ok i) v -> wp (S := VS) (read (S := VS) i) Q v.
Proof. intros H h. exact H. Qed.
Lemma vwp_alloc (b : bytes) (Q : res bytes -> vm VS -> Prop) v :
  Q (Ok b) v -> wp (S := VS) (alloc (S := VS) b) Q v.
Proof. intros H h. exact H. Qed.

Lemma vwp_Sum (b : bytes) (Q : res bytes -> vm VS -> Prop) v :
  Q (Ok b) v -> wp (S := VS) (Sum (S := VS) b) Q v.
Proof. intros H h. exact H. Qed.

(** [v] is [v0] with this gas, deferred cost and data stack. *)
Record ex (v0 v : vm VS) (rl df : Z) (ds : list bytes) : Prop := {
  ex_frame : frame v = frame v0;
  ex_next : vm_nextPC v = vm_nextPC v0;
  ex_data : vm_data v = vm_data v0;
  ex_rl : vm_runLimit v = rl;
  ex_df : vm_deferredCost v = df;
  ex_ds : vm_dataStack v = ds;
  ex_al : vm_altStack v = vm_altStack v0;
}.

(** The rules: no failure case, since the effect is known. *)
Section Rules.
Context (v0 v : vm VS) (rl df : Z) (ds : list bytes).

Lemma x_applyCost n (Q : res unit -> vm VS -> Prop) :
  ex v0 v rl df ds -> 0 <= n <= rl -> rl <= MaxInt64 ->
  (forall v', ex v0 v' (rl - n) df ds -> Q (Ok tt) v') -> wp (S := VS) (applyCost n) Q v.
Proof.
  intros [] Hn Hr HQ. apply wp_applyCost; [words; lia| |lia].
  intros v' [] _. apply HQ. split; congruence || lia.
Qed.

Lemma x_deferCost n (Q : res unit -> vm VS -> Prop) :
  ex v0 v rl df ds -> MinInt64 <= df + n <= MaxInt64 ->
  (forall v', ex v0 v' rl (df + n) ds -> Q (Ok tt) v') -> wp (S := VS) (deferCost n) Q v.
Proof.
  intros [] Hn HQ. apply wp_deferCost; [words; lia|].
  intros v' []. apply HQ. split; congruence || lia.
Qed.

Lemma x_set_ds l (Q : res unit -> vm VS -> Prop) :
  ex v0 v rl df ds -> (forall v', ex v0 v' rl df l -> Q (Ok tt) v') ->
  wp (S := VS) (modify (set_dataStack (S := VS) l)) Q v.
Proof.
  intros [] HQ. apply wp_set_dataStack_c. intros v' []. apply HQ. split; congruence || lia.
Qed.

Lemma item_cost_vs (i : bytes) : zlen i <= MaxInt32 -> item_cost (S := VS) i = 8 + zlen i.
Proof. intros. apply (item_cost_val (S := VS)). pose proof (zlen_nonneg i). cbn. words. lia. Qed.

Lemma x_push (i : bytes) (d : bool) (Q : res unit -> vm VS -> Prop) :
  ex v0 v rl df ds -> zlen i <= MaxInt32 -> - MaxInt64 <= df <= MaxInt32 -> rl <= MaxInt64 ->
  (if d then True else 8 + zlen i <= rl) ->
  (forall v', ex v0 v' (if d then rl else rl - (8 + zlen i)) (if d then df + (8 + zlen i) else df) (i :: ds) ->
     Q (Ok tt) v') -> wp (pushDataStack (S := VS) i d) Q v.
Proof.
  intros He Hi Hd Hr Hl HQ. pose proof (zlen_nonneg i). unfold pushDataStack.
  rewrite item_cost_vs by done. apply wp_bind.
  assert (Hset : forall w rl df, ex v0 w rl df ds -> (forall v', ex v0 v' rl df (i :: ds) -> Q (Ok tt) v') ->
            wp (S := VS) (modify (fun v : vm VS => set_dataStack (S := VS) ((i : @item VS) :: vm_dataStack v) v)) Q w).
  { intros w rl' df' [] HQ'. apply wp_set_dataStack. intros v' [? ? ? ? ? Hds ? ? ?]. apply HQ'.
    split; try congruence; try lia. by rewrite Hds, ex_ds0. }
  destruct d.
  - apply x_deferCost; [done|words; lia|]. eauto.
  - apply x_applyCost; [done|lia|lia|]. eauto.
Qed.

Lemma x_pop (i : bytes) (d : bool) (Q : res bytes -> vm VS -> Prop) :
  ex v0 v rl df (i :: ds) -> zlen i <= MaxInt32 -> - MaxInt64 + 2 * MaxInt32 <= df <= MaxInt32 ->
  0 <= rl <= MaxInt64 - 2 * MaxInt32 ->
  (forall v', ex v0 v' (if d then rl else rl + (8 + zlen i)) (if d then df - (8 + zlen i) else df) ds ->
     Q (Ok i) v') -> wp (S := VS) (pop (S := VS) d) Q v.
Proof.
  intros [] Hi Hd Hr HQ. unfold pop. apply wp_bind, wp_gets. rewrite ex_ds0.
  apply wp_bind, wp_set_dataStack_c. intros v1 []. apply wp_bind. rewrite item_cost_vs by done.
  pose proof (zlen_nonneg i). destruct d.
  - apply wp_deferCost; [words; lia|]. intros v2 []. apply wp_ret, HQ. split; congruence || lia.
  - apply (wp_set_runLimit (fun v => i64 (vm_runLimit v + (8 + zlen i)))). intros v2 [? ? ? Hrl2 ? ? ? ? ?].
    rewrite i64_id in Hrl2 by (words; lia). apply wp_ret, HQ. split; congruence || lia.
Qed.

Lemma x_pushBool b (Q : res unit -> vm VS -> Prop) :
  ex v0 v rl df ds -> - MaxInt64 <= df <= MaxInt32 -> rl <= MaxInt64 ->
  (forall v', ex v0 v' rl (df + (8 + zlen (BoolBytes b))) (BoolBytes b :: ds) -> Q (Ok tt) v') ->
  wp (S := VS) (pushBool (S := VS) b true) Q v.
Proof.
  intros He Hd Hr HQ. unfold pushBool. destruct b; [|apply wp_bind, vwp_alloc];
    (eapply x_push; [exact He|done|exact Hd|exact Hr|exact I|exact HQ]).
Qed.

Lemma x_gets_ds {A} (k : list bytes -> @M VS A) Q :
  ex v0 v rl df ds -> wp (S := VS) (k ds) Q v -> wp (S := VS) (gets (S := VS) vm_dataStack ≫= k) Q v.
Proof. intros [] HQ. apply wp_bind, wp_gets. by rewrite ex_ds0. Qed.

Lemma x_gets_ctx {A} (k : Context_ VS -> @M VS A) Q :
  ex v0 v rl df ds -> wp (S := VS) (k (vm_context v0)) Q v ->
  wp (S := VS) (gets (S := VS) vm_context ≫= k) Q v.
Proof. intros [] HQ. apply wp_bind, wp_gets. by injection ex_frame0 as -> _ _ _. Qed.

Lemma x_gets_data {A} (k : bytes -> @M VS A) Q :
  ex v0 v rl df ds -> wp (S := VS) (k (vm_data v0)) Q v ->
  wp (S := VS) (gets (S := VS) vm_data ≫= k) Q v.
Proof. intros [] HQ. apply wp_bind, wp_gets. by rewrite ex_data0. Qed.
End Rules.

(** The machine between two steps. *)
Record at_pc (ctx : Context_ VS) (prog : bytes) (v : vm VS) (pc rl : Z) (ds : list bytes) : Prop := {
  ap_ctx : vm_context v = ctx;
  ap_prog : vm_program v = prog;
  ap_pc : vm_pc v = pc;
  ap_rl : vm_runLimit v = rl;
  ap_ds : vm_dataStack v = ds;
}.

(** One instruction that is not an expansion opcode; [v1] is the state its
    function starts in. *)
Lemma x_step ctx prog v pc rl ds inst f (Q : res unit -> vm VS -> Prop) :
  at_pc ctx prog v pc rl ds -> 0 <= pc < zlen prog -> zlen prog <= MaxInt32 ->
  ParseOp prog pc = Ok inst -> isExpansion (inst_Op inst) = false ->
  (forall v1, ex v1 v1 rl 0 ds -> vm_context v1 = ctx -> vm_data v1 = inst_Data inst ->
     wp (S := VS) (exec (S := VS) (modify (set_pc 0) ;; run_loop f) (info_fn (ops (inst_Op inst))))
        (fun r v' => match r with
           | Ok _ => exists rl' df' ds',
               ex v1 v' rl' df' ds' /\ df' <= rl' /\ MinInt64 <= rl' - df' <= MaxInt64
               /\ forall v2, at_pc ctx prog v2 (pc + inst_Len inst) (rl' - df') ds' ->
                    wp (S := VS) (run_loop (S := VS) f) Q v2
           | Err e => Q (Err e) v'
           | Panic => Q Panic v'
           | OutOfFuel => Q OutOfFuel v'
           end) v1) ->
  wp (S := VS) (run_loop (S := VS) (Datatypes.S f)) Q v.
Proof.
  intros [] Hpc Hl Hp Hx Hop. cbn [run_loop]. unfold program_bytes, step.
  pose proof (zlen_nonneg prog).
  do 2 (apply wp_bind). apply wp_gets, vwp_read. apply wp_bind, wp_gets.
  rewrite ap_prog0, ap_pc0, u32_id by (words; lia). replace (pc <? zlen prog) with true by lia.
  apply wp_bind. do 2 (apply wp_bind). apply wp_gets, vwp_read. apply wp_bind, wp_gets.
  rewrite ap_prog0, ap_pc0. apply wp_bind, wp_lift. rewrite Hp.
  destruct (ParseOp_bounds _ _ _ (proj1 Hpc) Hp) as (Hil & [Hend Hmax] & _).
  rewrite u32_id in Hend by (words; lia).
  apply wp_bind, wp_modify. rewrite Hx. apply wp_bind, wp_modify. apply wp_bind, wp_modify.
  rewrite u32_id by (words; lia). change (set_data _ _) with (fetched (pc + inst_Len inst) (inst_Data inst) v).
  destruct (fetched_facts (pc + inst_Len inst) (inst_Data inst) v) as (Hf & _ & Hn).
  apply wp_bind. injection Hf as Hc Hpg _ _. eapply wp_mono.
  { apply Hop; [|congruence|by destruct v]. destruct v; cbn in *. by split. }
  intros [[]|e| |] v' Hr; try exact Hr. destruct Hr as (rl' & df' & ds' & [] & Hle & Hb & Hk).
  apply wp_bind, wp_gets. rewrite ex_df0. injection ex_frame0 as Hc' Hp' _ _. apply wp_bind.
  apply wp_applyCost; [lia| |lia]. intros v'' [] _. apply wp_modify, Hk.
  injection mv_frame as Hc2 Hp2 _ _. destruct (set_pc_facts (vm_nextPC v'') v'') as (_ & Hr1 & Hpc1 & Hc1 & Hp1).
  split; [congruence|congruence|congruence|lia|].
  destruct v''; cbn in *. congruence.
Qed.

End Exact.

Ltac ex_lia := cbn [st_len ValueStore] in *; words; lia.

(** One step of exact symbolic execution. *)
Ltac xs :=
  cbv beta iota zeta;
  match goal with
  | E : ex _ ?v _ _ _ |- wp ?m _ ?v =>
      lazymatch m with
      | mbind _ (gets vm_dataStack) => eapply (x_gets_ds _ _ _ _ _ _ _ E)
      | mbind _ (gets vm_context) => eapply (x_gets_ctx _ _ _ _ _ _ _ E)
      | mbind _ (gets vm_data) => eapply (x_gets_data _ _ _ _ _ _ _ E)
      | mbind _ _ => apply wp_bind
      | mret _ => apply wp_ret
      | throw _ => apply wp_throw
      | lift _ => apply wp_lift
      | read _ => apply vwp_read
      | alloc _ => apply vwp_alloc
      | Sum _ => apply vwp_Sum
      | applyCost _ => eapply (x_applyCost _ _ _ _ _ _ _ E); [ex_lia|ex_lia|clear E; intros ? E]
      | deferCost _ => eapply (x_deferCost _ _ _ _ _ _ _ E); [ex_lia|clear E; intros ? E]
      | pushDataStack _ _ => eapply (x_push _ _ _ _ _ _ _ _ E); [ex_lia|ex_lia|ex_lia|first [exact I|ex_lia]|clear E; intros ? E]
      | pop _ => eapply (x_pop _ _ _ _ _ _ _ _ E); [ex_lia|ex_lia|ex_lia|clear E; intros ? E]
      | modify (set_dataStack _) => eapply (x_set_ds _ _ _ _ _ _ _ E); clear E; intros ? E
      | context [?l !! ?n] => let x := eval cbn in (l !! n) in change (l !! n) with x
      end
  end.

(** Decides a test that evaluates, splits the others. *)
Ltac x_if :=
  lazymatch goal with
  | |- wp (if ?b then _ else _) _ _ =>
      let b' := eval vm_compute in b in
      first [ constr_eq b' true; change b with true | constr_eq b' false; change b with false
            | destruct b eqn:?; zbool ]; cbv iota
  end.
Ltac x_exec :=
  match goal with
  | |- context [info_fn (ops (inst_Op ?i))] =>
      let f := eval vm_compute in (info_fn (ops (inst_Op i))) in
      change (info_fn (ops (inst_Op i))) with f; cbn [exec]
  end.
(** Fetches the next instruction and names the state its function starts in. *)
Ltac x_next A Hparse :=
  eapply (x_step _ _ _ _ _ _ _ _ _ A); [lia|lia|exact Hparse|vm_compute; reflexivity|];
  clear A;
  repeat match goal with H : vm_data _ = inst_Data _ |- _ => clear H | H : vm_context _ = _ |- _ => clear H end;
  let v := fresh "v" in let Hc := fresh "Hctx" in let Hd := fresh "Hdat" in
  intros v E Hc Hd; x_exec.
(** Ends an instruction: the deferred cost is covered. *)
Ltac x_done A :=
  cbv beta iota;
  match goal with
  | E : ex _ _ _ _ _ |- exists _ _ _, _ =>
      eexists _, _, _; split; [exact E|split; [ex_lia|split; [ex_lia|]]];
      clear E; intros ? A; cbn [inst_Len] in A
  end.

Section P2PKH.
Context {U : Uint256} {UL : Uint256Laws U} {C : Crypto} {CL : CryptoLaws C}.

Lemma x_end (ctx : Context_ ValueStore) prog v pc rl ds f Q :
  at_pc ctx prog v pc rl ds -> pc = zlen prog -> zlen prog <= MaxInt32 ->
  Q (Ok tt) v -> wp (S := ValueStore) (run_loop (S := ValueStore) (Datatypes.S f)) Q v.
Proof.
  intros [] Hpc Hl HQ. cbn [run_loop]. unfold program_bytes. do 2 (apply wp_bind).
  apply wp_gets, vwp_read. apply wp_bind, wp_gets. pose proof (zlen_nonneg prog).
  rewrite ap_prog0, ap_pc0, u32_id by (words; lia). replace (pc <? zlen prog) with false by lia.
  by apply wp_ret.
Qed.

(** The verdict of [Verify] when the program has run to its end. *)
Lemma x_verdict (ctx : Context_ ValueStore) prog v pc rl ds (Q : res unit -> vm ValueStore -> Prop) :
  at_pc ctx prog v pc rl ds ->
  (match ds with t :: _ => if AsBool t then Q (Ok tt) v else Q (Err ErrFalseVMResult) v
            | [] => Q (Err ErrFalseVMResult) v end) ->
  wp (S := ValueStore) (false_ ← (fun w => (Ok (falseResult (S := ValueStore) w), w));
     if false_ : bool then throw ErrFalseVMResult else mret tt) Q v.
Proof.
  intros [] HQ h. unfold mbind, M_bind, falseResult. cbn [fst snd]. rewrite ap_ds0.
  destruct ds as [|t ds]; [exact HQ|]. change (st_get h t) with t. by destruct (AsBool t).
Qed.

Lemma at_pc_start (ctx : Context_ ValueStore) (prog : bytes) v rl ds al :
  Code ctx = prog ->
  ex (init_vm ctx al) v rl 0 ds -> at_pc ctx prog (set_pc 0 v) 0 rl ds.
Proof.
  intros Hc []. injection ex_frame0 as Hx Hp _ _.
  destruct (set_pc_facts 0 v) as (_ & Hr & Hpc & Hx1 & Hp1). split; try congruence.
  destruct v; exact ex_ds0.
Qed.

Lemma P2PKH_parse pkh prog :
  P2PKHSigProgram pkh = Done prog -> zlen pkh = 20 ->
  zlen prog = 27
  /\ ParseOp prog 0 = Ok (Inst OP_DUP 1 []) /\ ParseOp prog 1 = Ok (Inst OP_HASH160 1 [])
  /\ ParseOp prog 2 = Ok (Inst 20 21 pkh) /\ ParseOp prog 23 = Ok (Inst OP_EQUALVERIFY 1 [])
  /\ ParseOp prog 24 = Ok (Inst OP_TXSIGHASH 1 []) /\ ParseOp prog 25 = Ok (Inst OP_SWAP 1 [])
  /\ ParseOp prog 26 = Ok (Inst OP_CHECKSIG 1 []).
Proof.
  intros [= <-] Hl. rewrite push_short, Hl by lia.
  unfold zlen in Hl. do 20 (destruct pkh as [|? pkh]; [discriminate Hl|]).
  destruct pkh; [|cbn [length] in Hl; lia]. repeat split.
Qed.

(** C33.  Spending a pay-to-public-key-hash output with a signature and a key: if
    these are the only two arguments, of at most 1000 bytes each, there is no
    state data, the hash to sign has 32 bytes and the gas limit is between 6000
    and 2^31 - 1, then [Verify] on the program of [P2PKHSigProgram] succeeds
    exactly when the key hashes to the stored hash, has 32 bytes and verifies the
    signature of the transaction hash, and otherwise fails with the error of the
    check that failed. *)
Theorem P2PKH_spend (ctx : Context_ ValueStore) (prog pkh m sig pk : bytes) (gasLimit : Z) (fuel : nat) :
  VMVersion ctx = 1 -> P2PKHSigProgram pkh = Done prog -> zlen pkh = 20 -> Code ctx = prog ->
  StateData ctx = [] -> Arguments ctx = [sig; pk] -> TxSigHash ctx = Some m -> zlen m = 32 ->
  zlen sig <= 1000 -> zlen pk <= 1000 -> 6000 <= gasLimit <= MaxInt32 -> (8 <= fuel)%nat ->
  exists g, Verify (S := ValueStore) fuel ctx gasLimit tt =
    (Some (Verdict g
       (if bool_decide (ripemd160 pk = pkh)
        then if (zlen pk =? 32) && ed25519_verify pk m sig then None else Some ErrFalseVMResult
        else Some ErrVerifyFailed)), tt).
Proof.
  intros Hv Hprog Hpkh Hcode Hst Hargs Htx Hm Hsig Hpk Hgas Hfuel.
  set (verdict := if bool_decide _ then _ else _).
  enough (Hw : wp (S := ValueStore) (verify_body (S := ValueStore) fuel ctx)
    (fun r v => match r with Ok _ => verdict = None | Err e => verdict = Some e | _ => False end)
    (init_vm ctx gasLimit)).
  { specialize (Hw tt). unfold Verify. rewrite Hv. cbn [Z.eqb Pos.eqb negb].
    destruct (verify_body _ _ _) as [[[]|e| |] [[] v]]; cbn [fst snd] in Hw; try done; rewrite Hw; eauto. }
  destruct (P2PKH_parse _ _ Hprog Hpkh) as (Hlen & P0 & P1 & P2 & P3 & P4 & P5 & P6).
  pose proof (ripemd160_len pk) as Hrip.
  unfold verify_body. rewrite Hst, Hargs. cbn [push_all].
  pose proof (zlen_nonneg sig). pose proof (zlen_nonneg pk).
  assert (E : ex (init_vm ctx gasLimit) (init_vm ctx gasLimit) gasLimit 0 []) by (by split).
  repeat xs. unfold run. apply wp_bind, wp_modify.
  pose proof (at_pc_start _ _ _ _ _ _ Hcode E) as A. clear E.
  assert (zlen prog <= MaxInt32) by ex_lia.
  do 8 (destruct fuel as [|fuel]; [lia|]). clear Hfuel.
  x_next A P0. unfold opDup, nDup. repeat xs. x_if. cbn [repeat_ Nat.sub]. unfold push_nth.
  repeat xs. x_done A.
  x_next A P1. unfold opHash160. repeat xs.
  rewrite i64_id by ex_lia. repeat xs. x_done A.
  x_next A P2. unfold opPushdata. repeat xs. rewrite Hdat. cbn [inst_Data]. repeat xs. x_done A.
  x_next A P3. unfold opEqualVerify, doEqual. repeat xs.
  unfold verdict. destruct (bool_decide (ripemd160 pk = pkh)); repeat xs; [|done].
  x_done A.
  x_next A P4. unfold opTxSigHash. repeat xs. rewrite Hctx, Htx. repeat xs. x_done A.
  x_next A P5. unfold opSwap. repeat xs. x_done A.
  x_next A P6. unfold opCheckSig. repeat xs. cbn [st_len ValueStore]. rewrite Hm. x_if.
  unfold PublicKeySize. destruct (zlen pk =? 32); cbn [negb]; repeat xs.
  - eapply x_pushBool; [exact E|ex_lia|ex_lia|]. clear E. intros ? E.
    assert (0 <= zlen (BoolBytes (ed25519_verify pk m sig)) <= 1) by (by destruct ed25519_verify).
    x_done A. eapply x_end; [exact A|lia|done|]. eapply x_verdict; [exact A|].
    by destruct ed25519_verify.
  - eapply x_pushBool; [exact E|ex_lia|ex_lia|]. clear E. intros ? E.
    change (zlen (BoolBytes false)) with 0 in E. x_done A.
    eapply x_end; [exact A|lia|done|]. by eapply x_verdict; [exact A|].
Qed.
End P2PKH.

Lemma P2PKH_spend_witness :
  let pk := replicate 32 x07 in
  let msg := replicate 32 x09 in
  let prog := z2b <$> ([0x76; 0xab; 20] ++ replicate 20 0x2c ++ [0x88; 0xae; 0x7c; 0xac]) in
  let ctx := mkContext (S := ValueStore) 1 prog [] [pk ++ msg; resize 32 x07 pk] prog None None None None None
               None None (Some msg) None in
  exists g, Verify (S := ValueStore) (U := ZUint256) (C := StubCrypto) 8 ctx 6000 tt
            = (Some (Verdict g (Some ErrVerifyFailed)), tt).
Proof.
  intros pk msg prog ctx.
  apply (P2PKH_spend (U := ZUint256) (C := StubCrypto) ctx prog (replicate 20 x2c) msg (pk ++ msg)
           (resize 32 x07 pk) 6000 8); vm_compute; try reflexivity; split || discriminate; discriminate.
Defined.

(** ** CHECKMULTISIG *)

Section CheckMultiSig.
Context {U : Uint256} {UL : Uint256Laws U} {C : Crypto} {CL : CryptoLaws C}.

Abbreviation VS := ValueStore.
#[local] Instance some_unit' : SomeHeap VS := tt.

(** Items and stacks small enough for exact gas arithmetic. *)
Definition small (i : bytes) : Prop := zlen i <= 1000.

Lemma scost_small (l : list bytes) : Forall small l -> scost (S := VS) l <= 1008 * zlen l.
Proof.
  induction 1 as [|i l Hi Hl IH]; [done|]. rewrite (scost_cons (S := VS)), zlen_cons. unfold small in Hi.
  cbn [st_len ValueStore]. lia.
Qed.

Lemma x_pop_list v0 v rl df l rest (Q : res (list bytes) -> vm VS -> Prop) :
  ex v0 v rl df (l ++ rest) -> Forall small l -> -1000000000000 + 1008 * zlen l <= df <= MaxInt32 ->
  0 <= rl <= MaxInt32 ->
  (forall v', ex v0 v' rl (df - scost (S := VS) l) rest -> Q (Ok l) v') ->
  wp (S := VS) (pop_list (S := VS) (length l)) Q v.
Proof.
  intros E Hl. revert v df Q E. induction Hl as [|i l Hi Hl IH]; intros v df Q E Hd Hr HQ; cbn [length pop_list].
  - apply wp_ret, HQ. change (scost []) with 0. by rewrite Z.sub_0_r.
  - rewrite zlen_cons in Hd. unfold small in Hi. pose proof (zlen_nonneg l). pose proof (zlen_nonneg i).
    apply wp_bind. eapply x_pop; [exact E|words; lia|words; lia|words; lia|]. clear E. intros v' E. cbv iota in E.
    apply wp_bind, (IH _ _ _ E); [lia|lia|]. clear E. intros v'' E. apply wp_ret, HQ.
    rewrite (scost_cons (S := VS)). cbn [st_len ValueStore]. by rewrite Z.sub_add_distr.
Qed.

Lemma vwp_read_list (l : list bytes) (Q : res (list bytes) -> vm VS -> Prop) v :
  Q (Ok l) v -> wp (S := VS) (read_list (S := VS) l) Q v.
Proof.
  revert Q. induction l as [|i l IH]; intros Q HQ; cbn [read_list]; [by apply wp_ret|].
  apply wp_bind, vwp_read, wp_bind, IH, wp_ret, HQ.
Qed.

(** An item that encodes a small integer. *)
Definition encodes (i : bytes) (n : Z) : Prop :=
  zlen i <= 32 /\ exists m, AsBigInt i = Ok m /\ uval m = n.

Lemma x_popInt64 v0 v rl df ds i n (Q : res Z -> vm VS -> Prop) :
  ex v0 v rl df (i :: ds) -> encodes i n -> n <= MaxInt64 -> - MaxInt64 + 2 * MaxInt32 <= df <= MaxInt32 ->
  0 <= rl <= MaxInt32 ->
  (forall v', ex v0 v' rl (df - (8 + zlen i)) ds -> Q (Ok n) v') ->
  wp (S := VS) (popInt64 (S := VS)) Q v.
Proof.
  intros E (Hi & m & Hm & Hn) Hle Hd Hr HQ. unfold popInt64, popBigInt. apply wp_bind, wp_bind.
  eapply x_pop; [exact E|words; lia|words; lia|words; lia|]. clear E. intros v' E. cbv iota in E.
  apply wp_bind, vwp_read, wp_lift. rewrite Hm. apply wp_lift. rewrite bigIntInt64_spec, Hn.
  replace (n <=? MaxInt64) with true by lia. by apply HQ.
Qed.

(** CHECKMULTISIG with M signatures and N keys pushes true exactly when all
    keys have 32 bytes and some M of them, in their order, verify the signatures
    one for one; it costs 1024 per key. *)
Theorem CHECKMULTISIG_spec (v : vm VS) (N M msg : bytes) (keys sigs rest : list bytes) :
  vm_dataStack v = N :: M :: keys ++ msg :: sigs ++ rest ->
  encodes N (zlen keys) -> encodes M (zlen sigs) ->
  1 <= zlen sigs <= zlen keys -> zlen keys <= 1000 ->
  Forall small keys -> Forall small sigs -> zlen msg = 32 ->
  vm_deferredCost v = 0 -> 1024 * zlen keys <= vm_runLimit v <= MaxInt32 ->
  exists b v', opCheckMultiSig (S := VS) (tt, v) = (Ok tt, (tt, v'))
    /\ vm_dataStack v' = BoolBytes b :: rest
    /\ vm_runLimit v' = vm_runLimit v - 1024 * zlen keys
    /\ (b = true <-> Forall (fun k => zlen k = 32) keys /\ exists ks, signed_by msg sigs keys ks).
Proof.
  intros Hds HN HM Hms Hk Hkeys Hsigs Hmsg Hdf Hrl.
  enough (Hw : wp (S := VS) (opCheckMultiSig (S := VS)) (fun r v' => r = Ok tt /\ exists b,
      vm_dataStack v' = BoolBytes b :: rest /\ vm_runLimit v' = vm_runLimit v - 1024 * zlen keys
      /\ (b = true <-> Forall (fun k => zlen k = 32) keys /\ exists ks, signed_by msg sigs keys ks)) v).
  { specialize (Hw tt). destruct (opCheckMultiSig _) as [r [[] v']]. cbn [fst snd] in Hw.
    destruct Hw as (-> & b & ?). by exists b, v'. }
  assert (E : ex v v (vm_runLimit v) 0 (N :: M :: keys ++ msg :: sigs ++ rest)) by (by split).
  pose proof (scost_small _ Hkeys). pose proof (scost_small _ Hsigs).
  pose proof (scost_nonneg (S := VS) keys). pose proof (scost_nonneg (S := VS) sigs).
  unfold opCheckMultiSig. apply wp_bind. eapply x_popInt64; [exact E|exact HN|words; lia..|].
  clear E. intros v1 E. destruct HN as [HN _]. pose proof (zlen_nonneg N).
  destruct (MulInt64 (zlen keys) 1024) as [c|] eqn:Hc; [|by rewrite MulInt64_small in Hc by (unfold int64; words; lia)].
  apply MulInt64_cost in Hc as [-> _]; [|words; lia]. replace (zlen keys <? 0) with false by lia.
  xs. xs. apply wp_bind. eapply x_popInt64; [exact E|exact HM|words; lia..|].
  clear E. intros v2 E. destruct HM as [HM _]. pose proof (zlen_nonneg M).
  replace ((zlen sigs <? 0) || (zlen sigs >? zlen keys) || ((zlen keys >? 0) && (zlen sigs =? 0))) with false by lia.
  replace (Z.to_nat (zlen keys)) with (length keys) by (unfold zlen; lia). apply wp_bind.
  eapply x_pop_list; [exact E|done|words; lia|words; lia|]. clear E. intros v3 E.
  xs. xs. cbn [st_len ValueStore]. rewrite Hmsg. cbn [Z.eqb Pos.eqb negb].
  replace (Z.to_nat (zlen sigs)) with (length sigs) by (unfold zlen; lia). apply wp_bind.
  eapply x_pop_list; [exact E|done|words; lia|words; lia|]. clear E. intros v4 E. unfold PublicKeySize.
  match goal with |- context [existsb ?f ?l] =>
    change (existsb f l) with (existsb (fun p : bytes => negb (zlen p =? 32)) keys) end.
  destruct (existsb (fun p : bytes => negb (zlen p =? 32)) keys) eqn:Hex.
  - eapply x_pushBool; [exact E|words; lia|words; lia|]. intros v5 E5. split; [done|].
    exists false. split_and!; [exact (ex_ds _ _ _ _ _ E5)|rewrite (ex_rl _ _ _ _ _ E5); lia|].
    split; [done|]. intros [Hall _]. apply existsb_exists in Hex as (k & Hin & Hk').
    rewrite List.Forall_forall in Hall. apply Hall in Hin. zbool. done.
  - xs. xs. apply wp_bind, vwp_read_list, wp_bind, vwp_read_list.
    eapply x_pushBool; [exact E|words; lia|words; lia|]. intros v5 E5. split; [done|].
    exists (multisig_match msg sigs keys).
    split_and!; [exact (ex_ds _ _ _ _ _ E5)|rewrite (ex_rl _ _ _ _ _ E5); lia|].
    rewrite multisig_match_iff. split; [|by intros [_ ?]]. intros ?. split; [|done].
    apply List.Forall_forall. intros k Hin. destruct (Z.eqb_spec (zlen k) 32) as [|Hne]; [done|].
    exfalso. enough (existsb (fun p => negb (zlen p =? 32)) keys = true) by congruence.
    apply existsb_exists. exists k. split; [done|]. apply negb_true_iff. lia.
Qed.
End CheckMultiSig.

Lemma CHECKMULTISIG_spec_witness :
  let key n := replicate 32 n in
  let msg := replicate 32 x09 in
  let v := set_dataStack (S := ValueStore)
             ([[x03]; [x02]] ++ [key x01; key x02; key x03] ++ msg :: [key x01 ++ msg; key x03 ++ msg] ++ [])
             (init_vm (plain_context (S := ValueStore) [] []) 5000) in
  exists b v', opCheckMultiSig (S := ValueStore) (U := ZUint256) (C := StubCrypto) (tt, v) = (Ok tt, (tt, v'))
    /\ vm_dataStack v' = [BoolBytes b]
    /\ vm_runLimit v' = 5000 - 1024 * 3
    /\ (b = true <-> Forall (fun k => zlen k = 32) [key x01; key x02; key x03]
                     /\ exists ks, signed_by (C := StubCrypto) msg [key x01 ++ msg; key x03 ++ msg] [key x01; key x02; key x03] ks).
Proof.
  intros key msg v.
  refine (CHECKMULTISIG_spec (U := ZUint256) (C := StubCrypto) v [x03] [x02] msg
            [key x01; key x02; key x03] [key x01 ++ msg; key x03 ++ msg] []
            eq_refl _ _ _ _ _ _ eq_refl eq_refl _).
  - split; [discriminate|]. exists (SetBytes (Uint256 := ZUint256) [x03]). by split.
  - split; [discriminate|]. exists (SetBytes (Uint256 := ZUint256) [x02]). by split.
  - split; discriminate.
  - discriminate.
  - repeat constructor; discriminate.
  - repeat constructor; discriminate.
  - split; discriminate.
Defined.
