(* ===== verification/Numeric.v ===== *)
(** * The arithmetic opcodes against integer arithmetic

    The reference semantics of [numeric.go]: what each opcode computes on
    mathematical integers in [0, 2^255), the range the machine accepts, with its
    errors.  The opcode functions, which work on 256-bit words, are shown to
    agree with it on every operand, malformed ones included. *)

From S2P Require Import Prelude Checked GoSlice VMTypes Opcode Machine Ops Interp Gas Script Spend.
From Stdlib Require Import Strings.Byte.

(** ** Reference semantics *)

Inductive num_result :=
  | NumInt (z : Z)
  | NumBool (b : bool)
  | NumNone            (* nothing is pushed *)
  | NumErr (e : error).

(** An integer result must lie in the machine's range. *)
Definition int255 (z : Z) : num_result := if (0 <=? z) && (z <? 2 ^ 255) then NumInt z else NumErr ErrRange.

Definition unary (g : Z -> num_result) (l : list Z) : num_result :=
  match l with [x] => g x | _ => NumNone end.
Definition binary (g : Z -> Z -> num_result) (l : list Z) : num_result :=
  match l with [y; x] => g x y | _ => NumNone end.
Definition ternary (g : Z -> Z -> Z -> num_result) (l : list Z) : num_result :=
  match l with [z; y; x] => g x y z | _ => NumNone end.

(** The number of operands, the cost, and the result from the operands (the top
    of the stack first).  LSHIFT alone is not integer arithmetic: bits shifted
    beyond the 256th are lost without an error. *)
Definition num_op (f : opFn) : option (nat * Z * (list Z -> num_result)) :=
  match f with
  | fn_op1Add => Some (1%nat, 2, unary (fun x => int255 (x + 1)))
  | fn_op1Sub => Some (1%nat, 2, unary (fun x => int255 (x - 1)))
  | fn_op2Mul => Some (1%nat, 2, unary (fun x => int255 (2 * x)))
  | fn_op2Div => Some (1%nat, 2, unary (fun x => NumInt (x / 2)))
  | fn_opNot => Some (1%nat, 2, unary (fun x => NumBool (x =? 0)))
  | fn_op0NotEqual => Some (1%nat, 2, unary (fun x => NumBool (negb (x =? 0))))
  | fn_opAdd => Some (2%nat, 2, binary (fun x y => int255 (x + y)))
  | fn_opSub => Some (2%nat, 2, binary (fun x y => int255 (x - y)))
  | fn_opMul => Some (2%nat, 8, binary (fun x y => int255 (x * y)))
  | fn_opDiv => Some (2%nat, 8, binary (fun x y => if y =? 0 then NumErr ErrDivZero else NumInt (x / y)))
  | fn_opMod => Some (2%nat, 8, binary (fun x y => if y =? 0 then NumErr ErrDivZero else NumInt (x mod y)))
  | fn_opLshift => Some (2%nat, 8, binary (fun x y => int255 (if y <? 256 then (x * 2 ^ y) mod 2 ^ 256 else 0)))
  | fn_opRshift => Some (2%nat, 8, binary (fun x y => NumInt (x / 2 ^ y)))
  | fn_opNumEqual => Some (2%nat, 2, binary (fun x y => NumBool (x =? y)))
  | fn_opNumNotEqual => Some (2%nat, 2, binary (fun x y => NumBool (negb (x =? y))))
  | fn_opNumEqualVerify => Some (2%nat, 2, binary (fun x y => if x =? y then NumNone else NumErr ErrVerifyFailed))
  | fn_opLessThan => Some (2%nat, 2, binary (fun x y => NumBool (x <? y)))
  | fn_opGreaterThan => Some (2%nat, 2, binary (fun x y => NumBool (y <? x)))
  | fn_opLessThanOrEqual => Some (2%nat, 2, binary (fun x y => NumBool (x <=? y)))
  | fn_opGreaterThanOrEqual => Some (2%nat, 2, binary (fun x y => NumBool (y <=? x)))
  | fn_opMin => Some (2%nat, 2, binary (fun x y => NumInt (Z.min x y)))
  | fn_opMax => Some (2%nat, 2, binary (fun x y => NumInt (Z.max x y)))
  | fn_opWithin => Some (3%nat, 4, ternary (fun x min max => NumBool ((min <=? x) && (x <? max))))
  | _ => None
  end.

(** The integer an item stands for. *)
Definition decode (b : bytes) : Z + error :=
  if 32 <? zlen b then inr ErrBadValue
  else if 2 ^ 255 <=? le_val b then inr ErrRange
  else inl (le_val b).

(** The operands, or the error of the first that is malformed. *)
Fixpoint decode_all (l : list bytes) : list Z + error :=
  match l with
  | [] => inl []
  | b :: l' => match decode b with
               | inr e => inr e
               | inl x => match decode_all l' with inr e => inr e | inl xs => inl (x :: xs) end
               end
  end.

(** The item a result is pushed as: the shortest little-endian encoding. *)
Definition canonical (b : bytes) (z : Z) : Prop := le_val b = z /\ last b <> Some x00.

Definition operands_cost (l : list bytes) : Z := foldr (fun b n => 8 + zlen b + n) 0 l.

Section Numeric.
Context {U : Uint256} {UL : Uint256Laws U} {C : Crypto} {CL : CryptoLaws C}.

Abbreviation VS := ValueStore.

(** The machine after an arithmetic opcode on [args] that left [rest]. *)
Definition num_post (v : vm VS) (cost : Z) (g : list Z -> num_result) (args rest : list bytes)
    (r : res unit) (v' : vm VS) : Prop :=
  match decode_all args with
  | inr e => r = Err e
  | inl xs =>
      match g xs with
      | NumErr e => r = Err e
      | NumNone => r = Ok tt /\ ex v v' (vm_runLimit v - cost) (- operands_cost args) rest
      | NumBool c => r = Ok tt
          /\ ex v v' (vm_runLimit v - cost) (8 + zlen (BoolBytes c) - operands_cost args) (BoolBytes c :: rest)
      | NumInt z => r = Ok tt /\ exists b, canonical b z
          /\ ex v v' (vm_runLimit v - cost) (8 + zlen b - operands_cost args) (b :: rest)
      end
  end.

Lemma decode_spec b :
  match AsBigInt b with
  | Ok n => decode b = inl (uval n) /\ uval n < 2 ^ 255
  | Err e => decode b = inr e
  | _ => False
  end.
Proof.
  pose proof (AsBigInt_spec b) as Hs. unfold decode. destruct (AsBigInt b) as [n|e| |]; [| |done|done].
  - destruct Hs as (Hl & Hv & Hb). replace (32 <? zlen b) with false by lia.
    replace (2 ^ 255 <=? le_val b) with false by lia. by rewrite Hv.
  - destruct e; try done.
    + by replace (32 <? zlen b) with true by lia.
    + replace (32 <? zlen b) with false by lia. by replace (2 ^ 255 <=? le_val b) with true by lia.
Qed.

Lemma BigIntBytes_canonical n : canonical (BigIntBytes n) (uval n).
Proof.
  split; [apply BigIntBytes_val|]. unfold BigIntBytes. destruct (Bytes n) as [|b l] eqn:Hb; [done|].
  rewrite reverse_cons, last_snoc. intros [= ->]. by eapply Bytes_minimal.
Qed.

#[local] Instance some_unit_n : SomeHeap VS := tt.

Section Step.
Context (v0 v : vm VS) (rl df : Z) (ds : list bytes).

Lemma x_popBigInt i (Q : res u256 -> vm VS -> Prop) :
  ex v0 v rl df (i :: ds) -> zlen i <= MaxInt32 -> - MaxInt64 + 2 * MaxInt32 <= df <= MaxInt32 ->
  0 <= rl <= MaxInt32 ->
  (forall v' m, ex v0 v' rl (df - (8 + zlen i)) ds -> decode i = inl (uval m) -> 0 <= uval m < 2 ^ 255 -> Q (Ok m) v') ->
  (forall v' e, decode i = inr e -> Q (Err e) v') ->
  wp (S := VS) (popBigInt (S := VS) true) Q v.
Proof.
  intros E Hi Hd Hr HQ HQe. unfold popBigInt. apply wp_bind.
  eapply x_pop; [exact E|words; lia|words; lia|words; lia|]. clear E. intros v' E. cbv iota in E.
  apply wp_bind, vwp_read, wp_lift. pose proof (decode_spec i) as Hdec.
  destruct (AsBigInt i) as [m|e| |]; [|by apply HQe|done|done].
  pose proof (uval_range m). destruct Hdec. eapply HQ; [exact E|done|lia].
Qed.

Lemma x_pushBigInt n (Q : res unit -> vm VS -> Prop) :
  ex v0 v rl df ds -> - MaxInt64 <= df <= MaxInt32 -> rl <= MaxInt64 ->
  (forall v' b, canonical b (uval n) -> ex v0 v' rl (8 + zlen b + df) (b :: ds) -> Q (Ok tt) v') ->
  wp (S := VS) (pushBigInt (S := VS) n true) Q v.
Proof.
  intros E Hd Hr HQ. unfold pushBigInt. apply wp_bind, vwp_alloc. pose proof (BigIntBytes_len n).
  eapply x_push; [exact E|words; lia|exact Hd|exact Hr|exact I|]. cbv iota. intros v' E'.
  eapply HQ; [apply BigIntBytes_canonical|]. by rewrite (Z.add_comm (8 + _)).
Qed.
End Step.

Lemma ex_df_eq v0 v rl df df' ds : ex v0 v rl df ds -> df = df' -> ex v0 v rl df' ds.
Proof. by intros ? <-. Qed.

(** How an opcode may end, once its operands are decoded. *)
Section Ends.
Context (v v1 : vm VS) (cost : Z) (g : list Z -> num_result) (args rest : list bytes) (xs : list Z).
Context (Hxs : decode_all args = inl xs) (Hc : 0 <= operands_cost args <= MaxInt32) (Hr : vm_runLimit v - cost <= MaxInt32).
Context (E : ex v v1 (vm_runLimit v - cost) (- operands_cost args) rest).

Lemma end_bool c : g xs = NumBool c -> wp (S := VS) (pushBool (S := VS) c true) (num_post v cost g args rest) v1.
Proof.
  intros Hg. eapply x_pushBool; [exact E|words; lia|words; lia|]. intros v' E'. unfold num_post. rewrite Hxs, Hg.
  split; [done|]. by rewrite Z.add_comm in E'.
Qed.

Lemma end_int n : g xs = NumInt (uval n) -> wp (S := VS) (pushBigInt (S := VS) n true) (num_post v cost g args rest) v1.
Proof.
  intros Hg. eapply x_pushBigInt; [exact E|words; lia|words; lia|]. intros v' b Hb E'. unfold num_post. rewrite Hxs, Hg.
  split; [done|]. by exists b.
Qed.

Lemma end_err e : g xs = NumErr e -> wp (S := VS) (throw e) (num_post v cost g args rest) v1.
Proof using Hxs Hc Hr E. intros Hg. apply wp_throw. unfold num_post. by rewrite Hxs, Hg. Qed.

Lemma end_none : g xs = NumNone -> wp (S := VS) (mret tt) (num_post v cost g args rest) v1.
Proof using Hxs Hc Hr E. intros Hg. apply wp_ret. unfold num_post. by rewrite Hxs, Hg. Qed.

(** The sign test on a 256-bit result recovers the range test on the integer. *)
Lemma end_signed n z :
  g xs = int255 z -> uval n = z mod 2 ^ 256 -> - 2 ^ 255 <= z < 2 ^ 256 ->
  wp (S := VS) (push_signed (S := VS) n) (num_post v cost g args rest) v1.
Proof.
  intros Hg Hn Hz. unfold push_signed. rewrite Sign_uval, Hn. unfold int255 in Hg.
  destruct (decide (0 <= z)) as [Hz0|Hz0].
  - rewrite Z.mod_small by lia. destruct (Z.ltb_spec z (2 ^ 255)) as [Hlt|Hge].
    + replace (_ <? 0) with false by (destruct (z =? 0); done). apply end_int.
      rewrite Hn, Z.mod_small by lia. rewrite Hg. by replace (0 <=? z) with true by lia.
    + replace (z =? 0) with false by lia. apply end_err. rewrite Hg. by rewrite andb_false_r.
  - replace (z mod 2 ^ 256) with (z + 2 ^ 256) by (apply (Z.mod_unique _ _ (-1)); lia).
    replace (z + 2 ^ 256 =? 0) with false by lia. replace (z + 2 ^ 256 <? 2 ^ 255) with false by lia.
    apply end_err. rewrite Hg. by replace (0 <=? z) with false by lia.
Qed.
End Ends.
End Numeric.

(** Pops one operand; a malformed one ends the opcode. *)
Ltac num_pop :=
  match goal with
  | E : ex _ ?w _ _ _ |- wp _ _ ?w =>
      apply wp_bind; eapply x_popBigInt;
        [exact E|words; lia|words; lia|words; lia|
        |intros ? ? Hd; unfold num_post; cbn [decode_all];
         repeat match goal with H : decode _ = _ |- _ => rewrite H end; reflexivity];
      clear E; let m := fresh "m" in let Hm := fresh "Hm" in let Hb := fresh "Hb" in
      intros ? m E Hm Hb
  end.

(** Collects the decoded operands and puts the accumulated gas in the form of the
    lemmas above. *)
Ltac num_ready :=
  match goal with
  | E : ex ?v ?w _ _ ?rest |- wp _ (num_post _ ?cost ?g ?args _) ?w =>
      let Hx := fresh "Hx" in
      eassert (decode_all args = inl _) as Hx
        by (cbn [decode_all]; repeat match goal with H : decode _ = _ |- _ => rewrite H end; reflexivity);
      assert (ex v w (vm_runLimit v - cost) (- operands_cost args) rest) as E0
        by (eapply ex_df_eq; [exact E|unfold operands_cost; cbn [foldr]; lia]);
      assert (0 <= operands_cost args <= MaxInt32) by (unfold operands_cost; cbn [foldr]; words; lia);
      assert (vm_runLimit v - cost <= MaxInt32) by lia;
      clear E; rename E0 into E; cbv zeta
  end.

(** Ends an opcode with the lemma for its last call. *)
Tactic Notation "num_end" uconstr(lem) :=
  lazymatch goal with
  | Hx : decode_all ?args = inl ?xs, Hc : 0 <= operands_cost ?args <= MaxInt32, Hr : _ - ?cost <= MaxInt32,
    E : ex ?v ?w _ _ ?rest |- wp _ (num_post ?v ?cost ?g ?args ?rest) ?w =>
      eapply (lem v w cost g args rest xs Hx Hc Hr E); cbn [unary binary ternary]
  end.

(** Comparisons of decoded operands. *)
Ltac num_compare :=
  rewrite ?Cmp_uval, ?uval_NewInt by (words; lia); cbn [cmp_result];
  repeat match goal with
    | |- context [if ?b then _ else _] => let H := fresh in destruct b eqn:H; zbool
    end;
  cbn; f_equal; lia.

Section Spec.
Context {U : Uint256} {UL : Uint256Laws U} {C : Crypto} {CL : CryptoLaws C}.

Abbreviation VS := ValueStore.
#[local] Instance some_unit_s : SomeHeap VS := tt.

Lemma numeric_wp run f n cost g (v : vm VS) (args rest : list bytes) :
  num_op f = Some (n, cost, g) -> length args = n ->
  vm_dataStack v = args ++ rest -> Forall small args ->
  vm_deferredCost v = 0 -> cost <= vm_runLimit v <= MaxInt32 ->
  wp (S := VS) (exec (S := VS) run f) (num_post v cost g args rest) v.
Proof.
  intros Hf Hn Hds Hargs Hdf Hrl.
  assert (E : ex v v (vm_runLimit v) 0 (args ++ rest)) by (by split).
  destruct f; simplify_eq/=;
    repeat (destruct args as [|? args]; simplify_eq/=; try discriminate);
    repeat match goal with H : Forall small (_ :: _) |- _ => apply Forall_cons in H as [? H] end;
    unfold small in *;
    repeat match goal with H : zlen ?b <= 1000 |- _ =>
      lazymatch goal with _ : 0 <= zlen b |- _ => fail | _ => pose proof (zlen_nonneg b) end end;
    unfold op1Add, op1Sub, op2Mul, op2Div, opNot, op0NotEqual, opAdd, opSub, opMul, opDiv, opMod, opLshift, opRshift,
      opNumEqual, opNumNotEqual, opNumEqualVerify, opLessThan, opGreaterThan, opLessThanOrEqual,
      opGreaterThanOrEqual, doNumCompare, opMin, opMax, opWithin;
    xs; xs; repeat num_pop; num_ready.
  (* 1ADD, 1SUB, 2MUL, 2DIV, NOT, 0NOTEQUAL *)
  - num_end end_signed; [done|by rewrite uAdd_uval, uval_NewInt by (words; lia)|lia].
  - num_end end_signed; [done|by rewrite uSub_uval, uval_NewInt by (words; lia)|lia].
  - num_end end_signed; [done|by rewrite uMul_uval, uval_NewInt, Z.mul_comm by (words; lia)|lia].
  - num_end end_int. by rewrite Rsh_uval by lia.
  - num_end end_bool. num_compare.
  - num_end end_bool. num_compare.
  (* ADD, SUB, MUL, DIV, MOD, LSHIFT, RSHIFT *)
  - num_end end_signed; [done|by rewrite uAdd_uval|lia].
  - num_end end_signed; [done|by rewrite uSub_uval|lia].
  - pose proof (MulOverflow_uval m0 m) as [Hp Ho]. destruct (MulOverflow m0 m) as [p o]. cbn [fst snd] in Hp, Ho.
    subst o. destruct (Z.leb_spec (2 ^ 256) (uval m0 * uval m)); cbn [orb].
    + num_end end_err. unfold int255. replace (uval m0 * uval m <? 2 ^ 255) with false by lia. by rewrite andb_false_r.
    + change (if Sign p <? 0 then _ else _) with (push_signed (S := VS) p). num_end end_signed; [done|done|nia].
  - rewrite IsZero_uval. destruct (Z.eqb_spec (uval m) 0) as [Hz|Hz].
    + num_end end_err. by rewrite Hz.
    + num_end end_int. rewrite uDiv_uval by done. by replace (uval m =? 0) with false by lia.
  - rewrite IsZero_uval. destruct (Z.eqb_spec (uval m) 0) as [Hz|Hz].
    + num_end end_err. by rewrite Hz.
    + num_end end_int. rewrite uMod_uval by done. by replace (uval m =? 0) with false by lia.
  - rewrite LtUint64_uval. num_end end_signed; [done| |].
    + destruct (Z.ltb_spec (uval m) 256); [|by rewrite uval_NewInt by (words; lia)].
      by rewrite Lsh_uval, Uint64_uval, u64_id, Zmod_mod by (rewrite ?Uint64_uval, ?u64_id; words; lia).
    + destruct (uval m <? 256); [|lia]. pose proof (Z.mod_pos_bound (uval m0 * 2 ^ uval m) (2 ^ 256) ltac:(lia)). lia.
  - rewrite LtUint64_uval. num_end end_int. destruct (Z.ltb_spec (uval m) 256).
    + by rewrite Rsh_uval, Uint64_uval, u64_id by (rewrite ?Uint64_uval, ?u64_id; words; lia).
    + rewrite uval_NewInt by (words; lia). rewrite Z.div_small; [done|].
      split; [lia|]. eapply Z.lt_le_trans; [apply Hb0|]. apply Z.pow_le_mono_r; lia.
  (* the comparisons *)
  - num_end end_bool. num_compare.
  - rewrite Eq_uval. destruct (uval m0 =? uval m) eqn:He.
    + num_end end_none. by rewrite He.
    + num_end end_err. by rewrite He.
  - num_end end_bool. num_compare.
  - num_end end_bool. num_compare.
  - num_end end_bool. num_compare.
  - num_end end_bool. num_compare.
  - num_end end_bool. num_compare.
  (* MIN, MAX, WITHIN *)
  - destruct (Z.gtb_spec (Cmp m0 m) 0) as [Hcmp|Hcmp]; num_end end_int; f_equal; rewrite Cmp_uval in Hcmp;
      destruct (Z.ltb_spec (uval m0) (uval m)), (Z.eqb_spec (uval m0) (uval m)); lia.
  - destruct (Z.ltb_spec (Cmp m0 m) 0) as [Hcmp|Hcmp]; num_end end_int; f_equal; rewrite Cmp_uval in Hcmp;
      destruct (Z.ltb_spec (uval m0) (uval m)), (Z.eqb_spec (uval m0) (uval m)); lia.
  - num_end end_bool. num_compare.
Qed.

(** C31.  Every arithmetic opcode computes its reference semantics on mathematical
    integers, for operands of at most 1000 bytes on top of any stack, with no
    deferred cost and a run limit that covers the opcode's cost and is at most
    2^31 - 1: the result is pushed in its shortest encoding, a comparison as a
    boolean; the error is that of the first malformed operand or the opcode's own;
    the opcode's cost is paid, the operands' cost refunded and the result's
    charged. *)
Theorem numeric_spec run f n cost g (v : vm VS) (args rest : list bytes) :
  num_op f = Some (n, cost, g) -> length args = n ->
  vm_dataStack v = args ++ rest -> Forall small args ->
  vm_deferredCost v = 0 -> cost <= vm_runLimit v <= MaxInt32 ->
  exists r v', exec (S := VS) run f (tt, v) = (r, (tt, v')) /\ num_post v cost g args rest r v'.
Proof.
  intros H1 H2 H3 H4 H5 H6. pose proof (numeric_wp run f n cost g v args rest H1 H2 H3 H4 H5 H6 tt) as Hw.
  destruct (exec _ _ _) as [r [[] v']]. by exists r, v'.
Qed.

Lemma canonical_pos (b : byte) (l : bytes) : last (b :: l) <> Some x00 -> 0 < le_val (b :: l).
Proof.
  revert b. induction l as [|c l IH]; intros b Hl; rewrite le_val_cons; pose proof (b2z_range b).
  - change (le_val []) with 0. enough (b2z b <> 0) by lia. intros Hz. apply Hl. cbn. f_equal.
    by apply b2z_inj.
  - specialize (IH c Hl). lia.
Qed.

Lemma canonical_unique b c z : canonical b z -> canonical c z -> b = c.
Proof.
  revert c z. induction b as [|x b IH]; intros [|y c] z [Hb1 Hb2] [Hc1 Hc2]; [done| | |].
  - apply canonical_pos in Hc2. change (le_val []) with 0 in Hb1. lia.
  - apply canonical_pos in Hb2. change (le_val []) with 0 in Hc1. lia.
  - rewrite le_val_cons in Hb1, Hc1. pose proof (b2z_range x). pose proof (b2z_range y).
    assert (Hxy : b2z x = b2z y).
    { rewrite <- (Z.mod_small (b2z x) 256), <- (Z.mod_small (b2z y) 256) by done.
      rewrite <- (Z_mod_plus_full (b2z x) (le_val b) 256), <- (Z_mod_plus_full (b2z y) (le_val c) 256). f_equal. lia. }
    f_equal; [by apply b2z_inj|]. apply (IH c (le_val b)); split; try lia.
    + destruct b; [done|exact Hb2].
    + destruct c; [done|exact Hc2].
Qed.

(** The integers on the stack round-trip: [BigIntBytes] is decoded back by
    [AsBigInt] to the same integer, and it is the only encoding of the integer
    without a trailing zero byte. *)
Theorem BigIntBytes_roundtrip (n : u256) :
  uval n < 2 ^ 255 ->
  (exists m, AsBigInt (BigIntBytes n) = Ok m /\ uval m = uval n)
  /\ canonical (BigIntBytes n) (uval n)
  /\ forall b, canonical b (uval n) -> b = BigIntBytes n.
Proof.
  intros Hn. split_and!.
  - pose proof (AsBigInt_spec (BigIntBytes n)) as Hs. rewrite BigIntBytes_val in Hs. pose proof (BigIntBytes_len n).
    destruct (AsBigInt (BigIntBytes n)) as [m|[]| |]; try done; [|lia..]. exists m. split; [done|lia].
  - apply BigIntBytes_canonical.
  - intros b Hb. eapply canonical_unique; [exact Hb|apply BigIntBytes_canonical].
Qed.
End Spec.

Lemma numeric_spec_witness :
  let v := set_dataStack (S := ValueStore) [[x03]; [x00; x01]; [x09]]
             (init_vm (plain_context (S := ValueStore) [] []) 500) in
  exists r v', exec (S := ValueStore) (U := ZUint256) (C := StubCrypto) (mret tt) fn_opSub (tt, v) = (r, (tt, v'))
    /\ num_post v 2 (binary (fun x y => int255 (x - y))) [[x03]; [x00; x01]] [[x09]] r v'.
Proof.
  intros v.
  apply (numeric_spec (U := ZUint256) (C := StubCrypto) (mret tt) fn_opSub 2 2
           (binary (fun x y => int255 (x - y))) v [[x03]; [x00; x01]] [[x09]] eq_refl eq_refl eq_refl).
  - repeat constructor; discriminate.
  - reflexivity.
  - split; discriminate.
Defined.

Lemma BigIntBytes_roundtrip_witness :
  (exists m, AsBigInt (U := ZUint256) (BigIntBytes (U := ZUint256) 513) = Ok m /\ uval (Uint256Laws := ZUint256_laws) m = 513)
  /\ BigIntBytes (U := ZUint256) 513 = [x01; x02].
Proof.
  destruct (BigIntBytes_roundtrip (U := ZUint256) (UL := ZUint256_laws) 513 ltac:(vm_compute; reflexivity)) as (H & _ & H2).
  split; [exact H|]. symmetry. apply H2. split; [reflexivity|discriminate].
Defined.
