(* ===== verification/Utxo.v ===== *)
(** * The unspent-output view of a block: protocol/state/utxo_view.go

    [UtxoViewpoint] is a finite map from output hashes to entries.  Every
    operation returns the view it leaves together with the error, since the Go
    methods mutate the view before they fail.  The abstract specification is
    the set of unspent outputs: [unspent] maps a view to it, and the operations
    are shown to refine set operations on it. *)

From S2P Require Import Prelude.

(** The error strings of the package, in the order of the source. *)
Inductive utxo_error :=
  | ErrNoEntry            (* "fail to find utxo entry" *)
  | ErrSpent              (* "utxo has been spent" *)
  | ErrCoinbasePending    (* "coinbase utxo is not ready for use" *)
  | ErrVotePending        (* "Coin is  within the voting lock time" *)
  | ErrEntryType          (* bc.ErrEntryType *)
  | ErrRevertUnspent      (* "try to revert an unspent utxo" *).

(** The constants of [database/storage/utxo.go]. *)
Definition NormalUTXOType : Z := 0.
Definition CoinbaseUTXOType : Z := 1.
Definition VoteUTXOType : Z := 2.

Record UtxoEntry := mkUtxo { utxo_Type : Z; utxo_BlockHeight : Z; utxo_Spent : bool }.

Definition NewUtxoEntry (type height : Z) (spent : bool) : UtxoEntry := mkUtxo type height spent.
Definition SpendOutput (e : UtxoEntry) : UtxoEntry := mkUtxo (utxo_Type e) (utxo_BlockHeight e) true.
Definition UnspendOutput (e : UtxoEntry) : UtxoEntry := mkUtxo (utxo_Type e) (utxo_BlockHeight e) false.

(** consensus/general.go *)
Definition CoinbasePendingBlockNumber : Z := 10.
Definition defaultVotePendingNum : Z := 302400.

Record VotePendingBlockNum := mkPending { BeginBlock : Z; EndBlock : Z; Num : Z }.

(** The loop of [consensus.VotePendingBlockNums] over the active network's table. *)
Fixpoint VotePendingBlockNums (table : list VotePendingBlockNum) (height : Z) : Z :=
  match table with
  | [] => defaultVotePendingNum
  | p :: table' =>
      if (height >=? BeginBlock p) && (height <? EndBlock p) then Num p
      else VotePendingBlockNums table' height
  end.

Definition mainnet_pending : list VotePendingBlockNum :=
  [mkPending 0 432000 14400; mkPending 432000 MaxUint64 defaultVotePendingNum].

Section Utxo.
Context {Hash : Type} {Hash_eq : EqDecision Hash} {Hash_countable : Countable Hash}.

(** The entries of a transaction the view looks at; the amounts are those of the
    source of the output. *)
Inductive bc_entry :=
  | OriginalOutput (amount : Z)
  | VoteOutput (amount : Z)
  | OtherEntry.

Record bc_tx := mkTx {
  tx_ID : Hash;
  SpentOutputIDs : list Hash;
  ResultIds : list Hash;
  tx_Entries : gmap Hash bc_entry;
}.

Record bc_block := mkBlock { block_Height : Z; Transactions : list bc_tx }.

Abbreviation view := (gmap Hash UtxoEntry).

Definition NewUtxoViewpoint : view := ∅.

Context (pending : list VotePendingBlockNum).

(** The [switch entry.Type] of [applySpendUtxo]. *)
Definition maturity (block : bc_block) (e : UtxoEntry) : option utxo_error :=
  if utxo_Type e =? CoinbaseUTXOType then
    if u64 (utxo_BlockHeight e + CoinbasePendingBlockNumber) >? block_Height block
    then Some ErrCoinbasePending else None
  else if utxo_Type e =? VoteUTXOType then
    if u64 (utxo_BlockHeight e + VotePendingBlockNums pending (block_Height block)) >? block_Height block
    then Some ErrVotePending else None
  else None.

Fixpoint applySpendUtxo_loop (block : bc_block) (prevouts : list Hash) (v : view) : view * option utxo_error :=
  match prevouts with
  | [] => (v, None)
  | prevout :: rest =>
      match v !! prevout with
      | None => (v, Some ErrNoEntry)
      | Some entry =>
          if utxo_Spent entry then (v, Some ErrSpent)
          else match maturity block entry with
               | Some e => (v, Some e)
               | None => applySpendUtxo_loop block rest (<[prevout := SpendOutput entry]> v)
               end
      end
  end.

Definition applySpendUtxo (block : bc_block) (tx : bc_tx) (v : view) : view * option utxo_error :=
  applySpendUtxo_loop block (SpentOutputIDs tx) v.

(** The output the view keeps for an entry: its type and amount. *)
Definition output_type (e : bc_entry) : option (Z * Z) :=
  match e with
  | OriginalOutput amount => Some (NormalUTXOType, amount)
  | VoteOutput amount => Some (VoteUTXOType, amount)
  | OtherEntry => None
  end.

(** [block.Transactions[0].ID == tx.ID]. *)
Definition is_coinbase (block : bc_block) (tx : bc_tx) : bool :=
  match Transactions block with
  | [] => false
  | t0 :: _ => bool_decide (tx_ID t0 = tx_ID tx)
  end.

Fixpoint applyOutputUtxo_loop (block : bc_block) (tx : bc_tx) (ids : list Hash) (v : view) : view :=
  match ids with
  | [] => v
  | id :: rest =>
      let continue_ := applyOutputUtxo_loop block tx rest in
      match tx_Entries tx !! id with
      | None => continue_ v
      | Some entryOutput =>
          match output_type entryOutput with
          | None => continue_ v
          | Some (utxoType, amount) =>
              if amount =? 0 then continue_ v
              else
                let utxoType := if is_coinbase block tx then CoinbaseUTXOType else utxoType in
                continue_ (<[id := NewUtxoEntry utxoType (block_Height block) false]> v)
          end
      end
  end.

Definition applyOutputUtxo (block : bc_block) (tx : bc_tx) (v : view) : view * option utxo_error :=
  (applyOutputUtxo_loop block tx (ResultIds tx) v, None).

Definition ApplyTransaction (block : bc_block) (tx : bc_tx) (v : view) : view * option utxo_error :=
  match applySpendUtxo block tx v with
  | (v', Some e) => (v', Some e)
  | (v', None) => applyOutputUtxo block tx v'
  end.

Fixpoint apply_txs (block : bc_block) (txs : list bc_tx) (v : view) : view * option utxo_error :=
  match txs with
  | [] => (v, None)
  | tx :: rest =>
      match ApplyTransaction block tx v with
      | (v', Some e) => (v', Some e)
      | (v', None) => apply_txs block rest v'
      end
  end.

Definition ApplyBlock (block : bc_block) (v : view) : view * option utxo_error :=
  apply_txs block (Transactions block) v.

Definition CanSpend (hash : Hash) (v : view) : bool :=
  match v !! hash with Some e => negb (utxo_Spent e) | None => false end.

Definition HasUtxo (hash : Hash) (v : view) : bool := bool_decide (is_Some (v !! hash)).

Fixpoint detachSpendUtxo_loop (tx : bc_tx) (prevouts : list Hash) (v : view) : view * option utxo_error :=
  match prevouts with
  | [] => (v, None)
  | prevout :: rest =>
      match tx_Entries tx !! prevout with
      | None => (v, Some ErrNoEntry)
      | Some entryOutput =>
          match output_type entryOutput with
          | None => (v, Some ErrEntryType)
          | Some (utxoType, _) =>
              match v !! prevout with
              | Some entry =>
                  if negb (utxo_Spent entry) then (v, Some ErrRevertUnspent)
                  else detachSpendUtxo_loop tx rest (<[prevout := UnspendOutput entry]> v)
              | None => detachSpendUtxo_loop tx rest (<[prevout := NewUtxoEntry utxoType 0 false]> v)
              end
          end
      end
  end.

Definition detachSpendUtxo (tx : bc_tx) (v : view) : view * option utxo_error :=
  detachSpendUtxo_loop tx (SpentOutputIDs tx) v.

Fixpoint detachOutputUtxo_loop (tx : bc_tx) (ids : list Hash) (v : view) : view :=
  match ids with
  | [] => v
  | id :: rest =>
      let continue_ := detachOutputUtxo_loop tx rest in
      match tx_Entries tx !! id with
      | None => continue_ v
      | Some entryOutput =>
          match output_type entryOutput with
          | None => continue_ v
          | Some (utxoType, amount) =>
              if amount =? 0 then continue_ v
              else continue_ (<[id := NewUtxoEntry utxoType 0 true]> v)
          end
      end
  end.

Definition detachOutputUtxo (tx : bc_tx) (v : view) : view * option utxo_error :=
  (detachOutputUtxo_loop tx (ResultIds tx) v, None).

Definition DetachTransaction (tx : bc_tx) (v : view) : view * option utxo_error :=
  match detachSpendUtxo tx v with
  | (v', Some e) => (v', Some e)
  | (v', None) => detachOutputUtxo tx v'
  end.

Fixpoint detach_txs (txs : list bc_tx) (v : view) : view * option utxo_error :=
  match txs with
  | [] => (v, None)
  | tx :: rest =>
      match DetachTransaction tx v with
      | (v', Some e) => (v', Some e)
      | (v', None) => detach_txs rest v'
      end
  end.

(** From the last transaction to the first. *)
Definition DetachBlock (block : bc_block) (v : view) : view * option utxo_error :=
  detach_txs (reverse (Transactions block)) v.

(** ** database/utxo_view.go *)

(** A stored output, if there is one, and whether it unmarshals. *)
Definition utxo_db : Type := Hash -> option (option UtxoEntry).

(** [None] is the error of an output that does not unmarshal. *)
Fixpoint get_utxos (db : utxo_db) (prevouts : list Hash) (v : view) : option view :=
  match prevouts with
  | [] => Some v
  | prevout :: rest =>
      if HasUtxo prevout v then get_utxos db rest v
      else match db prevout with
           | None => get_utxos db rest v
           | Some None => None
           | Some (Some u) => get_utxos db rest (<[prevout := u]> v)
           end
  end.
(** For each transaction the outputs it spends. *)
Fixpoint getTransactionsUtxo (db : utxo_db) (txs : list (list Hash)) (v : view) : option view :=
  match txs with
  | [] => Some v
  | spends :: txs => v ← get_utxos db spends v; getTransactionsUtxo db txs v
  end.

(** The batch of [saveUtxoView]: a spent output is deleted, unless it is a coinbase. *)
Definition save_entry (e : UtxoEntry) : option UtxoEntry :=
  if utxo_Spent e && negb (utxo_Type e =? CoinbaseUTXOType) then None else Some e.
Definition saveUtxoView (v : view) (db : gmap Hash UtxoEntry) : gmap Hash UtxoEntry :=
  merge (fun e old => match e with Some e => save_entry e | None => old end) v db.

(** ** The abstract ledger: a set of unspent outputs *)

Definition unspent (v : view) : gset Hash := dom (filter (fun '(_, e) => utxo_Spent e = false) v).

Lemma elem_of_unspent v id : id ∈ unspent v <-> exists e, v !! id = Some e /\ utxo_Spent e = false.
Proof.
  unfold unspent. rewrite elem_of_dom. split.
  - intros [e [He Hs]%map_lookup_filter_Some]. eauto.
  - intros (e & He & Hs). exists e. by apply map_lookup_filter_Some.
Qed.

Lemma CanSpend_unspent v id : CanSpend id v = true <-> id ∈ unspent v.
Proof.
  rewrite elem_of_unspent. unfold CanSpend. destruct (v !! id) as [e|]; [|naive_solver].
  rewrite negb_true_iff. naive_solver.
Qed.

(** The outputs a transaction adds. *)
Definition creates (tx : bc_tx) (id : Hash) : bool :=
  match tx_Entries tx !! id with
  | Some e => match output_type e with Some (_, amount) => negb (amount =? 0) | None => false end
  | None => false
  end.
Definition created (tx : bc_tx) : gset Hash := list_to_set (filter (fun id => creates tx id = true) (ResultIds tx)).
Definition spent (tx : bc_tx) : gset Hash := list_to_set (SpentOutputIDs tx).

Lemma unspent_insert v id e :
  unspent (<[id := e]> v) = if utxo_Spent e then unspent v ∖ {[id]} else {[id]} ∪ unspent v.
Proof.
  apply set_eq. intros x. rewrite elem_of_unspent.
  destruct (decide (x = id)) as [->|Hne].
  - rewrite lookup_insert_eq. destruct (utxo_Spent e) eqn:He; [|set_solver].
    split; [intros (e' & [= <-] & ?); congruence|set_solver].
  - rewrite lookup_insert_ne by done. rewrite <- elem_of_unspent. destruct (utxo_Spent e); set_solver.
Qed.

Lemma apply_output_unspent block tx ids v :
  unspent (applyOutputUtxo_loop block tx ids v)
  = list_to_set (filter (fun id => creates tx id = true) ids) ∪ unspent v.
Proof.
  revert v. induction ids as [|id ids IH]; intros v; cbn [applyOutputUtxo_loop]; [set_solver|].
  rewrite filter_cons. destruct (decide (creates tx id = true)) as [Hc|Hc]; unfold creates in Hc;
    destruct (tx_Entries tx !! id) as [e|]; try done; try (by rewrite IH);
    destruct (output_type e) as [[t amount]|]; try done; try (by rewrite IH);
    destruct (amount =? 0); cbn [negb] in Hc; try done; rewrite IH; try done.
  rewrite unspent_insert. cbn. set_solver.
Qed.

(** *** Applying refines the abstract ledger *)

(** What the set does not know: the waiting time of coinbase and vote outputs. *)
Definition mature (block : bc_block) (v : view) (id : Hash) : Prop :=
  forall e, v !! id = Some e -> maturity block e = None.

Lemma apply_spend_unspent block ids v :
  match applySpendUtxo_loop block ids v with
  | (v', None) => NoDup ids /\ (forall id, id ∈ ids -> id ∈ unspent v /\ mature block v id)
                  /\ unspent v' = unspent v ∖ list_to_set ids
                  /\ (forall id, id ∉ ids -> v' !! id = v !! id)
  | (_, Some _) => ~ (NoDup ids /\ forall id, id ∈ ids -> id ∈ unspent v /\ mature block v id)
  end.
Proof.
  revert v. induction ids as [|id ids IH]; intros v; cbn [applySpendUtxo_loop].
  - split_and!; [constructor|by intros id Hin%not_elem_of_nil|set_solver|done].
  - assert (Hbad : forall e, v !! id = Some e -> utxo_Spent e = true \/ maturity block e <> None ->
      ~ (NoDup (id :: ids) /\ forall i, i ∈ id :: ids -> i ∈ unspent v /\ mature block v i)).
    { intros e He Hor [_ Hall]. destruct (Hall id) as [Hu Hm]; [left|].
      apply elem_of_unspent in Hu as (e' & He' & Hs). rewrite He in He'. injection He' as <-.
      specialize (Hm _ He). destruct Hor; congruence. }
    destruct (v !! id) as [e|] eqn:He.
    2:{ intros [_ Hall]. destruct (Hall id) as [Hu _]; [left|].
        apply elem_of_unspent in Hu as (e' & He' & _). congruence. }
    destruct (utxo_Spent e) eqn:Hs; [apply (Hbad e); auto|].
    destruct (maturity block e) eqn:Hmat; [apply (Hbad e); [done|right; congruence]|]. clear Hbad.
    assert (Hid : id ∈ unspent v) by (apply elem_of_unspent; eauto).
    specialize (IH (<[id := SpendOutput e]> v)).
    assert (Hun : unspent (<[id := SpendOutput e]> v) = unspent v ∖ {[id]}) by (by rewrite unspent_insert).
    assert (Hmt : forall i, i <> id -> mature block (<[id := SpendOutput e]> v) i <-> mature block v i)
      by (intros i Hne; unfold mature; by rewrite lookup_insert_ne).
    destruct (applySpendUtxo_loop _ _ _) as [v' [err|]].
    + intros [Hnd Hall]. apply IH. apply NoDup_cons in Hnd as [Hnin Hnd]. split; [done|].
      intros i Hi. assert (i <> id) by (intros ->; done). rewrite Hun, Hmt by done.
      destruct (Hall i); [by right|set_solver].
    + destruct IH as (Hnd & Hall & Hu' & Hother). rewrite Hun in Hu', Hall.
      assert (Hnin : id ∉ ids) by (intros Hin; destruct (Hall _ Hin); set_solver).
      split_and!.
      * by constructor.
      * intros i [->|Hi]%elem_of_cons.
        -- split; [done|]. intros e' He'. congruence.
        -- assert (i <> id) by (intros ->; done). destruct (Hall _ Hi) as [? Hm].
           rewrite Hmt in Hm by done. set_solver.
      * rewrite Hu'. set_solver.
      * intros i [Hne Hi]%not_elem_of_cons. rewrite Hother by done. by rewrite lookup_insert_ne.
Qed.

(** When a transaction may be applied to a ledger. *)
Definition applicable (block : bc_block) (tx : bc_tx) (v : view) : Prop :=
  NoDup (SpentOutputIDs tx) /\ forall id, id ∈ SpentOutputIDs tx -> id ∈ unspent v /\ mature block v id.

Lemma ApplyTransaction_unspent block tx v :
  match ApplyTransaction block tx v with
  | (v', None) => applicable block tx v /\ unspent v' = created tx ∪ (unspent v ∖ spent tx)
  | (_, Some _) => ~ applicable block tx v
  end.
Proof.
  unfold ApplyTransaction, applySpendUtxo, applyOutputUtxo, applicable.
  pose proof (apply_spend_unspent block (SpentOutputIDs tx) v) as Hs.
  destruct (applySpendUtxo_loop _ _ _) as [v' [e|]]; [done|].
  destruct Hs as (Hnd & Hall & Hu & _). split; [done|]. by rewrite apply_output_unspent, Hu.
Qed.

(** *** Detaching *)

(** The transaction knows the output it spends. *)
Definition typed (tx : bc_tx) (id : Hash) : Prop :=
  exists e, tx_Entries tx !! id = Some e /\ output_type e <> None.

Lemma detach_spend_unspent tx ids v :
  match detachSpendUtxo_loop tx ids v with
  | (v', None) => NoDup ids /\ (forall id, id ∈ ids -> (id ∉ unspent v) /\ typed tx id)
                  /\ unspent v' = unspent v ∪ list_to_set ids
  | (_, Some _) => ~ (NoDup ids /\ forall id, id ∈ ids -> (id ∉ unspent v) /\ typed tx id)
  end.
Proof.
  revert v. induction ids as [|id ids IH]; intros v; cbn [detachSpendUtxo_loop].
  - split_and!; [constructor|by intros id Hin%not_elem_of_nil|set_solver].
  - (* one insertion of an unspent entry *)
    assert (Hstep : forall entry, typed tx id -> id ∉ unspent v -> utxo_Spent entry = false ->
      match detachSpendUtxo_loop tx ids (<[id := entry]> v) with
      | (v', None) => NoDup (id :: ids) /\ (forall i, i ∈ id :: ids -> (i ∉ unspent v) /\ typed tx i)
                      /\ unspent v' = unspent v ∪ list_to_set (id :: ids)
      | (_, Some _) => ~ (NoDup (id :: ids) /\ forall i, i ∈ id :: ids -> (i ∉ unspent v) /\ typed tx i)
      end).
    { intros entry Ht Hid Hs. specialize (IH (<[id := entry]> v)).
      assert (Hun : unspent (<[id := entry]> v) = {[id]} ∪ unspent v) by (by rewrite unspent_insert, Hs).
      rewrite Hun in IH. destruct (detachSpendUtxo_loop _ _ _) as [v' [err|]].
      - intros [Hnd Hall]. apply IH. apply NoDup_cons in Hnd as [Hnin Hnd]. split; [done|].
        intros i Hi. assert (i <> id) by (intros ->; done). destruct (Hall i); [by right|set_solver].
      - destruct IH as (Hnd & Hall & Hu). assert (id ∉ ids) by (intros Hin; destruct (Hall _ Hin); set_solver).
        split_and!; [by constructor| |rewrite Hu; set_solver].
        intros i [->|Hi]%elem_of_cons; [done|]. destruct (Hall _ Hi). set_solver. }
    destruct (tx_Entries tx !! id) as [eo|] eqn:He.
    2:{ intros [_ Hall]. destruct (Hall id) as [_ (e & ? & _)]; [left|congruence]. }
    destruct (output_type eo) as [[t amount]|] eqn:Ho.
    2:{ intros [_ Hall]. destruct (Hall id) as [_ (e & ? & ?)]; [left|congruence]. }
    assert (Ht : typed tx id) by (exists eo; split; congruence).
    destruct (v !! id) as [entry|] eqn:Hv.
    + destruct (utxo_Spent entry) eqn:Hs; cbn [negb].
      * apply Hstep; [done| |done]. rewrite elem_of_unspent. intros (e & ? & ?). congruence.
      * intros [_ Hall]. destruct (Hall id) as [Hu _]; [left|]. apply Hu, elem_of_unspent. eauto.
    + apply Hstep; [done| |done]. rewrite elem_of_unspent. intros (e & ? & ?). congruence.
Qed.

Lemma detach_output_unspent tx ids v :
  unspent (detachOutputUtxo_loop tx ids v)
  = unspent v ∖ list_to_set (filter (fun id => creates tx id = true) ids).
Proof.
  revert v. induction ids as [|id ids IH]; intros v; cbn [detachOutputUtxo_loop]; [set_solver|].
  rewrite filter_cons. destruct (decide (creates tx id = true)) as [Hc|Hc]; unfold creates in Hc;
    destruct (tx_Entries tx !! id) as [e|]; try done; try (by rewrite IH);
    destruct (output_type e) as [[t amount]|]; try done; try (by rewrite IH);
    destruct (amount =? 0); cbn [negb] in Hc; try done; rewrite IH; try done.
  rewrite unspent_insert. cbn. set_solver.
Qed.

Lemma DetachTransaction_unspent tx v :
  match DetachTransaction tx v with
  | (v', None) => unspent v' = (unspent v ∪ spent tx) ∖ created tx
  | (_, Some _) => ~ (NoDup (SpentOutputIDs tx)
                      /\ forall id, id ∈ SpentOutputIDs tx -> (id ∉ unspent v) /\ typed tx id)
  end.
Proof.
  unfold DetachTransaction, detachSpendUtxo, detachOutputUtxo.
  pose proof (detach_spend_unspent tx (SpentOutputIDs tx) v) as Hs.
  destruct (detachSpendUtxo_loop _ _ _) as [v' [e|]]; [done|].
  destruct Hs as (_ & _ & Hu). by rewrite detach_output_unspent, Hu.
Qed.

(** *** Blocks *)

(** The ledger as a transition system on sets of unspent outputs. *)
Inductive ledger_steps : gset Hash -> list bc_tx -> gset Hash -> Prop :=
  | ledger_nil L : ledger_steps L [] L
  | ledger_cons L tx txs L' :
      NoDup (SpentOutputIDs tx) -> spent tx ⊆ L ->
      ledger_steps (created tx ∪ (L ∖ spent tx)) txs L' -> ledger_steps L (tx :: txs) L'.

Lemma apply_txs_ledger block txs v v' :
  apply_txs block txs v = (v', None) -> ledger_steps (unspent v) txs (unspent v').
Proof.
  revert v. induction txs as [|tx txs IH]; intros v; cbn [apply_txs].
  - intros [= ->]. constructor.
  - pose proof (ApplyTransaction_unspent block tx v) as Ht.
    destruct (ApplyTransaction block tx v) as [v1 [e|]]; [done|]. intros Hr.
    destruct Ht as [[Hnd Hall] Hu]. apply IH in Hr. rewrite Hu in Hr.
    constructor; [done| |done]. unfold spent. intros id Hid%elem_of_list_to_set. by apply Hall.
Qed.

(** Outputs are created once: no transaction recreates an unspent one (in the
    code: identifiers are hashes of the outputs). *)
Inductive fresh : gset Hash -> list bc_tx -> Prop :=
  | fresh_nil L : fresh L []
  | fresh_cons L tx txs :
      created tx ## L -> fresh (created tx ∪ (L ∖ spent tx)) txs -> fresh L (tx :: txs).

Lemma detach_txs_app txs txs' v :
  detach_txs (txs ++ txs') v
  = match detach_txs txs v with (v', None) => detach_txs txs' v' | r => r end.
Proof.
  revert v. induction txs as [|tx txs IH]; intros v; cbn [app detach_txs]; [done|].
  destruct (DetachTransaction tx v) as [v1 [e|]]; [done|]. apply IH.
Qed.

Lemma detach_ledger L txs L' v :
  ledger_steps L txs L' -> fresh L txs ->
  (forall tx id, tx ∈ txs -> id ∈ SpentOutputIDs tx -> typed tx id) ->
  unspent v = L' -> exists v', detach_txs (reverse txs) v = (v', None) /\ unspent v' = L.
Proof.
  intros Hs. revert v. induction Hs as [L|L tx txs L' Hnd Hsub Hs IH]; intros v Hf Ht Hv.
  - by exists v.
  - inversion Hf as [|? ? ? Hdis Hf']; subst. rewrite reverse_cons, detach_txs_app.
    destruct (IH v Hf') as (v1 & -> & Hv1); [intros tx' id Hin; apply Ht; by right|done|].
    cbn [detach_txs]. pose proof (DetachTransaction_unspent tx v1) as Hd.
    destruct (DetachTransaction tx v1) as [v2 [e|]].
    + exfalso. apply Hd. split; [done|]. intros id Hid. split; [|by apply Ht; [left|]].
      rewrite Hv1. assert (id ∈ spent tx) by (by apply elem_of_list_to_set). set_solver.
    + exists v2. split; [done|]. rewrite Hd, Hv1. apply set_eq. intros id.
      destruct (decide (id ∈ spent tx)); set_solver.
Qed.

(** C27.  [ApplyTransaction] refines the abstract ledger: it succeeds exactly when
    every input is an unspent, distinct and mature output, and then the unspent
    set loses the spent outputs and gains the transaction's non-zero ones. *)
Theorem ApplyTransaction_refines block tx v :
  let (v', e) := ApplyTransaction block tx v in
  (e = None <-> applicable block tx v)
  /\ (e = None -> unspent v' = created tx ∪ (unspent v ∖ spent tx)).
Proof.
  pose proof (ApplyTransaction_unspent block tx v) as Ht.
  destruct (ApplyTransaction block tx v) as [v' [e|]]; [|naive_solver].
  split; [|done]. split; [done|]. intros Ha. by apply Ht in Ha.
Qed.

(** Detaching a block that was applied succeeds and restores the set of
    unspent outputs, provided the created ids are fresh and the transactions carry
    the entries of the outputs they spend. *)
Theorem DetachBlock_undoes_ApplyBlock block v v' :
  ApplyBlock block v = (v', None) -> fresh (unspent v) (Transactions block) ->
  (forall tx id, tx ∈ Transactions block -> id ∈ SpentOutputIDs tx -> typed tx id) ->
  exists v'', DetachBlock block v' = (v'', None) /\ unspent v'' = unspent v.
Proof.
  intros Ha Hf Ht. unfold DetachBlock. eapply detach_ledger; [|exact Hf|exact Ht|done].
  by eapply apply_txs_ledger.
Qed.

(** All outputs a list of transactions spends, and creates. *)
Definition all_spent (txs : list bc_tx) : list Hash := concat (SpentOutputIDs <$> txs).
Definition all_created (txs : list bc_tx) : list Hash :=
  concat ((fun tx => filter (fun id => creates tx id = true) (ResultIds tx)) <$> txs).

Lemma ledger_spends_once L S txs L' :
  ledger_steps L txs L' -> S ## L ->
  NoDup (all_created txs) -> (forall id, id ∈ all_created txs -> (id ∉ L ∪ S)) ->
  NoDup (all_spent txs) /\ forall id, id ∈ all_spent txs -> (id ∉ S).
Proof.
  intros Hs. revert S. induction Hs as [L|L tx txs L' Hnd Hsub Hs IH]; intros S Hd Hc Hf.
  - split; [constructor|by intros id Hin%not_elem_of_nil].
  - unfold all_created, all_spent in *. cbn [fmap list_fmap concat] in *.
    apply NoDup_app in Hc as (Hc1 & Hcd & Hc2).
    assert (Hcr : forall id, id ∈ created tx -> id ∈ filter (fun id => creates tx id = true) (ResultIds tx))
      by (intros id Hin; by apply elem_of_list_to_set in Hin).
    assert (Hsp : forall id, id ∈ SpentOutputIDs tx <-> id ∈ spent tx)
      by (intros id; unfold spent; by rewrite elem_of_list_to_set).
    destruct (IH (S ∪ spent tx)) as [Hn Hr].
    + intros id Hin Hin'. apply elem_of_union in Hin'. destruct Hin' as [Hin'|Hin'].
      * pose proof (Hf id ltac:(apply elem_of_app; left; auto)). set_solver.
      * set_solver.
    + done.
    + intros id Hin Hin'. pose proof (Hf id ltac:(apply elem_of_app; by right)).
      assert (id ∉ created tx) by (intros Hcr'%Hcr; by eapply Hcd). set_solver.
    + split.
      * apply NoDup_app. split_and!; [done| |done]. intros id Hin Hin'. apply (Hr _ Hin'). set_solver.
      * intros id [Hin|Hin]%elem_of_app; [set_solver|]. specialize (Hr _ Hin). set_solver.
Qed.

(** No output is spent twice within a block that [ApplyBlock] accepts, given
    fresh and distinct created ids. *)
Theorem ApplyBlock_no_double_spend block v v' :
  ApplyBlock block v = (v', None) ->
  NoDup (all_created (Transactions block)) ->
  (forall id, id ∈ all_created (Transactions block) -> (id ∉ unspent v)) ->
  NoDup (all_spent (Transactions block)).
Proof.
  intros Ha Hn Hf. eapply (ledger_spends_once _ ∅); [by eapply apply_txs_ledger|set_solver|done|].
  intros id Hin. specialize (Hf _ Hin). set_solver.
Qed.
End Utxo.

(** ** A concrete block over integer identifiers *)

Definition ex_view : gmap Z UtxoEntry := {[ 1 := mkUtxo NormalUTXOType 0 false ]}.
Definition ex_block : bc_block (Hash := Z) := mkBlock 5
  [ mkTx 100 [] [10] {[ 10 := OriginalOutput 50 ]};
    mkTx 101 [1] [11; 12] (<[1 := OriginalOutput 7]> (<[11 := OriginalOutput 3]> {[ 12 := VoteOutput 4 ]}));
    mkTx 102 [11] [13; 14] (<[11 := OriginalOutput 3]> (<[13 := OriginalOutput 3]> {[ 14 := OtherEntry ]})) ].

Lemma ex_block_typed tx id : tx ∈ Transactions ex_block -> id ∈ SpentOutputIDs tx -> typed tx id.
Proof.
  intros [->|[->|[->|Hin%not_elem_of_nil]%elem_of_cons]%elem_of_cons]%elem_of_cons Hid; [..|done];
    cbn in Hid; [by apply not_elem_of_nil in Hid|..];
    apply list_elem_of_singleton in Hid as ->; unfold typed; vm_compute; eexists; split; done.
Defined.

Lemma DetachBlock_undoes_ApplyBlock_witness :
  exists v'', DetachBlock ex_block (ApplyBlock mainnet_pending ex_block ex_view).1 = (v'', None)
              /\ unspent v'' = unspent ex_view.
Proof.
  apply (DetachBlock_undoes_ApplyBlock mainnet_pending ex_block ex_view).
  - vm_compute. reflexivity.
  - repeat (apply fresh_cons; [refine (bool_decide_unpack _ _); vm_compute; exact I|]). apply fresh_nil.
  - exact ex_block_typed.
Defined.

Lemma ApplyBlock_no_double_spend_witness : NoDup (all_spent (Transactions ex_block)).
Proof.
  apply (ApplyBlock_no_double_spend mainnet_pending ex_block ex_view
           (ApplyBlock mainnet_pending ex_block ex_view).1).
  - vm_compute. reflexivity.
  - refine (bool_decide_unpack _ _). vm_compute. exact I.
  - apply Forall_forall. refine (bool_decide_unpack _ _). vm_compute. exact I.
Defined.
