(* ===== verification/Orphans.v ===== *)
(** * Orphan blocks: protocol/orphan_manage.go, and [saveSubBlock] of protocol/block.go

    [OrphanManage] keeps the orphans by hash, and for each parent the slice of
    the hashes of its orphans.  [delete] removes an element of such a slice by
    shifting the tail inside the same backing array, and [saveSubBlock] ranges
    over the slice while [delete] runs, so the backing arrays are part of the
    model: a slice is the first [sl_len] elements of an array, whose length is
    the capacity. *)

From S2P Require Import Prelude GoSlice.

(** The order in which Go ranges over a map: any. *)
Class MapRange := map_range : forall {K A : Type} {E : EqDecision K} {C : Countable K}, gmap K A -> list (K * A).
Class MapRangeLaws (R : MapRange) : Prop :=
  map_range_perm : forall {K A : Type} {E : EqDecision K} {C : Countable K} (m : gmap K A),
    map_range m ≡ₚ map_to_list m.

#[export] Instance SomeRange : MapRange := fun K A E C m => map_to_list m.
#[export] Instance SomeRange_laws : MapRangeLaws SomeRange.
Proof. intros K A E C m. done. Qed.

Section Orphans.
Context {Hash : Type} {Hash_eq : EqDecision Hash} {Hash_countable : Countable Hash}.
Context {R : MapRange} {GR : GoRuntime}.

Record Block := mkOBlock { b_Hash : Hash; b_PreviousBlockHash : Hash; b_Height : Z }.
Record OrphanBlock := mkOrphan { o_Block : Block; o_expiration : Z }.

(** A slice of hashes over array [sl_arr]. *)
Record hslice := HSlice { sl_arr : nat; sl_len : nat }.

Record OrphanManage := mkOM {
  orphan : gmap Hash OrphanBlock;
  prevOrphans : gmap Hash hslice;
  om_arrays : list (list Hash);
}.

Definition orphanBlockTTL : Z := 60 * 60 * 10 ^ 9.
Definition numOrphanBlockLimit : nat := 256.

Definition NewOrphanManage : OrphanManage := mkOM ∅ ∅ [].

(** The elements of a slice. *)
Definition elems (arrays : list (list Hash)) (s : hslice) : list Hash := take (sl_len s) (arrays !!! sl_arr s).

(** [append(s, h)]: in place while the capacity allows, else in a new array. *)
Definition hash_append (s : option hslice) (h : Hash) (arrays : list (list Hash)) : hslice * list (list Hash) :=
  match s with
  | Some s =>
      let arr := arrays !!! sl_arr s in
      if (sl_len s <? length arr)%nat then
        (HSlice (sl_arr s) (sl_len s + 1), <[sl_arr s := <[sl_len s := h]> arr]> arrays)
      else
        let need := (sl_len s + 1)%nat in
        let cap := Nat.max need (append_cap (length arr) need) in
        (HSlice (length arrays) need, arrays ++ [resize cap h (elems arrays s ++ [h])])
  | None =>
      let cap := Nat.max 1 (append_cap 0 1) in
      (HSlice (length arrays) 1, arrays ++ [resize cap h [h]])
  end.

(** [append(s[:i], s[i+1:]...)]: the tail moves down by one in the same array. *)
Definition hash_remove (s : hslice) (i : nat) (arrays : list (list Hash)) : hslice * list (list Hash) :=
  let arr := arrays !!! sl_arr s in
  let tail := drop (i + 1) (take (sl_len s) arr) in
  (HSlice (sl_arr s) (sl_len s - 1),
   <[sl_arr s := take i arr ++ tail ++ drop (sl_len s - 1) arr]> arrays).

(** [o.delete(hash)]. *)
Definition delete_ (hash : Hash) (o : OrphanManage) : OrphanManage :=
  match orphan o !! hash with
  | None => o
  | Some block =>
      let prev := b_PreviousBlockHash (o_Block block) in
      let orphans := delete hash (orphan o) in
      match prevOrphans o !! prev with
      | None => mkOM orphans (delete prev (prevOrphans o)) (om_arrays o)
      | Some s =>
          if (sl_len s =? 1)%nat then mkOM orphans (delete prev (prevOrphans o)) (om_arrays o)
          else
            match list_find (fun h => h = hash) (elems (om_arrays o) s) with
            | None => mkOM orphans (prevOrphans o) (om_arrays o)
            | Some (i, _) =>
                let '(s', arrays) := hash_remove s i (om_arrays o) in
                mkOM orphans (<[prev := s']> (prevOrphans o)) arrays
            end
      end
  end.

(** The loop of [deleteLRU]: the first orphan with the earliest expiration. *)
Definition earliest (l : list (Hash * OrphanBlock)) : option OrphanBlock :=
  foldl (fun best '(_, ob) =>
           match best with
           | None => Some ob
           | Some b => if o_expiration ob <? o_expiration b then Some ob else best
           end) None l.

Definition deleteLRU (o : OrphanManage) : OrphanManage :=
  match earliest (map_range (orphan o)) with
  | None => o
  | Some ob => delete_ (b_Hash (o_Block ob)) o
  end.

Definition Add (now : Z) (block : Block) (o : OrphanManage) : OrphanManage :=
  match orphan o !! b_Hash block with
  | Some _ => o
  | None =>
      let o := if (numOrphanBlockLimit <=? size (orphan o))%nat then deleteLRU o else o in
      let '(s, arrays) := hash_append (prevOrphans o !! b_PreviousBlockHash block) (b_Hash block) (om_arrays o) in
      mkOM (<[b_Hash block := mkOrphan block (now + orphanBlockTTL)]> (orphan o))
           (<[b_PreviousBlockHash block := s]> (prevOrphans o)) arrays
  end.

Definition Delete (hash : Hash) (o : OrphanManage) : OrphanManage := delete_ hash o.

Definition BlockExist (hash : Hash) (o : OrphanManage) : bool := bool_decide (is_Some (orphan o !! hash)).

(** [return block.Block, ok]: a nil dereference when the block is absent. *)
Definition Get (hash : Hash) (o : OrphanManage) : option Block := o_Block <$> orphan o !! hash.

Definition GetPrevOrphans (hash : Hash) (o : OrphanManage) : option hslice := prevOrphans o !! hash.

Fixpoint orphanExpire_loop (now : Z) (l : list (Hash * OrphanBlock)) (o : OrphanManage) : OrphanManage :=
  match l with
  | [] => o
  | (hash, ob) :: l' => orphanExpire_loop now l' (if o_expiration ob <? now then delete_ hash o else o)
  end.

Definition orphanExpire (now : Z) (o : OrphanManage) : OrphanManage :=
  orphanExpire_loop now (map_range (orphan o)) o.

End Orphans.

(** ** saveSubBlock

    The second component of the state lists the hashes of the stored blocks.
    [valid stored b] is the verdict of [ValidateBlock], [casper.ApplyBlock] and
    [SaveBlock] on a block whose parent is stored.  [None] is the run-time panic
    of [Get]; [fuel] bounds the depth of the recursion. *)

Section SaveSub.
Context {Hash : Type} {Hash_eq : EqDecision Hash} {Hash_countable : Countable Hash}.
Context {R : MapRange} {GR : GoRuntime}.
Abbreviation OM := (OrphanManage (Hash := Hash)).
Abbreviation Blk := (Block (Hash := Hash)).

Context (valid : list Hash -> Blk -> bool).

(** The checks of [saveBlock]; the parent's header is looked up first. *)
Definition acceptable (stored : list Hash) (b : Blk) : bool :=
  bool_decide (b_PreviousBlockHash b ∈ stored) && valid stored b.

Definition saveBlock (b : Blk) (st : OM * list Hash) : bool * (OM * list Hash) :=
  if acceptable st.2 b then (true, (Delete (b_Hash b) st.1, st.2 ++ [b_Hash b])) else (false, st).

(** The loop over the slice the range expression was evaluated to: element [i]
    is read from the array when iteration [i] starts. *)
Fixpoint saveSub_loop (sub : Blk -> OM * list Hash -> option (OM * list Hash))
    (s : hslice) (i todo : nat) (st : OM * list Hash) : option (OM * list Hash) :=
  match todo with
  | O => Some st
  | S todo' =>
      prevOrphan ← (om_arrays st.1 !!! sl_arr s) !! i;
      orphanBlock ← Get prevOrphan st.1;
      match saveBlock orphanBlock st with
      | (false, st') => saveSub_loop sub s (i + 1) todo' st'
      | (true, st') => st'' ← sub orphanBlock st'; saveSub_loop sub s (i + 1) todo' st''
      end
  end.

Fixpoint saveSubBlock (fuel : nat) (block : Blk) (st : OM * list Hash)
  : option (OM * list Hash) :=
  match fuel with
  | O => Some st
  | S f =>
      match GetPrevOrphans (b_Hash block) st.1 with
      | None => Some st
      | Some s => saveSub_loop (saveSubBlock f) s 0 (sl_len s) st
      end
  end.

End SaveSub.

(** ** The invariant of the two maps *)

Section Invariant.
Context {Hash : Type} {Hash_eq : EqDecision Hash} {Hash_countable : Countable Hash}.
Context {R : MapRange} {GR : GoRuntime}.
Abbreviation OM := (OrphanManage (Hash := Hash)).
Abbreviation Blk := (Block (Hash := Hash)).


Record om_ok (o : OM) : Prop := {
  ok_hash h ob : orphan o !! h = Some ob -> b_Hash (o_Block ob) = h;
  ok_listed h ob : orphan o !! h = Some ob ->
    exists s, prevOrphans o !! b_PreviousBlockHash (o_Block ob) = Some s /\ h ∈ elems (om_arrays o) s;
  ok_back p s h : prevOrphans o !! p = Some s -> h ∈ elems (om_arrays o) s ->
    exists ob, orphan o !! h = Some ob /\ b_PreviousBlockHash (o_Block ob) = p;
  ok_elems p s : prevOrphans o !! p = Some s -> NoDup (elems (om_arrays o) s) /\ (0 < sl_len s)%nat;
  ok_valid p s : prevOrphans o !! p = Some s ->
    exists arr, om_arrays o !! sl_arr s = Some arr /\ (sl_len s <= length arr)%nat;
  ok_own p s p' s' : prevOrphans o !! p = Some s -> prevOrphans o !! p' = Some s' ->
    sl_arr s = sl_arr s' -> p = p';
}.

(** *** The orphans alone, in any state *)

Lemma orphan_delete hash (o : OM) : orphan (delete_ hash o) = delete hash (orphan o).
Proof.
  unfold delete_. destruct (orphan o !! hash) as [ob|] eqn:E; [|by rewrite delete_id].
  destruct (prevOrphans o !! _) as [s|]; [|done]. destruct (_ =? _)%nat; [done|]. destruct (list_find _ _) as [[i y]|]; [|done].
  by destruct (hash_remove _ _ _).
Qed.
Lemma orphan_Add now block (o : OM) h ob : orphan (Add now block o) !! h = Some ob -> h = b_Hash block \/ orphan o !! h = Some ob.
Proof.
  unfold Add. destruct (orphan o !! b_Hash block); [by right|].
  set (o1 := if (_ <=? _)%nat then deleteLRU o else o). assert (Hsub : forall h ob, orphan o1 !! h = Some ob -> orphan o !! h = Some ob).
  { intros h' ob'. unfold o1. destruct (_ <=? _)%nat; [|done]. unfold deleteLRU. destruct (earliest _) as [x|]; [|done].
    rewrite orphan_delete, lookup_delete_Some. by intros [_ ?]. }
  destruct (hash_append _ _ _) as [s arrays]. cbn [orphan]. rewrite lookup_insert_Some. intros [[<- _]|[_ Hob]]; [by left|right; auto].
Qed.

Lemma orphan_expired now (o : OM) h ob : orphan (orphanExpire now o) !! h = Some ob -> orphan o !! h = Some ob.
Proof.
  unfold orphanExpire. generalize (map_range (orphan o)) as l. intros l. revert o.
  induction l as [|[k x] l IH]; intros o; cbn [orphanExpire_loop]; [done|]. intros Hob%IH. case_match; [|done].
  rewrite orphan_delete, lookup_delete_Some in Hob. tauto.
Qed.

(** *** Slices *)

Lemma elems_eq (arrays : list (list Hash)) s arr : arrays !! sl_arr s = Some arr -> elems arrays s = take (sl_len s) arr.
Proof. intros Ha. unfold elems. by rewrite (list_lookup_total_correct _ _ _ Ha). Qed.

Lemma elems_other (arrays : list (list Hash)) s k arr : sl_arr s <> k -> elems (<[k := arr]> arrays) s = elems arrays s.
Proof. intros Hne. unfold elems. by rewrite list_lookup_total_insert_ne. Qed.

Lemma hash_remove_elems s i (arrays : list (list Hash)) arr :
  arrays !! sl_arr s = Some arr -> (sl_len s <= length arr)%nat -> (i < sl_len s)%nat ->
  let (s', arrays') := hash_remove s i arrays in
  elems arrays' s' = take i (elems arrays s) ++ drop (i + 1) (elems arrays s)
  /\ sl_arr s' = sl_arr s /\ sl_len s' = (sl_len s - 1)%nat
  /\ (exists arr', arrays' !! sl_arr s' = Some arr' /\ (sl_len s' <= length arr')%nat)
  /\ forall k, k <> sl_arr s -> arrays' !! k = arrays !! k.
Proof.
  intros Ha Hl Hi. unfold hash_remove. rewrite (list_lookup_total_correct _ _ _ Ha), (elems_eq _ _ _ Ha).
  set (arr' := take i arr ++ _).
  assert (Hlt : (sl_arr s < length arrays)%nat) by (by eapply lookup_lt_Some).
  assert (Hlen : length arr' = length arr)
    by (unfold arr'; rewrite !length_app, !length_drop, !length_take; lia).
  split_and!; cbn [sl_arr sl_len]; [|done|done| |].
  - rewrite (elems_eq _ _ arr') by (cbn; by rewrite list_lookup_insert_eq).
    unfold arr'. cbn [sl_len]. rewrite app_assoc, take_app_le, take_ge;
      rewrite ?length_app, ?length_drop, ?length_take; try lia.
    f_equal. rewrite take_take. f_equal. lia.
  - exists arr'. rewrite list_lookup_insert_eq by done. split; [done|lia].
  - intros k Hk. by rewrite list_lookup_insert_ne.
Qed.

Lemma hash_append_elems (s : option hslice) (h : Hash) (arrays : list (list Hash)) :
  (forall s0, s = Some s0 -> exists arr, arrays !! sl_arr s0 = Some arr /\ (sl_len s0 <= length arr)%nat) ->
  let (s', arrays') := hash_append s h arrays in
  elems arrays' s' = match s with Some s0 => elems arrays s0 | None => [] end ++ [h]
  /\ (0 < sl_len s')%nat
  /\ (exists arr', arrays' !! sl_arr s' = Some arr' /\ (sl_len s' <= length arr')%nat)
  /\ (length arrays <= length arrays')%nat
  /\ (forall k, (k < length arrays)%nat -> k <> sl_arr s' -> arrays' !! k = arrays !! k)
  /\ (sl_arr s' = length arrays \/ exists s0, s = Some s0 /\ sl_arr s' = sl_arr s0).
Proof.
  intros Hs. unfold hash_append.
  assert (Hnew : forall need cap l, length l = need -> (need <= cap)%nat -> (0 < need)%nat ->
    let s' := HSlice (length arrays) need in let arrays' := arrays ++ [resize cap h l] in
    elems arrays' s' = l /\ (0 < sl_len s')%nat
    /\ (exists arr', arrays' !! sl_arr s' = Some arr' /\ (sl_len s' <= length arr')%nat)
    /\ (length arrays <= length arrays')%nat
    /\ (forall k, (k < length arrays)%nat -> k <> sl_arr s' -> arrays' !! k = arrays !! k)).
  { intros need cap l Hl Hc Hn s' arrays'.
    assert (Hlk : arrays' !! length arrays = Some (resize cap h l)) by (apply list_lookup_middle; done).
    split_and!; cbn [sl_arr sl_len s']; [|done| | |].
    - rewrite (elems_eq arrays' s' (resize cap h l)) by exact Hlk. cbn [sl_len s']. rewrite take_resize_le, resize_all_alt by lia. done.
    - exists (resize cap h l). rewrite length_resize. done.
    - unfold arrays'. rewrite length_app. lia.
    - intros k Hk _. by apply lookup_app_l. }
  destruct s as [s0|].
  - destruct (Hs s0 eq_refl) as (arr & Ha & Hl). rewrite (list_lookup_total_correct _ _ _ Ha).
    destruct (Nat.ltb_spec (sl_len s0) (length arr)) as [Hlt|Hge].
    + assert ((sl_arr s0 < length arrays)%nat) by (by eapply lookup_lt_Some).
      split_and!; cbn [sl_arr sl_len]; [|lia| | | |right; eauto].
      * rewrite (elems_eq _ _ (<[sl_len s0 := h]> arr)) by (cbn; by rewrite list_lookup_insert_eq).
        rewrite (elems_eq _ _ _ Ha). cbn [sl_len]. rewrite Nat.add_1_r, (take_S_r _ _ h) by (by rewrite list_lookup_insert_eq).
        by rewrite take_insert_ge by lia.
      * exists (<[sl_len s0 := h]> arr). rewrite list_lookup_insert_eq, length_insert by done. split; [done|lia].
      * by rewrite length_insert.
      * intros k _ Hk. by rewrite list_lookup_insert_ne.
    + destruct (Hnew (sl_len s0 + 1)%nat
        (Nat.max (sl_len s0 + 1) (append_cap (length arr) (sl_len s0 + 1))) (elems arrays s0 ++ [h]))
        as (H1 & H2 & H3 & H4 & H5); [|lia|lia|].
      { rewrite length_app, (elems_eq _ _ _ Ha), length_take. cbn. lia. }
      split_and!; try done. by left.
  - destruct (Hnew 1%nat (Nat.max 1 (append_cap 0 1)) [h]) as (H1 & H2 & H3 & H4 & H5); [done|lia|lia|].
    split_and!; try done. by left.
Qed.

(** *** delete *)

Lemma elem_of_remove_at (l : list Hash) i h x :
  NoDup l -> l !! i = Some h -> x ∈ take i l ++ drop (i + 1) l <-> x ∈ l /\ x <> h.
Proof.
  intros Hnd Hi. rewrite <- (take_drop_middle _ _ _ Hi) in Hnd |- * at 3.
  rewrite Nat.add_1_r. apply NoDup_app in Hnd as (H1 & H2 & H3). apply NoDup_cons in H3 as [H3 H4].
  rewrite !elem_of_app, elem_of_cons. split.
  - intros [Hx|Hx]; (split; [tauto|]); intros ->; [apply (H2 _ Hx); left|done].
  - intros [[?|[->|?]] ?]; tauto.
Qed.

Lemma NoDup_remove_at (l : list Hash) i : NoDup l -> NoDup (take i l ++ drop (i + 1) l).
Proof.
  intros Hnd. destruct (l !! i) as [h|] eqn:Hi.
  - rewrite <- (take_drop_middle _ _ _ Hi) in Hnd. rewrite Nat.add_1_r.
    apply NoDup_app in Hnd as (H1 & H2 & H3). apply NoDup_cons in H3 as [H3 H4].
    apply NoDup_app. split_and!; [done| |done]. intros x Hx Hx'. apply (H2 _ Hx). by right.
  - apply lookup_ge_None in Hi. rewrite take_ge, drop_ge, app_nil_r by lia. done.
Qed.

(** The state [delete] leaves, in terms of the elements of the slices. *)
Lemma delete_cases hash (o : OM) ob :
  om_ok o -> orphan o !! hash = Some ob ->
  let prev := b_PreviousBlockHash (o_Block ob) in
  exists s, prevOrphans o !! prev = Some s /\
    ((sl_len s = 1%nat /\ elems (om_arrays o) s = [hash]
      /\ delete_ hash o = mkOM (delete hash (orphan o)) (delete prev (prevOrphans o)) (om_arrays o))
     \/ exists i, elems (om_arrays o) s !! i = Some hash /\ (1 < sl_len s)%nat
        /\ let (s', arrays) := hash_remove s i (om_arrays o) in
           delete_ hash o = mkOM (delete hash (orphan o)) (<[prev := s']> (prevOrphans o)) arrays).
Proof.
  intros Hok Hob prev. destruct (ok_listed _ Hok _ _ Hob) as (s & Hs & Hin). exists s. split; [done|].
  destruct (ok_elems _ Hok _ _ Hs) as [Hnd Hpos]. destruct (ok_valid _ Hok _ _ Hs) as (arr & Ha & Hl).
  unfold delete_. rewrite Hob. fold prev. fold prev in Hs. rewrite Hs.
  destruct (Nat.eqb_spec (sl_len s) 1) as [H1|H1].
  - left. split; [done|]. split; [|done].
    assert (Hlen : length (elems (om_arrays o) s) = 1%nat) by (rewrite (elems_eq _ _ _ Ha), length_take; lia).
    destruct (elems (om_arrays o) s) as [|x [|]]; try done. by apply list_elem_of_singleton in Hin as ->.
  - right. destruct (list_find _ _) as [[i x]|] eqn:Hf.
    + apply list_find_Some in Hf as (Hi & -> & _). exists i. split; [done|]. split; [lia|].
      destruct (hash_remove s i (om_arrays o)). done.
    + apply list_find_None in Hf. rewrite Forall_forall in Hf. by apply Hf in Hin.
Qed.

Lemma delete_ok hash (o : OM) : om_ok o -> om_ok (delete_ hash o) /\ orphan (delete_ hash o) = delete hash (orphan o).
Proof.
  intros Hok. destruct (orphan o !! hash) as [ob|] eqn:Hob.
  2:{ unfold delete_. rewrite Hob. split; [done|]. by rewrite delete_id. }
  destruct (delete_cases hash o ob Hok Hob) as (s & Hs & Hcase).
  set (prev := b_PreviousBlockHash (o_Block ob)) in *.
  destruct Hcase as [(H1 & He & ->)|(i & Hi & Hlen & Hd)].
  - split; [|done]. split; cbn [orphan prevOrphans om_arrays].
    + intros h ob' [_ Ho]%lookup_delete_Some. by apply (ok_hash _ Hok).
    + intros h ob' [Hne Ho]%lookup_delete_Some. destruct (ok_listed _ Hok _ _ Ho) as (s' & Hs' & Hin).
      exists s'. split; [|done]. apply lookup_delete_Some. split; [|done]. intros Heq.
      rewrite <- Heq, Hs in Hs'. injection Hs' as <-. rewrite He in Hin.
      by apply list_elem_of_singleton in Hin.
    + intros p s' h [Hne Hp]%lookup_delete_Some Hin. destruct (ok_back _ Hok _ _ _ Hp Hin) as (ob' & Ho & Hpr).
      exists ob'. split; [|done]. apply lookup_delete_Some. split; [|done].
      intros <-. rewrite Hob in Ho. injection Ho as <-. done.
    + intros p s' [_ Hp]%lookup_delete_Some. by eapply ok_elems.
    + intros p s' [_ Hp]%lookup_delete_Some. by eapply ok_valid.
    + intros p s1 p' s2 [_ H2]%lookup_delete_Some [_ H3]%lookup_delete_Some. by eapply ok_own.
  - destruct (ok_valid _ Hok _ _ Hs) as (arr & Ha & Hl). destruct (ok_elems _ Hok _ _ Hs) as [Hnd _].
    assert (Hilt : (i < sl_len s)%nat).
    { apply lookup_lt_Some in Hi. rewrite (elems_eq _ _ _ Ha), length_take in Hi. lia. }
    pose proof (hash_remove_elems s i (om_arrays o) arr Ha Hl Hilt) as Hr.
    destruct (hash_remove s i (om_arrays o)) as [s' arrays']. rewrite Hd.
    destruct Hr as (Hel & Harr & Hln & Hval & Hother).
    (* the slices of the other parents are untouched *)
    assert (Hoth : forall p s2, p <> prev -> prevOrphans o !! p = Some s2 ->
              elems arrays' s2 = elems (om_arrays o) s2 /\ arrays' !! sl_arr s2 = om_arrays o !! sl_arr s2).
    { intros p s2 Hne Hp. assert (Hk : sl_arr s2 <> sl_arr s) by (intros Heq; apply Hne; by eapply ok_own).
      pose proof (Hother _ Hk) as Hlk. split; [|done]. unfold elems. by rewrite !list_lookup_total_alt, Hlk. }
    split; [|done]. split; cbn [orphan prevOrphans om_arrays].
    + intros h ob' [_ Ho]%lookup_delete_Some. by apply (ok_hash _ Hok).
    + intros h ob' [Hne Ho]%lookup_delete_Some. destruct (ok_listed _ Hok _ _ Ho) as (s2 & Hs2 & Hin).
      destruct (decide (b_PreviousBlockHash (o_Block ob') = prev)) as [Heq|Hpne].
      * exists s'. rewrite Heq, lookup_insert_eq. split; [done|]. rewrite Hel.
        rewrite Heq, Hs in Hs2. injection Hs2 as <-. apply (elem_of_remove_at _ _ hash); done.
      * exists s2. rewrite lookup_insert_ne by done. split; [done|]. by destruct (Hoth _ _ Hpne Hs2) as [-> _].
    + intros p s2 h Hp Hin. destruct (decide (p = prev)) as [->|Hpne].
      * rewrite lookup_insert_eq in Hp. injection Hp as <-. rewrite Hel in Hin.
        apply (elem_of_remove_at _ _ hash) in Hin as [Hin Hne]; [|done|done].
        destruct (ok_back _ Hok _ _ _ Hs Hin) as (ob' & Ho & Hpr). exists ob'. split; [|done].
        by apply lookup_delete_Some.
      * rewrite lookup_insert_ne in Hp by done. destruct (Hoth _ _ Hpne Hp) as [Heq _]. rewrite Heq in Hin.
        destruct (ok_back _ Hok _ _ _ Hp Hin) as (ob' & Ho & Hpr). exists ob'. split; [|done].
        apply lookup_delete_Some. split; [|done]. intros <-. rewrite Hob in Ho. injection Ho as <-. done.
    + intros p s2 Hp. destruct (decide (p = prev)) as [->|Hpne].
      * rewrite lookup_insert_eq in Hp. injection Hp as <-. rewrite Hel. split; [by apply NoDup_remove_at|lia].
      * rewrite lookup_insert_ne in Hp by done. destruct (Hoth _ _ Hpne Hp) as [-> _]. by eapply ok_elems.
    + intros p s2 Hp. destruct (decide (p = prev)) as [->|Hpne].
      * rewrite lookup_insert_eq in Hp. by injection Hp as <-.
      * rewrite lookup_insert_ne in Hp by done. destruct (Hoth _ _ Hpne Hp) as [_ ->]. by eapply ok_valid.
    + intros p s1 p' s2 H1 H2 Heq.
      destruct (decide (p = prev)) as [->|Hp1], (decide (p' = prev)) as [->|Hp2]; try done.
      * rewrite lookup_insert_eq in H1. injection H1 as <-. rewrite lookup_insert_ne in H2 by done.
        eapply (ok_own _ Hok _ _ _ _ Hs H2). congruence.
      * rewrite lookup_insert_eq in H2. injection H2 as <-. rewrite lookup_insert_ne in H1 by done.
        eapply (ok_own _ Hok _ _ _ _ H1 Hs). congruence.
      * rewrite lookup_insert_ne in H1, H2 by done. by eapply ok_own.
Qed.

(** *** Add *)

(** Insertion of a block that is not there yet. *)
Lemma insert_ok (o : OM) block exp :
  om_ok o -> orphan o !! b_Hash block = None ->
  let (s, arrays) := hash_append (prevOrphans o !! b_PreviousBlockHash block) (b_Hash block) (om_arrays o) in
  om_ok (mkOM (<[b_Hash block := mkOrphan block exp]> (orphan o))
              (<[b_PreviousBlockHash block := s]> (prevOrphans o)) arrays).
Proof.
  intros Hok Hnew. set (h := b_Hash block) in *. set (prev := b_PreviousBlockHash block).
  pose proof (hash_append_elems (prevOrphans o !! prev) h (om_arrays o)) as Ha.
  destruct (hash_append _ _ _) as [s' arrays'].
  destruct Ha as (Hel & Hpos & Hval & Hlen & Hkeep & Hown); [by eapply ok_valid|].
  (* an array of another parent is kept *)
  assert (Hoth : forall p s2, p <> prev -> prevOrphans o !! p = Some s2 ->
            sl_arr s2 <> sl_arr s' /\ elems arrays' s2 = elems (om_arrays o) s2
            /\ arrays' !! sl_arr s2 = om_arrays o !! sl_arr s2).
  { intros p s2 Hne Hp. destruct (ok_valid _ Hok _ _ Hp) as (arr & Harr & _).
    apply lookup_lt_Some in Harr as Hlt.
    assert (Hk : sl_arr s2 <> sl_arr s').
    { destruct Hown as [->|(s0 & Hs0 & ->)]; [lia|]. intros Heq. apply Hne. by eapply ok_own. }
    pose proof (Hkeep _ Hlt Hk) as Hlk. split_and!; [done| |done].
    unfold elems. by rewrite !list_lookup_total_alt, Hlk. }
  assert (Hin' : forall x, x ∈ elems arrays' s' <->
            x = h \/ exists s0, prevOrphans o !! prev = Some s0 /\ x ∈ elems (om_arrays o) s0).
  { intros x. rewrite Hel, elem_of_app, list_elem_of_singleton.
    destruct (prevOrphans o !! prev) as [s0|]; [naive_solver|]. rewrite elem_of_nil. naive_solver. }
  split; cbn [orphan prevOrphans om_arrays].
  - intros h' ob [[<- <-]|[_ Ho]]%lookup_insert_Some; [done|]. by apply (ok_hash _ Hok).
  - intros h' ob [[<- <-]|[Hne Ho]]%lookup_insert_Some.
    + exists s'. cbn [o_Block]. fold prev. rewrite lookup_insert_eq, Hin'. auto.
    + destruct (ok_listed _ Hok _ _ Ho) as (s2 & Hs2 & Hin).
      destruct (decide (b_PreviousBlockHash (o_Block ob) = prev)) as [Heq|Hpne].
      * exists s'. rewrite Heq in *. rewrite lookup_insert_eq, Hin'. eauto.
      * exists s2. rewrite lookup_insert_ne by done. split; [done|]. by destruct (Hoth _ _ Hpne Hs2) as (_ & -> & _).
  - intros p s2 x [[<- <-]|[Hne Hp]]%lookup_insert_Some Hx.
    + apply Hin' in Hx as [->|(s0 & Hs0 & Hx)].
      * eexists. by rewrite lookup_insert_eq.
      * destruct (ok_back _ Hok _ _ _ Hs0 Hx) as (ob & Ho & Hpr). exists ob. split; [|done].
        rewrite lookup_insert_ne; [done|]. intros <-. congruence.
    + destruct (Hoth p s2) as (_ & Heq & _); [done|done|]. rewrite Heq in Hx.
      destruct (ok_back _ Hok _ _ _ Hp Hx) as (ob & Ho & Hpr). exists ob. split; [|done].
      rewrite lookup_insert_ne; [done|]. intros <-. congruence.
  - intros p s2 [[<- <-]|[Hne Hp]]%lookup_insert_Some.
    + split; [|done]. rewrite Hel. apply NoDup_app. split_and!.
      * destruct (prevOrphans o !! prev) as [s0|] eqn:Hs0; [by eapply ok_elems|constructor].
      * intros x Hx ->%list_elem_of_singleton.
        destruct (prevOrphans o !! prev) as [s0|] eqn:Hs0; [|by apply elem_of_nil in Hx].
        destruct (ok_back _ Hok _ _ _ Hs0 Hx) as (ob & Ho & _). congruence.
      * apply NoDup_singleton.
    + destruct (Hoth p s2) as (_ & -> & _); [done|done|]. by eapply ok_elems.
  - intros p s2 [[<- <-]|[Hne Hp]]%lookup_insert_Some; [done|].
    destruct (Hoth p s2) as (_ & _ & ->); [done|done|]. by eapply ok_valid.
  - intros p s1 p' s2 [[<- <-]|[Hne1 H1]]%lookup_insert_Some [[<- <-]|[Hne2 H2]]%lookup_insert_Some Heq.
    + done.
    + destruct (Hoth p' s2) as (Hk & _ & _); [done|done|congruence].
    + destruct (Hoth p s1) as (Hk & _ & _); [done|done|congruence].
    + by eapply ok_own.
Qed.

Lemma earliest_in (l : list (Hash * OrphanBlock)) ob : earliest l = Some ob -> exists h, (h, ob) ∈ l.
Proof.
  unfold earliest. assert (Hgen : forall best ob, foldl (fun best '(_, ob) =>
     match best with None => Some ob | Some b => if o_expiration ob <? o_expiration b then Some ob else best end)
     best l = Some ob -> (exists h : Hash, (h, ob) ∈ l) \/ best = Some ob).
  { induction l as [|[h x] l IH]; intros best ob' Hf; [by right|]. cbn in Hf.
    apply IH in Hf as [(h' & Hin)|Hf]; [left; exists h'; by right|].
    destruct best as [b|]; [destruct (o_expiration x <? o_expiration b)|]; simplify_eq; eauto;
      left; exists h; left. }
  intros Hf. by apply Hgen in Hf as [?|?].
Qed.

Lemma earliest_some (l : list (Hash * OrphanBlock (Hash := Hash))) : l <> [] -> earliest l <> None.
Proof.
  unfold earliest. destruct l as [|[h x] l]; [done|]. intros _. cbn.
  assert (Hgen : forall b, foldl (fun best '(_, ob) =>
     match best with None => Some ob | Some b => if o_expiration ob <? o_expiration b then Some ob else best end)
     (Some b) l <> None); [|apply Hgen].
  induction l as [|[h' y] l IH]; intros b; [done|]. cbn. by destruct (o_expiration y <? o_expiration b).
Qed.

Context {RL : MapRangeLaws R}.

(** [deleteLRU] keeps the invariant and removes exactly one orphan, if any. *)
Lemma deleteLRU_ok (o : OM) :
  om_ok o -> om_ok (deleteLRU o)
  /\ (orphan (deleteLRU o) ⊆ orphan o)
  /\ (orphan o <> ∅ -> size (orphan (deleteLRU o)) = (size (orphan o) - 1)%nat).
Proof.
  intros Hok. unfold deleteLRU. destruct (earliest _) as [ob|] eqn:He.
  - apply earliest_in in He as [h Hin]. rewrite (map_range_perm (orphan o)) in Hin.
    apply elem_of_map_to_list in Hin. rewrite (ok_hash _ Hok _ _ Hin).
    destruct (delete_ok h o Hok) as [Hok' ->]. split; [done|]. split; [apply delete_subseteq|].
    intros _. rewrite map_size_delete_Some by (by eexists). lia.
  - split; [done|]. split; [done|]. intros Hne. exfalso. apply (earliest_some (map_range (orphan o))); [|done].
    intros Hnil. pose proof (map_range_perm (orphan o)) as Hp. rewrite Hnil in Hp.
    apply Permutation_nil_l in Hp. by apply Hne, map_to_list_empty_iff.
Qed.

Lemma Add_ok now block (o : OM) :
  om_ok o -> (size (orphan o) <= numOrphanBlockLimit)%nat ->
  om_ok (Add now block o) /\ (size (orphan (Add now block o)) <= numOrphanBlockLimit)%nat.
Proof.
  intros Hok Hsize. unfold Add. destruct (orphan o !! b_Hash block) as [ob|] eqn:Hob; [done|].
  set (o' := if (numOrphanBlockLimit <=? size (orphan o))%nat then deleteLRU o else o).
  assert (Ho' : om_ok o' /\ orphan o' ⊆ orphan o /\ (size (orphan o') < numOrphanBlockLimit)%nat).
  { unfold o'. destruct (deleteLRU_ok o Hok) as (H1 & H2 & H3).
    destruct (Nat.leb_spec numOrphanBlockLimit (size (orphan o))) as [Hle|Hlt]; [|split_and!; [done|done|lia]].
    split_and!; [done|done|]. rewrite H3; [unfold numOrphanBlockLimit in *; lia|].
    intros Hempty. rewrite Hempty, map_size_empty in Hle. unfold numOrphanBlockLimit in Hle. lia. }
  destruct Ho' as (Hok' & Hsub & Hsz).
  assert (Hnone : orphan o' !! b_Hash block = None) by (by eapply lookup_weaken_None).
  pose proof (insert_ok o' block (now + orphanBlockTTL) Hok' Hnone) as Hins.
  destruct (hash_append _ _ _) as [s arrays]. split; [exact Hins|]. cbn [orphan].
  rewrite map_size_insert, Hnone. lia.
Qed.

Lemma orphanExpire_ok now l (o : OM) :
  om_ok o -> om_ok (orphanExpire_loop now l o)
  /\ (size (orphan (orphanExpire_loop now l o)) <= size (orphan o))%nat.
Proof.
  revert o. induction l as [|[h ob] l IH]; intros o Hok; cbn [orphanExpire_loop]; [done|].
  destruct (o_expiration ob <? now); [|by apply IH].
  destruct (delete_ok h o Hok) as [Hok' Hd]. destruct (IH _ Hok') as [H1 H2]. split; [done|].
  rewrite Hd in H2. pose proof (map_subseteq_size _ _ (delete_subseteq (orphan o) h)). lia.
Qed.

(** The states the operations lead to from the empty one. *)
Inductive om_reach : OM -> Prop :=
  | om_new : om_reach NewOrphanManage
  | om_add now block o : om_reach o -> om_reach (Add now block o)
  | om_delete h o : om_reach o -> om_reach (Delete h o)
  | om_expire now o : om_reach o -> om_reach (orphanExpire now o).

Lemma om_reach_ok o : om_reach o -> om_ok o /\ (size (orphan o) <= numOrphanBlockLimit)%nat.
Proof.
  induction 1 as [|now block o _ [IH1 IH2]|h o _ [IH1 IH2]|now o _ [IH1 IH2]].
  - split; [|cbn [NewOrphanManage orphan]; rewrite map_size_empty; lia].
    split; cbn [NewOrphanManage orphan prevOrphans]; intros *; rewrite ?lookup_empty; done.
  - by apply Add_ok.
  - unfold Delete. destruct (delete_ok h o IH1) as [Hok Hd]. split; [done|].
    rewrite Hd. pose proof (map_subseteq_size _ _ (delete_subseteq (orphan o) h)). lia.
  - destruct (orphanExpire_ok now (map_range (orphan o)) o IH1). split; [done|]. unfold orphanExpire. lia.
Qed.

(** C37.  The reachable states of the orphan pool: at most 256 orphans, every
    orphan is listed under its parent, and every parent's list is non-empty,
    without duplicates, and holds exactly orphans of that parent, although
    deletions shift shared arrays. *)
Theorem OrphanManage_invariant (o : OM) :
  om_reach o ->
  (size (orphan o) <= 256)%nat
  /\ (forall h b, Get h o = Some b -> b_Hash b = h
        /\ exists s, GetPrevOrphans (b_PreviousBlockHash b) o = Some s /\ h ∈ elems (om_arrays o) s)
  /\ (forall p s, GetPrevOrphans p o = Some s ->
        NoDup (elems (om_arrays o) s) /\ elems (om_arrays o) s <> []
        /\ forall h, h ∈ elems (om_arrays o) s -> exists b, Get h o = Some b /\ b_PreviousBlockHash b = p).
Proof.
  intros [Hok Hsize]%om_reach_ok. split_and!; [done| |].
  - unfold Get. intros h b. rewrite fmap_Some. intros (ob & Hob & ->).
    split; [by apply (ok_hash _ Hok)|]. by apply (ok_listed _ Hok).
  - unfold Get, GetPrevOrphans. intros p s Hs. destruct (ok_elems _ Hok _ _ Hs) as [Hnd Hpos].
    destruct (ok_valid _ Hok _ _ Hs) as (arr & Ha & Hl). split_and!; [done| |].
    + rewrite (elems_eq _ _ _ Ha). intros Hnil. apply (f_equal length) in Hnil.
      rewrite length_take in Hnil. cbn in Hnil. lia.
    + intros h Hin. destruct (ok_back _ Hok _ _ _ Hs Hin) as (ob & -> & Hp). by exists (o_Block ob).
Qed.

End Invariant.

(** ** saveSubBlock on chains *)

Section Chains.
Context {Hash : Type} {Hash_eq : EqDecision Hash} {Hash_countable : Countable Hash}.
Context {R : MapRange} {GR : GoRuntime}.
Abbreviation OM := (OrphanManage (Hash := Hash)).
Abbreviation Blk := (Block (Hash := Hash)).
Context {RL : MapRangeLaws R} (valid : list Hash -> Blk -> bool).

(** At most one orphan per parent. *)
Definition chains (o : OM) : Prop := forall p s, prevOrphans o !! p = Some s -> sl_len s = 1%nat.

Lemma chains_delete h o : om_ok o -> chains o -> chains (delete_ h o).
Proof.
  intros Hok Hc. destruct (orphan o !! h) as [ob|] eqn:Hob; [|unfold delete_; by rewrite Hob].
  destruct (delete_cases h o ob Hok Hob) as (s & Hs & [(_ & _ & ->)|(i & _ & Hl & _)]).
  - unfold chains. cbn [prevOrphans]. intros p s' [_ Hp]%lookup_delete_Some. by eapply Hc.
  - rewrite (Hc _ _ Hs) in Hl. lia.
Qed.

(** [bs] is a branch of orphans from [h] on, each the child of the one before. *)
Fixpoint branch (o : OM) (h : Hash) (bs : list Blk) : Prop :=
  match bs with
  | [] => True
  | b :: bs' => Get (b_Hash b) o = Some b /\ b_PreviousBlockHash b = h /\ branch o (b_Hash b) bs'
  end.

Lemma branch_mono o o' h bs : orphan o ⊆ orphan o' -> branch o h bs -> branch o' h bs.
Proof.
  intros Ho. revert h. induction bs as [|b bs IH]; intros h; cbn [branch]; [done|].
  unfold Get. intros ((ob & Hob & Hb)%fmap_Some & Hp & Hbs). split_and!; [|done|by apply IH].
  apply fmap_Some. exists ob. split; [by eapply lookup_weaken|done].
Qed.

(** The hash of the last block of a branch. *)
Definition tip (h : Hash) (bs : list Blk) : Hash := foldl (fun _ b => b_Hash b) h bs.

(** The outcome on chains: a branch is stored, and it stops where no orphan is acceptable. *)
Record saved_branch (h : Hash) (o : OM) (stored : list Hash) (o' : OM) (bs : list Blk) : Prop := {
  sb_branch : branch o h bs;
  sb_orphans : orphan o' = foldl (fun m b => delete (b_Hash b) m) (orphan o) bs;
  sb_stop b : Get (b_Hash b) o' = Some b -> b_PreviousBlockHash b = tip h bs ->
    acceptable valid (stored ++ (b_Hash <$> bs)) b = false;
}.

Lemma saved_branch_nil h o stored :
  (forall b, Get (b_Hash b) o = Some b -> b_PreviousBlockHash b = h -> acceptable valid stored b = false) ->
  saved_branch h o stored o [].
Proof. intros Hs. split; [done|done|]. rewrite app_nil_r. apply Hs. Qed.

(** On chains, the orphan of a parent is the only element of its list. *)
Lemma chain_only o p s :
  om_ok o -> chains o -> prevOrphans o !! p = Some s ->
  exists h ob, (om_arrays o !!! sl_arr s) !! 0%nat = Some h /\ orphan o !! h = Some ob
    /\ b_PreviousBlockHash (o_Block ob) = p
    /\ forall b, Get (b_Hash b) o = Some b -> b_PreviousBlockHash b = p -> b = o_Block ob.
Proof.
  intros Hok Hc Hs. destruct (ok_valid _ Hok _ _ Hs) as (arr & Ha & Hl). rewrite (Hc _ _ Hs) in Hl.
  destruct arr as [|h arr]; [cbn in Hl; lia|]. rewrite (list_lookup_total_correct _ _ _ Ha).
  assert (He : elems (om_arrays o) s = [h]) by (rewrite (elems_eq _ _ _ Ha), (Hc _ _ Hs); done).
  assert (Hin : h ∈ elems (om_arrays o) s) by (rewrite He; left).
  destruct (ok_back _ Hok _ _ _ Hs Hin) as (ob & Ho & Hp). exists h, ob. split_and!; [done..|].
  unfold Get. intros b (ob' & Hob' & ->)%fmap_Some Hp'. destruct (ok_listed _ Hok _ _ Hob') as (s' & Hs' & Hin').
  rewrite Hp', Hs in Hs'. simplify_eq. rewrite He in Hin'. apply list_elem_of_singleton in Hin'.
  rewrite Hin' in Hob'. congruence.
Qed.

Lemma saveSubBlock_chain fuel block o stored :
  om_ok o -> chains o -> (size (orphan o) < fuel)%nat ->
  exists o' bs, saveSubBlock valid fuel block (o, stored) = Some (o', stored ++ (b_Hash <$> bs))
    /\ saved_branch (b_Hash block) o stored o' bs.
Proof.
  revert block o stored. induction fuel as [|f IH]; intros block o stored Hok Hc Hf; [lia|]. cbn [saveSubBlock].
  unfold GetPrevOrphans. cbn [fst]. destruct (prevOrphans o !! b_Hash block) as [s|] eqn:Hs.
  2:{ exists o, []. split; [by rewrite app_nil_r|]. apply saved_branch_nil. unfold Get.
      intros b (ob & Hob & ->)%fmap_Some Hp. destruct (ok_listed _ Hok _ _ Hob) as (s & Hs' & _). congruence. }
  rewrite (Hc _ _ Hs). cbn [saveSub_loop fst].
  destruct (chain_only o _ s Hok Hc Hs) as (h & ob & Ha & Ho & Hp & Honly). rewrite Ha. cbn [mbind option_bind].
  unfold Get at 1. rewrite Ho. cbn [fmap option_fmap option_map mbind option_bind].
  unfold saveBlock. cbn [fst snd]. destruct (acceptable valid stored (o_Block ob)) eqn:Hv; cbn [mbind option_bind].
  2:{ exists o, []. split; [by rewrite app_nil_r|]. apply saved_branch_nil. intros b Hb Hpb. by rewrite (Honly b Hb Hpb). }
  pose proof (ok_hash _ Hok _ _ Ho) as Hh. destruct (delete_ok (b_Hash (o_Block ob)) o Hok) as [Hok' Hdel].
  destruct (IH (o_Block ob) (Delete (b_Hash (o_Block ob)) o) (stored ++ [b_Hash (o_Block ob)])) as (o' & bs & -> & [H1 H2 H3]).
  - done.
  - by apply chains_delete.
  - unfold Delete. rewrite Hdel, map_size_delete, Hh, Ho. pose proof (map_size_ne_0_lookup_2 (orphan o) h ltac:(eauto)). lia.
  - exists o', (o_Block ob :: bs). cbn [fmap list_fmap]. rewrite <- app_assoc. split; [done|]. unfold Delete in *. split.
    + cbn [branch]. split_and!; [unfold Get; by rewrite Hh, Ho|done|].
      eapply branch_mono; [|exact H1]. rewrite Hdel. apply delete_subseteq.
    + cbn [foldl]. by rewrite H2, Hdel.
    + intros b Hb Ht. rewrite <- app_assoc in H3. by apply H3.
Qed.

(** On orphans that form chains (at most one per parent), [saveSubBlock]
    never panics, and with fuel above the number of orphans it stores exactly a
    branch that starts at the block's child, removes those blocks from the orphans
    and nothing else, and stops only where the next orphan is not acceptable. *)
Theorem saveSubBlock_chain_safe fuel block o stored :
  om_reach o -> chains o -> (size (orphan o) < fuel)%nat ->
  exists o' bs, saveSubBlock valid fuel block (o, stored) = Some (o', stored ++ (b_Hash <$> bs))
    /\ branch o (b_Hash block) bs
    /\ orphan o' = foldl (fun m b => delete (b_Hash b) m) (orphan o) bs
    /\ forall b, Get (b_Hash b) o' = Some b -> b_PreviousBlockHash b = tip (b_Hash block) bs ->
         acceptable valid (stored ++ (b_Hash <$> bs)) b = false.
Proof.
  intros [Hok _]%om_reach_ok Hc Hf. destruct (saveSubBlock_chain fuel block o stored Hok Hc Hf) as (o' & bs & H1 & [? ? ?]).
  by exists o', bs.
Qed.
End Chains.

(** ** Three orphans of one parent *)

(** The growth of Go's [append] for short slices. *)
Definition doubling : GoRuntime := fun cap need => if (need <=? 2 * cap)%nat then (2 * cap)%nat else need.

Definition sibling (h : Z) : Block (Hash := Z) := mkOBlock h 10 11.
Definition siblings (n : nat) : OrphanManage (Hash := Z) :=
  foldl (fun o h => Add (GR := doubling) 0 (sibling h) o) NewOrphanManage (Z.of_nat <$> seq 1 n).

Lemma siblings_reach n : om_reach (GR := doubling) (siblings n).
Proof.
  unfold siblings. assert (Hgen : forall l o, om_reach (GR := doubling) o ->
    om_reach (GR := doubling) (foldl (fun o h => Add (GR := doubling) 0 (sibling h) o) o l)).
  { induction l as [|h l IH]; intros o Ho; cbn [foldl]; [done|]. by apply IH, om_add. }
  apply Hgen, om_new.
Defined.

(** The removal of a saved orphan shifts the very array [saveSubBlock] is
    ranging over: with three valid orphans of one parent the second is skipped and
    the third is looked up again after its deletion, where [Get] dereferences a
    nil pointer. *)
Theorem saveSubBlock_panics :
  om_reach (GR := doubling) (siblings 3)
  /\ (forall f, saveSubBlock (fun _ _ => true) (S (S f)) (mkOBlock 10 9 10) (siblings 3, [10]) = None)
  /\ saveSub_loop (fun _ _ => true) (fun _ st => Some st) (default (HSlice 0 0) (GetPrevOrphans 10 (siblings 3))) 0 2 (siblings 3, [10])
     = Some (Delete 3 (Delete 1 (siblings 3)), [10; 1; 3]).
Proof. split; [apply siblings_reach|]. split; [intros f|]; vm_compute; reflexivity. Qed.

Lemma OrphanManage_invariant_witness :
  (size (orphan (siblings 2)) <= 256)%nat /\ Get 2 (siblings 2) = Some (sibling 2)
  /\ GetPrevOrphans (b_PreviousBlockHash (sibling 2)) (siblings 2) <> None.
Proof.
  destruct (OrphanManage_invariant (GR := doubling) (siblings 2) (siblings_reach 2)) as (H1 & H2 & _).
  split; [exact H1|]. assert (Hg : Get 2 (siblings 2) = Some (sibling 2)) by (vm_compute; reflexivity).
  split; [exact Hg|]. destruct (H2 2 (sibling 2) Hg) as (_ & s & Hs & _). rewrite Hs. discriminate.
Defined.

Lemma saveSubBlock_chain_safe_witness :
  exists o' bs, saveSubBlock (fun _ _ => true) 10 (mkOBlock 10 9 10) (siblings 1, [10]) = Some (o', [10] ++ (b_Hash <$> bs))
    /\ branch (siblings 1) 10 bs.
Proof.
  destruct (saveSubBlock_chain_safe (GR := doubling) (fun _ _ => true) 10 (mkOBlock 10 9 10) (siblings 1) [10])
    as (o' & bs & H1 & H2 & _).
  - exact (siblings_reach 1).
  - intros p s Hs. assert (Hall : forallb (fun '(_, s) => (sl_len s =? 1)%nat)
      (map_to_list (prevOrphans (siblings 1))) = true) by (vm_compute; reflexivity).
    rewrite forallb_forall in Hall. apply Nat.eqb_eq, (Hall (p, s)).
    apply list_elem_of_In, elem_of_map_to_list, Hs.
  - vm_compute. lia.
  - exact (ex_intro _ o' (ex_intro _ bs (conj H1 H2))).
Defined.
