(* ===== verification/Checkpoint.v ===== *)
(** * Checkpoints: protocol/state/checkpoint.go, reward.go, and bc/types/sup_link.go

    A checkpoint accumulates an epoch of blocks: the votes for the validators,
    their rewards, and the supermajority links the validators sign.  Hashes are
    byte strings; the maps keyed by Go strings (hex of a public key or of a
    control program) are finite maps keyed by the bytes of that string.  The
    [Parent] pointer is left to [Casper.v], which keeps the tree.  Floating
    point is the binary64 arithmetic of the Standard Library's [SpecFloat]. *)

From S2P Require Import Prelude Orphans.
From Stdlib Require Import Strings.Byte Floats.SpecFloat.
From stdpp Require Import sorting.
#[local] Open Scope Z_scope.

Abbreviation Hash := bytes.

(** ** Network parameters: consensus/general.go *)

Record NetParams := mkNet {
  BlockTimeInterval : Z;
  BlocksOfEpoch : Z;
  MinValidatorVoteNum : Z;
  (* the federation's public keys as strings; on the solo network, the node's own *)
  Federation : list bytes;
}.

Definition MaxNumOfValidators : nat := 10.
Definition InitBTMSupply : Z := 169290721678579170 + 50000000000.
Definition BlockReward : Z := 570776255.

(** ** sup_link.go *)

(** [Signatures] is an array of [MaxNumOfValidators] signatures, empty when absent. *)
Record SupLink := mkSup { SourceHeight : Z; SourceHash : Hash; Signatures : list bytes }.

#[export] Instance SupLink_eq_dec : EqDecision SupLink.
Proof. solve_decision. Defined.

Definition no_signatures : list bytes := replicate MaxNumOfValidators [].

Definition NewSupLink (height : Z) (hash : Hash) : SupLink := mkSup height hash no_signatures.

(** [supLink.Signatures[validatorOrder] = signature]; [None] is the index panic. *)
Definition set_signature (order : nat) (signature : bytes) (l : SupLink) : option SupLink :=
  if (order <? length (Signatures l))%nat
  then Some (mkSup (SourceHeight l) (SourceHash l) (<[order := signature]> (Signatures l)))
  else None.

(** [SupLinks.AddSupLink], and the same loop in [Checkpoint.AddVerification]:
    the link of this source, which is added when there is none. *)
Fixpoint AddSupLink (height : Z) (hash : Hash) (signature : bytes) (order : nat) (ls : list SupLink)
  : option (list SupLink * SupLink) :=
  match ls with
  | [] => l ← set_signature order signature (NewSupLink height hash); Some ([l], l)
  | l :: ls' =>
      if bool_decide (SourceHash l = hash) then
        l' ← set_signature order signature l; Some (l' :: ls', l')
      else
        '(ls'', l') ← AddSupLink height hash signature order ls'; Some (l :: ls'', l')
  end.

Definition signature_count (sigs : list bytes) : nat := length (filter (fun s => s <> []) sigs).

Definition IsMajority (numOfValidators : Z) (l : SupLink) : bool :=
  Z.of_nat (signature_count (Signatures l)) >? numOfValidators * 2 ÷ 3.

(** ** checkpoint.go *)

Inductive CheckpointStatus := Growing | Unjustified | Justified | Finalized.

#[export] Instance CheckpointStatus_eq_dec : EqDecision CheckpointStatus.
Proof. solve_decision. Defined.

Record Checkpoint := mkCheckpoint {
  Height : Z;
  cp_Hash : Hash;
  ParentHash : Hash;
  Timestamp : Z;
  Status : CheckpointStatus;
  Rewards : gmap bytes Z;
  Votes : gmap bytes Z;
  SupLinks : list SupLink;
}.

Definition set_Status (s : CheckpointStatus) (c : Checkpoint) : Checkpoint :=
  mkCheckpoint (Height c) (cp_Hash c) (ParentHash c) (Timestamp c) s (Rewards c) (Votes c) (SupLinks c).
Definition set_SupLinks (ls : list SupLink) (c : Checkpoint) : Checkpoint :=
  mkCheckpoint (Height c) (cp_Hash c) (ParentHash c) (Timestamp c) (Status c) (Rewards c) (Votes c) ls.
Definition set_Votes (v : gmap bytes Z) (c : Checkpoint) : Checkpoint :=
  mkCheckpoint (Height c) (cp_Hash c) (ParentHash c) (Timestamp c) (Status c) (Rewards c) v (SupLinks c).
Definition set_Rewards (r : gmap bytes Z) (c : Checkpoint) : Checkpoint :=
  mkCheckpoint (Height c) (cp_Hash c) (ParentHash c) (Timestamp c) (Status c) r (Votes c) (SupLinks c).

Definition NewCheckpoint (parent : Checkpoint) : Checkpoint := {|
  Height := Height parent;
  cp_Hash := cp_Hash parent;
  ParentHash := cp_Hash parent;
  Timestamp := Timestamp parent;
  Status := Growing;
  Rewards := ∅;
  Votes := filter (fun '(_, num) => num <> 0) (Votes parent);
  SupLinks := [];
|}.

Definition AddVerification (sourceHash : Hash) (sourceHeight : Z) (order : nat) (signature : bytes)
    (c : Checkpoint) : option (Checkpoint * SupLink) :=
  '(ls, l) ← AddSupLink sourceHeight sourceHash signature order (SupLinks c);
  Some (set_SupLinks ls c, l).

(** [len(supLink.Signatures[validatorOrder]) != 0]. *)
Definition signed (order : nat) (l : SupLink) : bool := negb (zlen (Signatures l !!! order) =? 0).

Definition ContainsVerification (order : nat) (sourceHash : option Hash) (c : Checkpoint) : bool :=
  existsb (fun l => match sourceHash with None => true | Some h => bool_decide (SourceHash l = h) end
                    && signed order l) (SupLinks c).

(** The blocks a checkpoint is increased with. *)
Record typed_input := mkInput { i_AssetID : bytes; i_Amount : Z; i_Veto : option bytes }.
Record tx_output := mkOutput { out_AssetId : bytes; out_Amount : Z; out_Program : bytes; out_Vote : option bytes }.
Record cp_tx := mkCpTx { Inputs : list typed_input; Outputs : list tx_output }.
Record cp_block := mkCpBlock {
  blk_Height : Z; blk_Hash : Hash; blk_Prev : Hash; blk_Timestamp : Z; blk_Txs : list cp_tx
}.

Definition apply_veto (v : gmap bytes Z) (i : typed_input) : gmap bytes Z :=
  match i_Veto i with
  | None => v
  | Some vote =>
      let pubKey := hex_encode vote in
      let num := default 0 (v !! pubKey) in
      if num >? i_Amount i then <[pubKey := u64 (num - i_Amount i)]> v else delete pubKey v
  end.

Definition apply_vote (v : gmap bytes Z) (o : tx_output) : gmap bytes Z :=
  match out_Vote o with
  | None => v
  | Some vote =>
      let pubKey := hex_encode vote in
      <[pubKey := u64 (default 0 (v !! pubKey) + out_Amount o)]> v
  end.

Definition tx_votes (v : gmap bytes Z) (tx : cp_tx) : gmap bytes Z :=
  foldl apply_vote (foldl apply_veto v (Inputs tx)) (Outputs tx).

Definition applyVotes (block : cp_block) (c : Checkpoint) : Checkpoint :=
  set_Votes (foldl tx_votes (Votes c) (blk_Txs block)) c.

(** [TxData.Fee] of bc/types/transaction.go. *)
Definition Fee (tx : cp_tx) : Z :=
  let inputBTM := foldl (fun n i => if bool_decide (i_AssetID i = BTMAssetID) then u64 (n + i_Amount i) else n)
                        0 (Inputs tx) in
  let outputBTM := foldl (fun n o => if bool_decide (out_AssetId o = BTMAssetID) then u64 (n + out_Amount o) else n)
                         0 (Outputs tx) in
  if inputBTM >? outputBTM then inputBTM - outputBTM else 0.

(** *** reward.go, in binary64 *)

Definition f64_of_u64 (z : Z) : spec_float := binary_normalize 53 1024 z 0 false.
Definition f64_half : spec_float := S754_finite false 4503599627370496 (-53).
(** The conversion [uint64(f)] of a float in range. *)
Definition u64_of_f64 (f : spec_float) : Z :=
  match f with
  | S754_finite false m e => if 0 <=? e then Z.pos m * 2 ^ e else Z.pos m / 2 ^ (- e)
  | _ => 0
  end.

Section Range.
Context {R : MapRange} (net : NetParams).

Definition pledgeRate (c : Checkpoint) : spec_float :=
  let totalVotes := foldl (fun n '(_, vote) => u64 (n + vote)) 0 (map_range (Votes c)) in
  let totalSupply := u64 (u64 (Height c * BlockReward) / 2 + InitBTMSupply) in
  SFdiv 53 1024 (f64_of_u64 totalVotes) (f64_of_u64 totalSupply).

Definition validatorReward (c : Checkpoint) : Z :=
  let rate := pledgeRate c in
  if SFleb rate f64_half
  then u64_of_f64 (SFmul 53 1024 (SFadd 53 1024 rate f64_half) (f64_of_u64 BlockReward))
  else BlockReward.

(** [c.Rewards[script] += n]. *)
Definition add_reward (script : bytes) (n : Z) (r : gmap bytes Z) : gmap bytes Z :=
  <[script := u64 (default 0 (r !! script) + n)]> r.

(** [None]: the block has no first transaction, or that no output. *)
Definition applyValidatorReward (block : cp_block) (c : Checkpoint) : option Checkpoint :=
  t0 ← head (blk_Txs block);
  o0 ← head (Outputs t0);
  let script := hex_encode (out_Program o0) in
  let r := foldl (fun r tx => add_reward script (Fee tx) r) (Rewards c) (blk_Txs block) in
  Some (set_Rewards (add_reward script (validatorReward c) r) c).

(** [Increase]: [inl] is the error, with the checkpoint unchanged. *)
Definition Increase (block : cp_block) (c : Checkpoint) : option (unit + Checkpoint) :=
  if negb (bool_decide (blk_Prev block = cp_Hash c)) then Some (inl tt)
  else
    let status := if blk_Height block mod BlocksOfEpoch net =? 0 then Unjustified else Status c in
    let c := mkCheckpoint (blk_Height block) (blk_Hash block) (ParentHash c) (blk_Timestamp block)
               status (Rewards c) (Votes c) (SupLinks c) in
    c ← applyValidatorReward block (applyVotes block c);
    Some (inr c).

(** *** Validators *)

Record Validator := mkValidator { PubKey : bytes; Order : nat; VoteNum : Z }.

(** The [less] of [sort.Slice]: more votes first, then the greater key. *)
Definition before (x y : Validator) : bool :=
  if negb (VoteNum x =? VoteNum y) then VoteNum x >? VoteNum y else bytes_ltb (PubKey y) (PubKey x).

(** [sort.Slice], for an order that is total on the elements. *)
Fixpoint insert_sorted (x : Validator) (l : list Validator) : list Validator :=
  match l with
  | [] => [x]
  | y :: l' => if before x y then x :: l else y :: insert_sorted x l'
  end.
Definition sort_validators (l : list Validator) : list Validator := foldr insert_sorted [] l.

Definition AllValidators (c : Checkpoint) : list Validator :=
  if bool_decide (Status c = Growing) then []
  else sort_validators
         (omap (fun '(pubKey, voteNum) =>
                  if voteNum >=? MinValidatorVoteNum net then Some (mkValidator pubKey 0 voteNum) else None)
               (map_range (Votes c))).

Definition set_Order (i : nat) (v : Validator) : Validator := mkValidator (PubKey v) i (VoteNum v).

Definition federationValidators : gmap bytes Validator :=
  foldl (fun m '(i, xPub) => <[xPub := mkValidator xPub i 0]> m) ∅ (imap pair (Federation net)).

Definition EffectiveValidators (c : Checkpoint) : gmap bytes Validator :=
  match AllValidators c with
  | [] => federationValidators
  | validators =>
      foldl (fun m v => <[PubKey v := v]> m) ∅ (imap set_Order (take MaxNumOfValidators validators))
  end.

(** [None]: division by zero, when there is no validator or the interval is 0. *)
Definition getValidatorOrder (startTimestamp blockTimestamp numOfValidators : Z) : option Z :=
  let roundBlockTime := u64 (numOfValidators * BlockTimeInterval net) in
  if roundBlockTime =? 0 then None
  else
    let lastRoundStartTime :=
      u64 (startTimestamp + u64 (u64 (blockTimestamp - startTimestamp) / roundBlockTime * roundBlockTime)) in
    Some (u64 (blockTimestamp - lastRoundStartTime) / BlockTimeInterval net).

Definition GetValidator (timeStamp : Z) (c : Checkpoint) : option (option Validator) :=
  let validators := EffectiveValidators c in
  let startTimestamp := u64 (Timestamp c + BlockTimeInterval net) in
  order ← getValidatorOrder startTimestamp timeStamp (Z.of_nat (size validators));
  Some (snd <$> List.find (fun '(_, v) => Z.of_nat (Order v) =? i64 order) (map_range validators)).
End Range.

(** ** Supermajority links *)

Lemma IsMajority_iff n l :
  0 <= n -> IsMajority n l = true <-> 2 * n < 3 * Z.of_nat (signature_count (Signatures l)).
Proof.
  intros Hn. unfold IsMajority. rewrite Z.gtb_ltb, Z.ltb_lt, Z.quot_div_nonneg by lia.
  pose proof (Z.div_mod (n * 2) 3 ltac:(lia)). pose proof (Z.mod_pos_bound (n * 2) 3 ltac:(lia)). lia.
Qed.

(** The validators (by order) whose signature is in both arrays. *)
Definition both_signed (a b : list bytes) : nat :=
  length (filter (fun '(x, y) => x <> [] /\ y <> []) (zip a b)).

Lemma count_both (a b : list bytes) :
  length a = length b ->
  (signature_count a + signature_count b <= both_signed a b + length (filter (fun '(x, y) => x <> [] \/ y <> []) (zip a b)))%nat.
Proof.
  revert b. induction a as [|x a IH]; intros [|y b] Hl; try done. cbn in Hl. injection Hl as Hl.
  specialize (IH b Hl). unfold signature_count, both_signed in *. cbn [zip_with]. rewrite !filter_cons.
  repeat case_decide; cbn [length]; try lia; exfalso; tauto.
Qed.

Lemma signers_bound (a b : list bytes) (n : nat) :
  length a = length b ->
  (forall i, (n <= i)%nat -> a !!! i = [] /\ b !!! i = []) ->
  (length (filter (fun '(x, y) => x <> [] \/ y <> []) (zip a b)) <= n)%nat.
Proof.
  revert b n. induction a as [|x a IH]; intros [|y b] n Hl Hn; try done; [cbn; lia|].
  cbn in Hl. injection Hl as Hl. cbn [zip_with]. rewrite filter_cons. destruct n as [|n].
  - destruct (Hn 0%nat) as [Hx Hy]; [lia|]. cbn in Hx, Hy. subst.
    rewrite decide_False by naive_solver. apply (IH b 0%nat Hl). intros i Hi. apply (Hn (S i)). lia.
  - specialize (IH b n Hl). enough (length (filter (fun '(x, y) => x <> [] \/ y <> []) (zip a b)) <= n)%nat
      by (case_decide; cbn [length]; lia).
    apply IH. intros i Hi. apply (Hn (S i)). lia.
Qed.

(** Two supermajority links among the same n validators share more than a
    third of them as signers. *)
Theorem quorum_intersection (n : nat) l1 l2 :
  length (Signatures l1) = length (Signatures l2) ->
  (forall i, (n <= i)%nat -> Signatures l1 !!! i = [] /\ Signatures l2 !!! i = []) ->
  IsMajority (Z.of_nat n) l1 = true -> IsMajority (Z.of_nat n) l2 = true ->
  Z.of_nat n < 3 * Z.of_nat (both_signed (Signatures l1) (Signatures l2)).
Proof.
  intros Hl Hn H1%IsMajority_iff H2%IsMajority_iff; [|lia..].
  pose proof (count_both _ _ Hl). pose proof (signers_bound _ _ n Hl Hn). lia.
Qed.

Lemma quorum_intersection_witness :
  let l1 := mkSup 0 [] ([[x01]; [x01]; [x01]; []] ++ replicate 6 []) in
  let l2 := mkSup 100 [x01] ([[x02]; []; [x02]; [x02]] ++ replicate 6 []) in
  Z.of_nat 4 < 3 * Z.of_nat (both_signed (Signatures l1) (Signatures l2)).
Proof.
  intros l1 l2. apply (quorum_intersection 4 l1 l2); [reflexivity| |reflexivity..].
  intros i Hi. do 4 (destruct i as [|i]; [lia|]). clear Hi.
  do 6 (destruct i as [|i]; [by split|]). by split.
Defined.

(** The comment on [IsMajority] says at least 2/3 of the validators: with exactly
    two thirds it answers false. *)
Theorem IsMajority_strict (k : nat) l :
  signature_count (Signatures l) = (2 * k)%nat -> IsMajority (3 * Z.of_nat k) l = false.
Proof. intros Hc. apply not_true_iff_false. rewrite IsMajority_iff, Hc by lia. lia. Qed.

Lemma IsMajority_strict_witness : IsMajority 3 (mkSup 0 [] ([[x01]; [x01]; []] ++ replicate 7 [])) = false.
Proof. apply (IsMajority_strict 1). reflexivity. Defined.

(** *** Adding a signature *)

Definition full (l : SupLink) : Prop := length (Signatures l) = MaxNumOfValidators.

(** The signature a validator has published on the link from [hash]. *)
Definition link_signature (ls : list SupLink) (hash : Hash) (order : nat) : bytes :=
  match List.find (fun l => bool_decide (SourceHash l = hash)) ls with
  | Some l => Signatures l !!! order
  | None => []
  end.

Lemma set_signature_Some order sig l :
  full l -> (order < MaxNumOfValidators)%nat ->
  set_signature order sig l = Some (mkSup (SourceHeight l) (SourceHash l) (<[order := sig]> (Signatures l))).
Proof. intros Hf Ho%Nat.ltb_lt. unfold set_signature. by rewrite Hf, Ho. Qed.

Lemma AddSupLink_spec height hash sig order ls :
  Forall full ls -> NoDup (SourceHash <$> ls) -> (order < MaxNumOfValidators)%nat ->
  exists ls' l, AddSupLink height hash sig order ls = Some (ls', l)
    /\ Forall full ls' /\ NoDup (SourceHash <$> ls') /\ SourceHash l = hash /\ l ∈ ls'
    /\ (forall x, x ∈ SourceHash <$> ls' -> x = hash \/ x ∈ SourceHash <$> ls)
    /\ forall h o, link_signature ls' h o
                   = if bool_decide (h = hash) && (o =? order)%nat then sig else link_signature ls h o.
Proof.
  intros Hf Hnd Ho. induction ls as [|l ls IH]; cbn [AddSupLink].
  - rewrite set_signature_Some by done. cbn. eexists _, _. split; [done|]. split_and!.
    + constructor; [|constructor]. unfold full. cbn [Signatures]. by rewrite length_insert.
    + apply NoDup_singleton.
    + done.
    + left.
    + intros x [->|Hx]%elem_of_cons; [by left|by apply not_elem_of_nil in Hx].
    + intros h o. unfold link_signature. cbn [List.find SourceHash]. rewrite (bool_decide_ext (hash = h) (h = hash)) by naive_solver.
      case_bool_decide; cbn [andb]; [|done]. cbn [Signatures]. unfold no_signatures.
      destruct (Nat.eqb_spec o order) as [->|Hne].
      * by rewrite list_lookup_total_insert_eq.
      * rewrite list_lookup_total_insert_ne by done. rewrite list_lookup_total_alt.
        by do 10 (destruct o as [|o]; [done|]).
  - apply Forall_cons in Hf as [Hl Hf]. cbn [fmap list_fmap] in Hnd. apply NoDup_cons in Hnd as [Hnin Hnd].
    case_bool_decide as Heq.
    + rewrite set_signature_Some by done. cbn [mbind option_bind]. eexists _, _. split; [done|]. split_and!.
      * constructor; [|done]. unfold full in *. cbn [Signatures]. by rewrite length_insert.
      * cbn. by constructor.
      * done.
      * left.
      * cbn. intros x Hx. by right.
      * intros h o. unfold link_signature. cbn [List.find SourceHash]. rewrite Heq.
        rewrite (bool_decide_ext (hash = h) (h = hash)) by naive_solver.
        case_bool_decide; cbn [andb]; [|done]. cbn [Signatures].
        destruct (Nat.eqb_spec o order) as [->|Hne].
        -- rewrite list_lookup_total_insert_eq; [done|]. by rewrite Hl.
        -- by rewrite list_lookup_total_insert_ne.
    + destruct (IH Hf Hnd) as (ls' & l' & -> & H1 & H2 & H3 & H4 & H5 & H6). cbn [mbind option_bind].
      exists (l :: ls'), l'. split; [done|]. split_and!.
      * by constructor.
      * cbn. constructor; [|done]. intros Hin. by destruct (H5 _ Hin).
      * done.
      * by right.
      * cbn. intros x [->|Hx]%elem_of_cons; [right; left|]. destruct (H5 _ Hx); [by left|right; by right].
      * intros h o. specialize (H6 h o). unfold link_signature in *. cbn [List.find].
        destruct (decide (SourceHash l = h)) as [Hh|Hh].
        -- rewrite (bool_decide_eq_true_2 (SourceHash l = h)), (bool_decide_eq_false_2 (h = hash)) by congruence. done.
        -- by rewrite !(bool_decide_eq_false_2 (SourceHash l = h)) by done.
Qed.

(** [AddVerification] records the signature in the link of its source,
    creating the link when there is none: afterwards the checkpoint contains the
    verification, every other signature, the votes and the status are unchanged,
    and sources stay distinct. *)
Theorem AddVerification_spec hash height order sig c :
  Forall full (SupLinks c) -> NoDup (SourceHash <$> SupLinks c) -> (order < MaxNumOfValidators)%nat -> sig <> [] ->
  exists c' l, AddVerification hash height order sig c = Some (c', l)
    /\ l ∈ SupLinks c' /\ SourceHash l = hash
    /\ Forall full (SupLinks c') /\ NoDup (SourceHash <$> SupLinks c')
    /\ ContainsVerification order (Some hash) c' = true
    /\ (forall h o, (h, o) <> (hash, order) -> link_signature (SupLinks c') h o = link_signature (SupLinks c) h o)
    /\ Votes c' = Votes c /\ Status c' = Status c.
Proof.
  intros Hf Hnd Ho Hs. unfold AddVerification.
  destruct (AddSupLink_spec height hash sig order _ Hf Hnd Ho) as (ls & l & -> & H1 & H2 & H3 & H4 & _ & H6).
  cbn [mbind option_bind]. eexists _, l. split; [done|]. cbn [SupLinks set_SupLinks Votes Status].
  split_and!; try done.
  - unfold ContainsVerification. cbn [SupLinks set_SupLinks]. apply existsb_exists.
    specialize (H6 hash order). rewrite bool_decide_eq_true_2, Nat.eqb_refl in H6 by done. cbn [andb] in H6.
    unfold link_signature in H6. destruct (List.find _ ls) as [l'|] eqn:Hfind; [|by subst].
    apply List.find_some in Hfind as [Hin Hh]. exists l'. split; [done|]. rewrite Hh. cbn [andb].
    unfold signed. rewrite H6. destruct sig; [done|]. rewrite zlen_cons. pose proof (zlen_nonneg sig).
    apply negb_true_iff. lia.
  - intros h o Hne. rewrite H6. case_bool_decide; cbn [andb]; [|done].
    destruct (Nat.eqb_spec o order); [congruence|done].
Qed.

Lemma AddVerification_spec_witness :
  exists c' l, AddVerification [x01] 100 2 [x07] (NewCheckpoint (mkCheckpoint 0 [] [] 0 Justified ∅ ∅ []))
               = Some (c', l) /\ l ∈ SupLinks c' /\ SourceHash l = [x01].
Proof.
  destruct (AddVerification_spec [x01] 100 2 [x07] (NewCheckpoint (mkCheckpoint 0 [] [] 0 Justified ∅ ∅ [])))
    as (c' & l & H1 & H2 & H3 & _).
  - constructor.
  - constructor.
  - unfold MaxNumOfValidators. lia.
  - discriminate.
  - exists c', l. exact (conj H1 (conj H2 H3)).
Defined.

(** ** The validators do not depend on the iteration order of the votes *)

(** [x] goes no later than [y]. *)
Definition sorted_rel (x y : Validator) : Prop := before x y = true \/ x = y.

Lemma before_spec x y :
  before x y = true <-> VoteNum y < VoteNum x \/ (VoteNum x = VoteNum y /\ bytes_ltb (PubKey y) (PubKey x) = true).
Proof.
  unfold before. destruct (Z.eqb_spec (VoteNum x) (VoteNum y)) as [He|Hne]; cbn [negb].
  - rewrite He. intuition lia.
  - rewrite Z.gtb_ltb, Z.ltb_lt. intuition lia.
Qed.

Lemma before_trans x y z : before x y = true -> before y z = true -> before x z = true.
Proof.
  rewrite !before_spec. intros [?|[? H1]] [?|[? H2]]; [left; lia..|right].
  split; [lia|]. by eapply bytes_ltb_trans.
Qed.
Lemma before_asym x y : before x y = true -> before y x = true -> False.
Proof.
  rewrite !before_spec. intros [?|[? H1]] [?|[? H2]]; try lia.
  apply bytes_ltb_asym in H1. congruence.
Qed.

(** The elements to sort have order 0, so that two of them differ in votes or key. *)
Lemma before_total x y :
  Order x = 0%nat -> Order y = 0%nat -> before x y = true \/ before y x = true \/ x = y.
Proof.
  destruct x as [p o n], y as [p' o' n']. cbn. intros -> ->. rewrite !before_spec. cbn.
  destruct (Z.lt_trichotomy n n') as [?|[->|?]]; [tauto| |tauto].
  destruct (bytes_ltb_total p p') as [->|[?|?]]; tauto.
Qed.

Lemma sorted_rel_trans x y z : sorted_rel x y -> sorted_rel y z -> sorted_rel x z.
Proof.
  intros [H1| ->] [H2| ->]; [left; by eapply before_trans|by left|by left|by right].
Qed.

Definition unordered (l : list Validator) : Prop := Forall (fun v => Order v = 0%nat) l.

Lemma insert_sorted_perm x l : insert_sorted x l ≡ₚ x :: l.
Proof.
  induction l as [|y l IH]; cbn [insert_sorted]; [done|]. destruct (before x y); [done|].
  rewrite IH. by apply Permutation_swap.
Qed.

Lemma insert_sorted_sorted x l :
  Order x = 0%nat -> unordered l -> StronglySorted sorted_rel l -> StronglySorted sorted_rel (insert_sorted x l).
Proof.
  intros Hx. induction l as [|y l IH]; intros Hu Hs; cbn [insert_sorted]; [by repeat constructor|].
  apply Forall_cons in Hu as [Hy Hu]. inversion Hs as [|? ? Hs' Hall]; subst.
  destruct (before x y) eqn:Hb.
  - constructor; [done|]. constructor; [by left|]. eapply Forall_impl; [exact Hall|].
    intros z Hz. eapply sorted_rel_trans; [by left|exact Hz].
  - constructor; [by apply IH|]. rewrite insert_sorted_perm. constructor; [|done].
    destruct (before_total y x Hy Hx) as [?|[?|?]]; [by left|congruence|by right].
Qed.

Lemma sort_validators_spec l :
  unordered l -> StronglySorted sorted_rel (sort_validators l) /\ sort_validators l ≡ₚ l.
Proof.
  induction l as [|x l IH]; intros Hu; cbn [sort_validators foldr]; [by repeat constructor|].
  apply Forall_cons in Hu as [Hx Hu]. destruct (IH Hu) as [Hs Hp]. split.
  - apply insert_sorted_sorted; [done| |exact Hs]. unfold unordered. fold (sort_validators l). by rewrite Hp.
  - fold (sort_validators l). by rewrite insert_sorted_perm, Hp.
Qed.

Lemma sort_validators_unique l k :
  unordered l -> l ≡ₚ k -> sort_validators l = sort_validators k.
Proof.
  intros Hu Hp. assert (Hk : unordered k) by (unfold unordered; by rewrite <- Hp).
  destruct (sort_validators_spec l Hu) as [Hs1 Hp1]. destruct (sort_validators_spec k Hk) as [Hs2 Hp2].
  eapply StronglySorted_unique_strong; [|exact Hs1|exact Hs2|by rewrite Hp1, Hp2].
  intros x y _ _ [Hxy| ->] [Hyx| Hyx]; try done. exfalso. by eapply before_asym.
Qed.

Section Validators.
Context (net : NetParams).

(** The candidates, in some order. *)
Definition candidates (l : list (bytes * Z)) : list Validator :=
  omap (fun '(pubKey, voteNum) =>
          if voteNum >=? MinValidatorVoteNum net then Some (mkValidator pubKey 0 voteNum) else None) l.

Lemma candidates_unordered l : unordered (candidates l).
Proof.
  unfold unordered. rewrite Forall_forall. intros v Hv. apply list_elem_of_omap in Hv as ([pk n] & _ & Hv).
  destruct (n >=? _); by simplify_eq.
Qed.

(** The validators computed from the votes do not depend on the order in
    which Go ranges over the map; they are sorted by votes and key, and are
    exactly the keys with enough votes of a checkpoint that has ended. *)
Theorem AllValidators_deterministic {R R' : MapRange} {RL : MapRangeLaws R} {RL' : MapRangeLaws R'} c :
  AllValidators (R := R) net c = AllValidators (R := R') net c
  /\ StronglySorted sorted_rel (AllValidators (R := R) net c)
  /\ forall v, v ∈ AllValidators (R := R) net c <->
       Status c <> Growing /\ Order v = 0%nat /\ Votes c !! PubKey v = Some (VoteNum v)
       /\ MinValidatorVoteNum net <= VoteNum v.
Proof.
  unfold AllValidators. case_bool_decide as Hst.
  - split_and!; [done|constructor|]. intros v. split; [by intros Hv%not_elem_of_nil|naive_solver].
  - change (sort_validators (omap _ ?l)) with (sort_validators (candidates l)).
    change (sort_validators (omap _ (@map_range R' _ _ _ _ (Votes c))))
      with (sort_validators (candidates (@map_range R' _ _ _ _ (Votes c)))).
    destruct (sort_validators_spec _ (candidates_unordered (@map_range R _ _ _ _ (Votes c)))) as [Hs Hp].
    split_and!; [|done|].
    + apply sort_validators_unique; [apply candidates_unordered|]. unfold candidates.
      apply omap_Permutation. by rewrite (@map_range_perm R RL), (@map_range_perm R' RL').
    + intros v. rewrite Hp. unfold candidates. rewrite list_elem_of_omap. split.
      * intros ([pk n] & Hin & Hv). rewrite (@map_range_perm R RL) in Hin. apply elem_of_map_to_list in Hin.
        destruct (n >=? _) eqn:Hn; simplify_eq. zbool. cbn. split_and!; [done..|lia].
      * intros (_ & Ho & Hv & Hm). exists (PubKey v, VoteNum v).
        rewrite (@map_range_perm R RL), elem_of_map_to_list. split; [done|].
        replace (VoteNum v >=? _) with true by lia. destruct v; cbn in *. by subst.
Qed.

Lemma NoDup_candidates l : NoDup l.*1 -> NoDup (PubKey <$> candidates l).
Proof.
  unfold candidates. induction l as [|[pk n] l IH]; intros Hnd; [constructor|].
  cbn [fmap list_fmap fst] in Hnd. apply NoDup_cons in Hnd as [Hnin Hnd]. cbn [omap list_omap].
  destruct (n >=? _); [|by apply IH]. cbn [fmap list_fmap PubKey]. constructor; [|by apply IH].
  intros Hin. apply list_elem_of_fmap in Hin as (v & -> & Hv). apply list_elem_of_omap in Hv as ([pk' n'] & Hin & Hv).
  destruct (n' >=? _); simplify_eq. cbn in Hnin. apply Hnin, list_elem_of_fmap. by exists (pk', n').
Qed.

Lemma AllValidators_NoDup {R : MapRange} {RL : MapRangeLaws R} c : NoDup (PubKey <$> AllValidators net c).
Proof.
  unfold AllValidators. case_bool_decide; [constructor|].
  destruct (sort_validators_spec (candidates (map_range (Votes c))) (candidates_unordered _)) as [_ Hp].
  change (sort_validators (omap _ (map_range (Votes c)))) with (sort_validators (candidates (map_range (Votes c)))).
  rewrite Hp. apply NoDup_candidates. rewrite map_range_perm. apply NoDup_fst_map_to_list.
Qed.

(** Numbering a list of validators with distinct keys. *)
Definition numbered (l : list Validator) : gmap bytes Validator :=
  foldl (fun m v => <[PubKey v := v]> m) ∅ (imap set_Order l).

Lemma foldl_insert_lookup (l : list Validator) (m : gmap bytes Validator) pk v :
  NoDup (PubKey <$> l) -> (forall w, w ∈ l -> m !! PubKey w = None) ->
  foldl (fun (m : gmap bytes Validator) v => <[PubKey v := v]> m) m l !! pk = Some v
  <-> m !! pk = Some v \/ v ∈ l /\ PubKey v = pk.
Proof.
  revert m. induction l as [|w l IH]; intros m Hnd Hm; cbn [foldl].
  - split; [by left|]. intros [?|[Hin _]]; [done|by apply not_elem_of_nil in Hin].
  - cbn [fmap list_fmap] in Hnd. apply NoDup_cons in Hnd as [Hnin Hnd]. rewrite IH; [|done|].
    + rewrite lookup_insert_Some, elem_of_cons. split.
      * intros [[[<- <-]|[? ?]]|[? ?]]; auto.
      * intros [Hl|[[->|?] ?]]; [|auto|auto]. left. right. split; [|done]. intros <-.
        rewrite Hm in Hl; [done|left].
    + intros w' Hw'. rewrite lookup_insert_ne; [apply Hm; by right|].
      intros Heq. apply Hnin. rewrite Heq. apply list_elem_of_fmap. eauto.
Qed.

Lemma imap_set_Order_keys l : PubKey <$> imap set_Order l = PubKey <$> l.
Proof.
  apply list_eq. intros i. rewrite !list_lookup_fmap, list_lookup_imap. by destruct (l !! i).
Qed.

Lemma numbered_lookup l pk v :
  NoDup (PubKey <$> l) ->
  numbered l !! pk = Some v <-> exists w, l !! Order v = Some w /\ v = set_Order (Order v) w /\ PubKey v = pk.
Proof.
  intros Hnd. unfold numbered. rewrite foldl_insert_lookup.
  - rewrite lookup_empty, elem_of_lookup_imap. split.
    + intros [?|[(i & w & -> & Hw) ?]]; [done|]. exists w. done.
    + intros (w & Hw & -> & Hpk). right. split; [|done]. eauto.
  - by rewrite imap_set_Order_keys.
  - intros w _. apply lookup_empty.
Qed.

Lemma numbered_size l : NoDup (PubKey <$> l) -> size (numbered l) = length l.
Proof.
  intros Hnd. unfold numbered.
  assert (Hgen : forall (k : list Validator) (m : gmap bytes Validator), NoDup (PubKey <$> k) -> (forall w, w ∈ k -> m !! PubKey w = None) ->
    size (foldl (fun (m : gmap bytes Validator) v => <[PubKey v := v]> m) m k) = (size m + length k)%nat).
  { induction k as [|w k IH]; intros m Hk Hm; cbn [foldl length]; [lia|].
    cbn [fmap list_fmap] in Hk. apply NoDup_cons in Hk as [Hnin Hk]. rewrite IH; [|done|].
    - rewrite map_size_insert_None by (apply Hm; left). lia.
    - intros w' Hw'. rewrite lookup_insert_ne; [apply Hm; by right|].
      intros Heq. apply Hnin. rewrite Heq. apply list_elem_of_fmap. eauto. }
  rewrite Hgen; [|by rewrite imap_set_Order_keys|intros; apply lookup_empty].
  by rewrite map_size_empty, length_imap.
Qed.

Lemma federationValidators_numbered :
  federationValidators net = numbered ((fun x => mkValidator x 0 0) <$> Federation net).
Proof.
  unfold federationValidators, numbered.
  assert (Hgen : forall l m (f : nat -> nat),
    foldl (fun m '(i, xPub) => <[xPub := mkValidator xPub i 0]> m) m (imap (fun i x => (f i, x)) l)
    = foldl (fun m v => <[PubKey v := v]> m) m (imap (fun i v => set_Order (f i) v) ((fun x => mkValidator x 0 0) <$> l))
    :> gmap bytes Validator).
  { induction l as [|x l IH]; intros m f; [done|]. cbn. apply (IH _ (fun i => f (S i))). }
  apply (Hgen _ _ (fun i => i)).
Qed.

(** The list the effective validators number. *)
Definition effective_list {R : MapRange} (c : Checkpoint) : list Validator :=
  match AllValidators net c with
  | [] => (fun x => mkValidator x 0 0) <$> Federation net
  | l => take MaxNumOfValidators l
  end.

Lemma EffectiveValidators_numbered {R : MapRange} c : EffectiveValidators net c = numbered (effective_list c).
Proof.
  unfold EffectiveValidators, effective_list. destruct (AllValidators net c); [|done].
  apply federationValidators_numbered.
Qed.

Lemma effective_list_NoDup {R : MapRange} {RL : MapRangeLaws R} c :
  NoDup (Federation net) -> NoDup (PubKey <$> effective_list c).
Proof.
  intros Hf. unfold effective_list. pose proof (AllValidators_NoDup c) as Hnd.
  destruct (AllValidators net c) as [|v l]; [by rewrite <- list_fmap_compose, list_fmap_id|].
  rewrite fmap_take. eapply sublist_NoDup; [exact Hnd|apply sublist_take].
Qed.

(** The effective validators carry the orders from 0 on, each once. *)
Lemma EffectiveValidators_orders {R : MapRange} {RL : MapRangeLaws R} c :
  NoDup (Federation net) ->
  (forall pk v, EffectiveValidators net c !! pk = Some v ->
     PubKey v = pk /\ (Order v < size (EffectiveValidators net c))%nat)
  /\ (forall i, (i < size (EffectiveValidators net c))%nat ->
     exists v, EffectiveValidators net c !! PubKey v = Some v /\ Order v = i
       /\ forall w, EffectiveValidators net c !! PubKey w = Some w -> Order w = i -> w = v).
Proof.
  intros Hf. pose proof (effective_list_NoDup c Hf) as Hnd. rewrite EffectiveValidators_numbered.
  rewrite numbered_size by done. split.
  - intros pk v Hv. apply numbered_lookup in Hv as (w & Hw & Hv & Hpk); [|done]. split; [done|].
    by eapply lookup_lt_Some.
  - intros i Hi. destruct (lookup_lt_is_Some_2 _ _ Hi) as [w Hw]. exists (set_Order i w).
    split; [apply numbered_lookup; [done|]; exists w; done|]. split; [done|].
    intros v Hv Ho. apply numbered_lookup in Hv as (w' & Hw' & Hv & _); [|done].
    rewrite Ho in *. congruence.
Qed.

Lemma getValidatorOrder_eq st bt n :
  0 < BlockTimeInterval net -> 0 < n -> n * BlockTimeInterval net <= MaxUint64 ->
  getValidatorOrder net st bt n = Some (u64 (bt - st) mod (n * BlockTimeInterval net) / BlockTimeInterval net).
Proof.
  intros Hi Hn Hr. unfold getValidatorOrder. set (iv := BlockTimeInterval net) in *.
  rewrite (u64_id (n * iv)) by (split; [nia|done]).
  replace (n * iv =? 0) with false by nia. f_equal.
  set (d := u64 (bt - st)). pose proof (u64_range (bt - st) : 0 <= d <= MaxUint64) as Hd.
  pose proof (Z.div_mod d (n * iv) ltac:(nia)) as Hdm. pose proof (Z.mod_pos_bound d (n * iv) ltac:(nia)) as Hm.
  assert (0 <= d / (n * iv)) by (apply Z.div_pos; nia).
  set (q := d / (n * iv)) in *.
  assert (Hq : u64 (q * (n * iv)) = q * (n * iv)) by (apply u64_id; nia). rewrite Hq. f_equal.
  transitivity (u64 (d - q * (n * iv))).
  - unfold d, u64. rewrite Zminus_mod_idemp_r, Zminus_mod_idemp_l. f_equal. lia.
  - rewrite u64_id by nia. nia.
Qed.

(** At every timestamp exactly one effective validator is in charge of the
    block: the one whose order is the number of elapsed intervals modulo the
    number of validators; the search never comes back empty. *)
Theorem GetValidator_total {R : MapRange} {RL : MapRangeLaws R} ts c :
  NoDup (Federation net) -> 0 < BlockTimeInterval net ->
  (0 < size (EffectiveValidators net c))%nat ->
  Z.of_nat (size (EffectiveValidators net c)) * BlockTimeInterval net <= MaxInt64 ->
  let n := Z.of_nat (size (EffectiveValidators net c)) in
  let start := u64 (Timestamp c + BlockTimeInterval net) in
  exists v, GetValidator net ts c = Some (Some v) /\ EffectiveValidators net c !! PubKey v = Some v
    /\ Z.of_nat (Order v) = u64 (ts - start) / BlockTimeInterval net mod n.
Proof.
  intros Hf Hi Hs Hr n start. unfold GetValidator. fold start n.
  rewrite getValidatorOrder_eq by (unfold n; words; lia). cbn [mbind option_bind].
  set (iv := BlockTimeInterval net) in *. set (d := u64 (ts - start)).
  pose proof (u64_range (ts - start) : 0 <= d <= MaxUint64) as Hd.
  assert (Ho : d mod (n * iv) / iv = d / iv mod n).
  { rewrite (Z.mul_comm n iv), Z.rem_mul_r, (Z.mul_comm iv), Z.div_add by lia.
    rewrite (Z.div_small (d mod iv)) by (apply Z.mod_pos_bound; lia). lia. }
  rewrite Ho. pose proof (Z.mod_pos_bound (d / iv) n ltac:(lia)) as Hb.
  destruct (EffectiveValidators_orders c Hf) as [Hord Hex].
  destruct (Hex (Z.to_nat (d / iv mod n))) as (v & Hv & Hvo & Huniq); [lia|].
  rewrite i64_id by (unfold n in *; words; nia).
  destruct (List.find _ _) as [[pk w]|] eqn:Hfind.
  - apply List.find_some in Hfind as [Hin Hw]. apply Z.eqb_eq in Hw.
    apply list_elem_of_In in Hin. rewrite map_range_perm in Hin. apply elem_of_map_to_list in Hin.
    destruct (Hord _ _ Hin) as [<- _]. exists w. split; [done|]. split; [done|lia].
  - exfalso. pose proof (List.find_none _ _ Hfind (PubKey v, v)) as Hn. cbn in Hn.
    rewrite Hvo in Hn. apply Z.eqb_neq in Hn; [lia|].
    apply list_elem_of_In. rewrite map_range_perm. by apply elem_of_map_to_list.
Qed.
End Validators.

(** ** Concrete instances *)

(** Another iteration order. *)
Definition RevRange : MapRange := fun K A E C m => reverse (map_to_list m).
#[export] Instance RevRange_laws : MapRangeLaws RevRange.
Proof. intros K A E C m. apply reverse_Permutation. Defined.

Definition ex_net : NetParams := mkNet 6000 100 10 [[x01]; [x02]].
Definition ex_checkpoint (s : CheckpointStatus) : Checkpoint :=
  mkCheckpoint 100 [x0a] [x09] 1000 s ∅ {[ [x05] := 20; [x06] := 30; [x07] := 5 ]} [].

Lemma AllValidators_deterministic_witness :
  AllValidators (R := SomeRange) ex_net (ex_checkpoint Unjustified)
  = AllValidators (R := RevRange) ex_net (ex_checkpoint Unjustified)
  /\ StronglySorted sorted_rel (AllValidators (R := SomeRange) ex_net (ex_checkpoint Unjustified)).
Proof.
  destruct (AllValidators_deterministic ex_net (R := SomeRange) (R' := RevRange) (ex_checkpoint Unjustified)) as (H1 & H2 & _).
  exact (conj H1 H2).
Defined.

Lemma GetValidator_total_witness :
  exists v, GetValidator (R := SomeRange) ex_net 50000 (ex_checkpoint Growing) = Some (Some v) /\ Z.of_nat (Order v) = 1.
Proof.
  destruct (GetValidator_total ex_net (R := SomeRange) 50000 (ex_checkpoint Growing)) as (v & H1 & _ & H2).
  - apply (bool_decide_eq_true_1 (NoDup (Federation ex_net))). vm_compute. reflexivity.
  - reflexivity.
  - vm_compute. lia.
  - vm_compute. discriminate.
  - exists v. split; [exact H1|]. rewrite H2. vm_compute. reflexivity.
Defined.
