(* ===== verification/Tree.v ===== *)
(** * The checkpoint tree: protocol/casper/tree_node.go

    A [treeNode] is a pointer to a checkpoint and the list of its children.  The
    tree is polymorphic in the pointers ([get] reads a checkpoint through one),
    so that [Casper.v] can keep the checkpoints in a store of objects.  The
    theorems are about the fork choice: [bestNode] computes the maximum of a
    strict order, which does not depend on the shape the tree was built in. *)

From S2P Require Import Prelude Orphans Checkpoint.
From Stdlib Require Import Strings.Byte.
#[local] Open Scope Z_scope.

Inductive treeNode (P : Type) := Node (tn_Checkpoint : P) (children : list (treeNode P)).
Arguments Node {P} _ _.

Definition tn_cp {P} (t : treeNode P) : P := let 'Node p _ := t in p.
Definition tn_children {P} (t : treeNode P) : list (treeNode P) := let 'Node _ cs := t in cs.

(** Induction that reaches the children. *)
Lemma treeNode_ind' {P} (Q : treeNode P -> Prop) :
  (forall p cs, Forall Q cs -> Q (Node p cs)) -> forall t, Q t.
Proof.
  intros HQ. fix IH 1. intros [p cs]. apply HQ. induction cs as [|c cs IHcs]; constructor; [apply IH|exact IHcs].
Qed.

(** The nodes in preorder. *)
Fixpoint nodes {P} (t : treeNode P) : list P := let 'Node p cs := t in p :: concat (map nodes cs).

(** The pairs of a node and its child. *)
Fixpoint edges {P} (t : treeNode P) : list (P * P) :=
  let 'Node p cs := t in map (fun c => (p, tn_cp c)) cs ++ concat (map edges cs).

Section TreeOps.
Context {P : Type} (get : P -> Checkpoint).
(** [bc.Hash.String()]. *)
Context (hash_string : Hash -> bytes).

Definition is_status (s : CheckpointStatus) (p : P) : bool := bool_decide (Status (get p) = s).

(** The condition under which a child's best node replaces the current one. *)
Definition better (child best : P * Z) : bool :=
  let '(bestChild, childJustified) := child in
  let '(bestNode, bestJustified) := best in
  (childJustified >? bestJustified)
  || ((childJustified =? bestJustified) && (Height (get bestChild) >? Height (get bestNode)))
  || ((childJustified =? bestJustified) && (Height (get bestChild) =? Height (get bestNode))
      && bytes_ltb (hash_string (cp_Hash (get bestNode))) (hash_string (cp_Hash (get bestChild)))).

Definition justify (justifiedHeight : Z) (p : P) : Z :=
  if is_status Justified p then Height (get p) else justifiedHeight.

Fixpoint bestNode (justifiedHeight : Z) (t : treeNode P) : P * Z :=
  let 'Node p cs := t in
  let justifiedHeight := justify justifiedHeight p in
  fold_left (fun best child =>
               let c := bestNode justifiedHeight child in if better c best then c else best)
            cs (p, justifiedHeight).

(** [selected == nil || childSelected.Height > selected.Height]. *)
Fixpoint lastJustified (t : treeNode P) : option P :=
  let 'Node p cs := t in
  fold_left (fun selected child =>
               match lastJustified child with
               | None => selected
               | Some c =>
                   match selected with
                   | None => Some c
                   | Some s => if Height (get c) >? Height (get s) then Some c else selected
                   end
               end)
            cs (if is_status Justified p then Some p else None).

Fixpoint findOnlyOne (predicate : Checkpoint -> bool) (t : treeNode P) : option (treeNode P) :=
  let 'Node p cs := t in
  if predicate (get p) then Some t
  else (fix first (l : list (treeNode P)) : option (treeNode P) :=
          match l with
          | [] => None
          | child :: l' => match findOnlyOne predicate child with Some n => Some n | None => first l' end
          end) cs.

Definition nodeByHash (blockHash : Hash) (t : treeNode P) : option (treeNode P) :=
  findOnlyOne (fun c => bool_decide (cp_Hash c = blockHash)) t.

(** ** Searching *)

Lemma findOnlyOne_unfold f p cs :
  findOnlyOne f (Node p cs) =
    if f (get p) then Some (Node p cs)
    else foldr (fun c r => match findOnlyOne f c with Some n => Some n | None => r end) None cs.
Proof.
  cbn [findOnlyOne]. destruct (f (get p)); [done|]. induction cs as [|c cs IH]; [done|]. cbn [foldr]. by rewrite IH.
Qed.

Lemma elem_of_nodes_child q p (cs : list (treeNode P)) c : c ∈ cs -> q ∈ nodes c -> q ∈ nodes (Node p cs).
Proof.
  intros Hc Hq. cbn [nodes]. right. apply list_elem_of_In, List.in_concat. exists (nodes c). split.
  - by apply in_map, list_elem_of_In.
  - by apply list_elem_of_In.
Qed.
Lemma elem_of_nodes q p (cs : list (treeNode P)) :
  q ∈ nodes (Node p cs) <-> q = p \/ exists c, c ∈ cs /\ q ∈ nodes c.
Proof.
  split.
  - cbn [nodes]. intros [->|Hq]%elem_of_cons; [by left|right].
    apply list_elem_of_In, List.in_concat in Hq as (l & Hl & Hq). apply in_map_iff in Hl as (c & <- & Hc).
    exists c. split; by apply list_elem_of_In.
  - intros [->|(c & Hc & Hq)]; [left|by eapply elem_of_nodes_child].
Qed.

Lemma tn_cp_nodes (t : treeNode P) : tn_cp t ∈ nodes t.
Proof. destruct t. left. Qed.

Lemma elem_of_edges q r p (cs : list (treeNode P)) :
  (q, r) ∈ edges (Node p cs)
  <-> (q = p /\ exists c, c ∈ cs /\ r = tn_cp c) \/ exists c, c ∈ cs /\ (q, r) ∈ edges c.
Proof.
  cbn [edges]. rewrite elem_of_app, !list_elem_of_In, in_map_iff, List.in_concat. split.
  - intros [(c & [= <- <-] & Hc)|(l & Hl & Hr)].
    + left. split; [done|]. exists c. split; [by apply list_elem_of_In|done].
    + right. apply in_map_iff in Hl as (c & <- & Hc). exists c. split; by apply list_elem_of_In.
  - intros [(-> & c & Hc & ->)|(c & Hc & Hr)].
    + left. exists c. split; [done|by apply list_elem_of_In].
    + right. exists (edges c). split; [by apply in_map, list_elem_of_In|by apply list_elem_of_In].
Qed.

Lemma edges_nodes q r (t : treeNode P) : (q, r) ∈ edges t -> q ∈ nodes t /\ r ∈ nodes t.
Proof.
  induction t as [p cs IH] using treeNode_ind'. rewrite List.Forall_forall in IH.
  intros [(-> & c & Hc & ->)|(c & Hc & He)]%elem_of_edges.
  - split; [left|]. eapply elem_of_nodes_child; [exact Hc|apply tn_cp_nodes].
  - destruct (IH c) as [H1 H2]; [by apply list_elem_of_In|done|].
    split; by eapply elem_of_nodes_child.
Qed.

Lemma edge_src q r (t : treeNode P) : (q, r) ∈ edges t -> q ∈ nodes t.
Proof. apply edges_nodes. Qed.
Lemma edge_dst q r (t : treeNode P) : (q, r) ∈ edges t -> r ∈ nodes t.
Proof. apply edges_nodes. Qed.

(** Every node but the root is a child. *)
Lemma node_edge r (t : treeNode P) : r ∈ nodes t -> r = tn_cp t \/ exists q, (q, r) ∈ edges t.
Proof.
  induction t as [p cs IH] using treeNode_ind'. rewrite List.Forall_forall in IH.
  intros [->|(c & Hc & Hr)]%elem_of_nodes; [by left|right].
  destruct (IH c) as [->|(q & Hq)]; [by apply list_elem_of_In|done|exists p|exists q]; apply elem_of_edges.
  - left. split; [done|]. by exists c.
  - right. by exists c.
Qed.

(** A relation along the edges leads from the root to every node. *)
Lemma nodes_rtc (Q : P -> P -> Prop) (t : treeNode P) :
  (forall q r, (q, r) ∈ edges t -> Q q r) -> forall r, r ∈ nodes t -> rtc Q (tn_cp t) r.
Proof.
  induction t as [p cs IH] using treeNode_ind'. intros He r [->|(c & Hc & Hr)]%elem_of_nodes; [done|].
  rewrite List.Forall_forall in IH. cbn [tn_cp]. eapply rtc_l.
  - apply He, elem_of_edges. left. split; [done|]. by exists c.
  - apply IH; [by apply list_elem_of_In| |done]. intros q' r' He'. apply He, elem_of_edges. right. by exists c.
Qed.

(** With distinct nodes, the root is nobody's child. *)
Lemma NoDup_child p (cs : list (treeNode P)) c : NoDup (nodes (Node p cs)) -> c ∈ cs -> p ∉ nodes c /\ NoDup (nodes c).
Proof.
  cbn [nodes]. intros [Hp Hnd]%NoDup_cons Hc. split.
  - intros Hin. apply Hp, list_elem_of_In, List.in_concat. exists (nodes c).
    split; [by apply in_map, list_elem_of_In|by apply list_elem_of_In].
  - apply elem_of_Permutation in Hc as [k Hk]. rewrite Hk in Hnd. cbn in Hnd. by apply NoDup_app in Hnd as (? & _).
Qed.
Lemma edge_not_root q r (t : treeNode P) : NoDup (nodes t) -> (q, r) ∈ edges t -> r <> tn_cp t.
Proof.
  destruct t as [p cs]. intros Hnd He Heq. cbn in Heq. subst r.
  apply elem_of_edges in He as [(_ & c & Hc & Heq)|(c & Hc & He)];
    destruct (NoDup_child p cs c Hnd Hc) as [Hp _]; apply Hp; [rewrite Heq; apply tn_cp_nodes|by eapply edges_nodes].
Qed.

(** [findOnlyOne] finds a node exactly when some checkpoint satisfies the predicate. *)
Lemma findOnlyOne_None f t : findOnlyOne f t = None <-> forall q, q ∈ nodes t -> f (get q) = false.
Proof.
  induction t as [p cs IH] using treeNode_ind'. rewrite findOnlyOne_unfold. destruct (f (get p)) eqn:Hf.
  - split; [done|]. intros Hall. specialize (Hall p ltac:(cbn; left)). congruence.
  - assert (Hcs : foldr (fun c r => match findOnlyOne f c with Some n => Some n | None => r end) None cs = None
                  <-> forall c, c ∈ cs -> forall q, q ∈ nodes c -> f (get q) = false).
    { clear Hf. induction IH as [|c cs Hc _ IHcs]; cbn [foldr]; [split; [intros _ c Hc; by apply not_elem_of_nil in Hc|done]|].
      split.
      - destruct (findOnlyOne f c); [done|]. intros Hn c' [->|Hc']%elem_of_cons; [by apply Hc|by apply IHcs].
      - intros Hall. rewrite (proj2 Hc) by (apply Hall; left). apply IHcs. intros c' Hc'. apply Hall. by right. }
    rewrite Hcs. split.
    + intros Hall q [->|(c & Hc & Hq)]%elem_of_nodes; [done|by eapply Hall].
    + intros Hall c Hc q Hq. apply Hall. by eapply elem_of_nodes_child.
Qed.

(** The children of a node have distinct nodes. *)
Lemma NoDup_children p (cs : list (treeNode P)) c1 c2 q :
  NoDup (nodes (Node p cs)) -> c1 ∈ cs -> c2 ∈ cs -> q ∈ nodes c1 -> q ∈ nodes c2 -> c1 = c2.
Proof.
  cbn [nodes]. intros [_ Hnd]%NoDup_cons. induction cs as [|c cs IH]; [intros Hc; by apply not_elem_of_nil in Hc|].
  cbn in Hnd. apply NoDup_app in Hnd as (_ & Hdis & Hnd).
  assert (Hin : forall c', c' ∈ cs -> q ∈ nodes c' -> q ∈ concat (map nodes cs)).
  { intros c' Hc' Hq. apply list_elem_of_In, List.in_concat. exists (nodes c').
    split; [by apply in_map, list_elem_of_In|by apply list_elem_of_In]. }
  intros [->|H1]%elem_of_cons [->|H2]%elem_of_cons Hq1 Hq2; [done| | |by apply IH].
  - by destruct (Hdis q Hq1 (Hin c2 H2 Hq2)).
  - by destruct (Hdis q Hq2 (Hin c1 H1 Hq1)).
Qed.

(** [n] is a subtree of [t]; its root keeps all its children. *)
Record subtree (n t : treeNode P) : Prop := {
  sub_nodes q : q ∈ nodes n -> q ∈ nodes t;
  sub_edges e : e ∈ edges n -> e ∈ edges t;
  sub_NoDup : NoDup (nodes t) -> NoDup (nodes n);
  sub_children c : NoDup (nodes t) -> (tn_cp n, c) ∈ edges t -> (tn_cp n, c) ∈ edges n;
}.
Lemma subtree_refl t : subtree t t.
Proof. by split. Qed.

Lemma subtree_child p cs c n : c ∈ cs -> subtree n c -> subtree n (Node p cs).
Proof.
  intros Hc [S1 S2 S3 S4]. split.
  - intros q Hq. eapply elem_of_nodes_child; [exact Hc|by apply S1].
  - intros [q r] He. apply elem_of_edges. right. exists c. split; [done|by apply S2].
  - intros Hnd. apply S3. by eapply NoDup_child.
  - intros r Hnd Hr. destruct (NoDup_child p cs c Hnd Hc) as [Hp Hndc]. specialize (S1 _ (tn_cp_nodes n)).
    apply elem_of_edges in Hr as [(Heq & _)|(c' & Hc' & He)]; [by rewrite Heq in S1|].
    destruct (edges_nodes _ _ _ He) as [Hn _]. rewrite (NoDup_children p cs c' c _ Hnd Hc' Hc Hn S1) in He. by apply S4.
Qed.

(** What it finds satisfies the predicate and is a subtree. *)
Lemma findOnlyOne_Some f t n : findOnlyOne f t = Some n -> f (get (tn_cp n)) = true /\ subtree n t.
Proof.
  induction t as [p cs IH] using treeNode_ind'. rewrite findOnlyOne_unfold.
  destruct (f (get p)) eqn:Hf; [intros [= <-]; split; [done|apply subtree_refl]|]. intros Hn.
  assert (Hc : exists c, c ∈ cs /\ findOnlyOne f c = Some n).
  { clear IH Hf. induction cs as [|c cs IHcs]; cbn [foldr] in Hn; [done|].
    destruct (findOnlyOne f c) eqn:Hc; [simplify_eq; exists c; split; [left|done]|].
    destruct (IHcs Hn) as (c' & ? & ?). exists c'. split; [by right|done]. }
  destruct Hc as (c & Hin & Hc). rewrite List.Forall_forall in IH.
  destruct (IH c ltac:(by apply list_elem_of_In) Hc) as [H1 H2]. split; [done|by eapply subtree_child].
Qed.

Lemma nodeByHash_Some h t n : nodeByHash h t = Some n -> cp_Hash (get (tn_cp n)) = h /\ subtree n t.
Proof. intros [H Hs]%findOnlyOne_Some. by apply bool_decide_eq_true in H. Qed.
Lemma nodeByHash_None h t : nodeByHash h t = None <-> forall q, q ∈ nodes t -> cp_Hash (get q) <> h.
Proof.
  unfold nodeByHash. rewrite findOnlyOne_None. by setoid_rewrite bool_decide_eq_false.
Qed.
End TreeOps.

(** ** The fork choice *)

Section ForkChoice.
Context {P : Type} (get : P -> Checkpoint) (hash_string : Hash -> bytes).

#[local] Abbreviation better := (better get hash_string).
#[local] Abbreviation bestNode := (bestNode get hash_string).
#[local] Abbreviation justify := (justify get).

(** Every node with the height of the last justified checkpoint on its path. *)
Fixpoint ranked (justifiedHeight : Z) (t : treeNode P) : list (P * Z) :=
  let 'Node p cs := t in
  (p, justify justifiedHeight p) :: concat (map (ranked (justify justifiedHeight p)) cs).

Lemma elem_of_ranked r j p cs :
  r ∈ ranked j (Node p cs) <-> r = (p, justify j p) \/ exists c, c ∈ cs /\ r ∈ ranked (justify j p) c.
Proof.
  cbn [ranked]. rewrite elem_of_cons, list_elem_of_In, List.in_concat. split.
  - intros [?|(l & Hl & Hr)]; [by left|right]. apply in_map_iff in Hl as (c & <- & Hc).
    exists c. split; by apply list_elem_of_In.
  - intros [?|(c & Hc & Hr)]; [by left|right]. exists (ranked (justify j p) c).
    split; [by apply in_map, list_elem_of_In|by apply list_elem_of_In].
Qed.

Lemma ranked_nodes r j t : r ∈ ranked j t -> r.1 ∈ nodes t.
Proof.
  revert j. induction t as [p cs IH] using treeNode_ind'. intros j [->|(c & Hc & Hr)]%elem_of_ranked; [left|].
  rewrite List.Forall_forall in IH. eapply elem_of_nodes_child; [exact Hc|]. eapply IH; [by apply list_elem_of_In|done].
Qed.

(** The order: by justified height, then height, then the text of the hash. *)
Definition rank_lt (a b : P * Z) : Prop :=
  a.2 < b.2 \/ a.2 = b.2 /\ (Height (get a.1) < Height (get b.1)
    \/ Height (get a.1) = Height (get b.1)
       /\ bytes_ltb (hash_string (cp_Hash (get a.1))) (hash_string (cp_Hash (get b.1))) = true).

Lemma better_spec a b : better a b = true <-> rank_lt b a.
Proof.
  destruct a as [p j], b as [q k]. unfold Tree.better, rank_lt. cbn [fst snd].
  rewrite !orb_true_iff, !andb_true_iff, !Z.gtb_ltb, !Z.ltb_lt, !Z.eqb_eq. intuition lia.
Qed.

(** The order is total up to the text of the hash, hence "not better" is transitive. *)
Lemma rank_total a b :
  rank_lt a b \/ rank_lt b a
  \/ a.2 = b.2 /\ hash_string (cp_Hash (get a.1)) = hash_string (cp_Hash (get b.1))
     /\ Height (get a.1) = Height (get b.1).
Proof.
  unfold rank_lt. destruct (Z.lt_trichotomy a.2 b.2) as [?|[?|?]]; [tauto| |tauto].
  destruct (Z.lt_trichotomy (Height (get a.1)) (Height (get b.1))) as [?|[?|?]]; [tauto| |intuition lia].
  destruct (bytes_ltb_total (hash_string (cp_Hash (get a.1))) (hash_string (cp_Hash (get b.1)))) as [?|[?|?]];
    intuition lia.
Qed.
Lemma rank_trans a b c : rank_lt a b -> rank_lt b c -> rank_lt a c.
Proof.
  unfold rank_lt. intros [?|(? & [?|[? H1]])] [?|(? & [?|[? H2]])]; try (left; lia); right; (split; [lia|]);
    try (left; lia). right. split; [lia|]. by eapply bytes_ltb_trans.
Qed.
Lemma rank_irrefl a : ~ rank_lt a a.
Proof. unfold rank_lt. intros [?|(_ & [?|[_ H]])]; [lia..|]. by rewrite bytes_ltb_irrefl in H. Qed.

Definition no_better (a b : P * Z) : Prop := better a b = false.
Lemma no_better_spec a b : no_better a b <-> ~ rank_lt b a.
Proof. unfold no_better. rewrite <- better_spec. by destruct (better a b). Qed.
Lemma no_better_refl a : no_better a a.
Proof. apply no_better_spec, rank_irrefl. Qed.
Lemma no_better_trans a b c : no_better a b -> no_better b c -> no_better a c.
Proof.
  rewrite !no_better_spec. intros H1 H2 H3. destruct (rank_total a b) as [H|[H|(Hj & Hs & Hh)]].
  - apply H2. by eapply rank_trans.
  - done.
  - apply H2. unfold rank_lt in *. rewrite <- Hj, <- Hs, <- Hh. exact H3.
Qed.

Lemma fold_best (l : list (treeNode P)) (f : treeNode P -> P * Z) best :
  let r := fold_left (fun best c => if better (f c) best then f c else best) l best in
  (r = best \/ exists c, c ∈ l /\ r = f c) /\ no_better best r /\ forall c, c ∈ l -> no_better (f c) r.
Proof.
  cbv zeta. revert best. induction l as [|c l IH]; intros best; cbn [fold_left].
  - split_and!; [by left|apply no_better_refl|intros c Hc; by apply not_elem_of_nil in Hc].
  - destruct (IH (if better (f c) best then f c else best)) as (H1 & H2 & H3). split_and!.
    + destruct H1 as [->|(c' & Hc' & ->)]; [|right; exists c'; split; [by right|done]].
      destruct (better (f c) best); [right; exists c; split; [left|done]|by left].
    + eapply no_better_trans; [|exact H2]. destruct (better (f c) best) eqn:Hb; [|apply no_better_refl].
      apply no_better_spec. intros Hlt. apply better_spec in Hb. apply (rank_irrefl best). by eapply rank_trans.
    + intros c' [->|Hc']%elem_of_cons; [|by apply H3]. eapply no_better_trans; [|exact H2].
      destruct (better (f c) best) eqn:Hb; [apply no_better_refl|done].
Qed.

Lemma bestNode_spec j t :
  bestNode j t ∈ ranked j t /\ forall r, r ∈ ranked j t -> no_better r (bestNode j t).
Proof.
  revert j. induction t as [p cs IH] using treeNode_ind'. intros j.
  rewrite List.Forall_forall in IH. cbn [Tree.bestNode].
  destruct (fold_best cs (bestNode (justify j p)) (p, justify j p)) as (H1 & H2 & H3). split.
  - apply elem_of_ranked. destruct H1 as [->|(c & Hc & ->)]; [by left|right].
    exists c. split; [done|]. apply IH. by apply list_elem_of_In.
  - intros r [->|(c & Hc & Hr)]%elem_of_ranked; [exact H2|]. eapply no_better_trans; [|exact (H3 c Hc)].
    apply IH; [by apply list_elem_of_In|done].
Qed.

(** The texts of the hashes tell the nodes apart. *)
Definition distinct_hashes (t : treeNode P) : Prop :=
  forall p q, p ∈ nodes t -> q ∈ nodes t ->
  hash_string (cp_Hash (get p)) = hash_string (cp_Hash (get q)) -> p = q.

Lemma bestNode_strict j t r :
  distinct_hashes t -> r ∈ ranked j t -> r = bestNode j t \/ better (bestNode j t) r = true.
Proof.
  intros Hd Hr. destruct (bestNode_spec j t) as [Hin Hmax]. specialize (Hmax r Hr).
  apply no_better_spec in Hmax. destruct (rank_total r (bestNode j t)) as [H|[H|(Hj & Hs & _)]].
  - right. by apply better_spec.
  - done.
  - left. apply Hd in Hs; [|by eapply ranked_nodes..]. destruct r, (bestNode j t). cbn in *. by subst.
Qed.

(** C32.  The fork choice is the maximum of a strict order on the nodes, by the
    height of the last justified checkpoint on their path, their own height and
    the text of their hash; it does not depend on the order in which children were
    added, if the texts tell the nodes apart. *)
Theorem bestNode_order_independent j t1 t2 :
  distinct_hashes t1 -> (forall r, r ∈ ranked j t1 <-> r ∈ ranked j t2) ->
  bestNode j t1 = bestNode j t2
  /\ bestNode j t1 ∈ ranked j t1
  /\ forall r, r ∈ ranked j t1 -> r = bestNode j t1 \/ better (bestNode j t1) r = true.
Proof.
  intros Hd Heq. destruct (bestNode_spec j t2) as [Hin2 Hmax2]. destruct (bestNode_spec j t1) as [Hin1 _].
  split_and!; [|done|intros r; by apply bestNode_strict].
  destruct (bestNode_strict j t1 (bestNode j t2) Hd) as [?|Hb]; [by apply Heq|done|].
  apply Heq, Hmax2 in Hin1. unfold no_better in Hin1. congruence.
Qed.

(** *** The last justified checkpoint *)

Lemma fold_last (l : list (treeNode P)) (f : treeNode P -> option P) s0 :
  let r := fold_left (fun selected c => match f c with
             | None => selected
             | Some q => match selected with
                         | None => Some q
                         | Some s => if Height (get q) >? Height (get s) then Some q else selected
                         end
             end) l s0 in
  (r = s0 \/ exists c, c ∈ l /\ r = f c)
  /\ forall q, s0 = Some q \/ (exists c, c ∈ l /\ f c = Some q) -> exists s, r = Some s /\ Height (get q) <= Height (get s).
Proof.
  cbv zeta. revert s0. induction l as [|c l IH]; intros s0; cbn [fold_left].
  - split; [by left|]. intros q [->|(c & Hc & _)]; [eauto with lia|by apply not_elem_of_nil in Hc].
  - set (s1 := match f c with None => s0 | Some _ => _ end).
    destruct (IH s1) as [H1 H2].
    assert (Hs1 : (s1 = s0 \/ s1 = f c) /\ forall q, s0 = Some q \/ f c = Some q ->
              exists s, s1 = Some s /\ Height (get q) <= Height (get s)).
    { unfold s1. destruct (f c) as [q|], s0 as [s|]; try (destruct (Z.gtb_spec (Height (get q)) (Height (get s))));
        (split; [tauto|]); intros x [Hx|Hx]; simplify_eq; eexists; (split; [done|lia]). }
    destruct Hs1 as [Hs1 Hs2]. split.
    + destruct H1 as [->|(c' & Hc' & ->)]; [|right; exists c'; split; [by right|done]].
      destruct Hs1 as [->| ->]; [by left|right; exists c; split; [left|done]].
    + intros q Hq. assert (Hcase : (s0 = Some q \/ f c = Some q) \/ exists c', c' ∈ l /\ f c' = Some q).
      { destruct Hq as [?|(c' & [->|Hc']%elem_of_cons & ?)]; eauto. }
      destruct Hcase as [Hcase|Hcase]; [|apply H2; by right].
      destruct (Hs2 q Hcase) as (s & Hs & Hle). destruct (H2 s ltac:(by left)) as (s' & Hs' & Hle'). exists s'.
      split; [done|lia].
Qed.

(** [lastJustified] is the highest justified checkpoint of the tree. *)
Theorem lastJustified_highest t :
  match lastJustified get t with
  | None => forall q, q ∈ nodes t -> Status (get q) <> Justified
  | Some p => p ∈ nodes t /\ Status (get p) = Justified
              /\ forall q, q ∈ nodes t -> Status (get q) = Justified -> Height (get q) <= Height (get p)
  end.
Proof.
  induction t as [p cs IH] using treeNode_ind'. rewrite List.Forall_forall in IH. cbn [lastJustified].
  set (s0 := if is_status get Justified p then Some p else None).
  destruct (fold_last cs (lastJustified get) s0) as [H1 H2].
  assert (Hall : forall q, q ∈ nodes (Node p cs) -> Status (get q) = Justified ->
            exists s, (s0 = Some s \/ exists c, c ∈ cs /\ lastJustified get c = Some s) /\ Height (get q) <= Height (get s)).
  { intros q [->|(c & Hc & Hq)]%elem_of_nodes Hs.
    - exists p. split; [left|lia]. unfold s0, is_status. by rewrite bool_decide_eq_true_2.
    - specialize (IH c ltac:(by apply list_elem_of_In)). destruct (lastJustified get c) as [s|] eqn:Hl.
      + exists s. split; [eauto|]. by apply IH.
      + exfalso. by apply (IH q). }
  assert (Hin : forall s, (s0 = Some s \/ exists c, c ∈ cs /\ lastJustified get c = Some s) ->
            s ∈ nodes (Node p cs) /\ Status (get s) = Justified).
  { unfold s0, is_status. intros s [Hs|(c & Hc & Hs)].
    - case_bool_decide; simplify_eq. split; [left|done].
    - specialize (IH c ltac:(by apply list_elem_of_In)). rewrite Hs in IH. destruct IH as (H & ? & _).
      split; [by eapply elem_of_nodes_child|done]. }
  destruct (fold_left _ cs s0) as [r|] eqn:Hr.
  - destruct (Hin r) as [? ?]; [destruct H1 as [?|(c & ? & ?)]; [by left|right; eauto]|]. split_and!; [done..|].
    intros q Hq Hs. destruct (Hall q Hq Hs) as (s & Hcase & Hle). destruct (H2 s Hcase) as (s' & [= <-] & ?). lia.
  - intros q Hq Hs. destruct (Hall q Hq Hs) as (s & Hcase & _). by destruct (H2 s Hcase) as (? & ? & _).
Qed.
End ForkChoice.

(** The fork choice reads the checkpoints of the tree only. *)
Lemma bestNode_agree {P} (get get' : P -> Checkpoint) (hash_string : Hash -> bytes) t j :
  (forall p, p ∈ nodes t -> get p = get' p) ->
  bestNode get hash_string j t = bestNode get' hash_string j t /\ (bestNode get hash_string j t).1 ∈ nodes t.
Proof.
  revert j. induction t as [p cs IH] using treeNode_ind'. rewrite List.Forall_forall in IH. intros j Hg. cbn [bestNode].
  assert (Hp : p ∈ nodes (Node p cs)) by apply (tn_cp_nodes (Node p cs)). assert (justify get j p = justify get' j p) as <- by (unfold justify, is_status; by rewrite (Hg p Hp)).
  set (j' := justify get j p). assert (Hb : (p, j').1 ∈ nodes (Node p cs)) by done. revert Hb. generalize (p, j') as best.
  assert (Hcs : forall c, c ∈ cs -> bestNode get hash_string j' c = bestNode get' hash_string j' c /\ (bestNode get hash_string j' c).1 ∈ nodes (Node p cs)).
  { intros c Hc. destruct (IH c) with (j := j') as [H1 H2]; [by apply list_elem_of_In|intros q Hq; apply Hg; by eapply elem_of_nodes_child|].
    split; [done|]. by eapply elem_of_nodes_child. }
  clear IH. set (N := nodes (Node p cs)) in *. clearbody N. clearbody j'. clear Hp. induction cs as [|c cs' IH'] in Hcs |- *; intros best Hb; cbn [fold_left]; [done|].
  destruct (Hcs c ltac:(left)) as [<- Hc]. assert (better get hash_string (bestNode get hash_string j' c) best = better get' hash_string (bestNode get hash_string j' c) best) as <-.
  { unfold better. destruct best as [b bj], (bestNode get hash_string j' c) as [d dj]. cbn in Hb, Hc. by rewrite (Hg b Hb), (Hg d Hc). }
  apply IH'; [intros d Hd; apply Hcs; by right|]. by destruct (better _ _ _ _).
Qed.

(** Two siblings of one height under a justified root, in both orders. *)
Definition leaf (c : byte) : Checkpoint := mkCheckpoint 2 [c] [x00] 0 Unjustified ∅ ∅ [].
Definition fork (cs : list (treeNode Checkpoint)) : treeNode Checkpoint :=
  Node (mkCheckpoint 0 [x00] [] 0 Justified ∅ ∅ []) cs.

Lemma bestNode_order_independent_witness :
  let t1 := fork [Node (leaf x01) []; Node (leaf x02) []] in
  let t2 := fork [Node (leaf x02) []; Node (leaf x01) []] in
  bestNode id id 0 t1 = (leaf x02, 0) /\ bestNode id id 0 t1 = bestNode id id 0 t2.
Proof.
  cbv zeta. split; [reflexivity|]. apply (bestNode_order_independent id id).
  - intros p q Hp Hq. cbn in Hp, Hq. rewrite !elem_of_cons, elem_of_nil in Hp, Hq.
    destruct Hp as [->|[->|[->|[]]]], Hq as [->|[->|[->|[]]]]; done.
  - intros r. cbn. rewrite !elem_of_cons. tauto.
Defined.
