(* ===== verification/CasperState.v ===== *)
(** * The state of the consensus: casper.go's [Casper], and database/store_checkpoint.go

    Checkpoints are objects: the tree of [Tree.v] and the cache of the database
    hold pointers to them, and [Parent] is such a pointer.  A pointer is an
    index of [objs].  The block headers of the database are a map by hash, the
    saved checkpoints a map by the key [calcCheckpointKey] computes; a saved
    checkpoint has no links and no parent.  [common.Cache] wraps an LRU cache
    of a third-party package, hence the interface [LRU]. *)

From S2P Require Import Prelude VMTypes Orphans Checkpoint Tree.
From Stdlib Require Import Strings.Byte.
#[local] Open Scope Z_scope.

(** ** common/concurrent_lru.go *)

Class LRU := {
  cache : Type -> Type;
  cache_New {V} : cache V;
  cache_Get {V} : bytes -> cache V -> option V * cache V;
  cache_Add {V} : bytes -> V -> cache V -> cache V;
  cache_Remove {V} : bytes -> cache V -> cache V;
}.

(** What a cache promises: an entry is the last value added under its key, and
    it may disappear at an [Add]. *)
Class LRULaws (L : LRU) := {
  entries {V} : cache V -> gmap bytes V;
  entries_New {V} : entries (V := V) cache_New = ∅;
  entries_Get {V} k (c : cache V) : (cache_Get k c).1 = entries c !! k /\ entries (cache_Get k c).2 = entries c;
  entries_Add {V} k (v : V) c : entries (cache_Add k v c) ⊆ <[k := v]> (entries c);
  entries_Remove {V} k (c : cache V) : entries (cache_Remove k c) = delete k (entries c);
}.

(** A cache that never evicts, for concrete runs. *)
#[export] Instance MapLRU : LRU := {|
  cache := gmap bytes;
  cache_New V := ∅;
  cache_Get V k c := (c !! k, c);
  cache_Add V k v c := <[k := v]> c;
  cache_Remove V k c := delete k c;
|}.
#[export] Instance MapLRU_laws : LRULaws MapLRU.
Proof. by unshelve econstructor; [intros V c; exact c|..]. Defined.

(** ** State *)

Record obj := mkObj { o_cp : Checkpoint; o_Parent : option nat }.
#[export] Instance obj_inhabited : Inhabited obj :=
  populate (mkObj (mkCheckpoint 0 (replicate 32 x00) (replicate 32 x00) 0 Growing ∅ ∅ []) None).

(** A block of the database, with the links of its header. *)
Record stored := mkStored { sb_block : cp_block; sb_SupLinks : list SupLink }.

Record ValidCasperSignMsg := mkMsg {
  m_SourceHash : Hash; m_TargetHash : Hash; m_Signature : bytes; m_PubKey : bytes
}.

Inductive cerror :=
  | ErrNotFound                    (* the database has no such header, block or checkpoint *)
  | ErrPubKeyIsNotValidator
  | ErrVoteToGrowingCheckpoint
  | ErrVoteToSameCheckpoint
  | ErrSameHeightInVerification
  | ErrSpanHeightInVerification
  | ErrVerifySignature
  | ErrHexDecode
  | ErrMuxClosed
  | ErrIncreaseCheckpoint
  | ErrPreviousRound
  | ErrSourceHeight
  | ErrTargetCheckpoint
  | ErrReorganize.                 (* the reply of the chain to a rollback *)

(** A call returns or fails, panics, or does not come back: for lack of fuel, or
    because it waits for a reply that nobody sends ([Blocks]). *)
Inductive outcome (A : Type) := Ret (a : A) | Fail (e : cerror) | Panics | NoFuel | Blocks.
Arguments Ret {A} a.
Arguments Fail {A} e.
Arguments Panics {A}.
Arguments NoFuel {A}.
Arguments Blocks {A}.

Section State.
Context {R : MapRange} {L : LRU}.

Record Casper := mkCasper {
  objs : list obj;
  tree : treeNode nat;
  db_blocks : gmap Hash stored;
  db_checkpoints : gmap bytes Checkpoint;
  lruCheckPoints : cache nat;
  prevCheckpointCache : cache Hash;
  verificationCache : cache ValidCasperSignMsg;
  (* the message queue: what was posted, and whether it has been stopped *)
  posted : list ValidCasperSignMsg;
  mux_stopped : bool;
  newEpochCh : list Hash;
  rollbackCh : list Hash;
}.

Definition set_objs (x : list obj) (s : Casper) : Casper :=
  let 'mkCasper _ t b d l p v q m n r := s in mkCasper x t b d l p v q m n r.
Definition set_tree (x : treeNode nat) (s : Casper) : Casper :=
  let 'mkCasper o _ b d l p v q m n r := s in mkCasper o x b d l p v q m n r.
Definition set_blocks (x : gmap Hash stored) (s : Casper) : Casper :=
  let 'mkCasper o t _ d l p v q m n r := s in mkCasper o t x d l p v q m n r.
Definition set_checkpoints (x : gmap bytes Checkpoint) (s : Casper) : Casper :=
  let 'mkCasper o t b _ l p v q m n r := s in mkCasper o t b x l p v q m n r.
Definition set_lru (x : cache nat) (s : Casper) : Casper :=
  let 'mkCasper o t b d _ p v q m n r := s in mkCasper o t b d x p v q m n r.
Definition set_prevCache (x : cache Hash) (s : Casper) : Casper :=
  let 'mkCasper o t b d l _ v q m n r := s in mkCasper o t b d l x v q m n r.
Definition set_verCache (x : cache ValidCasperSignMsg) (s : Casper) : Casper :=
  let 'mkCasper o t b d l p _ q m n r := s in mkCasper o t b d l p x q m n r.
Definition set_posted (x : list ValidCasperSignMsg) (s : Casper) : Casper :=
  let 'mkCasper o t b d l p v _ m n r := s in mkCasper o t b d l p v x m n r.
Definition set_newEpoch (x : list Hash) (s : Casper) : Casper :=
  let 'mkCasper o t b d l p v q m _ r := s in mkCasper o t b d l p v q m x r.
Definition set_rollback (x : list Hash) (s : Casper) : Casper :=
  let 'mkCasper o t b d l p v q m n _ := s in mkCasper o t b d l p v q m n x.

(** ** The monad: a Go function that may fail or panic *)

Definition C (A : Type) : Type := Casper -> outcome A * Casper.

#[global] Instance C_ret : MRet C := fun A a s => (Ret a, s).
#[global] Instance C_bind : MBind C := fun A B f m s =>
  match m s with
  | (Ret a, s') => f a s'
  | (Fail e, s') => (Fail e, s')
  | (Panics, s') => (Panics, s')
  | (NoFuel, s') => (NoFuel, s')
  | (Blocks, s') => (Blocks, s')
  end.

Definition fail {A} (e : cerror) : C A := fun s => (Fail e, s).
Definition panics {A} : C A := fun s => (Panics, s).
Definition no_fuel {A} : C A := fun s => (NoFuel, s).
Definition blocks {A} : C A := fun s => (Blocks, s).
Definition gets {A} (f : Casper -> A) : C A := fun s => (Ret (f s), s).
Definition modify (f : Casper -> Casper) : C unit := fun s => (Ret tt, f s).

(** A value of which [None] is the error [e], or a panic. *)
Definition or_fail {A} (e : cerror) (x : option A) : C A :=
  match x with Some a => mret a | None => fail e end.
Definition or_panic {A} (x : option A) : C A :=
  match x with Some a => mret a | None => panics end.

(** [if err == nil]: the error as a value. *)
Definition try {A} (m : C A) : C (cerror + A) := fun s =>
  match m s with
  | (Ret a, s') => (Ret (inr a), s')
  | (Fail e, s') => (Ret (inl e), s')
  | (Panics, s') => (Panics, s')
  | (NoFuel, s') => (NoFuel, s')
  | (Blocks, s') => (Blocks, s')
  end.

Fixpoint mapM_ {A} (f : A -> C unit) (l : list A) : C unit :=
  match l with [] => mret tt | x :: l' => f x ;; mapM_ f l' end.

(** *** Checkpoint objects *)

Definition get (s : Casper) (p : nat) : Checkpoint := o_cp (objs s !!! p).
Definition parent (s : Casper) (p : nat) : option nat := o_Parent (objs s !!! p).

Definition read (p : nat) : C Checkpoint := gets (fun s => get s p).
Definition write (p : nat) (f : Checkpoint -> Checkpoint) : C unit :=
  modify (fun s => set_objs (alter (fun o => mkObj (f (o_cp o)) (o_Parent o)) p (objs s)) s).
Definition set_Parent (p : nat) (q : option nat) : C unit :=
  modify (fun s => set_objs (alter (fun o => mkObj (o_cp o) q) p (objs s)) s).
(** A new object. *)
Definition new (o : obj) : C nat := fun s => (Ret (length (objs s)), set_objs (objs s ++ [o]) s).

(** ** store_checkpoint.go *)

Definition checkpointKeyPrefix : bytes := [x06; x3a].

Definition calcCheckpointKey (height : Z) (hash : option Hash) : bytes :=
  checkpointKeyPrefix ++ reverse (le_bytes 8 height) ++ default [] hash.

Definition GetBlockHeader (hash : Hash) : C stored :=
  x ← gets (fun s => db_blocks s !! hash); or_fail ErrNotFound x.
(** [GetBlock]: the transactions are stored with the header. *)
Definition GetBlock (hash : Hash) : C cp_block :=
  sb ← GetBlockHeader hash; mret (sb_block sb).

(** [SaveBlock] and [SaveBlockHeader]. *)
Definition SaveBlock (b : cp_block) (links : list SupLink) : C unit :=
  modify (fun s => set_blocks (<[blk_Hash b := mkStored b links]> (db_blocks s)) s).

(** [lookupCheckPoint] of cache.go, which loads into a new object. *)
Definition lookupCheckPoint (key : bytes) : C nat :=
  hit ← (fun s => let '(x, l) := cache_Get key (lruCheckPoints s) in (Ret x, set_lru l s) : outcome _ * _);
  match hit with
  | Some p => mret p
  | None =>
      c ← gets (fun s => db_checkpoints s !! key);
      c ← or_fail ErrNotFound c;
      p ← new (mkObj c None);
      modify (fun s => set_lru (cache_Add key p (lruCheckPoints s)) s) ;;
      mret p
  end.

(** The links of the header are appended to the cached object, at every call. *)
Definition GetCheckpoint (hash : Hash) : C nat :=
  header ← GetBlockHeader hash;
  p ← lookupCheckPoint (calcCheckpointKey (blk_Height (sb_block header)) (Some hash));
  write p (fun c => set_SupLinks (SupLinks c ++ sb_SupLinks header) c) ;;
  mret p.

(** [loadCheckpointsFromIter] over the saved checkpoints of a height.  Database
    iterators go through the keys in order; nothing below depends on it. *)
Fixpoint loadCheckpointsFromIter (l : list Checkpoint) : C (list Checkpoint) :=
  match l with
  | [] => mret []
  | c :: l' =>
      header ← GetBlockHeader (cp_Hash c);
      cs ← loadCheckpointsFromIter l';
      mret (set_SupLinks (SupLinks c ++ sb_SupLinks header) c :: cs)
  end.

Definition has_prefix (p k : bytes) : bool := bool_decide (take (length p) k = p).

Definition GetCheckpointsByHeight (height : Z) : C (list Checkpoint) :=
  db ← gets db_checkpoints;
  loadCheckpointsFromIter
    (omap (fun '(k, c) => if has_prefix (calcCheckpointKey height None) k then Some c else None) (map_range db)).

(** [Parent] and [SupLinks] are not part of the JSON text. *)
Definition SaveCheckpoints (ps : list nat) : C unit :=
  mapM_ (fun p =>
           c ← read p;
           modify (fun s => set_checkpoints
             (<[calcCheckpointKey (Height c) (Some (cp_Hash c)) := set_SupLinks [] c]> (db_checkpoints s)) s)) ps ;;
  mapM_ (fun p =>
           c ← read p;
           modify (fun s => set_lru (cache_Remove (calcCheckpointKey (Height c) (Some (cp_Hash c))) (lruCheckPoints s)) s)) ps.

(** [Post] of event/event.go. *)
Definition Post (msg : ValidCasperSignMsg) : C unit :=
  b ← gets mux_stopped;
  if b : bool then fail ErrMuxClosed else modify (fun s => set_posted (posted s ++ [msg]) s).
End State.

#[global] Arguments Casper L : clear implicits.
