(* ===== verification/Casper.v ===== *)
(** * The Casper consensus: protocol/casper

    [verfication.go], [auth_verification.go], [apply_block.go], the queries of
    [casper.go] and the tree updates of [tree_node.go], over the state of
    [CasperState.v].  A method that holds the mutex is one computation; what
    the mutex and the channel to the chain do together is the subject of
    [Rollback.v].  The signature scheme is the interface [Crypto], the node's
    key and the replies of the chain the interface [Node_]. *)

From S2P Require Import Prelude Encoding VMTypes Orphans Checkpoint Tree CasperState.
From Stdlib Require Import Strings.Byte.
#[local] Open Scope Z_scope.

(** The tree with a new leaf [c] under the node [p]: [newChild] appends to the children of a node. *)
Fixpoint add_child (p c : nat) (t : treeNode nat) : treeNode nat :=
  let 'Node q cs := t in
  if (q =? p)%nat then Node q (cs ++ [Node c []]) else Node q (map (add_child p c) cs).

(** The node's configuration and surroundings: the network, its key, and the
    chain's reply to the [n]-th rollback request, if there ever is one. *)
Class Node_ := {
  net : NetParams;
  node_XPub : bytes;
  node_Sign : bytes -> bytes;
  chain_reply : nat -> Hash -> option (option cerror);
}.

Record verification := mkVerification {
  v_SourceHash : Hash;
  v_TargetHash : Hash;
  v_SourceHeight : Z;
  v_TargetHeight : Z;
  v_Signature : bytes;
  v_PubKey : bytes;
  v_order : nat;
}.

Section Casper.
Context {R : MapRange} {L : LRU} {Cr : Crypto} {N : Node_}.
#[local] Abbreviation C := (C (L := L)).
#[local] Abbreviation epoch := (BlocksOfEpoch net).

(** ** Queries: casper.go and tree_node.go *)

Definition nodeByHash_ (hash : Hash) (s : Casper L) : option (treeNode nat) := nodeByHash (get s) hash (tree s).

Definition bestChain (s : Casper L) : Hash :=
  cp_Hash (get s (bestNode (get s) hex_encode (Height (get s (tn_cp (tree s)))) (tree s)).1).

Definition LastFinalized (s : Casper L) : Z * Hash :=
  let root := get s (tn_cp (tree s)) in (Height root, cp_Hash root).

Definition LastJustified : C (Z * Hash) :=
  node ← gets (fun s => lastJustified (get s) (tree s));
  p ← or_panic node;
  c ← read p;
  mret (Height c, cp_Hash c).

(** The loop over the ancestors of [iterHash]. *)
Fixpoint prev_loop (fuel : nat) (prevBlockHash iterHash : Hash) : C Hash :=
  match fuel with
  | O => no_fuel
  | S fuel =>
      block ← GetBlockHeader iterHash;
      let mod_ := blk_Height (sb_block block) mod epoch in
      if mod_ =? 0 then mret iterHash
      else if mod_ =? 1 then mret (blk_Prev (sb_block block))
      else
        data ← (fun s => let '(x, c) := cache_Get iterHash (prevCheckpointCache s) in (Ret x, set_prevCache c s) : outcome _ * _);
        match data with
        | Some data =>
            modify (fun s => set_prevCache (cache_Add prevBlockHash data (prevCheckpointCache s)) s) ;;
            mret data
        | None => prev_loop fuel prevBlockHash (blk_Prev (sb_block block))
        end
  end.
Definition parentCheckpointHashByPrevHash (fuel : nat) (prevBlockHash : Hash) : C Hash :=
  prev_loop fuel prevBlockHash prevBlockHash.

Definition parentCheckpointHash (fuel : nat) (blockHash : Hash) : C Hash :=
  data ← (fun s => let '(x, c) := cache_Get blockHash (prevCheckpointCache s) in (Ret x, set_prevCache c s) : outcome _ * _);
  match data with
  | Some data => mret data
  | None =>
      block ← GetBlockHeader blockHash;
      result ← parentCheckpointHashByPrevHash fuel (blk_Prev (sb_block block));
      modify (fun s => set_prevCache (cache_Add blockHash result (prevCheckpointCache s)) s) ;;
      mret result
  end.

Definition ParentCheckpoint (fuel : nat) (blockHash : Hash) : C nat :=
  hash ← parentCheckpointHash fuel blockHash; GetCheckpoint hash.
Definition ParentCheckpointByPrevHash (fuel : nat) (prevBlockHash : Hash) : C nat :=
  hash ← parentCheckpointHashByPrevHash fuel prevBlockHash; GetCheckpoint hash.

Definition validators (fuel : nat) (blockHash : Hash) : C (gmap bytes Validator) :=
  p ← ParentCheckpoint fuel blockHash; c ← read p; mret (EffectiveValidators net c).

(** ** verfication.go *)

(** [target.Parent.EffectiveValidators()], which dereferences a nil parent. *)
Definition parentValidators (target : nat) : C (gmap bytes Validator) :=
  q ← gets (fun s => parent s target);
  q ← or_panic q;
  c ← read q;
  mret (EffectiveValidators net c).

Definition mk_verification (source target : Checkpoint) (signature pubKey : bytes) (order : nat) : verification :=
  mkVerification (cp_Hash source) (cp_Hash target) (Height source) (Height target) signature pubKey order.

Definition convertVerification (source target : nat) (msg : ValidCasperSignMsg) : C verification :=
  vs ← parentValidators target;
  val ← or_fail ErrPubKeyIsNotValidator (vs !! m_PubKey msg);
  src ← read source;
  tgt ← read target;
  mret (mk_verification src tgt (m_Signature msg) (m_PubKey msg) (Order val)).

Definition supLinkToVerifications (source target : nat) (supLink : SupLink) : C (list verification) :=
  vs ← parentValidators target;
  src ← read source;
  tgt ← read target;
  mret (omap (fun '(_, val) =>
                let signature := Signatures supLink !!! Order val in
                if zlen signature =? 0 then None
                else Some (mk_verification src tgt signature (PubKey val) (Order val))) (map_range vs)).

Definition encodeMessage (v : verification) : bytes := sha3_256 (v_SourceHash v ++ v_TargetHash v).

Definition Sign (v : verification) : verification :=
  mkVerification (v_SourceHash v) (v_TargetHash v) (v_SourceHeight v) (v_TargetHeight v)
    (node_Sign (encodeMessage v)) (v_PubKey v) (v_order v).

Definition toValidCasperSignMsg (v : verification) : ValidCasperSignMsg :=
  mkMsg (v_SourceHash v) (v_TargetHash v) (v_Signature v) (v_PubKey v).

Definition verifySignature (v : verification) : C unit :=
  match hex_decode (v_PubKey v) with
  | None => fail ErrHexDecode
  | Some pubKey => if xpub_verify pubKey (encodeMessage v) (v_Signature v) then mret tt else fail ErrVerifySignature
  end.

Definition valid (v : verification) : C unit :=
  if negb (v_SourceHeight v mod epoch =? 0) || negb (v_TargetHeight v mod epoch =? 0) then fail ErrVoteToGrowingCheckpoint
  else if v_SourceHeight v >=? v_TargetHeight v then fail ErrVoteToSameCheckpoint
  else verifySignature v.

(** ** auth_verification.go *)

Definition verifySameHeight (v : verification) : C unit :=
  checkpoints ← GetCheckpointsByHeight (v_TargetHeight v);
  if existsb (fun c => existsb (fun l => signed (v_order v) l && negb (bool_decide (cp_Hash c = v_TargetHash v)))
                               (SupLinks c)) checkpoints
  then fail ErrSameHeightInVerification else mret tt.

(** The checkpoint has a link of the validator that surrounds [v], or is surrounded by it. *)
Definition spans (v : verification) (c : Checkpoint) : bool :=
  if Height c =? v_TargetHeight v then false
  else existsb (fun l => signed (v_order v) l
                         && (((Height c <? v_TargetHeight v) && (SourceHeight l >? v_SourceHeight v))
                             || ((Height c >? v_TargetHeight v) && (SourceHeight l <? v_SourceHeight v)))) (SupLinks c).

Definition verifySpanHeight (v : verification) : C unit :=
  node ← gets (fun s => findOnlyOne (get s) (spans v) (tree s));
  match node with Some _ => fail ErrSpanHeightInVerification | None => mret tt end.

Definition verifyVerification (v : verification) : C unit :=
  valid v ;; verifySameHeight v ;; verifySpanHeight v.

Definition setFinalized (checkpoint : nat) : C unit :=
  write checkpoint (set_Status Finalized) ;;
  c ← read checkpoint;
  newRoot ← gets (nodeByHash_ (cp_Hash c));
  match newRoot with
  | None => mret tt
  | Some newRoot =>
      write (tn_cp newRoot) (set_Status Finalized) ;;
      set_Parent (tn_cp newRoot) None ;;
      modify (set_tree newRoot)
  end.

Definition setJustified (source target : nat) : C unit :=
  write target (set_Status Justified) ;;
  src ← read source;
  tgt ← read target;
  if bool_decide (ParentHash tgt = cp_Hash src) then setFinalized source else mret tt.

(** One round of the loop: the source if it is affected. *)
Definition addVerification (validatorSize : Z) (target : nat) (v : verification) : C (list nat) :=
  source ← GetCheckpoint (v_SourceHash v);
  tgt ← read target;
  '(tgt, supLink) ← or_panic (AddVerification (v_SourceHash v) (v_SourceHeight v) (v_order v) (v_Signature v) tgt);
  write target (fun _ => tgt) ;;
  src ← read source;
  if negb (bool_decide (Status tgt = Unjustified)) || negb (IsMajority validatorSize supLink)
     || bool_decide (Status src = Finalized)
  then mret []
  else (setJustified source target ;; mret [source]).

Fixpoint addVerifications (validatorSize : Z) (target : nat) (vs : list verification) : C (list nat) :=
  match vs with
  | [] => mret []
  | v :: vs' =>
      a ← addVerification validatorSize target v;
      b ← addVerifications validatorSize target vs';
      mret (a ++ b)
  end.

Definition addVerificationToCheckpoint (target : nat) (vs : list verification) : C (list nat) :=
  vals ← parentValidators target;
  affected ← addVerifications (Z.of_nat (size vals)) target vs;
  mret (target :: affected).

Definition saveVerificationToHeader (v : verification) : C unit :=
  header ← GetBlockHeader (v_TargetHash v);
  '(links, _) ← or_panic (AddSupLink (v_SourceHeight v) (v_SourceHash v) (v_Signature v) (v_order v) (sb_SupLinks header));
  SaveBlock (sb_block header) links.

Definition authVerification (v : verification) (target : nat) : C unit :=
  verifyVerification v ;;
  checkpoints ← addVerificationToCheckpoint target [v];
  Post (toValidCasperSignMsg v) ;;
  SaveCheckpoints checkpoints ;;
  saveVerificationToHeader v.

(** The request to the chain, and its reply: [<-msg.Reply] with the mutex held. *)
Definition tryRollback (oldBestHash : Hash) : C unit :=
  newBestHash ← gets bestChain;
  if bool_decide (oldBestHash = newBestHash) then mret tt
  else
    n ← gets (fun s => length (rollbackCh s));
    modify (fun s => set_rollback (rollbackCh s ++ [newBestHash]) s) ;;
    match chain_reply n newBestHash with
    | Some (Some e) => fail e
    | Some None => mret tt
    | None => blocks
    end.

Definition verificationCacheKey (blockHash : Hash) (pubKey : bytes) : bytes :=
  hex_encode blockHash ++ [x3a] ++ pubKey.

Definition AuthVerification (msg : ValidCasperSignMsg) : C unit :=
  targetNode ← gets (nodeByHash_ (m_TargetHash msg));
  match targetNode with
  | None =>
      modify (fun s => set_verCache
        (cache_Add (verificationCacheKey (m_TargetHash msg) (m_PubKey msg)) msg (verificationCache s)) s)
  | Some targetNode =>
      let target := tn_cp targetNode in
      source ← GetCheckpoint (m_SourceHash msg);
      v ← convertVerification source target msg;
      tgt ← read target;
      if ContainsVerification (v_order v) (Some (v_SourceHash v)) tgt then mret tt
      else
        oldBestHash ← gets bestChain;
        authVerification v target ;;
        tryRollback oldBestHash
  end.

(** [defer c.verificationCache.Remove(msgKey)]. *)
Definition authCachedMsg (msg : ValidCasperSignMsg) (msgKey : bytes) : C unit :=
  r ← try (source ← GetCheckpoint (m_SourceHash msg);
           targetNode ← gets (nodeByHash_ (m_TargetHash msg));
           targetNode ← or_fail ErrTargetCheckpoint targetNode;
           v ← convertVerification source (tn_cp targetNode) msg;
           authVerification v (tn_cp targetNode));
  modify (fun s => set_verCache (cache_Remove msgKey (verificationCache s)) s) ;;
  match r with inl e => fail e | inr _ => mret tt end.

(** One round of [authVerificationLoop], for a hash received from [newEpochCh];
    errors are logged. *)
Definition authVerificationRound (fuel : nat) (blockHash : Hash) : C unit :=
  vs ← try (validators fuel blockHash);
  match vs with
  | inl _ => mret tt
  | inr vs =>
      mapM_ (fun '(_, val) =>
               let key := verificationCacheKey blockHash (PubKey val) in
               data ← (fun s => let '(x, c) := cache_Get key (verificationCache s) in (Ret x, set_verCache c s) : outcome _ * _);
               match data with
               | None => mret tt
               | Some msg => try (authCachedMsg msg key) ;; mret tt
               end) (map_range vs)
  end.

(** ** apply_block.go *)

Definition newChild (p : nat) : C nat :=
  c ← read p;
  child ← new (mkObj (NewCheckpoint c) (Some p));
  modify (fun s => set_tree (add_child p child (tree s)) s) ;;
  mret child.

(** [node.Increase(block)]. *)
Definition increase (p : nat) (block : cp_block) : C unit :=
  c ← read p;
  r ← or_panic (Increase net block c);
  match r with inl _ => fail ErrIncreaseCheckpoint | inr c' => write p (fun _ => c') end.

Definition extend (p : nat) (block : cp_block) : C nat :=
  p ← (if blk_Height block mod epoch =? 1 then newChild p else mret p);
  increase p block ;;
  mret p.

Fixpoint checkpointNodeByHash (fuel : nat) (hash : Hash) : C nat :=
  match fuel with
  | O => no_fuel
  | S fuel =>
      node ← gets (nodeByHash_ hash);
      match node with
      | Some node => mret (tn_cp node)
      | None =>
          block ← GetBlock hash;
          if blk_Height block mod epoch =? 0 then fail ErrPreviousRound
          else
            node ← checkpointNodeByHash fuel (blk_Prev block);
            extend node block
      end
  end.

Definition applyBlockToCheckpoint (fuel : nat) (block : cp_block) : C nat :=
  node ← checkpointNodeByHash fuel (blk_Prev block);
  extend node block.

Fixpoint lastJustified_loop (fuel : nat) (branch : option nat) : C (option nat) :=
  match fuel, branch with
  | O, _ => no_fuel
  | _, None => mret None
  | S fuel, Some p =>
      c ← read p;
      if bool_decide (Status c = Justified) then mret (Some p)
      else (q ← gets (fun s => parent s p); lastJustified_loop fuel q)
  end.
(** Parents are older objects than their children. *)
Definition lastJustifiedCheckpoint (branch : nat) : C (option nat) :=
  n ← gets (fun s => length (objs s));
  q ← gets (fun s => parent s branch);
  lastJustified_loop (S n) q.

Definition myVerification (target : nat) : C (option verification) :=
  tgt ← read target;
  if bool_decide (Status tgt = Growing) then mret None
  else
    source ← lastJustifiedCheckpoint target;
    match source with
    | None => mret None
    | Some source =>
        r ← try (convertVerification source target (mkMsg [] [] [] (hex_encode node_XPub)));
        match r with
        | inl _ => mret None
        | inr v =>
            if ContainsVerification (v_order v) None tgt then mret None
            else
              let v := Sign v in
              r ← try (verifyVerification v);
              mret (match r with inl _ => None | inr _ => Some v end)
        end
    end.

(** [block.SupLinks] is the block's own list. *)
Definition applyMyVerification (target : nat) (links : list SupLink) : C (list SupLink) :=
  v ← myVerification target;
  match v with
  | None => mret links
  | Some v =>
      Post (toValidCasperSignMsg v) ;;
      '(links, _) ← or_panic (AddSupLink (v_SourceHeight v) (v_SourceHash v) (v_Signature v) (v_order v) links);
      mret links
  end.

Fixpoint filter_valid (vs : list verification) : C (list verification) :=
  match vs with
  | [] => mret []
  | v :: vs' =>
      r ← try (verifyVerification v);
      result ← filter_valid vs';
      mret (match r with inl _ => result | inr _ => v :: result end)
  end.

Definition validVerificationsFromSupLink (target : nat) (supLink : SupLink) : C (list verification) :=
  source ← GetCheckpoint (SourceHash supLink);
  src ← read source;
  if negb (Height src =? SourceHeight supLink) then fail ErrSourceHeight
  else
    vs ← supLinkToVerifications source target supLink;
    filter_valid vs.

Fixpoint applySupLinks_loop (target : nat) (supLinks : list SupLink) : C (list nat) :=
  match supLinks with
  | [] => mret []
  | supLink :: supLinks' =>
      validVerifications ← validVerificationsFromSupLink target supLink;
      checkpoints ← addVerificationToCheckpoint target validVerifications;
      rest ← applySupLinks_loop target supLinks';
      mret (checkpoints ++ rest)
  end.
Definition applySupLinks (target : nat) (supLinks : list SupLink) : C (list nat) :=
  tgt ← read target;
  if bool_decide (Status tgt = Growing) then mret []
  else (affected ← applySupLinks_loop target supLinks; mret (target :: affected)).

(** The last pointer of each hash, in any order. *)
Definition saveCheckpoints (checkpoints : list nat) : C unit :=
  hashes ← gets (fun s => map (fun p => cp_Hash (get s p)) checkpoints);
  let checkpointSet := foldl (fun m '(h, p) => <[h := p]> m) (∅ : gmap Hash nat) (zip hashes checkpoints) in
  SaveCheckpoints (snd <$> map_range checkpointSet).

(** The best hash, and the links of the block with the node's own signature. *)
Definition ApplyBlock (fuel : nat) (block : cp_block) (links : list SupLink) : C (Hash * list SupLink) :=
  (if blk_Height block mod epoch =? 1
   then modify (fun s => set_newEpoch (newEpochCh s ++ [blk_Prev block]) s) else mret tt) ;;
  node ← gets (nodeByHash_ (blk_Hash block));
  match node with
  | Some _ => best ← gets bestChain; mret (best, links)
  | None =>
      target ← applyBlockToCheckpoint fuel block;
      links ← applyMyVerification target links;
      affectedCheckpoints ← applySupLinks target links;
      best ← gets bestChain;
      saveCheckpoints affectedCheckpoints ;;
      mret (best, links)
  end.
End Casper.
