(* ===== verification/CasperInv.v ===== *)
(** * The invariant of the consensus

    [world] gives every block by its hash: the blocks the validation lets
    through form a tree with increasing heights.  [inv] is what the operations
    of [Casper.v] preserve: the shape of the checkpoint tree, no surrounding
    votes of one validator order, signatures that verify, and supermajority
    links under every justified checkpoint.  Operations are handled with the
    weakest precondition [wp], which also excludes panics and lack of fuel. *)

From S2P Require Import Prelude Encoding VMTypes Orphans Checkpoint Tree CasperState Casper.
From Stdlib Require Import Strings.Byte.
#[local] Open Scope Z_scope.

(** ** Weakest preconditions *)

Section WP.
Context {L : LRU}.

(** [m] from [s] returns with [Q] or fails with [E]; it neither panics nor lacks fuel. *)
Definition wp {A} (m : C A) (Q : A -> Casper L -> Prop) (E : Casper L -> Prop) (s : Casper L) : Prop :=
  match m s with (Ret a, s') => Q a s' | (Fail _, s') => E s' | _ => False end.

Lemma cwp_ret {A} (a : A) Q E s : Q a s -> wp (mret a) Q E s.
Proof. done. Qed.
Lemma wp_fail {A} e (Q : A -> _) E s : E s -> wp (fail e) Q E s.
Proof. done. Qed.
Lemma cwp_bind {A B} (m : C A) (f : A -> C B) Q E s : wp m (fun a => wp (f a) Q E) E s -> wp (m ≫= f) Q E s.
Proof. unfold wp, mbind, C_bind. by destruct (m s) as [[a|e| | |] s']. Qed.
Lemma cwp_mono {A} (m : C A) (Q Q' : A -> _) (E E' : _ -> Prop) s :
  wp m Q E s -> (forall a s', Q a s' -> Q' a s') -> (forall s', E s' -> E' s') -> wp m Q' E' s.
Proof. unfold wp. intros Hm HQ HE. destruct (m s) as [[a|e| | |] s']; auto. Qed.
Lemma cwp_gets {A} (f : _ -> A) Q E s : Q (f s) s -> wp (gets f) Q E s.
Proof. done. Qed.
Lemma cwp_modify f Q E s : Q tt (f s) -> wp (modify f) Q E s.
Proof. done. Qed.
Lemma wp_try {A} (m : C A) Q E s : wp m (fun a => Q (inr a)) (fun s' => forall e, Q (inl e) s') s -> wp (try m) Q E s.
Proof. unfold wp, try. destruct (m s) as [[a|e| | |] s']; auto. Qed.
Lemma wp_or_fail {A} e (x : option A) Q E s : (forall a, x = Some a -> Q a s) -> E s -> wp (or_fail e x) Q E s.
Proof. destruct x; unfold wp; cbn; auto. Qed.
Lemma wp_or_panic {A} (x : option A) a Q E s : x = Some a -> Q a s -> wp (or_panic x) Q E s.
Proof. by intros ->. Qed.

(** The rule for a sequence whose first part has a lemma with one postcondition. *)
Lemma wp_seq {A B} (P : A -> _ -> Prop) (F : _ -> Prop) (m : C A) (f : A -> C B) Q E s :
  wp m P F s -> (forall a s', P a s' -> wp (f a) Q E s') -> (forall s', F s' -> E s') -> wp (m ≫= f) Q E s.
Proof. intros Hm HQ HE. apply cwp_bind. by eapply cwp_mono. Qed.

Lemma wp_run {A} (m : C A) Q E s : wp m Q E s ->
  (exists a, (m s).1 = Ret a /\ Q a (m s).2) \/ (exists e, (m s).1 = Fail e /\ E (m s).2).
Proof. unfold wp. destruct (m s) as [[a|e| | |] s']; cbn; eauto; done. Qed.

Lemma wp_mapM {A} (f : A -> C unit) (I : _ -> Prop) l s :
  (forall x s, x ∈ l -> I s -> wp (f x) (fun _ => I) I s) -> I s -> wp (mapM_ f l) (fun _ => I) I s.
Proof.
  intros Hf. revert s. induction l as [|x l IH]; intros s HI; cbn [mapM_]; [by apply cwp_ret|].
  eapply wp_seq; [apply Hf; [left|exact HI]| |done]. intros ? s' HI'. apply IH; [|done].
  intros y t Hy. apply Hf. by right.
Qed.
End WP.

Ltac wp_step :=
  lazymatch goal with
  | |- wp (mret _) _ _ _ => apply cwp_ret
  | |- wp (fail _) _ _ _ => apply wp_fail
  | |- wp (gets _ ≫= _) _ _ _ => apply cwp_bind, cwp_gets
  | |- wp (read _ ≫= _) _ _ _ => apply cwp_bind, cwp_gets
  | |- wp (modify _ ≫= _) _ _ _ => apply cwp_bind, cwp_modify
  | |- wp (modify _) _ _ _ => apply cwp_modify
  | |- wp ((_ ≫= _) ≫= _) _ _ _ => apply cwp_bind
  end.

(** ** Objects under updates *)

Section Objects.
Context {L : LRU}.
Implicit Types s : Casper L.

Definition upd (f : obj -> obj) (p : nat) s : Casper L := set_objs (alter f p (objs s)) s.

Lemma objs_set_objs x s : objs (set_objs x s) = x.
Proof. by destruct s. Qed.
Lemma objs_set_tree x s : objs (set_tree x s) = objs s.
Proof. by destruct s. Qed.
Lemma tree_set_objs x s : tree (set_objs x s) = tree s.
Proof. by destruct s. Qed.

Lemma upd_eq f p s : (p < length (objs s))%nat -> objs (upd f p s) !!! p = f (objs s !!! p).
Proof.
  intros Hp. unfold upd. rewrite objs_set_objs. destruct (lookup_lt_is_Some_2 _ _ Hp) as [o Ho].
  rewrite !list_lookup_total_alt, list_lookup_alter_eq, Ho. done.
Qed.
Lemma upd_ne f p q s : p <> q -> objs (upd f p s) !!! q = objs s !!! q.
Proof. intros Hpq. unfold upd. by rewrite objs_set_objs, !list_lookup_total_alt, list_lookup_alter_ne. Qed.
Lemma upd_length f p s : length (objs (upd f p s)) = length (objs s).
Proof. unfold upd. by rewrite objs_set_objs, length_alter. Qed.
End Objects.

(** ** Blocks *)

Class World := {
  world : Hash -> option cp_block;
  world_hash h b : world h = Some b -> blk_Hash b = h;
  (* a genesis block, of which there is no previous block, or a height one above it *)
  world_prev h b : world h = Some b ->
    blk_Height b = 0 /\ world (blk_Prev b) = None \/ exists p, world (blk_Prev b) = Some p /\ blk_Height b = blk_Height p + 1;
  world_height h b : world h = Some b -> 0 <= blk_Height b <= MaxUint64;
  (* the coinbase transaction has an output *)
  world_coinbase h b : world h = Some b -> exists t o, head (blk_Txs b) = Some t /\ head (Outputs t) = Some o;
}.

Section Blocks.
Context {W : World}.

Definition height_of (h : Hash) : option Z := blk_Height <$> world h.

(** [a] is [h] or a block before it. *)
Inductive ancestor (a : Hash) : Hash -> Prop :=
  | ancestor_refl : ancestor a a
  | ancestor_step h b : world h = Some b -> 0 < blk_Height b -> ancestor a (blk_Prev b) -> ancestor a h.

Lemma ancestor_trans a b c : ancestor a b -> ancestor b c -> ancestor a c.
Proof. intros Hab. induction 1 as [|h blk Hw Hh _ IH]; [done|]. by eapply ancestor_step. Qed.

Lemma height_of_prev h b z : world h = Some b -> 0 < blk_Height b -> height_of (blk_Prev b) = Some z -> blk_Height b = z + 1.
Proof.
  intros Hw Hpos Hz. destruct (world_prev h b Hw) as [[? _]|(p & Hp & Hh)]; [lia|].
  unfold height_of in Hz. rewrite Hp in Hz. cbn in Hz. by simplify_eq.
Qed.
End Blocks.

(** ** Adding a leaf *)

Lemma add_child_notin p x t : p ∉ nodes t -> add_child p x t = t.
Proof.
  induction t as [q cs IH] using treeNode_ind'. intros Hp. cbn [add_child].
  destruct (Nat.eqb_spec q p) as [->|_]; [by destruct Hp; left|]. f_equal.
  rewrite List.Forall_forall in IH. rewrite <- (map_id cs) at 2. apply map_ext_in. intros c Hc. apply IH; [done|].
  intros Hin. apply Hp. eapply elem_of_nodes_child; [by apply list_elem_of_In|done].
Qed.

(** Below a node other than [p], one child changes. *)
Lemma add_child_split p x q cs :
  p <> q -> NoDup (nodes (Node q cs)) -> p ∈ nodes (Node q cs) ->
  exists l1 c l2, cs = l1 ++ c :: l2 /\ p ∈ nodes c /\ NoDup (nodes c)
    /\ add_child p x (Node q cs) = Node q (l1 ++ add_child p x c :: l2).
Proof.
  intros Hne Hnd [?|(c & Hc & Hp)]%elem_of_nodes; [done|]. apply list_elem_of_split in Hc as (l1 & l2 & ->).
  exists l1, c, l2. split; [done|]. split; [done|].
  split; [eapply NoDup_child; [exact Hnd|apply elem_of_app; right; left]|].
  cbn [add_child]. destruct (Nat.eqb_spec q p); [congruence|]. f_equal. rewrite map_app. cbn [map].
  assert (Hothers : forall c', c' ∈ l1 \/ c' ∈ l2 -> p ∉ nodes c').
  { cbn [nodes] in Hnd. apply NoDup_cons in Hnd as [_ Hnd].
    rewrite map_app, concat_app in Hnd. cbn in Hnd. apply NoDup_app in Hnd as (_ & H1 & Hnd).
    apply NoDup_app in Hnd as (_ & H2 & _). intros c' Hc' Hin.
    assert (Hmem : forall l, c' ∈ l -> p ∈ concat (map nodes l)).
    { intros l Hl. apply list_elem_of_In, List.in_concat. exists (nodes c').
      split; [by apply in_map, list_elem_of_In|by apply list_elem_of_In]. }
    destruct Hc' as [Hc'|Hc'].
    - apply (H1 p); [by apply Hmem|]. apply elem_of_app. by left.
    - apply (H2 p); [done|by apply Hmem]. }
  f_equal; [|f_equal]; (rewrite <- map_id; apply map_ext_in; intros c' Hc'; apply add_child_notin, Hothers;
    rewrite !list_elem_of_In; auto).
Qed.

Lemma nodes_add_child p x t : NoDup (nodes t) -> p ∈ nodes t -> nodes (add_child p x t) ≡ₚ x :: nodes t.
Proof.
  induction t as [q cs IH] using treeNode_ind'. intros Hnd Hp. destruct (decide (p = q)) as [->|Hne].
  - cbn [add_child]. rewrite Nat.eqb_refl. cbn [nodes]. rewrite map_app, concat_app. cbn.
    rewrite Permutation_swap. apply Permutation_skip. by rewrite Permutation_app_comm.
  - destruct (add_child_split p x q cs Hne Hnd Hp) as (l1 & c & l2 & -> & Hpc & Hndc & ->).
    rewrite List.Forall_forall in IH. cbn [nodes]. rewrite !map_app, !concat_app. cbn.
    rewrite (IH c) by (try done; apply List.in_or_app; right; by left).
    cbn [app]. rewrite <- Permutation_middle. apply Permutation_swap.
Qed.

Lemma edges_add_child p x t e :
  NoDup (nodes t) -> p ∈ nodes t -> e ∈ edges (add_child p x t) <-> e = (p, x) \/ e ∈ edges t.
Proof.
  destruct e as [a b]. induction t as [q cs IH] using treeNode_ind'. intros Hnd Hp.
  destruct (decide (p = q)) as [->|Hne].
  - cbn [add_child]. rewrite Nat.eqb_refl, !elem_of_edges.
    split.
    + intros [(-> & c & [Hc|Hc]%elem_of_app & ->)|(c & [Hc|Hc]%elem_of_app & He)]; [right; left; eauto| |right; right; eauto|].
      * apply list_elem_of_singleton in Hc as ->. by left.
      * apply list_elem_of_singleton in Hc as ->. cbn in He. by apply not_elem_of_nil in He.
    + intros [[= -> ->]|[(-> & c & Hc & ->)|(c & Hc & He)]].
      * left. split; [done|]. exists (Node x []). split; [apply elem_of_app; right; left|done].
      * left. split; [done|]. exists c. split; [apply elem_of_app; by left|done].
      * right. exists c. split; [apply elem_of_app; by left|done].
  - destruct (add_child_split p x q cs Hne Hnd Hp) as (l1 & c & l2 & -> & Hpc & Hndc & ->).
    rewrite List.Forall_forall in IH. specialize (IH c ltac:(apply List.in_or_app; right; by left) Hndc Hpc).
    assert (Hroot : tn_cp (add_child p x c) = tn_cp c) by (destruct c; cbn; by case_match).
    rewrite !elem_of_edges. setoid_rewrite elem_of_app. setoid_rewrite elem_of_cons. split.
    + intros [(-> & c' & [Hc|[->|Hc]] & ->)|(c' & [Hc|[->|Hc]] & He)].
      1, 2, 3: right; left; rewrite ?Hroot; eauto 6.
      1, 3: right; right; eauto 6.
      apply IH in He as [?|?]; [by left|right; right; eauto 6].
    + intros [He|[(-> & c' & [Hc|[->|Hc]] & ->)|(c' & [Hc|[->|Hc]] & He)]].
      * right. exists (add_child p x c). split; [by right; left|]. apply IH. by left.
      * left. eauto 6.
      * left. split; [done|]. exists (add_child p x c). split; [by right; left|]. by rewrite Hroot.
      * left. eauto 6.
      * right. eauto 6.
      * right. exists (add_child p x c). split; [by right; left|]. apply IH. by right.
      * right. eauto 6.
Qed.

Lemma tn_cp_add_child p x t : tn_cp (add_child p x t) = tn_cp t.
Proof. destruct t. cbn. by case_match. Qed.
(** ** Links after an insertion *)

Lemma AddSupLink_elem height hash sig order ls ls' l :
  AddSupLink height hash sig order ls = Some (ls', l) ->
  exists l0, set_signature order sig l0 = Some l /\ SourceHash l0 = hash
    /\ (l0 ∈ ls \/ l0 = NewSupLink height hash) /\ l ∈ ls'
    /\ (forall x, x ∈ ls' -> x = l \/ x ∈ ls) /\ (forall x, x ∈ ls -> x = l0 \/ x ∈ ls').
Proof.
  revert ls'. induction ls as [|x ls IH]; intros ls'; cbn [AddSupLink].
  - destruct (set_signature _ _ _) as [l1|] eqn:Hs; cbn [mbind option_bind]; [|done]. intros [= <- <-].
    exists (NewSupLink height hash). split_and!; [done|done|by right|left| |].
    + intros y [->|Hy]%elem_of_cons; [by left|by apply not_elem_of_nil in Hy].
    + intros y Hy. by apply not_elem_of_nil in Hy.
  - case_bool_decide as Hx.
    + destruct (set_signature order sig x) as [l1|] eqn:Hs; cbn [mbind option_bind]; [|done]. intros [= <- <-].
      exists x. split_and!; [done|done|left; left|left| |].
      * intros y [->|Hy]%elem_of_cons; [by left|right; by right].
      * intros y [->|Hy]%elem_of_cons; [by left|right; by right].
    + destruct (AddSupLink _ _ _ _ ls) as [[ls1 l1]|] eqn:Hr; cbn [mbind option_bind]; [|done]. intros [= <- <-].
      destruct (IH ls1 eq_refl) as (l0 & H1 & H2 & H3 & H4 & H5 & H6). exists l0. split_and!; [done|done| |by right| |].
      * destruct H3; [left; by right|by right].
      * intros y [->|Hy]%elem_of_cons; [right; left|]. destruct (H5 y Hy); [by left|right; by right].
      * intros y [->|Hy]%elem_of_cons; [right; left|]. destruct (H6 y Hy); [by left|right; by right].
Qed.

Lemma set_signature_inv order sig l l' :
  set_signature order sig l = Some l' ->
  (order < length (Signatures l))%nat
  /\ l' = mkSup (SourceHeight l) (SourceHash l) (<[order := sig]> (Signatures l)).
Proof. unfold set_signature. destruct (Nat.ltb_spec order (length (Signatures l))); [|done]. by intros [= <-]. Qed.

Lemma signature_count_insert order sig sigs :
  sig <> [] -> (signature_count sigs <= signature_count (<[order := sig]> sigs))%nat.
Proof.
  intros Hs. unfold signature_count. revert order. induction sigs as [|x sigs IH]; intros [|order]; [done..| |].
  - change (<[0%nat := sig]> (x :: sigs)) with (sig :: sigs). rewrite !filter_cons, (decide_True _ _ Hs).
    case_decide; cbn [length]; lia.
  - change (<[S order := sig]> (x :: sigs)) with (x :: <[order := sig]> sigs). rewrite !filter_cons.
    specialize (IH order). case_decide; cbn [length]; lia.
Qed.

Lemma IsMajority_mono n l l' :
  (signature_count (Signatures l) <= signature_count (Signatures l'))%nat -> IsMajority n l = true -> IsMajority n l' = true.
Proof. unfold IsMajority. rewrite !Z.gtb_ltb, !Z.ltb_lt. lia. Qed.

Lemma signed_spec o l : signed o l = true <-> Signatures l !!! o <> [].
Proof.
  unfold signed. rewrite negb_true_iff, Z.eqb_neq. split.
  - intros H Hn. rewrite Hn in H. by cbn in H.
  - intros H Hn. by apply zlen_0_inv in Hn.
Qed.

Lemma no_signature_new h x o : signed o (NewSupLink h x) = false.
Proof.
  apply not_true_iff_false. rewrite signed_spec. intros H. apply H. cbn [NewSupLink Signatures no_signatures].
  rewrite list_lookup_total_alt. unfold no_signatures. destruct (decide (o < MaxNumOfValidators)%nat).
  - by rewrite lookup_replicate_2.
  - by rewrite (proj1 (lookup_replicate_None _ _ _)) by lia.
Qed.

(** ** The invariant of the tree *)

Class NodeLaws {Cr : Crypto} (N : Node_) : Prop := {
  epoch_ge : 2 <= BlocksOfEpoch net;
  federation_NoDup : NoDup (Federation net);
  federation_small : (length (Federation net) <= MaxNumOfValidators)%nat;
  verify_empty pk m : length pk = 32%nat -> ed25519_verify pk m [] = false;
}.

Section Inv.
Context {R : MapRange} {RL : MapRangeLaws R} {L : LRU} {LL : LRULaws L} {Cr : Crypto} {N : Node_} {W : World}.
#[local] Abbreviation epoch := (BlocksOfEpoch net).
#[local] Abbreviation vals := (EffectiveValidators net).
Implicit Types s : Casper L.
Implicit Types g : nat -> obj.

Definition cp_ok (c : Checkpoint) : Prop := height_of (cp_Hash c) = Some (Height c).

(** The validator of order [o] signed the link [l] to [c]. *)
Definition signed_by (vs : gmap bytes Validator) (sourceHash targetHash : Hash) (o : nat) (sig : bytes) : Prop :=
  exists v pk, vs !! PubKey v = Some v /\ Order v = o /\ hex_decode (PubKey v) = Some pk
    /\ xpub_verify pk (sha3_256 (sourceHash ++ targetHash)) sig = true.

Record node_ok (c : Checkpoint) : Prop := {
  n_cp : cp_ok c;
  n_growing : Status c = Growing <-> Height c mod epoch <> 0;
  n_growing_links : Status c = Growing -> SupLinks c = [];
  n_full : Forall full (SupLinks c);
  n_sources : NoDup (SourceHash <$> SupLinks c);
  n_links : forall l, l ∈ SupLinks c -> height_of (SourceHash l) = Some (SourceHeight l) /\ SourceHeight l < Height c;
}.

Record edge_ok g (p c : nat) : Prop := {
  e_older : (p < c)%nat;
  e_parent : o_Parent (g c) = Some p;
  e_hash : ParentHash (o_cp (g c)) = cp_Hash (o_cp (g p));
  e_ended : Status (o_cp (g p)) <> Growing;
  e_ancestor : ancestor (cp_Hash (o_cp (g p))) (cp_Hash (o_cp (g c)));
  e_height : Height (o_cp (g p)) < Height (o_cp (g c));
  e_signed : forall l o, l ∈ SupLinks (o_cp (g c)) -> signed o l = true ->
    signed_by (vals (o_cp (g p))) (SourceHash l) (cp_Hash (o_cp (g c))) o (Signatures l !!! o);
  e_not_final : Status (o_cp (g c)) <> Finalized;
  e_majority : Status (o_cp (g c)) = Justified ->
    exists l, l ∈ SupLinks (o_cp (g c)) /\ IsMajority (Z.of_nat (size (vals (o_cp (g p))))) l = true;
}.

(** A validator order never votes to a higher target from a lower source. *)
Definition no_surround g (ns : list nat) : Prop :=
  forall p q l1 l2 o, p ∈ ns -> q ∈ ns -> l1 ∈ SupLinks (o_cp (g p)) -> l2 ∈ SupLinks (o_cp (g q)) ->
  signed o l1 = true -> signed o l2 = true ->
  Height (o_cp (g p)) < Height (o_cp (g q)) -> SourceHeight l1 <= SourceHeight l2.

Record tinv g (t : treeNode nat) : Prop := {
  t_nodup : NoDup (nodes t);
  t_root : o_Parent (g (tn_cp t)) = None;
  t_nodes : forall p, p ∈ nodes t -> node_ok (o_cp (g p));
  t_edges : forall p c, (p, c) ∈ edges t -> edge_ok g p c;
  t_hashes : forall p q, p ∈ nodes t -> q ∈ nodes t -> cp_Hash (o_cp (g p)) = cp_Hash (o_cp (g q)) -> p = q;
  t_surround : no_surround g (nodes t);
  t_justified : Status (o_cp (g (tn_cp t))) = Justified
    \/ Status (o_cp (g (tn_cp t))) = Finalized
       /\ exists c, (tn_cp t, c) ∈ edges t /\ Status (o_cp (g c)) = Justified;
}.

Record sinv s : Prop := {
  s_len : forall p, p ∈ nodes (tree s) -> (p < length (objs s))%nat;
  s_objs : forall p, (p < length (objs s))%nat -> cp_ok (get s p);
  s_cached : forall k p, entries (lruCheckPoints s) !! k = Some p -> (p < length (objs s))%nat /\ p ∉ nodes (tree s);
  s_db : forall k c, db_checkpoints s !! k = Some c -> cp_ok c;
  s_blocks : forall h sb, db_blocks s !! h = Some sb -> world h = Some (sb_block sb) /\ Forall full (sb_SupLinks sb);
  s_messages : forall k m, entries (verificationCache s) !! k = Some m ->
    k = verificationCacheKey (m_TargetHash m) (m_PubKey m);
}.

Definition inv s : Prop := sinv s /\ tinv (fun p => objs s !!! p) (tree s).

(** *** Updates of the tree *)

Lemma edge_ok_ext g g' p c : g p = g' p -> g c = g' c -> edge_ok g p c -> edge_ok g' p c.
Proof. intros Hp Hc [?????????]. split; rewrite <- ?Hp, <- ?Hc; auto. Qed.

Lemma tinv_ext g g' t : (forall p, p ∈ nodes t -> g p = g' p) -> tinv g t -> tinv g' t.
Proof.
  intros Hg [H1 H2 H3 H4 H5 H6 H7]. split.
  - done.
  - rewrite <- Hg; [done|apply tn_cp_nodes].
  - intros p Hp. rewrite <- Hg by done. auto.
  - intros p c Hpc. destruct (edges_nodes _ _ _ Hpc). eapply edge_ok_ext; [..|by apply H4]; by apply Hg.
  - intros p q Hp Hq. rewrite <- !Hg by done. auto.
  - intros p q l1 l2 o Hp Hq. rewrite <- !Hg by done. eauto.
  - rewrite <- Hg by apply tn_cp_nodes. destruct H7 as [?|(? & c & Hc & ?)]; [by left|right].
    split; [done|]. exists c. split; [done|]. rewrite <- Hg; [done|]. by eapply edges_nodes.
Qed.

(** The validators depend on the votes and on whether the epoch has ended. *)
Lemma vals_ext c c' : Votes c = Votes c' -> (Status c = Growing <-> Status c' = Growing) -> vals c = vals c'.
Proof.
  intros Hv Hs. unfold EffectiveValidators, AllValidators. rewrite Hv.
  by rewrite (bool_decide_ext _ _ Hs).
Qed.

(** [o] is [g p] with other links, or a justified status. *)
Record revised (o' o : obj) : Prop := {
  r_parent : o_Parent o' = o_Parent o;
  r_height : Height (o_cp o') = Height (o_cp o);
  r_hash : cp_Hash (o_cp o') = cp_Hash (o_cp o);
  r_parentHash : ParentHash (o_cp o') = ParentHash (o_cp o);
  r_votes : Votes (o_cp o') = Votes (o_cp o);
  r_status : Status (o_cp o') = Status (o_cp o)
    \/ Status (o_cp o) = Unjustified /\ Status (o_cp o') = Justified;
}.

Lemma revised_growing o o' : revised o' o -> (Status (o_cp o') = Growing <-> Status (o_cp o) = Growing).
Proof. intros Hr. destruct (r_status _ _ Hr) as [->|[-> ->]]; done. Qed.
Lemma revised_vals o o' : revised o' o -> vals (o_cp o') = vals (o_cp o).
Proof. intros Hr. apply vals_ext; [by apply r_votes|by apply revised_growing]. Qed.
Lemma revised_refl o : revised o o.
Proof. split; auto. Qed.

Lemma tinv_revise g g' t x :
  tinv g t -> x ∈ nodes t -> (forall p, p ∈ nodes t -> p <> x -> g' p = g p) -> revised (g' x) (g x) ->
  node_ok (o_cp (g' x)) -> no_surround g' (nodes t) ->
  (forall q, (q, x) ∈ edges t ->
     (forall l o, l ∈ SupLinks (o_cp (g' x)) -> signed o l = true ->
        signed_by (vals (o_cp (g q))) (SourceHash l) (cp_Hash (o_cp (g x))) o (Signatures l !!! o))
     /\ (Status (o_cp (g' x)) = Justified ->
         exists l, l ∈ SupLinks (o_cp (g' x)) /\ IsMajority (Z.of_nat (size (vals (o_cp (g q))))) l = true)) ->
  tinv g' t.
Proof.
  intros Ht Hx Hg Hr Hn Hs He.
  assert (Hrev : forall p, p ∈ nodes t -> revised (g' p) (g p)).
  { intros p Hp. destruct (decide (p = x)) as [->|Hne]; [done|]. rewrite Hg by done. apply revised_refl. }
  pose proof (tn_cp_nodes t) as Hroot. split.
  - apply (t_nodup _ _ Ht).
  - rewrite (r_parent _ _ (Hrev _ Hroot)). apply (t_root _ _ Ht).
  - intros p Hp. destruct (decide (p = x)) as [->|Hne]; [done|]. rewrite Hg by done. by apply (t_nodes _ _ Ht).
  - intros p c Hpc. destruct (edges_nodes _ _ _ Hpc) as [Hp Hc]. pose proof (t_edges _ _ Ht _ _ Hpc) as E.
    assert (Hpne : p <> c).
    { intros ->. pose proof (e_height _ _ _ E). lia. }
    pose proof (Hrev p Hp) as Rp. pose proof (Hrev c Hc) as Rc. destruct (r_status _ _ Rc) as [Sc|[Sc1 Sc2]].
    all: split; rewrite ?(r_parent _ _ Rc), ?(r_parentHash _ _ Rc), ?(r_hash _ _ Rp), ?(r_hash _ _ Rc),
      ?(r_height _ _ Rp), ?(r_height _ _ Rc), ?(revised_growing _ _ Rp), ?(revised_vals _ _ Rp); try apply E.
    all: try (rewrite ?Sc, ?Sc2; first [apply E|done]).
    all: destruct (decide (c = x)) as [->|Hcx]; [apply (He p Hpc)|rewrite (Hg c) by done; apply E].
  - intros p q Hp Hq. rewrite (r_hash _ _ (Hrev p Hp)), (r_hash _ _ (Hrev q Hq)). by apply (t_hashes _ _ Ht).
  - done.
  - destruct (t_justified _ _ Ht) as [Hj|(Hf & c & Hc & Hj)].
    + left. destruct (r_status _ _ (Hrev _ Hroot)) as [->|[? ?]]; congruence.
    + right. split; [destruct (r_status _ _ (Hrev _ Hroot)) as [->|[? ?]]; congruence|]. exists c. split; [done|].
      assert (Hcn : c ∈ nodes t) by (by eapply edges_nodes).
      destruct (r_status _ _ (Hrev _ Hcn)) as [->|[? ?]]; congruence.
Qed.

(** The subtree of a node with a justified child becomes the tree. *)
Lemma tinv_reroot g g' t n :
  tinv g t -> subtree n t -> (forall p, p ∈ nodes n -> p <> tn_cp n -> g' p = g p) ->
  g' (tn_cp n) = mkObj (set_Status Finalized (o_cp (g (tn_cp n)))) None ->
  (exists c, (tn_cp n, c) ∈ edges n /\ Status (o_cp (g c)) = Justified) -> tinv g' n.
Proof.
  intros Ht [Hnodes Hedges Hnd _] Hg Hx (c0 & Hc0 & Hj0). set (x := tn_cp n) in *.
  specialize (Hnd (t_nodup _ _ Ht)).
  assert (Hng : Status (o_cp (g x)) <> Growing) by (eapply e_ended, (t_edges _ _ Ht); eauto).
  assert (Hsame : forall p, p ∈ nodes n -> Height (o_cp (g' p)) = Height (o_cp (g p))
            /\ cp_Hash (o_cp (g' p)) = cp_Hash (o_cp (g p)) /\ SupLinks (o_cp (g' p)) = SupLinks (o_cp (g p))
            /\ vals (o_cp (g' p)) = vals (o_cp (g p))).
  { intros p Hp. destruct (decide (p = x)) as [->|Hne]; [|by rewrite Hg].
    rewrite Hx. split_and!; try done. cbn. apply vals_ext; [done|]. cbn. split; [done|]. intros ?. done. }
  split.
  - done.
  - fold x. by rewrite Hx.
  - intros p Hp. destruct (decide (p = x)) as [->|Hne]; [|rewrite Hg by done; by apply (t_nodes _ _ Ht), Hnodes].
    rewrite Hx. destruct (t_nodes _ _ Ht x (Hnodes x Hp)). split; cbn; try done. rewrite <- n_growing0. done.
  - intros p c Hpc. pose proof (t_edges _ _ Ht _ _ (Hedges _ Hpc)) as E.
    destruct (edges_nodes _ _ _ Hpc) as [Hp Hc]. pose proof (edge_not_root _ _ _ Hnd Hpc) as Hcx. fold x in Hcx.
    destruct (Hsame p Hp) as (S1 & S2 & _ & S4).
    assert (Hpe : Status (o_cp (g' p)) <> Growing).
    { destruct (decide (p = x)) as [->|Hne]; [by rewrite Hx|]. rewrite Hg by done. apply E. }
    split; rewrite ?S1, ?S2, ?S4, ?(Hg c) by done; try apply E. done.
  - intros p q Hp Hq. destruct (Hsame p Hp) as (_ & -> & _). destruct (Hsame q Hq) as (_ & -> & _).
    apply (t_hashes _ _ Ht); by apply Hnodes.
  - intros p q l1 l2 o Hp Hq. destruct (Hsame p Hp) as (-> & _ & -> & _). destruct (Hsame q Hq) as (-> & _ & -> & _).
    apply (t_surround _ _ Ht); by apply Hnodes.
  - right. fold x. split; [by rewrite Hx|]. exists c0. split; [done|].
    rewrite Hg; [done|by eapply edges_nodes|]. by eapply edge_not_root.
Qed.

(** A checkpoint of which the epoch has just begun, or continues. *)
Record fresh_cp g (t : treeNode nat) (p : nat) (c : Checkpoint) : Prop := {
  f_node : node_ok c;
  f_links : SupLinks c = [];
  f_status : Status c = Growing \/ Status c = Unjustified;
  f_ancestor : ancestor (cp_Hash (o_cp (g p))) (cp_Hash c);
  f_height : Height (o_cp (g p)) < Height c;
  f_hash : forall q, q ∈ nodes t -> cp_Hash (o_cp (g q)) <> cp_Hash c;
}.

Lemma tinv_add_child g g' t p x c :
  tinv g t -> p ∈ nodes t -> x ∉ nodes t -> (p < x)%nat -> (forall q, q ∈ nodes t -> g' q = g q) ->
  g' x = mkObj c (Some p) -> Status (o_cp (g p)) <> Growing -> ParentHash c = cp_Hash (o_cp (g p)) ->
  fresh_cp g t p c -> tinv g' (add_child p x t).
Proof.
  intros Ht Hp Hx Hpx Hg Hgx Hng Hph F. pose proof (t_nodup _ _ Ht) as Hnd.
  assert (Hin : forall q, q ∈ nodes (add_child p x t) <-> q = x \/ q ∈ nodes t).
  { intros q. rewrite nodes_add_child by done. apply elem_of_cons. }
  pose proof (tn_cp_nodes t) as Hroot. split.
  - rewrite nodes_add_child by done. by constructor.
  - rewrite tn_cp_add_child, Hg by done. apply (t_root _ _ Ht).
  - intros q [->|Hq]%Hin; [rewrite Hgx; apply F|rewrite Hg by done; by apply (t_nodes _ _ Ht)].
  - intros q r [[= -> ->]|He]%edges_add_child; [| |done..].
    + split; rewrite ?(Hg p), ?Hgx by done; cbn; try done; try apply F.
      * rewrite (f_links _ _ _ _ F). intros l o Hl. by apply not_elem_of_nil in Hl.
      * destruct (f_status _ _ _ _ F) as [-> | ->]; done.
      * destruct (f_status _ _ _ _ F) as [-> | ->]; done.
    + destruct (edges_nodes _ _ _ He). eapply edge_ok_ext; [..|by apply (t_edges _ _ Ht)]; by rewrite Hg.
  - intros q r [->|Hq]%Hin [->|Hr]%Hin; rewrite ?Hgx, ?(Hg q), ?(Hg r) by done; cbn.
    + done.
    + intros He. by destruct (f_hash _ _ _ _ F r Hr).
    + intros He. by destruct (f_hash _ _ _ _ F q Hq).
    + by apply (t_hashes _ _ Ht).
  - intros q r l1 l2 o [->|Hq]%Hin [->|Hr]%Hin; rewrite ?Hgx, ?(Hg q), ?(Hg r) by done; cbn [o_cp];
      rewrite ?(f_links _ _ _ _ F); intros Hl1 Hl2; try by apply not_elem_of_nil in Hl1.
    + by apply not_elem_of_nil in Hl2.
    + by apply (t_surround _ _ Ht q r l1 l2 o).
  - rewrite tn_cp_add_child, Hg by done. destruct (t_justified _ _ Ht) as [?|(? & d & Hd & Hj)]; [by left|right].
    split; [done|]. exists d. split; [apply edges_add_child; auto|]. rewrite Hg; [done|by eapply edges_nodes].
Qed.

(** A growing checkpoint has no children, and is not the root. *)
Lemma growing_leaf g t p c : tinv g t -> Status (o_cp (g p)) = Growing -> (p, c) ∉ edges t.
Proof. intros Ht Hs He. by destruct (e_ended _ _ _ (t_edges _ _ Ht _ _ He)). Qed.
Lemma growing_not_root g t p : tinv g t -> Status (o_cp (g p)) = Growing -> p <> tn_cp t.
Proof. intros Ht Hs ->. destruct (t_justified _ _ Ht) as [?|[? _]]; congruence. Qed.

Lemma tinv_grow g g' t p c :
  tinv g t -> p ∈ nodes t -> (forall q, q ∈ nodes t -> q <> p -> g' q = g q) ->
  g' p = mkObj c (o_Parent (g p)) -> Status (o_cp (g p)) = Growing -> ParentHash c = ParentHash (o_cp (g p)) ->
  fresh_cp g t p c -> tinv g' t.
Proof.
  intros Ht Hp Hg Hgp Hs Hph F. pose proof (growing_not_root _ _ _ Ht Hs) as Hpr.
  pose proof (tn_cp_nodes t) as Hroot. split.
  - apply (t_nodup _ _ Ht).
  - rewrite Hg by done. apply (t_root _ _ Ht).
  - intros q Hq. destruct (decide (q = p)) as [->|Hne]; [rewrite Hgp; apply F|].
    rewrite Hg by done. by apply (t_nodes _ _ Ht).
  - intros q r He. destruct (edges_nodes _ _ _ He) as [Hq Hr]. pose proof (t_edges _ _ Ht _ _ He) as E.
    assert (Hqp : q <> p) by (intros ->; by apply (growing_leaf _ _ p r Ht) in Hs).
    destruct (decide (r = p)) as [->|Hne]; [|eapply edge_ok_ext; [..|exact E]; by rewrite Hg].
    split; rewrite ?(Hg q), ?Hgp by done; cbn.
    + apply E.
    + apply E.
    + rewrite Hph. apply E.
    + apply E.
    + eapply ancestor_trans; [apply E|apply F].
    + etransitivity; [apply E|apply F].
    + rewrite (f_links _ _ _ _ F). intros l o Hl. by apply not_elem_of_nil in Hl.
    + destruct (f_status _ _ _ _ F) as [-> | ->]; done.
    + destruct (f_status _ _ _ _ F) as [-> | ->]; done.
  - intros q r Hq Hr. destruct (decide (q = p)) as [->|Hqp], (decide (r = p)) as [->|Hrp];
      rewrite ?Hgp, ?(Hg q), ?(Hg r) by done; cbn; [done|..].
    + intros He. by destruct (f_hash _ _ _ _ F r Hr).
    + intros He. by destruct (f_hash _ _ _ _ F q Hq).
    + by apply (t_hashes _ _ Ht).
  - intros q r l1 l2 o Hq Hr. destruct (decide (q = p)) as [->|Hqp], (decide (r = p)) as [->|Hrp];
      rewrite ?Hgp, ?(Hg q), ?(Hg r) by done; cbn [o_cp]; rewrite ?(f_links _ _ _ _ F); intros Hl1 Hl2;
      try (by apply not_elem_of_nil in Hl1); try (by apply not_elem_of_nil in Hl2).
    by apply (t_surround _ _ Ht q r l1 l2 o).
  - rewrite Hg by done. destruct (t_justified _ _ Ht) as [?|(? & d & Hd & Hj)]; [by left|right].
    split; [done|]. exists d. split; [done|]. rewrite Hg; [done|by eapply edges_nodes|]. intros ->. congruence.
Qed.

(** Every checkpoint of the tree descends from the root. *)
Lemma root_ancestor g t p :
  tinv g t -> p ∈ nodes t -> ancestor (cp_Hash (o_cp (g (tn_cp t)))) (cp_Hash (o_cp (g p))).
Proof.
  intros Ht Hp.
  assert (Hr : rtc (fun q r => ancestor (cp_Hash (o_cp (g q))) (cp_Hash (o_cp (g r)))) (tn_cp t) p).
  { apply nodes_rtc; [|done]. intros q r He. by apply (t_edges _ _ Ht). }
  clear Hp. induction Hr as [|q r z Hqr _ IH]; [apply ancestor_refl|]. by eapply ancestor_trans.
Qed.
End Inv.
