(* ===== verification/CasperSpec.v ===== *)
(** * The operations of the consensus preserve its invariant

    One lemma per operation of [Casper.v], from the store up to [AuthVerification]
    and [ApplyBlock]: from a state with [inv] the operation neither panics nor
    runs out of fuel, and it keeps [inv].  [quiet] is what the store operations
    leave alone, [voted] what adding votes may change. *)

From S2P Require Import Prelude Encoding VMTypes Orphans Checkpoint Tree CasperState Casper CasperInv.
From Stdlib Require Import Strings.Byte.
#[local] Open Scope Z_scope.

Section Spec.
Context {R : MapRange} {RL : MapRangeLaws R} {L : LRU} {LL : LRULaws L} {Cr : Crypto} {N : Node_} {NL : NodeLaws N} {W : World}.
#[local] Abbreviation epoch := (BlocksOfEpoch net).
#[local] Abbreviation vals := (EffectiveValidators net).
Implicit Types s : Casper L.

(** The tree, its objects and the blocks are as before. *)
Record quiet s s' : Prop := {
  q_tree : tree s' = tree s;
  q_objs : forall p, p ∈ nodes (tree s) -> objs s' !!! p = objs s !!! p;
  q_len : (length (objs s) <= length (objs s'))%nat;
}.

Lemma quiet_refl s : quiet s s.
Proof. by split. Qed.
Lemma quiet_trans s1 s2 s3 : quiet s1 s2 -> quiet s2 s3 -> quiet s1 s3.
Proof.
  intros [T1 O1 L1] [T2 O2 L2]. split; [congruence| |lia].
  intros p Hp. rewrite O2, O1; [done..|]. by rewrite T1.
Qed.

Lemma inv_quiet s s' : inv s -> quiet s s' -> sinv s' -> inv s'.
Proof.
  intros [_ Ht] [Tr Ob _] Hs. split; [done|]. rewrite Tr. eapply tinv_ext; [|exact Ht].
  intros p Hp. by rewrite Ob.
Qed.

(** Changes that neither objects, tree, caches nor database see. *)
Lemma inv_same s s' :
  objs s' = objs s -> tree s' = tree s -> db_blocks s' = db_blocks s -> db_checkpoints s' = db_checkpoints s ->
  entries (lruCheckPoints s') = entries (lruCheckPoints s) -> verificationCache s' = verificationCache s ->
  inv s -> inv s' /\ quiet s s'.
Proof.
  intros Ho Htr Hb Hd He Hv Hi. assert (Q : quiet s s') by (split; rewrite ?Ho; auto with lia).
  split; [|done]. eapply inv_quiet; [exact Hi|done|]. destruct Hi as [[S1 S0 S2 S3 S4 S5] _]. split.
  - rewrite Ho, Htr. done.
  - unfold get. rewrite Ho. done.
  - intros k p. rewrite He, Htr, Ho. apply S2.
  - by rewrite Hd.
  - by rewrite Hb.
  - by rewrite Hv.
Qed.

Lemma inv_upd_other s f p :
  inv s -> p ∉ nodes (tree s) -> (forall o, cp_ok (o_cp o) -> cp_ok (o_cp (f o))) ->
  inv (upd f p s) /\ quiet s (upd f p s).
Proof.
  intros Hi Hp Hf. assert (Q : quiet s (upd f p s)).
  { split; [by destruct s| |by rewrite upd_length]. intros q Hq. apply upd_ne. congruence. }
  split; [|done]. eapply inv_quiet; [exact Hi|done|]. destruct Hi as [[S1 S0 S2 S3 S4 S5] _]. split.
  - intros q Hq. rewrite upd_length. apply S1. by rewrite <- (q_tree _ _ Q).
  - intros q Hq. rewrite upd_length in Hq. unfold get.
    destruct (decide (p = q)) as [->|Hne]; [rewrite upd_eq by done; by apply Hf, S0|rewrite upd_ne by done; by apply S0].
  - intros k q Hk. replace (lruCheckPoints (upd f p s)) with (lruCheckPoints s) in Hk by by destruct s.
    rewrite upd_length, (q_tree _ _ Q). by apply (S2 k q).
  - by destruct s.
  - by destruct s.
  - by destruct s.
Qed.

(** *** The store *)

Definition fresh_object s (p : nat) : Prop := (p < length (objs s))%nat /\ p ∉ nodes (tree s).
Lemma fresh_cp_ok s p : inv s -> fresh_object s p -> cp_ok (get s p).
Proof. intros [Hs _] [Hp _]. by apply (s_objs _ Hs). Qed.

Lemma wp_GetBlockHeader h (Q : stored -> _ -> Prop) (E : _ -> Prop) s :
  inv s -> (forall sb, world h = Some (sb_block sb) -> Forall full (sb_SupLinks sb) -> Q sb s) -> E s ->
  wp (GetBlockHeader h) Q E s.
Proof.
  intros [Hs _] HQ HE. unfold GetBlockHeader. wp_step. apply wp_or_fail; [|done].
  intros sb Hsb. destruct (s_blocks _ Hs _ _ Hsb). by apply HQ.
Qed.

Lemma set_lru_inv s l :
  inv s -> entries l = entries (lruCheckPoints s) -> inv (set_lru l s) /\ quiet s (set_lru l s).
Proof. intros Hi He. apply inv_same; [by destruct s..| | |done]; by destruct s. Qed.

Lemma new_inv s o :
  inv s -> cp_ok (o_cp o) -> let s' := set_objs (objs s ++ [o]) s in
  inv s' /\ quiet s s' /\ (length (objs s) < length (objs s'))%nat /\ length (objs s) ∉ nodes (tree s')
  /\ objs s' !!! length (objs s) = o.
Proof.
  intros Hi Hcp s'. assert (Ho : objs s' = objs s ++ [o]) by by destruct s. assert (Htr : tree s' = tree s) by by destruct s.
  destruct Hi as [Hs Ht]. pose proof Hs as [S1 S0 S2 S3 S4 S5].
  assert (Q : quiet s s').
  { split; [done| |rewrite Ho, length_app; lia]. intros p Hp. rewrite Ho, lookup_total_app_l by by apply S1. done. }
  split; [|split; [done|]].
  - eapply inv_quiet; [split; [exact Hs|exact Ht]|done|]. split.
    + intros p Hp. rewrite Htr in Hp. rewrite Ho, length_app. specialize (S1 p Hp). lia.
    + intros p Hp. rewrite Ho, length_app in Hp. cbn in Hp. unfold get. rewrite Ho.
      destruct (decide (p = length (objs s))) as [->|Hne]; [by rewrite list_lookup_total_middle|].
      rewrite lookup_total_app_l by lia. apply S0. lia.
    + intros k p Hk. replace (lruCheckPoints s') with (lruCheckPoints s) in Hk by by destruct s.
      destruct (S2 k p Hk) as (H1 & H2). rewrite Ho, length_app, Htr. split; [lia|done].
    + by destruct s.
    + by destruct s.
    + by destruct s.
  - rewrite Ho, length_app, Htr. split_and!; [cbn; lia| |].
    + intros Hin. specialize (S1 _ Hin). lia.
    + rewrite list_lookup_total_middle; done.
Qed.

Lemma wp_lookupCheckPoint key s :
  inv s -> wp (lookupCheckPoint key) (fun p s' => inv s' /\ quiet s s' /\ fresh_object s' p)
              (fun s' => inv s' /\ quiet s s') s.
Proof.
  intros Hi. unfold lookupCheckPoint. apply cwp_bind. unfold wp at 1.
  destruct (cache_Get key (lruCheckPoints s)) as [x l] eqn:Hget.
  destruct (entries_Get key (lruCheckPoints s)) as [Hx Hl]. rewrite Hget in Hx, Hl. cbn in Hx, Hl. cbn.
  destruct (set_lru_inv s l Hi Hl) as [Hi1 Q1]. set (s1 := set_lru l s) in *.
  assert (Hl1 : lruCheckPoints s1 = l) by by destruct s.
  destruct x as [p|].
  - apply cwp_ret. split; [done|]. split; [done|]. symmetry in Hx. rewrite <- Hl, <- Hl1 in Hx.
    destruct Hi1 as [Hs1 _]. by apply (s_cached _ Hs1 key p).
  - wp_step. apply cwp_bind, wp_or_fail; [|done]. intros c Hc.
    apply cwp_bind. unfold new, wp. cbn.
    assert (Hcp : cp_ok c) by (destruct Hi1 as [Hs1 _]; by apply (s_db _ Hs1 key)).
    destruct (new_inv s1 (mkObj c None) Hi1 Hcp) as (Hi2 & Q2 & Hlt & Hnin & Hobj).
    set (s2 := set_objs (objs s1 ++ [mkObj c None]) s1) in *. set (p := length (objs s1)) in *.
    cbv zeta. clearbody s2 p. split; [|split].
    + split; [|destruct Hi2 as [_ Ht2]; destruct s2; exact Ht2]. destruct Hi2 as [[S1 S0 S2 S3 S4 S5] _]. split.
      * by destruct s2.
      * by destruct s2.
      * intros k q Hk.
        assert (Hk' : <[key := p]> (entries (lruCheckPoints s2)) !! k = Some q).
        { eapply lookup_weaken; [exact Hk|]. replace (lruCheckPoints (set_lru _ s2)) with
            (cache_Add key p (lruCheckPoints s2)) by by destruct s2. apply entries_Add. }
        replace (objs (set_lru _ s2)) with (objs s2) by by destruct s2.
        replace (tree (set_lru _ s2)) with (tree s2) by by destruct s2.
        apply lookup_insert_Some in Hk' as [[<- <-]|[_ Hk']]; [by split_and!|by apply (S2 k)].
      * by destruct s2.
      * by destruct s2.
      * by destruct s2.
    + eapply quiet_trans; [exact Q1|]. eapply quiet_trans; [exact Q2|]. split; by destruct s2.
    + unfold fresh_object, get in *. by destruct s2.
Qed.

Lemma cp_ok_links c ls : cp_ok (set_SupLinks ls c) <-> cp_ok c.
Proof. done. Qed.

Lemma wp_GetCheckpoint h s :
  inv s -> wp (GetCheckpoint h) (fun p s' => inv s' /\ quiet s s' /\ fresh_object s' p)
              (fun s' => inv s' /\ quiet s s') s.
Proof.
  intros Hi. unfold GetCheckpoint. apply cwp_bind, wp_GetBlockHeader; [done| |split; [done|apply quiet_refl]].
  intros sb _ _. eapply wp_seq; [by apply wp_lookupCheckPoint| |done].
  intros p s1 (Hi1 & Q1 & Hp & Hn). unfold write. wp_step. wp_step.
  destruct (inv_upd_other s1 (fun o => mkObj (set_SupLinks (SupLinks (o_cp o) ++ sb_SupLinks sb) (o_cp o)) (o_Parent o)) p)
    as [Hi2 Q2]; [done..|]. fold (upd (fun o => mkObj (set_SupLinks (SupLinks (o_cp o) ++ sb_SupLinks sb) (o_cp o)) (o_Parent o)) p s1).
  split_and!; [done|by eapply quiet_trans|]. split_and!.
  - by rewrite upd_length.
  - by rewrite (q_tree _ _ Q2).
Qed.

(** Reading the checkpoints of a height changes nothing. *)
Lemma wp_load (l : list Checkpoint) s : inv s -> wp (loadCheckpointsFromIter l) (fun _ s' => s' = s) (fun s' => s' = s) s.
Proof.
  intros Hi. induction l as [|c l IH]; cbn [loadCheckpointsFromIter]; [by apply cwp_ret|].
  apply cwp_bind, wp_GetBlockHeader; [done| |done]. intros sb _ _.
  eapply wp_seq; [exact IH| |done]. intros cs s' ->. by apply cwp_ret.
Qed.

(** *** Verifications *)

Lemma wp_GetCheckpointsByHeight z s :
  inv s -> wp (GetCheckpointsByHeight z) (fun _ s' => s' = s) (fun s' => s' = s) s.
Proof. intros Hi. unfold GetCheckpointsByHeight. wp_step. by apply wp_load. Qed.

(** [q] is the parent of [t] in the tree. *)
Lemma parentValidators_eq s q t :
  inv s -> (q, t) ∈ edges (tree s) -> parentValidators t s = (Ret (vals (get s q)), s).
Proof.
  intros [_ Ht] He. unfold parentValidators, gets, read, mbind, C_bind. unfold parent.
  by rewrite (e_parent _ _ _ (t_edges _ _ Ht _ _ He)).
Qed.

Lemma size_vals c : (size (vals c) <= MaxNumOfValidators)%nat.
Proof.
  rewrite EffectiveValidators_numbered, numbered_size by (apply effective_list_NoDup; [done|apply federation_NoDup]).
  unfold effective_list. case_match; [rewrite length_fmap; apply federation_small|rewrite length_take; lia].
Qed.

Lemma vals_lookup c pk v : vals c !! pk = Some v -> PubKey v = pk /\ (Order v < MaxNumOfValidators)%nat.
Proof.
  intros Hv. destruct (EffectiveValidators_orders net c (federation_NoDup)) as [H _].
  destruct (H _ _ Hv). pose proof (size_vals c). split; [done|lia].
Qed.

(** A verification for the target [t], child of [q], as its constructors make it. *)
Record converted s (q t : nat) (v : verification) : Prop := {
  co_target : v_TargetHash v = cp_Hash (get s t);
  co_height : v_TargetHeight v = Height (get s t);
  co_source : height_of (v_SourceHash v) = Some (v_SourceHeight v);
  co_key : exists val, vals (get s q) !! v_PubKey v = Some val /\ Order val = v_order v;
}.

(** One that has been verified. *)
Record verified s (q t : nat) (v : verification) : Prop := {
  ve_converted : converted s q t v;
  ve_order : (v_order v < MaxNumOfValidators)%nat;
  ve_epoch : Height (get s t) mod epoch = 0;
  ve_lt : v_SourceHeight v < v_TargetHeight v;
  ve_signature : v_Signature v <> [];
  ve_signed : signed_by (vals (get s q)) (v_SourceHash v) (v_TargetHash v) (v_order v) (v_Signature v);
  ve_span : forall p, p ∈ nodes (tree s) -> spans v (get s p) = false;
}.

Lemma wp_verifyVerification s q t v :
  inv s -> converted s q t v ->
  wp (verifyVerification v) (fun _ s' => s' = s /\ verified s q t v) (fun s' => s' = s) s.
Proof.
  intros Hi Hc. destruct (co_key _ _ _ _ Hc) as (val & Hval & Ho). destruct (vals_lookup _ _ _ Hval) as [Hpk Hord].
  unfold verifyVerification, valid, verifySignature. apply cwp_bind.
  destruct (Z.eqb_spec (v_SourceHeight v mod epoch) 0); cbn [negb orb]; [|by apply wp_fail].
  destruct (Z.eqb_spec (v_TargetHeight v mod epoch) 0) as [He|]; cbn [negb]; [|by apply wp_fail].
  rewrite Z.geb_leb. destruct (Z.leb_spec (v_TargetHeight v) (v_SourceHeight v)) as [|Hlt]; [by apply wp_fail|].
  destruct (hex_decode (v_PubKey v)) as [pk|] eqn:Hhex; [|by apply wp_fail].
  destruct (xpub_verify pk (encodeMessage v) (v_Signature v)) eqn:Hver; [|by apply wp_fail]. wp_step.
  unfold verifySameHeight. wp_step. eapply wp_seq; [by apply wp_GetCheckpointsByHeight| |done].
  intros cs s' ->. destruct (existsb _ cs); [by apply wp_fail|]. wp_step.
  unfold verifySpanHeight. wp_step. destruct (findOnlyOne _ _ _) eqn:Hf; [by apply wp_fail|]. wp_step.
  split; [done|]. split; try done.
  - by rewrite <- Ho.
  - by rewrite <- (co_height _ _ _ _ Hc).
  - intros Hs. unfold xpub_verify in Hver. rewrite Hs, verify_empty in Hver; [done|].
    rewrite length_take, length_app, length_replicate. lia.
  - exists val, pk. rewrite Hpk. split_and!; [done|done|done|exact Hver].
  - by apply findOnlyOne_None.
Qed.

Lemma wp_convertVerification s q t src msg (Q : _ -> _ -> Prop) (E : _ -> Prop) :
  inv s -> (q, t) ∈ edges (tree s) -> cp_ok (get s src) ->
  (forall v, converted s q t v -> Q v s) -> E s -> wp (convertVerification src t msg) Q E s.
Proof.
  intros Hi He Hsrc HQ HE. unfold convertVerification. apply cwp_bind. unfold wp at 1.
  rewrite (parentValidators_eq s q t) by done. apply cwp_bind, wp_or_fail; [|done]. intros val Hval.
  do 2 wp_step. wp_step. apply HQ. split; [done|done|exact Hsrc|]. by exists val.
Qed.

Lemma supLinkToVerifications_eq s q t src l :
  inv s -> (q, t) ∈ edges (tree s) -> exists vs, supLinkToVerifications src t l s = (Ret vs, s)
    /\ (cp_ok (get s src) -> Forall (converted s q t) vs)
    /\ Forall (fun v => v_SourceHash v = cp_Hash (get s src)) vs.
Proof.
  intros Hi He. unfold supLinkToVerifications, mbind, C_bind. rewrite (parentValidators_eq s q t) by done.
  eexists. split; [done|]. split; [intros Hsrc|]; apply Forall_forall; intros v Hv;
    apply list_elem_of_omap in Hv as ([pk val] & Hin & Hv); case_match; simplify_eq; [|done].
  rewrite map_range_perm, elem_of_map_to_list in Hin. destruct (vals_lookup _ _ _ Hin) as [Hpk _].
  split; [done|done|exact Hsrc|]. exists val. by rewrite Hpk.
Qed.

(** *** Adding votes *)

(** What adding votes to [t] keeps: the tree may lose nodes, [t] keeps its parent. *)
Record voted (t : nat) s s' : Prop := {
  vt_nodes : forall p, p ∈ nodes (tree s') -> p ∈ nodes (tree s);
  vt_edges : forall e, e ∈ edges (tree s') -> e ∈ edges (tree s);
  vt_parent : forall q, (q, t) ∈ edges (tree s) -> (q, t) ∈ edges (tree s');
  vt_height : forall p, p ∈ nodes (tree s') -> Height (get s' p) = Height (get s p);
  vt_hash : forall p, p ∈ nodes (tree s') -> cp_Hash (get s' p) = cp_Hash (get s p);
  vt_vals : forall p, p ∈ nodes (tree s') -> vals (get s' p) = vals (get s p);
  vt_links : forall p, p ∈ nodes (tree s') -> p <> t -> SupLinks (get s' p) = SupLinks (get s p);
  vt_len : (length (objs s) <= length (objs s'))%nat;
}.

Lemma quiet_voted t s s' : quiet s s' -> voted t s s'.
Proof.
  intros [Tr Ob Len]. split; rewrite ?Tr; try done; intros p Hp; unfold get; by rewrite Ob.
Qed.
Lemma voted_refl t s : voted t s s.
Proof. apply quiet_voted, quiet_refl. Qed.
Lemma voted_trans t s1 s2 s3 : voted t s1 s2 -> voted t s2 s3 -> voted t s1 s3.
Proof.
  intros A B. split.
  - intros p Hp. by apply A, B.
  - intros e He. by apply A, B.
  - intros q Hq. by apply B, A.
  - intros p Hp. rewrite (vt_height _ _ _ B) by done. by apply A, B.
  - intros p Hp. rewrite (vt_hash _ _ _ B) by done. by apply A, B.
  - intros p Hp. rewrite (vt_vals _ _ _ B) by done. by apply A, B.
  - intros p Hp Hne. rewrite (vt_links _ _ _ B) by done. apply A; [by apply B|done].
  - etransitivity; [apply A|apply B].
Qed.

Lemma verified_voted s s' q t v : (q, t) ∈ edges (tree s) -> voted t s s' -> verified s q t v -> verified s' q t v.
Proof.
  intros He V [[] ]. apply (vt_parent _ _ _ V) in He. destruct (edges_nodes _ _ _ He) as [Hq Ht].
  split; try done.
  - split; rewrite ?(vt_hash _ _ _ V), ?(vt_height _ _ _ V), ?(vt_vals _ _ _ V) by done; done.
  - by rewrite (vt_height _ _ _ V).
  - by rewrite (vt_vals _ _ _ V).
  - intros p Hp. destruct (decide (p = t)) as [->|Hne].
    + unfold spans. rewrite (vt_height _ _ _ V) by done. rewrite co_height0, Z.eqb_refl. done.
    + specialize (ve_span0 p (vt_nodes _ _ _ V p Hp)). unfold spans in *.
      by rewrite (vt_height _ _ _ V), (vt_links _ _ _ V).
Qed.

(** An object of the tree is revised. *)
Lemma inv_revise s f t :
  inv s -> t ∈ nodes (tree s) -> revised (f (objs s !!! t)) (objs s !!! t) ->
  tinv (fun p => objs (upd f t s) !!! p) (tree s) -> inv (upd f t s) /\ voted t s (upd f t s).
Proof.
  intros [[S1 S0 S2 S3 S4 S5] _] Ht Hr Hti. assert (Htr : tree (upd f t s) = tree s) by by destruct s.
  assert (Hl : (t < length (objs s))%nat) by by apply S1.
  assert (Hrev : forall p, revised (objs (upd f t s) !!! p) (objs s !!! p)).
  { intros p. destruct (decide (t = p)) as [<-|Hne]; [by rewrite upd_eq|rewrite upd_ne by done; apply revised_refl]. }
  split.
  - split; [|by rewrite Htr]. split.
    + rewrite Htr, upd_length. done.
    + intros p. rewrite upd_length. intros Hp. unfold get, cp_ok. rewrite (r_hash _ _ (Hrev p)), (r_height _ _ (Hrev p)).
      by apply S0.
    + intros k p Hk. rewrite Htr, upd_length. apply (S2 k). by destruct s.
    + by destruct s.
    + by destruct s.
    + by destruct s.
  - split; rewrite ?Htr, ?upd_length; try done; intros p Hp; unfold get.
    + apply Hrev.
    + apply Hrev.
    + apply revised_vals, Hrev.
    + intros Hne. by rewrite upd_ne.
Qed.

(** The checkpoint with a verified vote. *)
Lemma AddVerification_node s q t v :
  inv s -> (q, t) ∈ edges (tree s) -> verified s q t v ->
  exists c l, AddVerification (v_SourceHash v) (v_SourceHeight v) (v_order v) (v_Signature v) (get s t) = Some (c, l)
    /\ l ∈ SupLinks c
    /\ inv (upd (fun o => mkObj c (o_Parent o)) t s) /\ voted t s (upd (fun o => mkObj c (o_Parent o)) t s).
Proof.
  intros Hi He V. pose proof Hi as [Hs Ht]. destruct (edges_nodes _ _ _ He) as [_ Hn].
  assert (Nt : node_ok (get s t)) by exact (t_nodes _ _ Ht t Hn). pose proof (t_edges _ _ Ht _ _ He) as Et.
  destruct (AddSupLink_spec (v_SourceHeight v) (v_SourceHash v) (v_Signature v) (v_order v) (SupLinks (get s t))
              (n_full _ Nt) (n_sources _ Nt) (ve_order _ _ _ _ V))
    as (ls & l & Hadd & Hfull & Hnd & Hlh & Hl & _).
  unfold AddVerification. rewrite Hadd. cbn [mbind option_bind].
  exists (set_SupLinks ls (get s t)), l. split; [done|]. split; [done|].
  set (f := fun o => mkObj (set_SupLinks ls (get s t)) (o_Parent o)).
  destruct (AddSupLink_elem _ _ _ _ _ _ _ Hadd) as (l0 & Hset & Hl0h & Hl0 & _ & Hels & Hels').
  apply set_signature_inv in Hset as [Hord ->]. cbn [SourceHeight SourceHash Signatures] in *.
  set (l := mkSup (SourceHeight l0) (SourceHash l0) (<[v_order v := v_Signature v]> (Signatures l0))) in *.
  pose proof (ve_converted _ _ _ _ V) as Co.
  assert (Hlheight : SourceHeight l = v_SourceHeight v).
  { cbn. destruct Hl0 as [Hin| ->]; [|done]. destruct (n_links _ Nt _ Hin) as [Hh _].
    rewrite Hl0h, (co_source _ _ _ _ Co) in Hh. by simplify_eq. }
  assert (Hends : Status (get s t) <> Growing).
  { rewrite (n_growing _ Nt), (ve_epoch _ _ _ _ V). lia. }
  assert (Hsig : forall o, signed o l = true -> o = v_order v \/ signed o l0 = true).
  { intros o. rewrite !signed_spec. cbn. destruct (decide (o = v_order v)) as [->|Hne]; [by left|right].
    by rewrite list_lookup_total_insert_ne in H. }
  assert (Hold : forall o, signed o l0 = true -> l0 ∈ SupLinks (get s t)).
  { intros o Ho. destruct Hl0 as [?| ->]; [done|]. by rewrite no_signature_new in Ho. }
  apply inv_revise; [done|done|split; auto|].
  assert (Hft : o_cp (objs (upd f t s) !!! t) = set_SupLinks ls (get s t)) by (rewrite upd_eq by (by apply (s_len _ Hs)); done).
  eapply tinv_revise with (x := t); [exact Ht|done| | | | |].
  - intros p _ Hne. apply upd_ne. congruence.
  - rewrite upd_eq by (by apply (s_len _ Hs)). by split; auto.
  - rewrite Hft. destruct Nt. split; cbn; try done.
    intros x [->|Hx]%Hels; [|by apply n_links]. rewrite Hlheight. cbn [SourceHash l]. rewrite Hl0h.
    split; [apply Co|]. rewrite <- (co_height _ _ _ _ Co). apply V.
  - assert (Hsp : forall p l' o, p ∈ nodes (tree s) -> l' ∈ SupLinks (get s p) -> signed o l' = true -> o = v_order v ->
        (Height (get s p) < Height (get s t) -> SourceHeight l' <= v_SourceHeight v)
        /\ (Height (get s t) < Height (get s p) -> v_SourceHeight v <= SourceHeight l')).
    { intros p l' o Hp Hl' Ho ->. pose proof (ve_span _ _ _ _ V p Hp) as Hspan. unfold spans in Hspan.
      rewrite (co_height _ _ _ _ Co) in Hspan.
      destruct (Z.eqb_spec (Height (get s p)) (Height (get s t))) as [|Hne]; [lia|].
      assert (Hx : existsb (fun l => signed (v_order v) l &&
        ((Height (get s p) <? Height (get s t)) && (SourceHeight l >? v_SourceHeight v)
         || (Height (get s p) >? Height (get s t)) && (SourceHeight l <? v_SourceHeight v))) (SupLinks (get s p)) <> true) by congruence.
      rewrite existsb_exists in Hx. split; intros Hlt.
      - destruct (Z.le_gt_cases (SourceHeight l') (v_SourceHeight v)) as [|Hgt]; [done|]. destruct Hx.
        exists l'. split; [by apply list_elem_of_In|]. rewrite Ho. cbn. apply orb_true_iff. left. lia.
      - destruct (Z.le_gt_cases (v_SourceHeight v) (SourceHeight l')) as [|Hgt]; [done|]. destruct Hx.
        exists l'. split; [by apply list_elem_of_In|]. rewrite Ho. cbn. apply orb_true_iff. right. lia. }
    assert (Hheight : forall p, Height (o_cp (objs (upd f t s) !!! p)) = Height (get s p)).
    { intros p. destruct (decide (t = p)) as [<-|Hne]; [by rewrite Hft|by rewrite upd_ne]. }
    assert (Hlinks : forall p x o, p ∈ nodes (tree s) -> x ∈ SupLinks (o_cp (objs (upd f t s) !!! p)) -> signed o x = true ->
        (exists y, y ∈ SupLinks (get s p) /\ signed o y = true /\ SourceHeight y = SourceHeight x)
        \/ (p = t /\ o = v_order v /\ SourceHeight x = v_SourceHeight v)).
    { intros p x o Hp Hx Ho. destruct (decide (t = p)) as [<-|Hne]; [|rewrite upd_ne in Hx by done; left; eauto].
      rewrite Hft in Hx. cbn in Hx. apply Hels in Hx as [->|Hx]; [|left; eauto].
      destruct (Hsig _ Ho) as [->|Ho']; [right; by split_and!|]. left. exists l0. split; [by eapply Hold|]. done. }
    intros p p' l1 l2 o Hp Hp' Hl1 Hl2 Ho1 Ho2. rewrite !Hheight. intros Hlt.
    destruct (Hlinks p l1 o Hp Hl1 Ho1) as [(y1 & Hy1 & Hs1 & <-)|(Hpt & Ho & ->)],
             (Hlinks p' l2 o Hp' Hl2 Ho2) as [(y2 & Hy2 & Hs2 & <-)|(Hpt' & Ho' & ->)].
    + by apply (t_surround _ _ Ht p p' y1 y2 o).
    + rewrite Hpt' in Hlt. by apply (Hsp p y1 o).
    + rewrite Hpt in Hlt. by apply (Hsp p' y2 o).
    + rewrite Hpt, Hpt' in Hlt. lia.
  - intros q' He'. pose proof (t_edges _ _ Ht _ _ He') as Et'.
    assert (q' = q) as ->.
    { pose proof (e_parent _ _ _ Et') as H1. pose proof (e_parent _ _ _ Et) as H2. cbn in H1, H2. congruence. }
    rewrite Hft. cbn [SupLinks Status set_SupLinks]. split.
    + intros x o [->|Hx]%Hels Ho; [|by apply Et].
      destruct (Hsig o Ho) as [->|Ho'].
      * cbn. rewrite list_lookup_total_insert_eq by done. rewrite Hl0h.
        change (o_cp (objs s !!! t)) with (get s t). rewrite <- (co_target _ _ _ _ Co). apply V.
      * destruct (decide (o = v_order v)) as [->|Hne].
        -- cbn. rewrite list_lookup_total_insert_eq by done. rewrite Hl0h.
           change (o_cp (objs s !!! t)) with (get s t). rewrite <- (co_target _ _ _ _ Co). apply V.
        -- cbn. rewrite list_lookup_total_insert_ne by done. apply Et; [by eapply Hold|done].
    + intros Hj. destruct (e_majority _ _ _ Et Hj) as (x & Hx & Hmaj).
      destruct (Hels' x Hx) as [->|Hx']; [|eauto]. exists l. split; [done|].
      eapply IsMajority_mono; [|exact Hmaj]. cbn. apply signature_count_insert, V.
Qed.

(** The tree is cut at a node that has a justified child. *)
Definition finalize (n : treeNode nat) s : Casper L :=
  set_tree n (upd (fun o => mkObj (o_cp o) None) (tn_cp n)
    (upd (fun o => mkObj (set_Status Finalized (o_cp o)) (o_Parent o)) (tn_cp n) s)).

Lemma finalize_obj n s p :
  (tn_cp n < length (objs s))%nat ->
  objs (finalize n s) !!! p
  = if decide (p = tn_cp n) then mkObj (set_Status Finalized (get s (tn_cp n))) None else objs s !!! p.
Proof.
  intros Hl. unfold finalize. rewrite objs_set_tree.
  case_decide as Hp; [subst p|by rewrite !upd_ne by congruence].
  rewrite !upd_eq; [done|done|by rewrite upd_length].
Qed.

Lemma finalize_inv n s q t :
  inv s -> subtree n (tree s) -> (q, t) ∈ edges (tree s) -> tn_cp n = q -> Status (get s t) = Justified ->
  inv (finalize n s) /\ voted t s (finalize n s).
Proof.
  intros [[S1 S0 S2 S3 S4 S5] Ht] Hsub He <- Hj. set (x := tn_cp n) in *.
  assert (Hx : (x < length (objs s))%nat) by (apply S1; by destruct (edges_nodes _ _ _ He)).
  pose proof (finalize_obj n s) as Hobj. fold x in Hobj.
  assert (Hlen : length (objs (finalize n s)) = length (objs s)).
  { unfold finalize. by destruct s; cbn; rewrite !length_alter. }
  assert (Htr : tree (finalize n s) = n) by (unfold finalize; by destruct s).
  assert (Hen : (x, t) ∈ edges n) by (apply (sub_children _ _ Hsub); [apply (t_nodup _ _ Ht)|done]).
  assert (Hng : Status (get s x) <> Growing) by exact (e_ended _ _ _ (t_edges _ _ Ht _ _ He)).
  assert (Hcp : forall p, Height (get (finalize n s) p) = Height (get s p)
            /\ cp_Hash (get (finalize n s) p) = cp_Hash (get s p)
            /\ vals (get (finalize n s) p) = vals (get s p)
            /\ SupLinks (get (finalize n s) p) = SupLinks (get s p)).
  { intros p. unfold get at 1 3 5 7. rewrite Hobj by done. case_decide as Hp; [subst p|done]. split_and!; try done.
    apply vals_ext; [done|]. cbn. by split. }
  split.
  - split; [split|].
    + rewrite Htr, Hlen. intros p Hp. by apply S1, Hsub.
    + intros p. rewrite Hlen. intros Hp. destruct (Hcp p) as (Hh & Hc & _). unfold cp_ok. rewrite Hh, Hc. by apply S0.
    + intros k p Hk. rewrite Htr, Hlen. destruct (S2 k p) as [H1 H2]; [unfold finalize in Hk; by destruct s|].
      split; [done|]. intros Hin. by apply H2, Hsub.
    + unfold finalize. by destruct s.
    + unfold finalize. by destruct s.
    + unfold finalize. by destruct s.
    + rewrite Htr. eapply tinv_reroot; [exact Ht|done| | |].
      * intros p Hp Hne. rewrite Hobj by done. by rewrite decide_False.
      * rewrite Hobj by done. fold x. by rewrite decide_True.
      * exists t. done.
  - split; rewrite ?Htr, ?Hlen; try done; try (intros p _; apply Hcp).
    + apply Hsub.
    + apply Hsub.
    + intros q' He'. pose proof (e_parent _ _ _ (t_edges _ _ Ht _ _ He')) as H1.
      pose proof (e_parent _ _ _ (t_edges _ _ Ht _ _ He)) as H2. cbn in H1, H2. congruence.
    + intros p _ _. apply Hcp.
Qed.

Lemma wp_setFinalized s source q t :
  inv s -> fresh_object s source -> (q, t) ∈ edges (tree s) -> Status (get s t) = Justified ->
  ParentHash (get s t) = cp_Hash (get s source) ->
  wp (setFinalized source) (fun _ s' => inv s' /\ voted t s s') (fun _ => False) s.
Proof.
  intros Hi [Hsl Hsn] He Hj Hph. unfold setFinalized, write. wp_step.
  fold (upd (fun o => mkObj (set_Status Finalized (o_cp o)) (o_Parent o)) source s).
  destruct (inv_upd_other s (fun o => mkObj (set_Status Finalized (o_cp o)) (o_Parent o)) source Hi Hsn ltac:(done)) as [Hi1 Q1].
  assert (Hsource : cp_Hash (get (upd (fun o => mkObj (set_Status Finalized (o_cp o)) (o_Parent o)) source s) source)
            = cp_Hash (get s source)) by (unfold get; by rewrite upd_eq).
  set (s1 := upd _ source s) in *. do 2 wp_step. unfold nodeByHash_.
  assert (Ht1 : get s1 t = get s t) by (unfold get; rewrite (q_objs _ _ Q1); [done|by eapply edges_nodes]).
  rewrite <- (q_tree _ _ Q1) in He.
  destruct (nodeByHash _ _ _) as [n|] eqn:Hn; [|wp_step; split; [done|by apply quiet_voted]].
  apply nodeByHash_Some in Hn as [Hh Hsub]. unfold write, set_Parent. wp_step. wp_step.
  unfold wp, modify. fold (upd (fun o => mkObj (set_Status Finalized (o_cp o)) (o_Parent o)) (tn_cp n) s1).
  fold (upd (fun o => mkObj (o_cp o) None) (tn_cp n) (upd (fun o => mkObj (set_Status Finalized (o_cp o)) (o_Parent o)) (tn_cp n) s1)).
  change (inv (finalize n s1) /\ voted t s (finalize n s1)).
  destruct (finalize_inv n s1 q t) as [Hi2 V2]; [done|done|done| |by rewrite Ht1|].
  - destruct Hi1 as [_ Hti]. destruct (edges_nodes _ _ _ He) as [Hq _].
    apply (t_hashes _ _ Hti); [apply (sub_nodes _ _ Hsub), tn_cp_nodes|done|].
    change (cp_Hash (get s1 (tn_cp n)) = cp_Hash (get s1 q)).
    pose proof (e_hash _ _ _ (t_edges _ _ Hti _ _ He)) as Heh. cbn in Heh.
    change (ParentHash (get s1 t) = cp_Hash (get s1 q)) in Heh. rewrite Hh, Hsource, <- Heh, Ht1. done.
  - split; [done|]. eapply voted_trans; [by apply quiet_voted|exact V2].
Qed.

Lemma wp_setJustified s source q t l :
  inv s -> fresh_object s source -> (q, t) ∈ edges (tree s) -> Status (get s t) = Unjustified ->
  l ∈ SupLinks (get s t) -> IsMajority (Z.of_nat (size (vals (get s q)))) l = true ->
  wp (setJustified source t) (fun _ s' => inv s' /\ voted t s s') (fun _ => False) s.
Proof.
  intros Hi [Hsl Hsn] He Hu Hl Hm. pose proof Hi as [Hs Ht]. destruct (edges_nodes _ _ _ He) as [_ Hn].
  unfold setJustified, write. wp_step. set (f := fun o => mkObj (set_Status Justified (o_cp o)) (o_Parent o)).
  fold (upd f t s). assert (Hft : objs (upd f t s) !!! t = f (objs s !!! t)) by (apply upd_eq, (s_len _ Hs _ Hn)).
  assert (Hrev : revised (f (objs s !!! t)) (objs s !!! t)) by (split; auto).
  destruct (inv_revise s f t Hi Hn Hrev) as [Hi1 V1].
  { eapply tinv_revise with (x := t); [exact Ht|done| | | | |].
    - intros p _ Hne. apply upd_ne. congruence.
    - by rewrite Hft.
    - rewrite Hft. destruct (t_nodes _ _ Ht t Hn). split; cbn; try done.
      rewrite <- n_growing. change (o_cp (objs s !!! t)) with (get s t). by rewrite Hu.
    - intros p p' l1 l2 o Hp Hp'.
      assert (Hsame : forall x, SupLinks (o_cp (objs (upd f t s) !!! x)) = SupLinks (get s x)
                 /\ Height (o_cp (objs (upd f t s) !!! x)) = Height (get s x)).
      { intros x. destruct (decide (t = x)) as [<-|Hne]; [by rewrite Hft|by rewrite upd_ne]. }
      destruct (Hsame p) as [-> ->], (Hsame p') as [-> ->]. by apply (t_surround _ _ Ht).
    - intros q' He'. pose proof (e_parent _ _ _ (t_edges _ _ Ht _ _ He')) as H1.
      pose proof (e_parent _ _ _ (t_edges _ _ Ht _ _ He)) as H2. cbn in H1, H2.
      assert (q' = q) as -> by congruence. rewrite Hft. split; [intros x o Hx; by apply (t_edges _ _ Ht _ _ He)|].
      intros _. by exists l. }
  do 2 wp_step. assert (Htr : tree (upd f t s) = tree s) by by destruct s.
  assert (Hgt : get (upd f t s) t = set_Status Justified (get s t)) by (unfold get; by rewrite Hft).
  case_bool_decide as Hp; [|wp_step; by split].
  eapply cwp_mono; [eapply (wp_setFinalized _ source q t); [done| |by rewrite Htr|by rewrite Hgt|done]| |done].
  - split; [by rewrite upd_length|by rewrite Htr].
  - intros _ s' [Hi2 V2]. split; [done|by eapply voted_trans].
Qed.

(** The sources that addVerification reports are objects. *)
Definition objects s (ps : list nat) : Prop := forall p, p ∈ ps -> (p < length (objs s))%nat.
Lemma objects_mono s s' ps : (length (objs s) <= length (objs s'))%nat -> objects s ps -> objects s' ps.
Proof. intros Hl Ho p Hp. specialize (Ho p Hp). lia. Qed.

Lemma wp_addVerification s q t v n :
  inv s -> (q, t) ∈ edges (tree s) -> verified s q t v -> n = Z.of_nat (size (vals (get s q))) ->
  wp (addVerification n t v) (fun a s' => inv s' /\ voted t s s' /\ objects s' a) (fun s' => inv s' /\ voted t s s') s.
Proof.
  intros Hi He V ->. unfold addVerification.
  eapply wp_seq; [by apply wp_GetCheckpoint| |intros s' [? ?]; split; [done|by apply quiet_voted]].
  intros source s1 (Hi1 & Q1 & Hfresh). cbn beta in *. pose proof (quiet_voted t _ _ Q1) as V1.
  assert (He1 : (q, t) ∈ edges (tree s1)) by by apply V1. pose proof (verified_voted _ _ _ _ _ He V1 V) as Ve1.
  wp_step. destruct (AddVerification_node s1 q t v Hi1 He1 Ve1) as (c & l & Hadd & Hl & Hi2 & V2).
  apply cwp_bind. eapply wp_or_panic; [exact Hadd|]. cbn beta iota. unfold write. wp_step.
  fold (upd (fun o => mkObj c (o_Parent o)) t s1).
  set (s2 := upd _ t s1) in *. pose proof (voted_trans _ _ _ _ V1 V2) as V12. wp_step.
  assert (Htr : tree s2 = tree s1) by by (unfold s2; destruct s1).
  assert (Hgt : get s2 t = c).
  { unfold get, s2. rewrite upd_eq; [done|]. destruct Hi1 as [Hs1 _]. apply (s_len _ Hs1). by eapply edges_nodes. }
  destruct (negb _ || negb _ || _) eqn:Hguard.
  - wp_step. split_and!; [done|done|]. intros p Hp. by apply not_elem_of_nil in Hp.
  - apply orb_false_iff in Hguard as [Hguard _]. apply orb_false_iff in Hguard as [Hu Hm].
    apply negb_false_iff, bool_decide_eq_true in Hu. apply negb_false_iff in Hm.
    assert (Hfresh2 : fresh_object s2 source).
    { destruct Hfresh. split; [unfold s2; by rewrite upd_length|by rewrite Htr]. }
    eapply wp_seq; [eapply (wp_setJustified s2 source q t l)| |done]; [done|done|by rewrite Htr|by rewrite Hgt|by rewrite Hgt| |].
    + rewrite (vt_vals _ _ _ V12); [done|]. rewrite Htr. by eapply edge_src.
    + intros _ s3 [Hi3 V3]. wp_step. split_and!; [done|by eapply voted_trans|].
      intros p ->%list_elem_of_singleton. destruct Hfresh2. pose proof (vt_len _ _ _ V3). lia.
Qed.

Lemma wp_addVerifications s q t vs n :
  inv s -> (q, t) ∈ edges (tree s) -> Forall (verified s q t) vs -> n = Z.of_nat (size (vals (get s q))) ->
  wp (addVerifications n t vs) (fun a s' => inv s' /\ voted t s s' /\ objects s' a) (fun s' => inv s' /\ voted t s s') s.
Proof.
  intros Hi He Hvs Hn. revert s Hi He Hvs Hn. induction vs as [|v vs IH]; intros s Hi He Hvs Hn; cbn [addVerifications].
  - wp_step. split_and!; [done|apply voted_refl|]. intros p Hp. by apply not_elem_of_nil in Hp.
  - apply Forall_cons in Hvs as [Hv Hvs]. eapply wp_seq; [by apply (wp_addVerification s q t)| |done].
    intros a s1 (Hi1 & V1 & Ha). pose proof (vt_parent _ _ _ V1 _ He) as He1.
    eapply wp_seq; [apply IH; [done|done| |]| |].
    + eapply Forall_impl; [exact Hvs|]. intros v' Hv'. by eapply (verified_voted s).
    + rewrite (vt_vals _ _ _ V1); [done|by eapply edge_src].
    + intros b s2 (Hi2 & V2 & Hb). wp_step. split; [done|]. split; [by eapply voted_trans|].
      intros p [Hp|Hp]%elem_of_app; [|by apply Hb]. eapply objects_mono; [apply V2|exact Ha|done].
    + intros s2 (Hi2 & V2). split; [done|by eapply voted_trans].
Qed.

Lemma wp_addVerificationToCheckpoint s q t vs :
  inv s -> (q, t) ∈ edges (tree s) -> Forall (verified s q t) vs ->
  wp (addVerificationToCheckpoint t vs) (fun a s' => inv s' /\ voted t s s' /\ objects s' a)
     (fun s' => inv s' /\ voted t s s') s.
Proof.
  intros Hi He Hvs. unfold addVerificationToCheckpoint. apply cwp_bind. unfold wp at 1.
  rewrite (parentValidators_eq s q t) by done. eapply wp_seq; [by apply (wp_addVerifications s q t)| |done].
  intros a s1 (Hi1 & V1 & Ha). wp_step. split; [done|]. split; [done|].
  intros p [->|Hp]%elem_of_cons; [|by apply Ha]. destruct Hi1 as [Hs1 _]. apply (s_len _ Hs1).
  eapply edge_dst. by eapply (vt_parent _ _ _ V1).
Qed.

(** *** Saving *)

(** Objects and tree are untouched. *)
Definition stored_only s s' : Prop := inv s' /\ objs s' = objs s /\ tree s' = tree s.
Lemma stored_quiet s s' : stored_only s s' -> inv s' /\ quiet s s'.
Proof. intros (Hi & Ho & Htr). split; [done|]. split; rewrite ?Ho; auto with lia. Qed.
Lemma stored_trans s1 s2 s3 : stored_only s1 s2 -> stored_only s2 s3 -> stored_only s1 s3.
Proof. intros (_ & Ho & Ht) (Hi & Ho' & Ht'). split_and!; congruence. Qed.

Lemma stored_inv s s' :
  inv s -> objs s' = objs s -> tree s' = tree s ->
  (forall k c, db_checkpoints s' !! k = Some c -> cp_ok c) ->
  (forall k p, entries (lruCheckPoints s') !! k = Some p -> entries (lruCheckPoints s) !! k = Some p) ->
  (forall h sb, db_blocks s' !! h = Some sb -> world h = Some (sb_block sb) /\ Forall full (sb_SupLinks sb)) ->
  (forall k m, entries (verificationCache s') !! k = Some m -> k = verificationCacheKey (m_TargetHash m) (m_PubKey m)) ->
  stored_only s s'.
Proof.
  intros [[S1 S0 S2 S3 S4 S5] Ht] Ho Htr Hd Hl Hb Hv. split; [|done]. split; [split|].
  - by rewrite Ho, Htr.
  - unfold get. by rewrite Ho.
  - intros k p Hk. rewrite Ho, Htr. by apply (S2 k), Hl.
  - exact Hd.
  - exact Hb.
  - exact Hv.
  - by rewrite Ho, Htr.
Qed.

Lemma wp_SaveCheckpoints ps s :
  inv s -> objects s ps -> wp (SaveCheckpoints ps) (fun _ => stored_only s) (fun _ => False) s.
Proof.
  intros Hi Hps. unfold SaveCheckpoints.
  assert (Hgen : forall f, (forall p x, p ∈ ps -> stored_only s x -> wp (f p) (fun _ => stored_only s) (stored_only s) x
                   /\ (f p x).1 = Ret tt) -> forall x, stored_only s x ->
            wp (mapM_ f ps) (fun _ => stored_only s) (fun _ => False) x).
  { clear Hps. intros f. induction ps as [|p l IH]; intros Hf x Hx; cbn [mapM_]; [by apply cwp_ret|].
    destruct (Hf p x ltac:(left) Hx) as [Hw Hr]. apply cwp_bind. unfold wp in *.
    destruct (f p x) as [[[]|e| | |] x'] eqn:Hfp; cbn in Hr; try done. apply IH; [|done]. intros p' y Hp'. apply Hf. by right. }
  eapply wp_seq; [eapply Hgen; [|by split]| |done].
  - intros p x Hp Hx. split; [|done]. do 2 wp_step. eapply stored_trans; [exact Hx|]. destruct Hx as (Hix & Ho & Htr).
    assert (Hcp : cp_ok (get x p)) by (destruct Hix as [Hsx _]; apply (s_objs _ Hsx); rewrite Ho; by apply Hps).
    destruct Hix as [Hsx Htx]. apply stored_inv; [by split|by destruct x|by destruct x| |by destruct x|(by destruct x as []; apply Hsx)..].
    intros k c. replace (db_checkpoints (set_checkpoints _ x)) with
      (<[calcCheckpointKey (Height (get x p)) (Some (cp_Hash (get x p))) := set_SupLinks [] (get x p)]> (db_checkpoints x))
      by by destruct x.
    intros [[_ <-]|[_ Hk]]%lookup_insert_Some; [done|by apply (s_db _ Hsx k)].
  - intros [] y Hy. cbn beta in Hy. eapply Hgen; [|exact Hy]. intros p x Hp Hx. split; [|done].
    do 2 wp_step. eapply stored_trans; [exact Hx|]. destruct Hx as (Hix & Ho & Htr). pose proof Hix as [Hsx Htx].
    apply stored_inv; [done|by destruct x|by destruct x|by destruct x as []; apply Hsx| |(by destruct x as []; apply Hsx)..].
    intros k c. replace (lruCheckPoints (set_lru _ x)) with
      (cache_Remove (calcCheckpointKey (Height (get x p)) (Some (cp_Hash (get x p)))) (lruCheckPoints x)) by by destruct x.
    rewrite entries_Remove. by intros [_ ?]%lookup_delete_Some.
Qed.

Lemma same_stored s s' :
  inv s -> objs s' = objs s -> tree s' = tree s -> db_blocks s' = db_blocks s -> db_checkpoints s' = db_checkpoints s ->
  lruCheckPoints s' = lruCheckPoints s -> verificationCache s' = verificationCache s -> stored_only s s'.
Proof.
  intros Hi Ho Ht Hb Hd Hl Hv. pose proof Hi as [Hs _].
  apply stored_inv; [done..|rewrite Hd|by rewrite Hl|rewrite Hb|rewrite Hv]; apply Hs.
Qed.
Lemma stored_refl s : inv s -> stored_only s s.
Proof. intros Hi. by split. Qed.

Lemma prevCache_stored s c : inv s -> stored_only s (set_prevCache c s).
Proof. intros Hi. apply same_stored; [done|by destruct s..]. Qed.
Lemma verCache_stored s c :
  inv s -> (forall k m, entries c !! k = Some m -> k = verificationCacheKey (m_TargetHash m) (m_PubKey m)) ->
  stored_only s (set_verCache c s).
Proof.
  intros Hi Hc. pose proof Hi as [Hs _].
  apply stored_inv; [done|by destruct s..|by destruct s as []; apply Hs|by destruct s|by destruct s as []; apply Hs|by destruct s].
Qed.

Lemma wp_Post msg s : inv s -> wp (Post msg) (fun _ => stored_only s) (stored_only s) s.
Proof.
  intros Hi. unfold Post. wp_step. destruct (mux_stopped s); [wp_step; by apply stored_refl|].
  wp_step. apply same_stored; [done|by destruct s..].
Qed.

Lemma SaveBlock_inv b ls s :
  inv s -> world (blk_Hash b) = Some b -> Forall full ls -> wp (SaveBlock b ls) (fun _ => stored_only s) (fun _ => False) s.
Proof.
  intros Hi Hw Hf. unfold SaveBlock. wp_step. pose proof Hi as [Hs _].
  apply stored_inv; [done|by destruct s..|by destruct s as []; apply Hs|by destruct s| |by destruct s as []; apply Hs].
  intros h sb. replace (db_blocks (set_blocks _ s)) with (<[blk_Hash b := mkStored b ls]> (db_blocks s)) by by destruct s.
  intros [[<- <-]|[_ Hh]]%lookup_insert_Some; [done|by apply (s_blocks _ Hs)].
Qed.

Lemma AddSupLink_total height hash sig order ls :
  Forall full ls -> (order < MaxNumOfValidators)%nat ->
  exists ls' l, AddSupLink height hash sig order ls = Some (ls', l) /\ Forall full ls'.
Proof.
  intros Hf Ho.
  assert (Hset : forall l, full l -> exists l', set_signature order sig l = Some l' /\ full l').
  { intros l Hl. rewrite set_signature_Some by done. eexists. split; [done|]. unfold full in *. cbn. by rewrite length_insert. }
  induction ls as [|l ls IH]; cbn [AddSupLink].
  - destruct (Hset (NewSupLink height hash) eq_refl) as (l' & -> & Hl'). cbn. exists [l'], l'. split; [done|by constructor].
  - apply Forall_cons in Hf as [Hl Hf]. case_bool_decide.
    + destruct (Hset l Hl) as (l' & -> & Hl'). cbn. eexists _, _. split; [done|by constructor].
    + destruct (IH Hf) as (ls' & l' & -> & Hls'). cbn. eexists _, _. split; [done|by constructor].
Qed.

Lemma wp_saveVerificationToHeader v s :
  inv s -> (v_order v < MaxNumOfValidators)%nat ->
  wp (saveVerificationToHeader v) (fun _ => stored_only s) (stored_only s) s.
Proof.
  intros Hi Ho. unfold saveVerificationToHeader. apply cwp_bind, wp_GetBlockHeader; [done| |by apply stored_refl].
  intros sb Hw Hf. destruct (AddSupLink_total (v_SourceHeight v) (v_SourceHash v) (v_Signature v) (v_order v) _ Hf Ho)
    as (ls & l & Hadd & Hls). apply cwp_bind. eapply wp_or_panic; [exact Hadd|]. cbn beta iota.
  eapply cwp_mono; [apply SaveBlock_inv|..]; [done| |done|done|done].
  by rewrite (world_hash _ _ Hw).
Qed.

(** *** AuthVerification *)

(** What every operation guarantees: the last finalized checkpoint only moves to a descendant. *)
Definition safe s s' : Prop := inv s' /\ ancestor (LastFinalized s).2 (LastFinalized s').2.

Lemma voted_safe t s s' : inv s -> inv s' -> voted t s s' -> safe s s'.
Proof.
  intros [_ Ht] Hi V. split; [done|]. pose proof (tn_cp_nodes (tree s')) as Hr.
  unfold LastFinalized. cbn. rewrite (vt_hash _ _ _ V) by done. by apply (root_ancestor _ _ _ Ht), V.
Qed.
Lemma quiet_safe s s' : inv s -> inv s' -> quiet s s' -> safe s s'.
Proof. intros Hi Hi' Q. eapply (voted_safe 0%nat); [done..|by apply quiet_voted]. Qed.
Lemma stored_safe s s' : inv s -> stored_only s s' -> safe s s'.
Proof. intros Hi [Hi' Q]%stored_quiet. by apply quiet_safe. Qed.
Lemma safe_refl s : inv s -> safe s s.
Proof. intros Hi. apply quiet_safe; [done..|apply quiet_refl]. Qed.
Lemma safe_trans s1 s2 s3 : safe s1 s2 -> safe s2 s3 -> safe s1 s3.
Proof. intros [_ H1] [Hi H2]. split; [done|]. by eapply ancestor_trans. Qed.

Lemma stored_voted t s1 s2 s3 : voted t s1 s2 -> stored_only s2 s3 -> inv s3 /\ voted t s1 s3.
Proof. intros V [Hi Q]%stored_quiet. split; [done|]. eapply voted_trans; [exact V|by apply quiet_voted]. Qed.

Lemma wp_authVerification s q t v :
  inv s -> (q, t) ∈ edges (tree s) -> converted s q t v ->
  wp (authVerification v t) (fun _ s' => inv s' /\ voted t s s') (fun s' => inv s' /\ voted t s s') s.
Proof.
  intros Hi He Hc. unfold authVerification.
  eapply wp_seq; [by apply (wp_verifyVerification s q t)| |intros ? ->; split; [done|apply voted_refl]].
  intros [] s0 [-> V]. eapply wp_seq; [apply (wp_addVerificationToCheckpoint s q t)| |done]; [done|done|by constructor|].
  intros a s1 (Hi1 & V1 & Ha). eapply wp_seq; [by apply wp_Post| |intros s2 S2; by eapply stored_voted].
  intros [] s2 S2. pose proof S2 as (Hi2 & Ho2 & _).
  eapply wp_seq; [apply wp_SaveCheckpoints; [done|by (unfold objects; rewrite Ho2)]| |done].
  intros [] s3 S3. pose proof (stored_trans _ _ _ S2 S3) as S13. destruct S3 as (Hi3 & _).
  eapply cwp_mono; [apply wp_saveVerificationToHeader; [done|apply V]|..].
  - intros ? s4 S4. eapply stored_voted; [exact V1|by eapply stored_trans].
  - intros s4 S4. eapply stored_voted; [exact V1|by eapply stored_trans].
Qed.

Lemma nodeByHash_edge s h n :
  nodeByHash_ h s = Some n -> tn_cp n <> tn_cp (tree s) ->
  tn_cp n ∈ nodes (tree s) /\ cp_Hash (get s (tn_cp n)) = h /\ exists q, (q, tn_cp n) ∈ edges (tree s).
Proof.
  intros [Hh Hs]%nodeByHash_Some Hr. pose proof (sub_nodes _ _ Hs _ (tn_cp_nodes n)) as Hn. split_and!; [done|done|].
  by destruct (node_edge _ _ Hn).
Qed.

(** The message targets a checkpoint other than the root, if any. *)
Definition not_root_target s (h : Hash) : Prop := h <> (LastFinalized s).2.

Lemma not_root_node s h n : not_root_target s h -> nodeByHash_ h s = Some n -> tn_cp n <> tn_cp (tree s).
Proof. intros Hh [Hn _]%nodeByHash_Some He. apply Hh. rewrite <- Hn, He. done. Qed.

(** [AuthVerification] up to the request: the new best hash, if it has changed. *)
Definition auth_locked (msg : ValidCasperSignMsg) : C (option Hash) :=
  targetNode ← gets (nodeByHash_ (m_TargetHash msg));
  match targetNode with
  | None =>
      modify (fun s => set_verCache
        (cache_Add (verificationCacheKey (m_TargetHash msg) (m_PubKey msg)) msg (verificationCache s)) s) ;;
      mret None
  | Some targetNode =>
      let target := tn_cp targetNode in
      source ← GetCheckpoint (m_SourceHash msg);
      v ← convertVerification source target msg;
      tgt ← read target;
      if ContainsVerification (v_order v) (Some (v_SourceHash v)) tgt then mret None
      else
        oldBestHash ← gets bestChain;
        authVerification v target ;;
        newBestHash ← gets bestChain;
        mret (if bool_decide (oldBestHash = newBestHash) then None else Some newBestHash)
  end.

(** The request and the reply of [Casper.v]'s sequential [AuthVerification]. *)
Definition request (h : Hash) : C unit :=
  n ← gets (fun s => length (rollbackCh s));
  modify (fun s => set_rollback (rollbackCh s ++ [h]) s) ;;
  match chain_reply n h with
  | Some (Some e) => fail e
  | Some None => mret tt
  | None => blocks
  end.

Lemma AuthVerification_split msg s :
  AuthVerification msg s = (r ← auth_locked msg; match r with None => mret tt | Some h => request h end) s.
Proof.
  unfold AuthVerification, auth_locked, tryRollback, gets, modify, mbind, C_bind.
  destruct (nodeByHash_ _ s) as [n|]; [|done].
  destruct (GetCheckpoint _ s) as [[src|e| | |] s1]; [|done..].
  destruct (convertVerification _ _ _ s1) as [[v|e| | |] s2]; [|done..]. unfold read, gets.
  destruct (ContainsVerification _ _ _); [done|].
  destruct (authVerification _ _ s2) as [[[]|e| | |] s3]; [|done..]. by case_bool_decide.
Qed.

Lemma bestChain_quiet s s' : quiet s s' -> bestChain s' = bestChain s.
Proof.
  intros [Tr Ob _]. unfold bestChain. rewrite Tr.
  assert (Hg : forall p, p ∈ nodes (tree s) -> get s' p = get s p) by (intros p Hp; unfold get; by rewrite Ob).
  rewrite (Hg (tn_cp (tree s))) by apply tn_cp_nodes.
  destruct (bestNode_agree (get s') (get s) hex_encode (tree s) (Height (get s (tn_cp (tree s)))) Hg) as [E Hin].
  by rewrite <- E, Hg.
Qed.

(** The hash asked for is the new best one, and it differs from the old one. *)
Definition asked s (r : option Hash) s' : Prop :=
  match r with None => True | Some h => h = bestChain s' /\ bestChain s' <> bestChain s end.

Lemma wp_auth_locked msg s :
  inv s -> not_root_target s (m_TargetHash msg) ->
  wp (auth_locked msg) (fun r s' => safe s s' /\ asked s r s') (safe s) s.
Proof.
  intros Hi Hr. unfold auth_locked. wp_step. destruct (nodeByHash_ _ _) as [n|] eqn:Hn.
  - destruct (nodeByHash_edge _ _ _ Hn (not_root_node _ _ _ Hr Hn)) as (Hin & Hh & q & He). set (t := tn_cp n) in *.
    eapply wp_seq; [by apply wp_GetCheckpoint| |intros s1 [Hi1 Q1]; by apply quiet_safe].
    intros src s1 (Hi1 & Q1 & Hf). pose proof (quiet_voted t _ _ Q1) as V1. pose proof (quiet_safe _ _ Hi Hi1 Q1) as F1.
    pose proof (vt_parent _ _ _ V1 _ He) as He1. apply cwp_bind.
    apply (wp_convertVerification s1 q t); [done|done|by apply fresh_cp_ok| |done].
    intros v Hv. wp_step. destruct (ContainsVerification _ _ _); [by wp_step|]. wp_step.
    eapply wp_seq; [by apply (wp_authVerification s1 q t)| |].
    + intros [] s2 [Hi2 V2]. do 2 wp_step. split; [eapply safe_trans; [exact F1|by eapply voted_safe]|].
      rewrite (bestChain_quiet _ _ Q1). by case_bool_decide.
    + intros s2 [Hi2 V2]. eapply safe_trans; [exact F1|by eapply voted_safe].
  - do 2 wp_step. split; [|done]. apply stored_safe, verCache_stored; [done..|]. intros k m Hk.
    eapply lookup_weaken in Hk; [|apply entries_Add]. destruct Hi as [Hs _].
    apply lookup_insert_Some in Hk as [[<- <-]|[_ Hk]]; [done|by apply (s_messages _ Hs)].
Qed.

(** The last request, for the new best checkpoint, gets no reply. *)
Definition unanswered s s' : Prop :=
  bestChain s' <> bestChain s
  /\ exists q, rollbackCh s' = q ++ [bestChain s'] /\ chain_reply (length q) (bestChain s') = None.

Lemma AuthVerification_outcome msg s :
  inv s -> not_root_target s (m_TargetHash msg) ->
  safe s (AuthVerification msg s).2
  /\ match (AuthVerification msg s).1 with
     | Ret _ | Fail _ => True
     | Blocks => unanswered s (AuthVerification msg s).2
     | Panics | NoFuel => False
     end.
Proof.
  intros Hi Hr. rewrite AuthVerification_split. unfold mbind, C_bind.
  apply (wp_auth_locked msg s Hi) in Hr as [(r & Hr & HS & Ha)|(e & Hr & HS)]%wp_run; destruct (auth_locked msg s) as [o s1];
    cbn in Hr, HS; subst o; [|done]. destruct r as [h|]; [|done]. destruct Ha as [-> Hne].
  set (s2 := set_rollback (rollbackCh s1 ++ [bestChain s1]) s1).
  assert (S2 : stored_only s1 s2) by (apply same_stored; [apply HS|by destruct s1..]).
  assert (Hb : bestChain s2 = bestChain s1) by by apply bestChain_quiet, stored_quiet.
  assert (F2 : safe s s2) by (eapply safe_trans; [exact HS|apply stored_safe; [apply HS|done]]).
  unfold request, gets, modify, mbind, C_bind. fold s2.
  destruct (chain_reply _ _) as [[e|]|] eqn:Hc; cbn; [done..|]. split; [done|]. change (unanswered s s2).
  unfold unanswered. rewrite Hb. split; [done|]. exists (rollbackCh s1). by destruct s1.
Qed.

(** *** The loop over the cached messages *)

Lemma wp_prev_loop fuel prev h s :
  inv s -> match height_of h with Some z => z < Z.of_nat fuel | None => (0 < fuel)%nat end ->
  wp (prev_loop fuel prev h) (fun _ => stored_only s) (stored_only s) s.
Proof.
  revert h s. induction fuel as [|fuel IH]; intros h s Hi Hf.
  { unfold height_of in Hf. destruct (world h) as [b|] eqn:Hw; cbn in Hf; [|lia]. pose proof (world_height _ _ Hw). lia. }
  cbn [prev_loop]. apply cwp_bind, wp_GetBlockHeader; [done| |by apply stored_refl]. intros sb Hw _.
  unfold height_of in Hf. rewrite Hw in Hf. cbn in Hf.
  case_if; [wp_step; by apply stored_refl|]. case_if; [wp_step; by apply stored_refl|].
  apply cwp_bind. unfold wp at 1. destruct (cache_Get h (prevCheckpointCache s)) as [x c].
  assert (S1 : stored_only s (set_prevCache c s)) by by apply prevCache_stored.
  destruct x as [data|].
  - do 2 wp_step. eapply stored_trans; [exact S1|]. destruct S1 as (Hi1 & _). by apply prevCache_stored.
  - eapply cwp_mono; [apply IH; [by destruct S1|]|..].
    + destruct (world_prev _ _ Hw) as [[H0 _]|(p & Hp & Hh)].
      * pose proof epoch_ge. match goal with H : (_ =? 0) = false |- _ => by rewrite H0, Z.mod_0_l in H by lia end.
      * unfold height_of. rewrite Hp. cbn. lia.
    + intros ? s' S'. by eapply stored_trans.
    + intros s' S'. by eapply stored_trans.
Qed.

(** Fuel above the height of a hash, when it is known. *)
Definition enough_fuel (fuel : nat) (h : Hash) : Prop :=
  match height_of h with Some z => z < Z.of_nat fuel | None => (0 < fuel)%nat end.

Lemma wp_ParentCheckpointByPrevHash fuel h s :
  inv s -> enough_fuel fuel h ->
  wp (ParentCheckpointByPrevHash fuel h) (fun p s' => inv s' /\ quiet s s' /\ fresh_object s' p)
     (fun s' => inv s' /\ quiet s s') s.
Proof.
  intros Hi Hf. unfold ParentCheckpointByPrevHash, parentCheckpointHashByPrevHash.
  eapply wp_seq; [by apply wp_prev_loop| |intros s1 S1; by apply stored_quiet].
  intros h' s1 [Hi1 Q1]%stored_quiet. eapply cwp_mono; [by apply wp_GetCheckpoint|..]; cbn.
  - intros p s2 (? & ? & ?). split; [done|]. split; [by eapply quiet_trans|done].
  - intros s2 (? & ?). split; [done|by eapply quiet_trans].
Qed.

Lemma wp_validators fuel h s :
  inv s -> enough_fuel fuel h ->
  wp (validators fuel h) (fun _ s' => inv s' /\ quiet s s') (fun s' => inv s' /\ quiet s s') s.
Proof.
  intros Hi Hf. unfold validators, ParentCheckpoint, parentCheckpointHash.
  apply cwp_bind, cwp_bind, cwp_bind. unfold wp at 1. destruct (cache_Get h (prevCheckpointCache s)) as [x c].
  assert (S1 : stored_only s (set_prevCache c s)) by by apply prevCache_stored.
  apply stored_quiet in S1 as [Hi1 Q1]. set (s1 := set_prevCache c s) in *.
  assert (Hend : forall h' s2, inv s2 -> quiet s s2 ->
            wp (GetCheckpoint h') (fun p => wp (c0 ← read p; mret (EffectiveValidators net c0)) (fun _ s' => inv s' /\ quiet s s')
                 (fun s' => inv s' /\ quiet s s')) (fun s' => inv s' /\ quiet s s') s2).
  { intros h' s2 Hi2 Q2. eapply cwp_mono; [by apply wp_GetCheckpoint|..]; cbn.
    - intros p s3 (? & ? & _). wp_step. wp_step. split; [done|by eapply quiet_trans].
    - intros s3 (? & ?). split; [done|by eapply quiet_trans]. }
  destruct x as [data|]; [wp_step; by apply Hend|].
  apply cwp_bind, wp_GetBlockHeader; [done| |done]. intros sb Hw _. unfold parentCheckpointHashByPrevHash.
  eapply wp_seq; [apply wp_prev_loop; [done|]| |].
  - unfold enough_fuel in Hf. unfold height_of in *. rewrite Hw in Hf. cbn in Hf.
    pose proof (world_height _ _ Hw). destruct (world_prev _ _ Hw) as [[_ ->]|(p & -> & Hh)]; cbn; lia.
  - intros h' s2 S2. apply stored_quiet in S2 as [Hi2 Q2]. do 2 wp_step. destruct (stored_quiet _ _ (prevCache_stored s2 (cache_Add h h' (prevCheckpointCache s2)) Hi2)) as [Hi3 Q3].
    apply Hend; [done|]. eapply quiet_trans; [exact Q1|]. by eapply quiet_trans.
  - intros s2 [Hi2 Q2]%stored_quiet. split; [done|by eapply quiet_trans].
Qed.
End Spec.
