(* ===== verification/CasperBlocks.v ===== *)
(** * The invariant of the consensus: cached messages and blocks

    The lemmas of [CasperSpec.v] continued: [authVerificationRound] with the
    cache of early messages, and [ApplyBlock] with the growth of the tree. *)

From S2P Require Import Prelude Encoding VMTypes Orphans Checkpoint Tree CasperState Casper CasperInv CasperSpec.
From Stdlib Require Import Strings.Byte.
#[local] Open Scope Z_scope.

Section Blocks.
Context {R : MapRange} {RL : MapRangeLaws R} {L : LRU} {LL : LRULaws L} {Cr : Crypto} {N : Node_} {NL : NodeLaws N} {W : World}.
#[local] Abbreviation epoch := (BlocksOfEpoch net).
#[local] Abbreviation vals := (EffectiveValidators net).
Implicit Types s : Casper L.

(** ** The loop over the cached messages *)

Lemma quiet_root s s' : quiet s s' -> LastFinalized s' = LastFinalized s.
Proof. intros [Tr Ob _]. unfold LastFinalized, get. by rewrite Tr, Ob by apply tn_cp_nodes. Qed.

(** Votes for [t] do not make it the root. *)
Lemma voted_not_root s s' q t h :
  inv s' -> voted t s s' -> (q, t) ∈ edges (tree s) -> cp_Hash (get s t) = h -> not_root_target s' h.
Proof.
  intros [_ Ht] V He Hh Hr. apply (vt_parent _ _ _ V) in He. pose proof (edge_dst _ _ _ He) as Hn.
  apply (edge_not_root _ _ _ (t_nodup _ _ Ht) He), (t_hashes _ _ Ht); [done|apply tn_cp_nodes|].
  change (cp_Hash (get s' t) = (LastFinalized s').2). by rewrite <- Hr, (vt_hash _ _ _ V).
Qed.

(** After the votes of [h], [h] is not the last finalized checkpoint. *)
Definition unfinal (h : Hash) s s' : Prop := safe s s' /\ not_root_target s' h.

Lemma quiet_unfinal h s s' : inv s -> not_root_target s h -> inv s' -> quiet s s' -> unfinal h s s'.
Proof. intros Hi Hr Hi' Q. split; [by apply quiet_safe|]. unfold not_root_target. by rewrite (quiet_root _ _ Q). Qed.
Lemma unfinal_trans h s1 s2 s3 : unfinal h s1 s2 -> unfinal h s2 s3 -> unfinal h s1 s3.
Proof. intros [S1 _] [S2 ?]. split; [by eapply safe_trans|done]. Qed.

Lemma wp_authCachedMsg msg key s :
  inv s -> not_root_target s (m_TargetHash msg) ->
  wp (authCachedMsg msg key) (fun _ => unfinal (m_TargetHash msg) s) (unfinal (m_TargetHash msg) s) s.
Proof.
  intros Hi Hr. unfold authCachedMsg. apply cwp_bind, wp_try.
  assert (Hend : forall (r : cerror + unit) s', unfinal (m_TargetHash msg) s s' ->
            wp (modify (fun s => set_verCache (cache_Remove key (verificationCache s)) s) ;;
                match r with inl e => fail e | inr _ => mret tt end)
               (fun _ => unfinal (m_TargetHash msg) s) (unfinal (m_TargetHash msg) s) s').
  { intros r s' U. wp_step. pose proof (proj1 (proj1 U)) as Hi'.
    assert (U' : unfinal (m_TargetHash msg) s (set_verCache (cache_Remove key (verificationCache s')) s')).
    { eapply unfinal_trans; [exact U|]. destruct (stored_quiet s' (set_verCache (cache_Remove key (verificationCache s')) s'))
        as [Hi2 Q2]; [|by apply quiet_unfinal; [|apply U| |]].
      apply verCache_stored; [done|]. rewrite entries_Remove. intros k m [_ Hk]%lookup_delete_Some.
      destruct Hi' as [Hs' _]. by apply (s_messages _ Hs'). }
    by destruct r. }
  eapply cwp_mono with (Q := fun _ => unfinal (m_TargetHash msg) s) (E := unfinal (m_TargetHash msg) s);
    [|intros [] s' U; exact (Hend (inr tt) s' U)|intros s' U e; exact (Hend (inl e) s' U)].
  eapply wp_seq; [by apply wp_GetCheckpoint| |intros s1 [Hi1 Q1]; by apply quiet_unfinal].
  intros src s1 (Hi1 & Q1 & Hf). wp_step. destruct (nodeByHash_ _ s1) as [n|] eqn:Hn; [|by apply quiet_unfinal].
  assert (U1 : unfinal (m_TargetHash msg) s s1) by by apply quiet_unfinal. destruct U1 as [F1 Hr1].
  destruct (nodeByHash_edge _ _ _ Hn (not_root_node _ _ _ Hr1 Hn)) as (Hin & Hh & q & He). set (t := tn_cp n) in *.
  apply cwp_bind, cwp_ret, cwp_bind. apply (wp_convertVerification s1 q t); [done|done|by apply fresh_cp_ok| |done].
  intros v Hv. eapply cwp_mono; [by apply (wp_authVerification s1 q t)|..]; [intros ?|]; intros s2 [Hi2 V2];
    (split; [eapply safe_trans; [exact F1|by eapply voted_safe]|by eapply voted_not_root]).
Qed.

Lemma wp_authVerificationRound fuel h s :
  inv s -> enough_fuel fuel h -> not_root_target s h ->
  wp (authVerificationRound fuel h) (fun _ => safe s) (safe s) s.
Proof.
  intros Hi Hf Hr. unfold authVerificationRound. apply cwp_bind, wp_try.
  eapply cwp_mono with (Q := fun _ s' => inv s' /\ quiet s s') (E := fun s' => inv s' /\ quiet s s'); [by apply wp_validators|..].
  2: { intros s' [Hi' Q'] e. wp_step. by apply quiet_safe. }
  intros vs s1 [Hi1 Q1]. assert (U1 : unfinal h s s1) by by apply quiet_unfinal.
  eapply cwp_mono with (Q := fun _ => unfinal h s) (E := unfinal h s); [|by intros ?? [? _]|by intros ? [? _]].
  apply wp_mapM; [|done]. intros [pk val] x _ [Hsx Hrx]. pose proof (proj1 Hsx) as Hix.
  apply cwp_bind. unfold wp at 1.
  destruct (cache_Get (verificationCacheKey h (PubKey val)) (verificationCache x)) as [data c] eqn:Hget.
  destruct (entries_Get (verificationCacheKey h (PubKey val)) (verificationCache x)) as [Hd Hc].
  rewrite Hget in Hd, Hc. cbn [fst snd] in Hd, Hc.
  destruct (stored_quiet x (set_verCache c x)) as [Hi2 Q2].
  { apply verCache_stored; [done|]. rewrite Hc. destruct Hix as [Hs _]. apply Hs. }
  assert (U2 : unfinal h s (set_verCache c x)).
  { eapply unfinal_trans; [by split|]. by apply quiet_unfinal. }
  destruct data as [msg|]; [|by apply cwp_ret].
  assert (Hm : m_TargetHash msg = h).
  { destruct Hix as [Hs _]. pose proof (s_messages _ Hs _ _ (eq_sym Hd)) as Hk.
    unfold verificationCacheKey in Hk. by apply hex_encode_colon in Hk. }
  destruct U2 as [S2 R2]. rewrite <- Hm in R2 |- *. apply cwp_bind, wp_try.
  eapply cwp_mono; [by apply wp_authCachedMsg|..]; [intros ?|]; intros s3 [S3 R3]; [|intros e]; wp_step;
    (split; [by eapply safe_trans|done]).
Qed.

(** ** The growth of the tree *)

Lemma Increase_spec b c :
  blk_Prev b = cp_Hash c -> world (blk_Hash b) = Some b ->
  exists c', Increase net b c = Some (inr c') /\ Height c' = blk_Height b /\ cp_Hash c' = blk_Hash b
    /\ ParentHash c' = ParentHash c /\ SupLinks c' = SupLinks c
    /\ Status c' = if blk_Height b mod epoch =? 0 then Unjustified else Status c.
Proof.
  intros Hp Hw. destruct (world_coinbase _ _ Hw) as (t & o & Ht & Ho). unfold Increase.
  rewrite bool_decide_eq_true_2 by done. cbn [negb]. unfold applyValidatorReward. rewrite Ht. cbn [mbind option_bind].
  rewrite Ho. cbn [mbind option_bind]. eexists. split; [done|]. done.
Qed.

(** The state after the operation: [h] is new, the root is as before. *)
Record grown (h : Hash) s s' : Prop := {
  gr_inv : inv s';
  gr_root : LastFinalized s' = LastFinalized s;
  gr_hashes : forall x, x ∈ nodes (tree s') -> cp_Hash (get s' x) = h \/ exists y, y ∈ nodes (tree s) /\ cp_Hash (get s' x) = cp_Hash (get s y);
}.

(** A target of [ApplyBlock]: a child, which is not justified. *)
Record new_target s (t : nat) (h : Hash) : Prop := {
  nt_node : t ∈ nodes (tree s);
  nt_hash : cp_Hash (get s t) = h;
  nt_edge : exists q, (q, t) ∈ edges (tree s);
}.

Lemma mod_succ h : h mod epoch = 1 <-> (h - 1) mod epoch = 0.
Proof.
  pose proof epoch_ge as He. split; intros Hm.
  - rewrite Zminus_mod, Hm, (Z.mod_small 1) by lia. by rewrite Z.sub_diag, Z.mod_0_l by lia.
  - replace h with (h - 1 + 1) by lia. rewrite Z.add_mod, Hm, (Z.mod_small 1) by lia. apply Z.mod_small. lia.
Qed.

(** The checkpoint with one more block on top of the node [p]. *)
Lemma increased_fresh s p b c :
  inv s -> p ∈ nodes (tree s) -> cp_Hash (get s p) = blk_Prev b -> world (blk_Hash b) = Some b -> 0 < blk_Height b ->
  (forall x, x ∈ nodes (tree s) -> cp_Hash (get s x) <> blk_Hash b) ->
  cp_Hash c = blk_Prev b -> Status c = Growing -> SupLinks c = [] ->
  exists c', Increase net b c = Some (inr c') /\ cp_Hash c' = blk_Hash b /\ Height c' = blk_Height b
    /\ ParentHash c' = ParentHash c /\ fresh_cp (fun x => objs s !!! x) (tree s) p c'
    /\ Height (get s p) = blk_Height b - 1.
Proof.
  intros [Hs Ht] Hp Hh Hw Hpos Hnew Hc Hg Hl.
  destruct (Increase_spec b c (eq_sym Hc) Hw) as (c' & Hinc & H1 & H2 & H3 & H4 & H5). exists c'. split_and!; try done.
  - assert (Hn : node_ok c').
    { split; rewrite ?H4, ?Hl; try (by constructor).
      - unfold cp_ok, height_of. by rewrite H2, Hw, H1.
      - rewrite H5, H1. destruct (Z.eqb_spec (blk_Height b mod epoch) 0); by rewrite ?Hg.
      - intros l Hin. by apply not_elem_of_nil in Hin. }
    pose proof (n_cp _ (t_nodes _ _ Ht p Hp)) as Hcp. unfold cp_ok in Hcp. change (o_cp (objs s !!! p)) with (get s p) in Hcp.
    rewrite Hh in Hcp. pose proof (height_of_prev _ _ _ Hw Hpos Hcp) as Hht. split.
    + done.
    + by rewrite H4.
    + rewrite H5. case_match; [by right|by left].
    + change (ancestor (cp_Hash (get s p)) (cp_Hash c')). rewrite H2, Hh. by eapply ancestor_step; [..|apply ancestor_refl].
    + change (Height (get s p) < Height c'). lia.
    + intros q Hq. rewrite H2. by apply Hnew.
  - pose proof (n_cp _ (t_nodes _ _ Ht p Hp)) as Hcp. unfold cp_ok in Hcp. change (o_cp (objs s !!! p)) with (get s p) in Hcp.
    rewrite Hh in Hcp. pose proof (height_of_prev _ _ _ Hw Hpos Hcp). lia.
Qed.

(** Database, caches and messages are untouched. *)
Definition same_store s s' : Prop :=
  db_blocks s' = db_blocks s /\ db_checkpoints s' = db_checkpoints s /\ lruCheckPoints s' = lruCheckPoints s
  /\ verificationCache s' = verificationCache s.

(** The tree with a new object as a child of [p]. *)
Lemma grown_child s s2 p c h :
  inv s -> p ∈ nodes (tree s) -> same_store s s2 -> let x := length (objs s) in
  tree s2 = add_child p x (tree s) -> length (objs s2) = S x -> objs s2 !!! x = mkObj c (Some p) ->
  (forall y, (y < x)%nat -> objs s2 !!! y = objs s !!! y) ->
  Status (get s p) <> Growing -> ParentHash c = cp_Hash (get s p) -> cp_Hash c = h ->
  fresh_cp (fun x => objs s !!! x) (tree s) p c -> grown h s s2 /\ new_target s2 x h.
Proof.
  intros [[S1 S0 S2 S3 S4 S5] Ht] Hp (D1 & D2 & D3 & D4) x Htr Hl Hx Hold Hend Hph Hh F. pose proof (t_nodup _ _ Ht) as Hnd.
  assert (Hfresh : x ∉ nodes (tree s)) by (intros Hin; specialize (S1 x Hin); unfold x in S1; lia).
  assert (Hin : forall y, y ∈ nodes (tree s2) <-> y = x \/ y ∈ nodes (tree s)).
  { intros y. rewrite Htr, nodes_add_child by done. apply elem_of_cons. }
  assert (Hcp : cp_ok c) by apply F. split; split.
  - split; [split|].
    + intros y [->|Hy]%Hin; rewrite Hl; [lia|]. specialize (S1 y Hy). unfold x. lia.
    + intros y Hy. unfold get. destruct (decide (y = x)) as [->|Hne]; [by rewrite Hx|].
      rewrite Hold by lia. apply S0. unfold x in *. lia.
    + intros k y. rewrite D3. intros Hk. destruct (S2 k y Hk) as [Hy1 Hy2]. rewrite Hl. split; [unfold x; lia|].
      intros [->|Hy]%Hin; [unfold x in Hy1; lia|done].
    + by rewrite D2.
    + by rewrite D1.
    + by rewrite D4.
    + rewrite Htr. eapply tinv_add_child; [exact Ht|done|done|by apply S1| |exact Hx|done|done|exact F].
      intros y Hy. by apply Hold, S1.
  - unfold LastFinalized. rewrite Htr, tn_cp_add_child. unfold get. by rewrite Hold by apply S1, tn_cp_nodes.
  - intros y [->|Hy]%Hin; [left; unfold get; by rewrite Hx|right]. exists y. split; [done|].
    unfold get. by rewrite Hold by by apply S1.
  - apply Hin. by left.
  - unfold get. by rewrite Hx.
  - exists p. rewrite Htr. apply edges_add_child; auto.
Qed.

(** The growing checkpoint [p] with one more block. *)
Lemma grown_in_place s s2 p c h :
  inv s -> p ∈ nodes (tree s) -> same_store s s2 -> tree s2 = tree s -> length (objs s2) = length (objs s) ->
  objs s2 !!! p = mkObj c (o_Parent (objs s !!! p)) -> (forall y, y <> p -> objs s2 !!! y = objs s !!! y) ->
  Status (get s p) = Growing -> ParentHash c = ParentHash (get s p) -> cp_Hash c = h ->
  fresh_cp (fun x => objs s !!! x) (tree s) p c -> grown h s s2 /\ new_target s2 p h.
Proof.
  intros [[S1 S0 S2 S3 S4 S5] Ht] Hp (D1 & D2 & D3 & D4) Htr Hl Hx Hold Hg Hph Hh F.
  assert (Hroot : p <> tn_cp (tree s)) by by eapply growing_not_root. split; split.
  - split; [split|].
    + intros y. rewrite Htr, Hl. apply S1.
    + intros y. rewrite Hl. intros Hy. unfold get. destruct (decide (y = p)) as [->|Hne]; [rewrite Hx; apply F|].
      rewrite Hold by done. by apply S0.
    + intros k y. rewrite D3, Hl, Htr. apply (S2 k).
    + by rewrite D2.
    + by rewrite D1.
    + by rewrite D4.
    + rewrite Htr. eapply tinv_grow; [exact Ht|exact Hp| |exact Hx|done|done|exact F]. intros y _. apply Hold.
  - unfold LastFinalized. rewrite Htr. unfold get. by rewrite Hold.
  - intros y. rewrite Htr. intros Hy. destruct (decide (y = p)) as [->|Hne]; [left; unfold get; by rewrite Hx|right].
    exists y. split; [done|]. unfold get. by rewrite Hold.
  - by rewrite Htr.
  - unfold get. by rewrite Hx.
  - rewrite Htr. by destruct (node_edge _ _ Hp).
Qed.

Section Extend.
Variables (s : Casper L) (p : nat) (b : cp_block).
Hypotheses (Hi : inv s) (Hp : p ∈ nodes (tree s)) (Hh : cp_Hash (get s p) = blk_Prev b)
  (Hw : world (blk_Hash b) = Some b) (Hpos : 0 < blk_Height b)
  (Hnew : forall x, x ∈ nodes (tree s) -> cp_Hash (get s x) <> blk_Hash b).

Lemma wp_extend_child :
  blk_Height b mod epoch = 1 ->
  wp (extend p b) (fun t s' => grown (blk_Hash b) s s' /\ new_target s' t (blk_Hash b)) (fun _ => False) s.
Proof.
  intros Hm. destruct (increased_fresh s p b (NewCheckpoint (get s p))) as (c' & Hinc & H1 & H2 & H3 & F & Hht); try done.
  assert (Hend : Status (get s p) <> Growing).
  { destruct Hi as [_ Ht]. intros Hg. apply (n_growing _ (t_nodes _ _ Ht p Hp)) in Hg. apply Hg.
    change (Height (get s p) mod epoch = 0). rewrite Hht. by apply mod_succ. }
  unfold extend. rewrite Hm, Z.eqb_refl. unfold newChild. set (x := length (objs s)).
  apply cwp_bind. wp_step. apply cwp_bind. unfold new, wp at 1. wp_step. wp_step. fold x.
  set (s1 := set_tree _ _). unfold increase. apply cwp_bind. wp_step.
  assert (Ho1 : objs s1 = objs s ++ [mkObj (NewCheckpoint (get s p)) (Some p)]) by (unfold s1; by destruct s).
  assert (Hx1 : objs s1 !!! x = mkObj (NewCheckpoint (get s p)) (Some p)) by (rewrite Ho1; by apply list_lookup_total_middle).
  assert (Hl1 : length (objs s1) = S x) by (rewrite Ho1, length_app; cbn; unfold x; lia).
  assert (Hg1 : get s1 x = NewCheckpoint (get s p)) by (unfold get at 1; by rewrite Hx1). fold x. rewrite Hg1.
  apply cwp_bind. eapply wp_or_panic; [exact Hinc|]. cbn beta iota. unfold write. wp_step. wp_step.
  fold (upd (fun o => mkObj c' (o_Parent o)) x s1). apply (grown_child s _ p c'); try done.
  - unfold s1, same_store. by destruct s.
  - unfold s1, x. by destruct s.
  - by rewrite upd_length.
  - rewrite upd_eq by lia. by rewrite Hx1.
  - intros y Hy. fold x in Hy. rewrite upd_ne, Ho1 by lia. by apply lookup_total_app_l.
Qed.

Lemma wp_extend_in_place :
  blk_Height b mod epoch <> 1 ->
  wp (extend p b) (fun t s' => grown (blk_Hash b) s s' /\ new_target s' t (blk_Hash b)) (fun _ => False) s.
Proof.
  intros Hm. pose proof Hi as [Hs Ht]. assert (Hnode : node_ok (get s p)) by exact (t_nodes _ _ Ht p Hp).
  assert (Hcph : height_of (cp_Hash (get s p)) = Some (Height (get s p))) by apply Hnode.
  rewrite Hh in Hcph. pose proof (height_of_prev _ _ _ Hw Hpos Hcph) as Hht.
  assert (Hg : Status (get s p) = Growing).
  { apply (n_growing _ Hnode). intros H0. apply Hm, mod_succ. by replace (blk_Height b - 1) with (Height (get s p)) by lia. }
  destruct (increased_fresh s p b (get s p)) as (c' & Hinc & H1 & H2 & H3 & F & _); try done.
  { by apply (n_growing_links _ Hnode). }
  unfold extend. destruct (Z.eqb_spec (blk_Height b mod epoch) 1); [done|].
  apply cwp_bind, cwp_ret. unfold increase. apply cwp_bind. wp_step. apply cwp_bind. eapply wp_or_panic; [exact Hinc|].
  cbn beta iota. unfold write. wp_step. wp_step. fold (upd (fun o => mkObj c' (o_Parent o)) p s).
  apply (grown_in_place s _ p c'); try done.
  - unfold same_store. by destruct s.
  - by destruct s.
  - by rewrite upd_length.
  - by rewrite upd_eq by by apply (s_len _ Hs).
  - intros y Hy. by rewrite upd_ne.
Qed.

Lemma wp_extend :
  wp (extend p b) (fun t s' => grown (blk_Hash b) s s' /\ new_target s' t (blk_Hash b)) (fun _ => False) s.
Proof. destruct (Z.eq_dec (blk_Height b mod epoch) 1); [by apply wp_extend_child|by apply wp_extend_in_place]. Qed.
End Extend.

(** The tree reaches [h] by blocks at most as high as [z]. *)
Record reached (z : Z) (h : Hash) s s' (p : nat) : Prop := {
  re_inv : inv s';
  re_root : LastFinalized s' = LastFinalized s;
  re_node : p ∈ nodes (tree s');
  re_hash : cp_Hash (get s' p) = h;
  re_nodes : forall x, x ∈ nodes (tree s') ->
    Height (get s' x) <= z \/ exists y, y ∈ nodes (tree s) /\ cp_Hash (get s' x) = cp_Hash (get s y);
}.

Lemma node_height s x : inv s -> x ∈ nodes (tree s) -> height_of (cp_Hash (get s x)) = Some (Height (get s x)).
Proof. intros [_ Ht] Hx. exact (n_cp _ (t_nodes _ _ Ht x Hx)). Qed.

Lemma wp_checkpointNodeByHash fuel h z s :
  inv s -> height_of h = Some z -> z < Z.of_nat fuel ->
  wp (checkpointNodeByHash fuel h) (fun p s' => reached z h s s' p) (fun s' => s' = s) s.
Proof.
  revert h z. induction fuel as [|fuel IH]; intros h z Hi Hz Hf.
  { unfold height_of in Hz. destruct (world h) as [b|] eqn:Hw; [|done]. cbn in Hz. simplify_eq.
    pose proof (world_height _ _ Hw). lia. }
  cbn [checkpointNodeByHash]. wp_step. destruct (nodeByHash_ h s) as [n|] eqn:Hn.
  - wp_step. apply nodeByHash_Some in Hn as [Hh Hsub]. split; try done.
    + apply (sub_nodes _ _ Hsub), tn_cp_nodes.
    + intros x Hx. right. by exists x.
  - unfold GetBlock. apply cwp_bind, cwp_bind, wp_GetBlockHeader; [done| |done]. intros sb Hw _. wp_step.
    set (b := sb_block sb) in *. unfold height_of in Hz. rewrite Hw in Hz. cbn in Hz. simplify_eq.
    destruct (Z.eqb_spec (blk_Height b mod epoch) 0) as [Hm|Hm]; [by wp_step|].
    pose proof epoch_ge. destruct (world_prev _ _ Hw) as [[H0 _]|(pb & Hpb & Hht)].
    { rewrite H0, Z.mod_0_l in Hm by lia. done. }
    assert (Hzp : height_of (blk_Prev b) = Some (blk_Height pb)) by (unfold height_of; by rewrite Hpb).
    pose proof (world_height _ _ Hpb) as Hpb0.
    eapply wp_seq; [apply (IH _ _ Hi Hzp); lia| |done]. intros p s1 Re. pose proof (world_hash _ _ Hw) as Hbh.
    eapply cwp_mono; [apply wp_extend|..].
    + apply Re.
    + apply Re.
    + apply Re.
    + by rewrite Hbh.
    + lia.
    + intros x Hx Hxh. rewrite Hbh in Hxh. destruct (re_nodes _ _ _ _ _ Re x Hx) as [Hlow|(y & Hy & Hxy)].
      * pose proof (node_height s1 x (re_inv _ _ _ _ _ Re) Hx) as Hnh. rewrite Hxh in Hnh. unfold height_of in Hnh.
        rewrite Hw in Hnh. cbn in Hnh. simplify_eq. lia.
      * assert (Hn' : nodeByHash (get s) h (tree s) = None) by done. rewrite nodeByHash_None in Hn'.
        apply (Hn' y Hy). congruence.
    + intros t s2 [[G1 G2 G3] [T1 T2 T3]]. split; try done.
      * rewrite G2. apply Re.
      * by rewrite T2.
      * intros x Hx. destruct (G3 x Hx) as [Hxh|(y & Hy & Hxy)].
        -- left. pose proof (node_height s2 x G1 Hx) as Hnh. rewrite Hxh, Hbh in Hnh. unfold height_of in Hnh.
           rewrite Hw in Hnh. cbn in Hnh. simplify_eq. lia.
        -- destruct (re_nodes _ _ _ _ _ Re y Hy) as [Hlow|(w & Hww & Hyw)].
           ++ left. pose proof (node_height s2 x G1 Hx) as Hnh. pose proof (node_height s1 y (re_inv _ _ _ _ _ Re) Hy) as Hnh'.
              rewrite Hxy, Hnh' in Hnh. simplify_eq. lia.
           ++ right. exists w. split; [done|congruence].
    + done.
Qed.

(** A block that the chain hands to [ApplyBlock] after its validation. *)
Record valid_block (b : cp_block) : Prop := {
  vb_world : world (blk_Hash b) = Some b;
  vb_height : 0 < blk_Height b;
}.

Lemma wp_applyBlockToCheckpoint fuel b s :
  inv s -> valid_block b -> blk_Height b <= Z.of_nat fuel -> nodeByHash_ (blk_Hash b) s = None ->
  wp (applyBlockToCheckpoint fuel b)
     (fun t s' => inv s' /\ LastFinalized s' = LastFinalized s /\ new_target s' t (blk_Hash b)) (fun s' => s' = s) s.
Proof.
  intros Hi [Hw Hpos] Hf Hn. unfold applyBlockToCheckpoint.
  destruct (world_prev _ _ Hw) as [[H0 _]|(pb & Hpb & Hht)]; [lia|].
  assert (Hzp : height_of (blk_Prev b) = Some (blk_Height pb)) by (unfold height_of; by rewrite Hpb).
  eapply wp_seq; [apply (wp_checkpointNodeByHash fuel _ _ s Hi Hzp); lia| |done]. intros p s1 Re.
  eapply cwp_mono; [apply wp_extend|..]; try apply Re; try done.
  - intros x Hx Hxh. destruct (re_nodes _ _ _ _ _ Re x Hx) as [Hlow|(y & Hy & Hxy)].
    + pose proof (node_height s1 x (re_inv _ _ _ _ _ Re) Hx) as Hnh. rewrite Hxh in Hnh. unfold height_of in Hnh.
      rewrite Hw in Hnh. cbn in Hnh. simplify_eq. lia.
    + assert (Hn' : nodeByHash (get s) (blk_Hash b) (tree s) = None) by done. rewrite nodeByHash_None in Hn'.
      apply (Hn' y Hy). congruence.
  - intros t s2 [[G1 G2 G3] T]. split_and!; [done| |done]. rewrite G2. apply Re.
Qed.

(** ** The node's own vote *)

Lemma wp_lastJustified_loop fuel q s :
  inv s -> (forall p, q = Some p -> p ∈ nodes (tree s) /\ (S p < fuel)%nat) -> (0 < fuel)%nat ->
  wp (lastJustified_loop fuel q) (fun r s' => s' = s /\ forall p, r = Some p -> p ∈ nodes (tree s)) (fun _ => False) s.
Proof.
  intros Hi. pose proof Hi as [_ Ht]. revert q. induction fuel as [|fuel IH]; intros q Hq Hf; [lia|].
  cbn [lastJustified_loop]. destruct q as [p|]; [|by wp_step]. destruct (Hq p eq_refl) as [Hp Hlt].
  wp_step. case_bool_decide as Hj; [wp_step; split; [done|]; by intros ? [= <-]|]. wp_step.
  destruct (node_edge _ _ Hp) as [Hroot|(q & He)].
  - assert (Hnone : parent s p = None) by (rewrite Hroot; exact (t_root _ _ Ht)). rewrite Hnone.
    destruct fuel; [lia|by apply cwp_ret].
  - pose proof (t_edges _ _ Ht _ _ He) as E. pose proof (e_parent _ _ _ E) as Hpar. pose proof (e_older _ _ _ E) as Hold.
    change (parent s p = Some q) in Hpar. rewrite Hpar. apply IH; [|lia].
    intros p' [= <-]. split; [by eapply edge_src|lia].
Qed.

Lemma wp_myVerification s q t :
  inv s -> (q, t) ∈ edges (tree s) ->
  wp (myVerification t) (fun r s' => s' = s /\ forall v, r = Some v -> (v_order v < MaxNumOfValidators)%nat) (fun _ => False) s.
Proof.
  intros Hi He. pose proof Hi as [Hs Ht]. unfold myVerification. wp_step. case_bool_decide; [by wp_step|].
  unfold lastJustifiedCheckpoint. apply cwp_bind. do 2 wp_step.
  pose proof (t_edges _ _ Ht _ _ He) as E. assert (Hpar : parent s t = Some q) by exact (e_parent _ _ _ E). rewrite Hpar.
  pose proof (e_older _ _ _ E) as Hold. pose proof (s_len _ Hs _ (edge_dst _ _ _ He)) as Hlt.
  eapply cwp_mono; [apply wp_lastJustified_loop; [done| |lia]|..].
  { intros p [= <-]. split; [by eapply edge_src|lia]. }
  2: done.
  intros r s' [-> Hr]. destruct r as [src|]; [|by wp_step]. apply cwp_bind, wp_try.
  apply (wp_convertVerification s q t); [done|done| | |intros e; by wp_step].
  { exact (n_cp _ (t_nodes _ _ Ht _ (Hr src eq_refl))). }
  intros v Hv. destruct (ContainsVerification _ _ _); [by wp_step|]. apply cwp_bind, wp_try.
  destruct (co_key _ _ _ _ Hv) as (val & Hval & Ho). destruct (vals_lookup _ _ _ Hval) as [_ Hord].
  eapply cwp_mono; [apply (wp_verifyVerification s q t); [done|]|..].
  - destruct Hv. by split.
  - intros ? s' [-> _]. apply cwp_ret. split; [done|]. intros v' [= <-]. cbn. by rewrite <- Ho.
  - intros s' -> e. by apply cwp_ret.
Qed.

Lemma wp_applyMyVerification s q t ls :
  inv s -> (q, t) ∈ edges (tree s) -> Forall full ls ->
  wp (applyMyVerification t ls) (fun ls' s' => stored_only s s' /\ Forall full ls') (stored_only s) s.
Proof.
  intros Hi He Hf. unfold applyMyVerification. eapply wp_seq; [by apply (wp_myVerification s q t)| |done].
  intros r s' [-> Hr]. destruct r as [v|]; [|wp_step; split; [by apply stored_refl|done]].
  eapply wp_seq; [by apply wp_Post| |done]. intros ? s1 S1. specialize (Hr v eq_refl).
  destruct (AddSupLink_total (v_SourceHeight v) (v_SourceHash v) (v_Signature v) (v_order v) _ Hf Hr)
    as (ls' & l & Hadd & Hls). apply cwp_bind. eapply wp_or_panic; [exact Hadd|]. cbn beta iota. by wp_step.
Qed.

(** ** The links of a block *)

Lemma wp_filter_valid s q t vs :
  inv s -> Forall (converted s q t) vs ->
  wp (filter_valid vs) (fun r s' => s' = s /\ Forall (verified s q t) r) (fun _ => False) s.
Proof.
  intros Hi. induction vs as [|v vs IH]; intros Hvs; cbn [filter_valid]; [by wp_step|].
  apply Forall_cons in Hvs as [Hv Hvs]. apply cwp_bind, wp_try.
  eapply cwp_mono; [by apply (wp_verifyVerification s q t)|..]; cbn.
  - intros ? s' [-> V]. eapply wp_seq; [by apply IH| |done]. intros r s' [-> Hr]. wp_step. split; [done|by constructor].
  - intros s' -> e. eapply wp_seq; [by apply IH| |done]. intros r s' [-> Hr]. by wp_step.
Qed.

Lemma converted_voted s s' q t v : (q, t) ∈ edges (tree s) -> voted t s s' -> converted s q t v -> converted s' q t v.
Proof.
  intros He V []. apply (vt_parent _ _ _ V) in He. pose proof (edge_src _ _ _ He). pose proof (edge_dst _ _ _ He).
  split; rewrite ?(vt_hash _ _ _ V), ?(vt_height _ _ _ V), ?(vt_vals _ _ _ V) by done; done.
Qed.

Lemma wp_applySupLinks_loop s q t ls :
  inv s -> (q, t) ∈ edges (tree s) ->
  wp (applySupLinks_loop t ls) (fun a s' => inv s' /\ voted t s s' /\ objects s' a) (fun s' => inv s' /\ voted t s s') s.
Proof.
  revert s. induction ls as [|l ls IH]; intros s Hi He; cbn [applySupLinks_loop].
  - wp_step. split_and!; [done|apply voted_refl|]. intros p Hp. by apply not_elem_of_nil in Hp.
  - unfold validVerificationsFromSupLink. apply cwp_bind.
    eapply wp_seq; [by apply wp_GetCheckpoint| |intros s1 [? ?]; split; [done|by apply quiet_voted]].
    intros src s1 (Hi1 & Q1 & Hfr). pose proof (quiet_voted t _ _ Q1) as V1. pose proof (vt_parent _ _ _ V1 _ He) as He1.
    wp_step. destruct (negb _); [by wp_step|]. apply cwp_bind.
    destruct (supLinkToVerifications_eq s1 q t src l Hi1 He1) as (vs & Hvs & Hco & _). unfold wp at 1. rewrite Hvs.
    eapply cwp_mono; [apply (wp_filter_valid s1 q t); [done|by apply Hco, fresh_cp_ok]| |done].
    intros r s' [-> Hr]. eapply wp_seq; [by apply (wp_addVerificationToCheckpoint s1 q t)| |].
    + intros a s2 (Hi2 & V2 & Ha). pose proof (vt_parent _ _ _ V2 _ He1) as He2.
      eapply wp_seq; [by apply IH| |].
      * intros b s3 (Hi3 & V3 & Hb). wp_step. split; [done|]. split; [eapply voted_trans; [exact V1|by eapply voted_trans]|].
        intros p [Hp|Hp]%elem_of_app; [|by apply Hb]. eapply objects_mono; [apply V3|exact Ha|done].
      * intros s3 (Hi3 & V3). split; [done|]. eapply voted_trans; [exact V1|by eapply voted_trans].
    + intros s2 (Hi2 & V2). split; [done|by eapply voted_trans].
Qed.

Lemma wp_saveCheckpoints ps s :
  inv s -> objects s ps -> wp (saveCheckpoints ps) (fun _ => stored_only s) (fun _ => False) s.
Proof.
  intros Hi Hps. unfold saveCheckpoints. wp_step. apply wp_SaveCheckpoints; [done|].
  intros p Hp. apply list_elem_of_fmap in Hp as ([h p'] & -> & Hp). cbn.
  rewrite map_range_perm, elem_of_map_to_list in Hp. apply Hps.
  set (hs := map _ ps) in Hp. clearbody hs.
  assert (Hgen : forall (l : list (Hash * nat)) m, (forall h p, m !! h = Some p -> p ∈ ps) -> (forall x, x ∈ l -> x.2 ∈ ps) ->
            forall h p, foldl (fun (m : gmap Hash nat) '(h, p) => <[h := p]> m) m l !! h = Some p -> p ∈ ps).
  { clear. intros l. induction l as [|[h p] l IH]; intros m Hm Hl h' p'; cbn [foldl]; [apply Hm|]. apply IH.
    - intros h1 p1 [[_ <-]|[_ Hk]]%lookup_insert_Some; [apply (Hl (h, p)); left|by eapply Hm].
    - intros x Hx. apply Hl. by right. }
  eapply Hgen; [| |exact Hp]; [intros h1 p1; by rewrite lookup_empty|].
  intros [h1 p1] Hx. by eapply elem_of_zip_r.
Qed.

(** ** ApplyBlock *)

Lemma wp_ApplyBlock fuel b ls s :
  inv s -> valid_block b -> Forall full ls -> blk_Height b <= Z.of_nat fuel ->
  wp (ApplyBlock fuel b ls) (fun r s' => safe s s' /\ Forall full r.2) (safe s) s.
Proof.
  intros Hi Hb Hf Hfuel. unfold ApplyBlock. apply cwp_bind.
  assert (Hepoch : wp (if blk_Height b mod epoch =? 1
             then modify (fun s0 => set_newEpoch (newEpochCh s0 ++ [blk_Prev b]) s0) else mret tt)
             (fun _ => stored_only s) (fun _ => False) s).
  { case_if; wp_step; [|by apply stored_refl]. apply same_stored; [done|by destruct s..]. }
  eapply cwp_mono; [exact Hepoch| |done]. clear Hepoch. intros [] s0 S0. cbn beta in S0. pose proof (stored_safe _ _ Hi S0) as F0.
  destruct S0 as (Hi0 & _). wp_step. destruct (nodeByHash_ _ _) as [n|] eqn:Hn; [wp_step; by wp_step|].
  eapply wp_seq; [by apply wp_applyBlockToCheckpoint| |by intros ? ->].
  intros t s1 (Hi1 & Hroot & [Hnode Hh (q & He)]).
  assert (F1 : safe s s1) by (split; [done|]; rewrite Hroot; apply F0).
  eapply wp_seq; [by apply (wp_applyMyVerification s1 q t)| |intros s2 S2; eapply safe_trans; [exact F1|by apply stored_safe]].
  intros ls' s2 [S2 Hls']. pose proof (safe_trans _ _ _ F1 (stored_safe _ _ Hi1 S2)) as F2.
  destruct (stored_quiet _ _ S2) as [Hi2 Q2]. assert (He2 : (q, t) ∈ edges (tree s2)) by (by rewrite (q_tree _ _ Q2)).
  unfold applySupLinks. apply cwp_bind. wp_step.
  assert (Hend : forall a s3, safe s s3 -> objects s3 a ->
            wp (best ← gets bestChain; saveCheckpoints a ;; mret (best, ls')) (fun r s' => safe s s' /\ Forall full r.2) (safe s) s3).
  { intros a s3 F3 Ha. wp_step. eapply wp_seq; [apply wp_saveCheckpoints; [apply F3|done]| |done].
    intros ? s4 S4. wp_step. split; [|done]. eapply safe_trans; [exact F3|]. apply stored_safe; [apply F3|done]. }
  case_bool_decide.
  - apply cwp_ret. apply Hend; [done|]. intros p Hp. by apply not_elem_of_nil in Hp.
  - eapply wp_seq; [by apply (wp_applySupLinks_loop s2 q t)| |].
    + intros a s3 (Hi3 & V3 & Ha). apply cwp_ret. apply Hend; [eapply safe_trans; [exact F2|by eapply voted_safe]|].
      intros p [->|Hp]%elem_of_cons; [|by apply Ha]. destruct Hi3 as [Hs3 _]. apply (s_len _ Hs3).
      eapply edge_dst. by eapply (vt_parent _ _ _ V3).
    + intros s3 (Hi3 & V3). eapply safe_trans; [exact F2|by eapply voted_safe].
Qed.
End Blocks.
