(* ===== verification/CasperSafety.v ===== *)
(** * What the consensus guarantees

    The states a node can be in, from the genesis block on, and the theorems
    about them: supermajorities under justified checkpoints, no surrounding
    votes, finality that only advances, no panic except the one
    [AuthVerification_panics_iff] characterises. *)

From S2P Require Import Prelude Encoding VMTypes Orphans Checkpoint Tree CasperState Casper CasperInv CasperSpec CasperBlocks.
From Stdlib Require Import Strings.Byte.
#[local] Open Scope Z_scope.

(** [initChainStatus] of protocol.go stores the genesis block and its
    checkpoint, which [NewCasper] makes the root of the tree. *)
Definition genesis_checkpoint (g : cp_block) : Checkpoint :=
  mkCheckpoint 0 (blk_Hash g) (replicate 32 x00) (blk_Timestamp g) Justified ∅ ∅ [].

Definition init {L : LRU} (g : cp_block) : Casper L := {|
  objs := [mkObj (genesis_checkpoint g) None];
  tree := Node 0%nat [];
  db_blocks := {[ blk_Hash g := mkStored g [] ]};
  db_checkpoints := {[ calcCheckpointKey 0 (Some (blk_Hash g)) := genesis_checkpoint g ]};
  lruCheckPoints := cache_New;
  prevCheckpointCache := cache_New;
  verificationCache := cache_New;
  posted := [];
  mux_stopped := false;
  newEpochCh := [];
  rollbackCh := [];
|}.

(** The outcome is a value or an error. *)
Definition returns {A} {L : LRU} (r : outcome A * Casper L) : Prop :=
  match r.1 with Ret _ | Fail _ => True | Panics | NoFuel | Blocks => False end.

Section Safety.
Context {R : MapRange} {RL : MapRangeLaws R} {L : LRU} {LL : LRULaws L} {Cr : Crypto} {N : Node_} {NL : NodeLaws N} {W : World}.
#[local] Abbreviation epoch := (BlocksOfEpoch net).
#[local] Abbreviation vals := (EffectiveValidators net).
Implicit Types s : Casper L.

(** One operation of the node, whatever its outcome.  Messages and cached
    messages for the root are excluded: they are the subject of
    [AuthVerification_panics_iff]. *)
Inductive step : Casper L -> Casper L -> Prop :=
  | step_ApplyBlock fuel b ls s : valid_block b -> Forall full ls -> blk_Height b <= Z.of_nat fuel ->
      step s (ApplyBlock fuel b ls s).2
  | step_SaveBlock b ls s : valid_block b -> Forall full ls -> step s (SaveBlock b ls s).2
  | step_AuthVerification msg s : not_root_target s (m_TargetHash msg) -> step s (AuthVerification msg s).2
  | step_round fuel h s : enough_fuel fuel h -> not_root_target s h -> step s (authVerificationRound fuel h s).2
  | step_validators fuel h s : enough_fuel fuel h -> step s (validators fuel h s).2
  | step_ParentCheckpoint fuel h s : enough_fuel fuel h -> step s (ParentCheckpointByPrevHash fuel h s).2.

Definition reachable (g : cp_block) s : Prop := rtc step (init g) s.

Lemma init_inv g : world (blk_Hash g) = Some g -> blk_Height g = 0 -> inv (init g).
Proof.
  intros Hw Hh. assert (Hcp : cp_ok (genesis_checkpoint g)) by (unfold cp_ok, height_of; cbn; rewrite Hw; cbn; by rewrite Hh).
  split; split.
  - intros p ->%list_elem_of_singleton. cbn. lia.
  - intros p Hp. cbn in Hp. assert (p = 0%nat) as -> by lia. exact Hcp.
  - intros k p. cbn. rewrite entries_New. by rewrite lookup_empty.
  - intros k c Hk. unfold init in Hk. cbn [db_checkpoints] in Hk. by apply lookup_singleton_Some in Hk as [_ <-].
  - intros h sb Hk. unfold init in Hk. cbn [db_blocks] in Hk. apply lookup_singleton_Some in Hk as [<- <-].
    cbn. by split; [|constructor].
  - intros k m. cbn. rewrite entries_New. by rewrite lookup_empty.
  - apply NoDup_singleton.
  - done.
  - intros p ->%list_elem_of_singleton. cbn. split; cbn; try done; try (by constructor).
    intros l Hl. by apply not_elem_of_nil in Hl.
  - intros p c Hc. by apply not_elem_of_nil in Hc.
  - by intros p q ->%list_elem_of_singleton ->%list_elem_of_singleton.
  - intros p q l1 l2 o ->%list_elem_of_singleton ->%list_elem_of_singleton. cbn. lia.
  - by left.
Qed.

Lemma wp_safe {A} (m : C A) s : wp m (fun _ => safe s) (safe s) s -> safe s (m s).2 /\ returns (m s).
Proof.
  intros Hm. apply wp_run in Hm as [(a & Hr & HS)|(e & Hr & HS)]; (split; [done|]); unfold returns; by rewrite Hr.
Qed.
Lemma wp_quiet_safe {A} (m : C A) (F : A -> Casper L -> Prop) s :
  inv s -> wp m (fun a s' => inv s' /\ quiet s s' /\ F a s') (fun s' => inv s' /\ quiet s s') s -> safe s (m s).2.
Proof.
  intros Hi Hm. apply wp_run in Hm as [(a & _ & HS)|(e & _ & HS)].
  - destruct HS as (Hi' & Q & _). by apply quiet_safe.
  - destruct HS as (Hi' & Q). by apply quiet_safe.
Qed.

Lemma ApplyBlock_safe fuel b ls s :
  inv s -> valid_block b -> Forall full ls -> blk_Height b <= Z.of_nat fuel ->
  safe s (ApplyBlock fuel b ls s).2 /\ returns (ApplyBlock fuel b ls s).
Proof.
  intros Hi Hb Hf Hfuel. apply wp_safe. eapply cwp_mono; [by apply wp_ApplyBlock| |done]. by intros [h ls'] s' [? _].
Qed.

Lemma step_safe s s' : inv s -> step s s' -> safe s s'.
Proof.
  intros Hi Hs. destruct Hs as [fuel b ls s Hb Hf Hh|b ls s Hb Hf|msg s Hr|fuel h s Hf Hr|fuel h s Hf|fuel h s Hf].
  - by apply ApplyBlock_safe.
  - destruct (SaveBlock_inv b ls s Hi (vb_world _ Hb) Hf) as (Hi' & Ho & Ht). apply stored_safe; [done|by split].
  - by apply AuthVerification_outcome.
  - by apply wp_safe, wp_authVerificationRound.
  - eapply (wp_quiet_safe _ (fun _ _ => True)); [done|]. eapply cwp_mono; [by apply wp_validators|..]; cbn; naive_solver.
  - eapply wp_quiet_safe; [done|]. by apply wp_ParentCheckpointByPrevHash.
Qed.

Lemma steps_safe s s' : inv s -> rtc step s s' -> safe s s'.
Proof.
  intros Hi Hs. induction Hs as [s|s s1 s' H1 _ IH]; [by apply safe_refl|].
  pose proof (step_safe _ _ Hi H1) as S1. eapply safe_trans; [exact S1|]. apply IH, S1.
Qed.

Lemma reachable_inv g s : world (blk_Hash g) = Some g -> blk_Height g = 0 -> reachable g s -> inv s.
Proof. intros Hw Hh Hs. eapply steps_safe; [by apply init_inv|exact Hs]. Qed.

(** C21.  In every state a node reaches from its genesis checkpoint by blocks,
    votes and cached votes, without a restart, a justified checkpoint below the
    root carries a link from a lower checkpoint that a supermajority of its
    parent's validators has signed: every signature recorded in it belongs to one
    of those validators and verifies under that validator's key. (After a restart
    the links read back from the database count unverified:
    [restart_counts_forged].) *)
Theorem justified_supermajority g s q t :
  world (blk_Hash g) = Some g -> blk_Height g = 0 -> reachable g s ->
  (q, t) ∈ edges (tree s) -> Status (get s t) = Justified ->
  exists l, l ∈ SupLinks (get s t) /\ IsMajority (Z.of_nat (size (vals (get s q)))) l = true
    /\ SourceHeight l < Height (get s t)
    /\ forall o, signed o l = true -> exists v pk, vals (get s q) !! PubKey v = Some v /\ Order v = o
         /\ hex_decode (PubKey v) = Some pk
         /\ xpub_verify pk (sha3_256 (SourceHash l ++ cp_Hash (get s t))) (Signatures l !!! o) = true.
Proof.
  intros Hw Hh Hr He Hj. destruct (reachable_inv g s Hw Hh Hr) as [_ Ht].
  pose proof (t_edges _ _ Ht _ _ He) as E. destruct (e_majority _ _ _ E Hj) as (l & Hl & Hm).
  exists l. split; [done|]. split; [done|]. split; [|intros o Ho; by apply (e_signed _ _ _ E)].
  by apply (n_links _ (t_nodes _ _ Ht t (edge_dst _ _ _ He))).
Qed.

(** C22.  In every state a node reaches from its genesis checkpoint by blocks,
    votes and cached votes, without a restart, the tree holds no two links signed
    at the same validator order of which one surrounds the other: lower source and
    higher target. *)
Theorem no_surrounding_votes g s p q l1 l2 o :
  world (blk_Hash g) = Some g -> blk_Height g = 0 -> reachable g s ->
  p ∈ nodes (tree s) -> q ∈ nodes (tree s) -> l1 ∈ SupLinks (get s p) -> l2 ∈ SupLinks (get s q) ->
  signed o l1 = true -> signed o l2 = true ->
  ~ (SourceHeight l2 < SourceHeight l1 /\ SourceHeight l1 < Height (get s p) /\ Height (get s p) < Height (get s q)).
Proof.
  intros Hw Hh Hr Hp Hq Hl1 Hl2 Ho1 Ho2 (H1 & _ & H3). destruct (reachable_inv g s Hw Hh Hr) as [_ Ht].
  pose proof (t_surround _ _ Ht p q l1 l2 o Hp Hq Hl1 Hl2 Ho1 Ho2 H3). lia.
Qed.

Lemma bestChain_descends s : inv s -> ancestor (LastFinalized s).2 (bestChain s).
Proof.
  intros [_ Ht]. unfold bestChain, LastFinalized. cbn [snd].
  set (r := bestNode _ _ _ _). assert (Hr : r.1 ∈ nodes (tree s)).
  { eapply ranked_nodes. apply (bestNode_spec (get s) hex_encode). }
  exact (root_ancestor _ _ _ Ht Hr).
Qed.

(** C20.  Finality only advances: whatever blocks, votes and cached votes a node
    processes, the last finalized checkpoint of every later state descends from
    the present one, and so does every later best chain. *)
Theorem finality g s s' :
  world (blk_Hash g) = Some g -> blk_Height g = 0 -> reachable g s -> rtc step s s' ->
  ancestor (LastFinalized s).2 (LastFinalized s').2 /\ ancestor (LastFinalized s).2 (bestChain s').
Proof.
  intros Hw Hh Hr Hs. destruct (steps_safe s s' (reachable_inv g s Hw Hh Hr) Hs) as [Hi Ha].
  split; [done|]. eapply ancestor_trans; [exact Ha|by apply bestChain_descends].
Qed.

Lemma fold_justified (f : treeNode nat -> option nat) (ht : nat -> Z) l x0 :
  (exists p, x0 = Some p) \/ (exists c p, c ∈ l /\ f c = Some p) ->
  exists p, fold_left (fun selected child => match f child with
       | None => selected
       | Some c => match selected with
                   | None => Some c
                   | Some x => if ht c >? ht x then Some c else selected
                   end
       end) l x0 = Some p.
Proof.
  revert x0. induction l as [|c l IH]; intros x0 Hs; cbn [fold_left].
  - destruct Hs as [?|(c & p & Hc & _)]; [done|by apply not_elem_of_nil in Hc].
  - apply IH. destruct Hs as [(p & ->)|(c' & p & [->|Hc']%elem_of_cons & Hf)].
    + left. destruct (f c); [case_if|]; eauto.
    + left. rewrite Hf. destruct x0; [case_if|]; eauto.
    + right. eauto.
Qed.

Lemma lastJustified_some s : inv s -> exists p, lastJustified (get s) (tree s) = Some p.
Proof.
  intros [_ Ht]. pose proof (t_justified _ _ Ht) as Hj. destruct (tree s) as [r cs] eqn:Htr. cbn [lastJustified].
  apply (fold_justified (lastJustified (get s)) (fun p => Height (get s p))). unfold is_status.
  change (tn_cp (Node r cs)) with r in Hj. destruct Hj as [Hj|(_ & c & Hc & Hj)].
  - left. rewrite bool_decide_eq_true_2 by exact Hj. eauto.
  - right. apply elem_of_edges in Hc as [(_ & [c' ds] & Hc' & ->)|(c' & Hc' & He)].
    + exists (Node c' ds). cbn [lastJustified tn_cp] in *.
      destruct (fold_justified (lastJustified (get s)) (fun p => Height (get s p)) ds
                  (if is_status (get s) Justified c' then Some c' else None)) as [p Hp]; [|eauto].
      left. unfold is_status. rewrite bool_decide_eq_true_2 by exact Hj. eauto.
    + exfalso. pose proof (t_nodup _ _ Ht) as Hnd. destruct (NoDup_child r cs c' Hnd Hc') as [Hn _].
      by apply Hn, (edge_src _ _ _ He).
Qed.

(** C23.  In every state reached from the genesis checkpoint without a restart,
    applying a block (with fuel for its height), a round over the cached votes
    that does not target the root, and the query for the last justified checkpoint
    return a value or an error: no nil pointer, no index out of range, no endless
    walk over ancestors. Authenticating a vote for a checkpoint other than the
    root does so too, except when the vote has changed the best checkpoint: then
    its last request to the chain is for the new best checkpoint, and the call
    waits exactly as long as the reply, a parameter here, is missing
    ([rollback_deadlock] shows that in the composed system it is). *)
Theorem operations_return g s :
  world (blk_Hash g) = Some g -> blk_Height g = 0 -> reachable g s ->
  (forall fuel b ls, valid_block b -> Forall full ls -> blk_Height b <= Z.of_nat fuel -> returns (ApplyBlock fuel b ls s))
  /\ (forall msg, not_root_target s (m_TargetHash msg) ->
        let r := AuthVerification msg s in returns r \/ (r.1 = Blocks /\ unanswered s r.2))
  /\ (forall fuel h, enough_fuel fuel h -> not_root_target s h -> returns (authVerificationRound fuel h s))
  /\ returns (LastJustified s).
Proof.
  intros Hw Hh Hr. pose proof (reachable_inv g s Hw Hh Hr) as Hi. split_and!.
  - intros fuel b ls Hb Hf Hfuel. by apply ApplyBlock_safe.
  - intros msg Hm. destruct (AuthVerification_outcome msg s Hi Hm) as [_ Ho]. cbv zeta. unfold returns.
    destruct (AuthVerification msg s).1; auto.
  - intros fuel h Hf Hm. by apply wp_safe, wp_authVerificationRound.
  - destruct (lastJustified_some s Hi) as [p Hp]. unfold LastJustified, returns, gets, mbind, C_bind. by rewrite Hp.
Qed.

Lemma nodeByHash_root s : inv s -> exists n, nodeByHash_ (LastFinalized s).2 s = Some n /\ tn_cp n = tn_cp (tree s).
Proof.
  intros _. unfold nodeByHash_, nodeByHash, LastFinalized. destruct (tree s) as [r cs]. cbn [tn_cp findOnlyOne snd].
  rewrite bool_decide_eq_true_2 by done. by exists (Node r cs).
Qed.

(** C25.  [AuthVerification] panics exactly on the votes whose target is the root
    of the tree and whose source has a stored checkpoint: the parent of the root
    is a nil pointer, and it is read before any signature is checked. *)
Theorem AuthVerification_panics_iff g s msg :
  world (blk_Hash g) = Some g -> blk_Height g = 0 -> reachable g s ->
  (AuthVerification msg s).1 = Panics
  <-> m_TargetHash msg = (LastFinalized s).2 /\ exists p, (GetCheckpoint (m_SourceHash msg) s).1 = Ret p.
Proof.
  intros Hw Hh Hr. pose proof (reachable_inv g s Hw Hh Hr) as Hi. split.
  - intros Hp. destruct (decide (m_TargetHash msg = (LastFinalized s).2)) as [He|Hne].
    + split; [done|]. destruct (nodeByHash_root s Hi) as (n & Hn & Hroot).
      unfold AuthVerification, gets in Hp. unfold mbind, C_bind in Hp. rewrite He, Hn in Hp.
      pose proof (wp_GetCheckpoint (m_SourceHash msg) s Hi) as Hg. unfold wp in Hg.
      destruct (GetCheckpoint (m_SourceHash msg) s) as [[p|e| | |] s1]; [by exists p|done..].
    + destruct (AuthVerification_outcome msg s Hi Hne) as [_ Ho]. by rewrite Hp in Ho.
  - intros [He [p Hp]]. destruct (nodeByHash_root s Hi) as (n & Hn & Hroot).
    unfold AuthVerification, gets, mbind, C_bind. rewrite He, Hn.
    pose proof (wp_GetCheckpoint (m_SourceHash msg) s Hi) as Hg. unfold wp in Hg.
    destruct (GetCheckpoint (m_SourceHash msg) s) as [r s1]. cbn in Hp. subst r. destruct Hg as (_ & [Q1 Q2 _] & _).
    assert (Hnone : parent s1 (tn_cp n) = None).
    { unfold parent. rewrite Hroot, Q2 by apply tn_cp_nodes. destruct Hi as [_ Ht]. exact (t_root _ _ Ht). }
    unfold convertVerification, parentValidators, gets, mbind, C_bind. by rewrite Hnone.
Qed.
End Safety.
