(* ===== verification/Restart.v ===== *)
(** * A restart: [NewCasper], [makeTree] and the checkpoints of the database

    A node that starts again has its database and nothing else: no cache, no
    cached vote, no growing checkpoint.  It reads the checkpoints from the last
    saved finalized one on, in the order of their keys, and hangs them under one
    another by their parent hashes.

    Theorems: the loop of [makeTree] ends, and the tree holds exactly the
    checkpoints that descend from the root, each under its parent. *)

From S2P Require Import Prelude Encoding VMTypes Orphans Checkpoint Tree CasperState Casper CasperInv.
From Stdlib Require Import Strings.Byte.
#[local] Open Scope Z_scope.

(** The keys of a LevelDB iterator are in the order of their bytes. *)
Fixpoint insert_key {A} (x : bytes * A) (l : list (bytes * A)) : list (bytes * A) :=
  match l with
  | [] => [x]
  | y :: l' => if bytes_ltb x.1 y.1 then x :: l else y :: insert_key x l'
  end.
Definition sort_keys {A} (l : list (bytes * A)) : list (bytes * A) := foldr insert_key [] l.
(** [IteratorPrefixWithStart(prefix, start, false)]: from the first key that is not below [start]. *)
Definition IteratorPrefixWithStart {A} (prefix start : bytes) (db : gmap bytes A) : list (bytes * A) :=
  filter (fun '(k, _) => has_prefix prefix k = true /\ bytes_ltb k start = false) (sort_keys (map_to_list db)).

Section Restart.
Context {R : MapRange} {L : LRU} {Cr : Crypto} {N : Node_}.
#[local] Abbreviation C := (C (L := L)).

(** *** store_checkpoint.go *)

(** The iterator stands on the first key; the first value is read without the
    links of its header.  There is none when no key is left. *)
Definition CheckpointsFromNode (height : Z) (hash : Hash) : C (list Checkpoint) :=
  db ← gets db_checkpoints;
  match IteratorPrefixWithStart checkpointKeyPrefix (calcCheckpointKey height (Some hash)) db with
  | [] => fail ErrNotFound
  | (_, firstCheckpoint) :: iter =>
      subs ← loadCheckpointsFromIter (snd <$> iter);
      mret (firstCheckpoint :: subs)
  end.

(** *** tree_node.go *)

Definition add_successor (s : Casper L) (m : gmap Hash (list nat)) (successor : nat) : gmap Hash (list nat) :=
  let parentHash := ParentHash (get s successor) in
  <[parentHash := default [] (m !! parentHash) ++ [successor]]> m.
Definition parentToSuccessors (successors : list nat) (s : Casper L) : gmap Hash (list nat) :=
  foldl (add_successor s) ∅ successors.

Definition hang (node successor : nat) : C unit :=
  set_Parent successor (Some node) ;;
  modify (fun s => set_tree (add_child node successor (tree s)) s).
(** The queue of nodes. *)
Fixpoint makeTree_loop (fuel : nat) (m : gmap Hash (list nat)) (queue : list nat) : C unit :=
  match queue with
  | [] => mret tt
  | node :: queue =>
      match fuel with
      | O => no_fuel
      | S fuel =>
          c ← read node;
          let successors := default [] (m !! cp_Hash c) in
          mapM_ (hang node) successors ;;
          makeTree_loop fuel m (queue ++ successors)
      end
  end.
Definition makeTree (fuel root : nat) (successors : list nat) : C unit :=
  m ← gets (parentToSuccessors successors);
  modify (set_tree (Node root [])) ;;
  makeTree_loop fuel m [root].

(** *** casper.go and protocol.go *)

Fixpoint load_objects (cs : list Checkpoint) : C (list nat) :=
  match cs with
  | [] => mret []
  | c :: cs => p ← new (mkObj c None); ps ← load_objects cs; mret (p :: ps)
  end.
(** [NewCasper] panics on a first checkpoint that is neither the genesis' nor finalized. *)
Definition NewCasper (fuel : nat) (checkpoints : list Checkpoint) : C unit :=
  ps ← load_objects checkpoints;
  match ps with
  | [] => panics
  | root :: successors =>
      c ← read root;
      if negb (Height c =? 0) && negb (bool_decide (Status c = Finalized)) then panics
      else makeTree fuel root successors
  end.

(** The state over a database; a restart finds no more than that. *)
Definition database (blocks : gmap Hash stored) (checkpoints : gmap bytes Checkpoint) : Casper L := {|
  objs := [];
  tree := Node 0%nat [];
  db_blocks := blocks;
  db_checkpoints := checkpoints;
  lruCheckPoints := cache_New;
  prevCheckpointCache := cache_New;
  verificationCache := cache_New;
  posted := [];
  mux_stopped := false;
  newEpochCh := [];
  rollbackCh := [];
|}.
Definition reopen (s : Casper L) : Casper L := database (db_blocks s) (db_checkpoints s).
(** [newCasper] of protocol.go, on the saved status. *)
Definition newCasper (fuel : nat) (finalizedHeight : Z) (finalizedHash : Hash) : C unit :=
  checkpoints ← CheckpointsFromNode finalizedHeight finalizedHash;
  NewCasper fuel checkpoints.
End Restart.

(** ** The tree that is rebuilt *)

Section MakeTree.
Context {L : LRU}.
Implicit Types s : Casper L.
#[local] Abbreviation hash s p := (cp_Hash (get s p)).
#[local] Abbreviation parent_hash s p := (ParentHash (get s p)).

(** The checkpoints below the root, by parent hashes. *)
Inductive descends s (root : nat) (successors : list nat) : nat -> Prop :=
  | descends_root : descends s root successors root
  | descends_child p c : descends s root successors p -> c ∈ successors -> parent_hash s c = hash s p -> descends s root successors c.

Lemma parentToSuccessors_spec successors s h :
  default [] (parentToSuccessors successors s !! h) = filter (fun p => parent_hash s p = h) successors.
Proof.
  unfold parentToSuccessors. assert (forall m : gmap Hash (list nat), default [] (foldl (add_successor s) m successors !! h)
    = default [] (m !! h) ++ filter (fun p => parent_hash s p = h) successors) as ->.
  { induction successors as [|p ps IH]; intros m; cbn [foldl]; [by rewrite app_nil_r|]. rewrite IH, filter_cons. unfold add_successor.
    destruct (decide (parent_hash s p = h)) as [<-|Hne]; [rewrite lookup_insert_eq; cbn; by rewrite <- app_assoc|by rewrite lookup_insert_ne]. }
  by rewrite lookup_empty.
Qed.

(** *** Hanging successors under a node *)

Definition hang_state (node : nat) s (c : nat) : Casper L :=
  set_tree (add_child node c (tree s)) (upd (fun o => mkObj (o_cp o) (Some node)) c s).
Lemma hang_run node l s : mapM_ (hang node) l s = (Ret tt, foldl (hang_state node) s l).
Proof.
  revert s. induction l as [|c l IH]; intros s; [done|]. cbn [mapM_ foldl]. unfold mbind, C_bind, hang, set_Parent, modify. unfold mbind, C_bind in *.
  rewrite IH. unfold hang_state, upd. by rewrite tree_set_objs.
Qed.

Record hung (node : nat) (l : list nat) s s' : Prop := {
  hu_nodes : nodes (tree s') ≡ₚ nodes (tree s) ++ l;
  hu_root : tn_cp (tree s') = tn_cp (tree s);
  hu_edges e : e ∈ edges (tree s') <-> e ∈ edges (tree s) \/ exists c, c ∈ l /\ e = (node, c);
  hu_get p : get s' p = get s p;
  hu_len : length (objs s') = length (objs s);
  hu_parent c : c ∈ l -> (c < length (objs s))%nat -> parent s' c = Some node;
  hu_others c : c ∉ l -> parent s' c = parent s c;
}.

Lemma hang_one node c s :
  NoDup (nodes (tree s)) -> node ∈ nodes (tree s) -> hung node [c] s (hang_state node s c).
Proof.
  intros Hn Hin. assert (Ht : tree (hang_state node s c) = add_child node c (tree s)) by (by destruct s).
  assert (Ho : objs (hang_state node s c) = objs (upd (fun o => mkObj (o_cp o) (Some node)) c s)) by (by destruct s).
  split; rewrite ?Ht.
  - rewrite (nodes_add_child _ _ _ Hn Hin). by rewrite Permutation_app_comm.
  - apply tn_cp_add_child.
  - intros e. rewrite (edges_add_child _ _ _ _ Hn Hin). split.
    + intros [->|He]; [right; exists c; split; [left|done]|by left].
    + intros [He|(x & ->%list_elem_of_singleton & ->)]; [by right|by left].
  - intros p. unfold get. rewrite Ho. destruct (decide (p = c)) as [->|Hne]; [|by rewrite upd_ne].
    destruct (decide (c < length (objs s))%nat) as [Hc|Hc]; [by rewrite upd_eq|].
    unfold upd. rewrite objs_set_objs, !list_lookup_total_alt, list_lookup_alter_eq, lookup_ge_None_2; [done|lia].
  - rewrite Ho. apply upd_length.
  - intros x ->%list_elem_of_singleton Hc. unfold parent. rewrite Ho, upd_eq by done. done.
  - intros x Hx. unfold parent. rewrite Ho, upd_ne; [done|]. intros ->. apply Hx. left.
Qed.
Lemma hang_all node l s :
  NoDup (nodes (tree s) ++ l) -> node ∈ nodes (tree s) -> hung node l s (foldl (hang_state node) s l).
Proof.
  revert s. induction l as [|c l IH]; intros s Hn Hin; cbn [foldl].
  - split; try done; [by rewrite app_nil_r| |by intros c ?%not_elem_of_nil].
    intros e. split; [by left|]. intros [?|(c & ?%not_elem_of_nil & _)]; done.
  - assert (Hns : NoDup (nodes (tree s))) by (by apply NoDup_app in Hn as (? & _)).
    destruct (hang_one node c s Hns Hin) as [A1 A2 A3 A4 A5 A6 A7]. set (s1 := hang_state node s c) in *.
    destruct (IH s1) as [B1 B2 B3 B4 B5 B6 B7].
    + rewrite A1, <- app_assoc. exact Hn.
    + rewrite A1. apply elem_of_app. by left.
    + assert (Hcl : c ∉ l) by (apply NoDup_app in Hn as (_ & _ & Hn); by apply NoDup_cons in Hn as [? _]).
      split; [by rewrite B1, A1, <- app_assoc|by rewrite B2| |by intros p; rewrite B4|by rewrite B5| |].
      * intros e. rewrite B3, A3. split.
        -- intros [[?|(x & ->%list_elem_of_singleton & ->)]|(x & Hx & ->)]; [by left|right; exists c; split; [left|done]|right; exists x; split; [by right|done]].
        -- intros [?|(x & [->|Hx]%elem_of_cons & ->)]; [by left; left|left; right; exists c; split; [left|done]|right; eauto].
      * intros x Hx Hlt. destruct (decide (x ∈ l)) as [Hxl|Hxl]; [apply B6; [done|by rewrite A5]|].
        apply elem_of_cons in Hx as [->|Hx]; [|done]. rewrite B7 by done. apply A6; [left|done].
      * intros x [Hxc Hxl]%not_elem_of_cons. rewrite B7 by done. apply A7. by intros ->%list_elem_of_singleton.
Qed.

(** *** The queue *)

Record built s (root : nat) (ps finished queue : list nat) s' : Prop := {
  bu_nodes : nodes (tree s') ≡ₚ finished ++ queue;
  bu_root : tn_cp (tree s') = root;
  bu_nodup : NoDup (finished ++ queue);
  bu_descends p : p ∈ finished ++ queue -> descends s root ps p;
  bu_edges p c : (p, c) ∈ edges (tree s') <-> p ∈ finished /\ c ∈ ps /\ parent_hash s c = hash s p;
  bu_child c : c ∈ finished ++ queue -> c = root \/ exists p, (p, c) ∈ edges (tree s');
  bu_parent p c : (p, c) ∈ edges (tree s') -> parent s' c = Some p;
  bu_get p : get s' p = get s p;
  bu_len : length (objs s') = length (objs s);
}.

Lemma descends_in s root ps p : descends s root ps p -> p ∈ root :: ps.
Proof. intros [|q c _ Hc _]; [left|by right]. Qed.

Section Loop.
Context s (root : nat) (ps : list nat).
Context (Hhash : NoDup ((fun p => hash s p) <$> root :: ps)) (Hlen : forall p, p ∈ ps -> (p < length (objs s))%nat).

Lemma hash_inj p q : p ∈ root :: ps -> q ∈ root :: ps -> hash s p = hash s q -> p = q.
Proof.
  intros (i & Hi)%list_elem_of_lookup (j & Hj)%list_elem_of_lookup He.
  assert (i = j) as ->; [|congruence]. apply (NoDup_lookup _ _ _ (hash s p) Hhash); rewrite list_lookup_fmap; [by rewrite Hi|by rewrite Hj, He].
Qed.
Lemma pointers_NoDup : NoDup (root :: ps).
Proof. by eapply NoDup_fmap_1. Qed.

Lemma built_fresh finished node queue s' c :
  built s root ps finished (node :: queue) s' -> c ∈ ps -> parent_hash s c = hash s node -> c ∉ finished ++ node :: queue.
Proof.
  intros Hb Hc Hp Hin. destruct (bu_child _ _ _ _ _ _ Hb c Hin) as [->|(p & Hpc)].
  - pose proof pointers_NoDup as [? _]%NoDup_cons. done.
  - apply (bu_edges _ _ _ _ _ _ Hb) in Hpc as (Hpf & _ & He).
    assert (p = node) as ->.
    { apply hash_inj; [| |congruence]; apply (descends_in s), (bu_descends _ _ _ _ _ _ Hb); apply elem_of_app; [by left|right; left]. }
    pose proof (bu_nodup _ _ _ _ _ _ Hb) as (_ & Hd & _)%NoDup_app. apply (Hd node); [done|left].
Qed.

Lemma built_step finished node queue s' :
  built s root ps finished (node :: queue) s' ->
  let l := filter (fun p => parent_hash s p = hash s node) ps in
  built s root ps (finished ++ [node]) (queue ++ l) (foldl (hang_state node) s' l).
Proof.
  intros Hb l. assert (Hl : forall c, c ∈ l <-> c ∈ ps /\ parent_hash s c = hash s node) by (intros c; unfold l; rewrite list_elem_of_filter; tauto).
  assert (Hnd : NoDup (finished ++ node :: queue ++ l)).
  { change (node :: queue ++ l) with ((node :: queue) ++ l). rewrite app_assoc. apply NoDup_app. split_and!; [apply Hb| |].
    - intros c Hc [Hcp He]%Hl. by eapply built_fresh.
    - apply NoDup_filter. by pose proof pointers_NoDup as [_ ?]%NoDup_cons. }
  destruct (hang_all node l s') as [A1 A2 A3 A4 A5 A6 A7].
  { rewrite (bu_nodes _ _ _ _ _ _ Hb), <- app_assoc. exact Hnd. }
  { rewrite (bu_nodes _ _ _ _ _ _ Hb). apply elem_of_app. right. left. }
  set (s2 := foldl _ _ _) in *. destruct Hb as [B1 B2 B3 B4 B5 B6 B7 B8 B9].
  assert (Hsplit : (finished ++ [node]) ++ queue ++ l = finished ++ node :: queue ++ l) by (by rewrite <- app_assoc).
  assert (Hedge : forall p c, (p, c) ∈ edges (tree s2) <-> (p, c) ∈ edges (tree s') \/ p = node /\ c ∈ l).
  { intros p c. rewrite A3. split; [intros [?|(x & Hx & [= -> ->])]; eauto|intros [?|[-> Hc]]; eauto]. }
  assert (Hnode : descends s root ps node) by (apply B4, elem_of_app; right; left).
  assert (Helt : forall c, c ∈ finished ++ node :: queue ++ l -> c ∈ finished ++ node :: queue \/ c ∈ l).
  { intros c. rewrite !elem_of_app, !elem_of_cons, elem_of_app. tauto. }
  split; rewrite ?Hsplit.
  - rewrite A1, B1, <- app_assoc. done.
  - by rewrite A2.
  - done.
  - intros c [Hc|[Hc He]%Hl]%Helt; [by apply B4|by eapply descends_child].
  - intros p c. rewrite Hedge, B5, elem_of_app, list_elem_of_singleton, Hl. split.
    + intros [(? & ? & ?)|(-> & ? & ?)]; eauto.
    + intros ([Hp| ->] & ? & ?); eauto.
  - intros c [Hc|Hc]%Helt; [|right; exists node; apply Hedge; by right].
    destruct (B6 c Hc) as [|(p & Hp)]; [by left|right; exists p; apply Hedge; by left].
  - intros p c [Hpc|[-> Hc]]%Hedge; [|apply A6; [done|rewrite B9; by apply Hlen, Hl]].
    rewrite A7; [by apply B7|]. intros [Hcp He]%Hl. apply B5 in Hpc as (Hpf & _ & He').
    assert (p = node) as -> by (apply hash_inj; [apply (descends_in s), B4, elem_of_app; by left|by eapply descends_in|congruence]).
    apply NoDup_app in B3 as (_ & Hd & _). apply (Hd node); [done|left].
  - intros p. by rewrite A4.
  - by rewrite A5.
Qed.

Lemma makeTree_loop_spec fuel finished queue s' :
  built s root ps finished queue s' -> (length (root :: ps) <= length finished + fuel)%nat ->
  exists finished' s2, makeTree_loop fuel (parentToSuccessors ps s) queue s' = (Ret tt, s2) /\ built s root ps finished' [] s2.
Proof.
  revert finished queue s'. induction fuel as [|fuel IH]; intros finished [|node queue] s' Hb Hf; cbn [makeTree_loop]; try (by exists finished, s').
  - assert (length (finished ++ node :: queue) <= length (root :: ps))%nat as Hle.
    { apply submseteq_length, NoDup_submseteq; [apply Hb|]. intros p Hp. by eapply descends_in, bu_descends. }
    rewrite length_app in Hle. cbn [length] in Hle, Hf. lia.
  - unfold mbind at 1, C_bind at 1, read, gets. rewrite (bu_get _ _ _ _ _ _ Hb node), parentToSuccessors_spec.
    unfold mbind, C_bind. rewrite hang_run. apply (IH (finished ++ [node])); [by apply built_step|].
    rewrite length_app. cbn [length] in *. lia.
Qed.

Lemma makeTree_built fuel :
  (length ps < fuel)%nat -> exists finished s2, makeTree fuel root ps s = (Ret tt, s2) /\ built s root ps finished [] s2.
Proof.
  intros Hf. unfold makeTree. unfold mbind at 1, C_bind at 1, gets. unfold mbind at 1, C_bind at 1, modify.
  apply (makeTree_loop_spec fuel []); [|cbn; lia]. destruct s as [o t b d l p v q m n r]. split; cbn [set_tree tree objs nodes edges].
  - done.
  - done.
  - apply NoDup_singleton.
  - intros p0 ->%list_elem_of_singleton. constructor.
  - intros p0 c. split; [by intros ?%not_elem_of_nil|by intros (?%not_elem_of_nil & _)].
  - intros c ->%list_elem_of_singleton. by left.
  - by intros p0 c ?%not_elem_of_nil.
  - done.
  - done.
Qed.
End Loop.

(** C24.  [makeTree] ends and rebuilds the tree: from checkpoints with different
    hashes, its nodes are exactly the root and the checkpoints that descend from
    it by their parent hashes, each once, its edges exactly the pairs of such a
    checkpoint and a child of it, and [Parent] of a node points to the node above.
    *)
Theorem makeTree_spec fuel root ps s :
  NoDup ((fun p => hash s p) <$> root :: ps) -> (forall p, p ∈ ps -> (p < length (objs s))%nat) -> (length ps < fuel)%nat ->
  exists s', makeTree fuel root ps s = (Ret tt, s')
    /\ tn_cp (tree s') = root /\ NoDup (nodes (tree s'))
    /\ (forall p, p ∈ nodes (tree s') <-> descends s root ps p)
    /\ (forall p c, (p, c) ∈ edges (tree s') <-> descends s root ps p /\ c ∈ ps /\ parent_hash s c = hash s p)
    /\ (forall p c, (p, c) ∈ edges (tree s') -> parent s' c = Some p)
    /\ forall p, get s' p = get s p.
Proof.
  intros Hh Hl Hf. destruct (makeTree_built s root ps Hh Hl fuel Hf) as (fin & s2 & Hrun & Hb). exists s2. destruct Hb as [B1 B2 B3 B4 B5 B6 B7 B8 B9].
  rewrite app_nil_r in *.
  assert (Hiff : forall p, p ∈ nodes (tree s2) <-> descends s root ps p).
  { intros p. rewrite B1. split; [apply B4|]. induction 1 as [|p c _ IH Hc He].
    - rewrite <- B2, <- B1. destruct (tree s2). left.
    - rewrite <- B1. eapply edges_nodes, B5. done. }
  split_and!; try done.
  - by rewrite B1.
  - intros p c. by rewrite B5, <- Hiff, B1.
Qed.
End MakeTree.
