(* ===== verification/CasperRuns.v ===== *)
(** * The consensus on concrete chains

    A network with epochs of two blocks and one federation key, on which the
    operations are evaluated: the witnesses of the theorems of
    [CasperSafety.v], and the runs that show what the checks let through. *)

From S2P Require Import Prelude Encoding VMTypes Orphans Checkpoint Tree CasperState Casper CasperInv CasperSpec CasperBlocks CasperSafety.
From Stdlib Require Import Strings.Byte.
#[local] Open Scope Z_scope.

(** Two keys: [K0] is the federation's, [K1] and [K2] are voted in. *)
Definition K0 : bytes := hex_encode [x01].
Definition K1 : bytes := hex_encode [x05].
Definition K2 : bytes := hex_encode [x06].

#[export] Instance RunNode : Node_ := {|
  net := mkNet 6000 2 10 [K0];
  node_XPub := [x99];
  node_Sign := fun m => m;
  chain_reply := fun _ _ => Some None;
|}.
#[export] Existing Instance StubCrypto.

#[export] Instance RunNode_laws : NodeLaws RunNode.
Proof.
  split; cbn.
  - lia.
  - apply NoDup_singleton.
  - unfold MaxNumOfValidators. lia.
  - intros pk m Hpk. apply bool_decide_eq_false. destruct pk; [done|]. by cbn.
Defined.

(** The signature the stand-in scheme accepts. *)
Definition sign (key : bytes) (source target : Hash) : bytes :=
  take 32 (default [] (hex_decode key) ++ replicate 64 x00) ++ sha3_256 (source ++ target).
Definition vote (key : bytes) (source target : Hash) : ValidCasperSignMsg :=
  mkMsg source target (sign key source target) key.

(** A block with a coinbase and the given vote outputs. *)
Definition mk_block (hash prev : Hash) (height : Z) (votes : list (bytes * Z)) : cp_block :=
  mkCpBlock height hash prev (1000 * height)
    [mkCpTx [] (mkOutput BTMAssetID 0 [x51] None :: ((fun '(k, n) => mkOutput BTMAssetID n [x51] (Some k)) <$> votes))].

(** Block [i] of the branch [c]; the branches leave the genesis block. *)
Definition blk (c : byte) (i : nat) (votes : list (bytes * Z)) : cp_block :=
  mk_block [c; z2b (Z.of_nat i)] (if (i <=? 1)%nat then [x00] else [c; z2b (Z.of_nat i - 1)]) (Z.of_nat i) votes.
Definition genesis : cp_block := mk_block [x00] [xff] 0 [].

(** Branch [a] votes for [K1] in its first epoch, and for [K2] in its second. *)
Definition branch_a : list cp_block :=
  [blk x0a 1 [([x05], 20)]; blk x0a 2 []; blk x0a 3 [([x06], 30)]; blk x0a 4 []; blk x0a 5 []; blk x0a 6 []].
Definition branch_b : list cp_block :=
  [blk x0b 1 []; blk x0b 2 []; blk x0b 3 []; blk x0b 4 []; blk x0b 5 []; blk x0b 6 []].
(** Branch [c] is without votes, like [b]. *)
Definition branch_c : list cp_block := [blk x0c 1 []; blk x0c 2 []; blk x0c 3 []; blk x0c 4 []].

Definition all_blocks : list cp_block := genesis :: branch_a ++ branch_b ++ branch_c.
Definition run_world (h : Hash) : option cp_block := List.find (fun b => bool_decide (blk_Hash b = h)) all_blocks.

Lemma run_world_in h b : run_world h = Some b -> b ∈ all_blocks /\ blk_Hash b = h.
Proof. intros [Hin Hh]%List.find_some. apply bool_decide_eq_true in Hh. split; [by apply list_elem_of_In|done]. Qed.

(** What the laws ask of a block, as a test. *)
Definition block_ok (b : cp_block) : bool :=
  match run_world (blk_Prev b) with
  | None => blk_Height b =? 0
  | Some p => blk_Height b =? blk_Height p + 1
  end
  && (0 <=? blk_Height b) && (blk_Height b <=? MaxUint64)
  && match head (blk_Txs b) with Some t => match head (Outputs t) with Some _ => true | None => false end | None => false end.

Lemma all_blocks_ok b : b ∈ all_blocks -> block_ok b = true.
Proof.
  intros Hb. assert (Hall : forallb block_ok all_blocks = true) by (vm_compute; reflexivity).
  rewrite forallb_forall in Hall. by apply Hall, list_elem_of_In.
Qed.

#[export] Instance RunWorld : World.
Proof.
  refine {| world := run_world |}.
  - intros h b Hw. by apply run_world_in in Hw as [_ ?].
  - intros h b [Hin _]%run_world_in. apply all_blocks_ok in Hin. unfold block_ok in Hin. zbool.
    destruct (run_world (blk_Prev b)) as [p|]; [right; exists p; split; [done|lia]|left; split; [lia|done]].
  - intros h b [Hin _]%run_world_in. apply all_blocks_ok in Hin. unfold block_ok in Hin. zbool. lia.
  - intros h b [Hin _]%run_world_in. apply all_blocks_ok in Hin. unfold block_ok in Hin. zbool.
    destruct (head (blk_Txs b)) as [t|]; [|done]. destruct (head (Outputs t)) as [o|] eqn:Ho; [|done]. by exists t, o.
Defined.

(** [saveBlock] of the chain: [ApplyBlock], then [SaveBlock]. *)
Definition apply_save (ls : list SupLink) (b : cp_block) (s : Casper MapLRU) : Casper MapLRU :=
  match ApplyBlock 10 b ls s with
  | (Ret (_, ls), s') => (SaveBlock b ls s').2
  | (_, s') => s'
  end.
Definition apply_all (bs : list cp_block) (s : Casper MapLRU) : Casper MapLRU := foldl (fun s b => apply_save [] b s) s bs.
Definition auth_all (ms : list ValidCasperSignMsg) (s : Casper MapLRU) : Casper MapLRU :=
  foldl (fun s m => (AuthVerification m s).2) s ms.

(** The hash and status of every checkpoint of the tree. *)
Definition statuses (s : Casper MapLRU) : list (Hash * CheckpointStatus) :=
  map (fun p => (cp_Hash (get s p), Status (get s p))) (nodes (tree s)).

Definition a (i : Z) : Hash := [x0a; z2b i].
Definition b (i : Z) : Hash := [x0b; z2b i].
Definition c (i : Z) : Hash := [x0c; z2b i].

(** *** The runs are reachable *)

#[export] Instance cp_block_eq_dec : EqDecision cp_block.
Proof.
  assert (EqDecision typed_input) by solve_decision. assert (EqDecision tx_output) by solve_decision.
  assert (EqDecision cp_tx) by solve_decision. solve_decision.
Defined.

Definition valid_blockb (b : cp_block) : bool := bool_decide (b ∈ all_blocks) && (0 <? blk_Height b) && (blk_Height b <=? 10).

Lemma world_in b : b ∈ all_blocks -> run_world (blk_Hash b) = Some b.
Proof.
  intros Hb. assert (Hall : forallb (fun b => bool_decide (run_world (blk_Hash b) = Some b)) all_blocks = true)
    by (vm_compute; reflexivity).
  rewrite forallb_forall in Hall. eapply bool_decide_eq_true, Hall. by apply list_elem_of_In.
Qed.

Lemma valid_blockb_spec b : valid_blockb b = true -> valid_block b /\ blk_Height b <= 10.
Proof.
  unfold valid_blockb. intros Hb. zbool. split; [|done]. split; [|lia].
  apply world_in. by eapply bool_decide_eq_true.
Qed.

Lemma apply_save_reachable ls b s :
  valid_blockb b = true -> Forall full ls -> reachable genesis s -> reachable genesis (apply_save ls b s).
Proof.
  intros [Hb Hh]%valid_blockb_spec Hf Hr.
  assert (Hi : inv s) by (apply (reachable_inv genesis); [vm_compute; reflexivity|vm_compute; reflexivity|exact Hr]).
  assert (H1 : reachable genesis (ApplyBlock 10 b ls s).2) by (eapply rtc_r; [exact Hr|by apply step_ApplyBlock]).
  unfold apply_save. pose proof (wp_ApplyBlock 10 b ls s Hi Hb Hf Hh) as Hw. unfold wp in Hw.
  destruct (ApplyBlock 10 b ls s) as [[[h ls']|e| | |] s']; cbn in H1; try done.
  destruct Hw as [_ Hls]. cbn in Hls. eapply rtc_r; [exact H1|by apply step_SaveBlock].
Qed.

Lemma apply_all_reachable bs s :
  forallb valid_blockb bs = true -> reachable genesis s -> reachable genesis (apply_all bs s).
Proof.
  revert s. induction bs as [|b bs IH]; intros s Hv Hr; [done|]. cbn in Hv. apply andb_true_iff in Hv as [Hb Hbs].
  apply IH; [done|]. by apply apply_save_reachable.
Qed.

Definition not_root_b (m : ValidCasperSignMsg) (s : Casper MapLRU) : bool :=
  negb (bool_decide (m_TargetHash m = (LastFinalized s).2)).
Lemma auth_reachable m s :
  not_root_b m s = true -> reachable genesis s -> reachable genesis (AuthVerification m s).2.
Proof.
  intros Hm Hr. eapply rtc_r; [exact Hr|]. apply step_AuthVerification. unfold not_root_b in Hm.
  by apply negb_true_iff, bool_decide_eq_false in Hm.
Qed.

(** *** Ancestors, by computation *)

Fixpoint chain_of (fuel : nat) (h : Hash) : list Hash :=
  match fuel with
  | O => [h]
  | S fuel => h :: match run_world h with
                   | Some b => if 0 <? blk_Height b then chain_of fuel (blk_Prev b) else []
                   | None => []
                   end
  end.

Lemma ancestor_chain x h fuel :
  ancestor x h -> (forall z, height_of h = Some z -> z <= Z.of_nat fuel) -> x ∈ chain_of fuel h.
Proof.
  intros Ha. revert fuel. induction Ha as [|h blk Hw Hpos Ha IH]; intros fuel Hf; [destruct fuel; left|].
  assert (Hz : height_of h = Some (blk_Height blk)) by (unfold height_of; by rewrite Hw).
  specialize (Hf _ Hz). destruct fuel as [|fuel]; [lia|]. cbn [chain_of].
  change (run_world h = Some blk) in Hw. rewrite Hw. replace (0 <? blk_Height blk) with true by lia. right. apply IH.
  intros z Hp. pose proof (height_of_prev h blk z Hw Hpos Hp). lia.
Qed.

(** ** Finality is not safe *)

Definition two_branches : Casper MapLRU := apply_all (branch_b ++ branch_c) (init genesis).
Definition vote_c : ValidCasperSignMsg := vote K0 (c 2) (c 4).
Definition vote_b : ValidCasperSignMsg := vote K0 (b 4) (b 6).

(** Two conflicting branches are finalized from one state, each by a single vote
    of one validator: the source of a vote need not be justified, so that the link
    from an unjustified checkpoint to its child finalizes it. *)
Theorem unjustified_source_splits_finality :
  reachable genesis two_branches
  /\ statuses two_branches = [([x00], Justified); (b 2, Unjustified); (b 4, Unjustified); (b 6, Unjustified);
                              (c 2, Unjustified); (c 4, Unjustified)]
  /\ (AuthVerification vote_c two_branches).1 = Ret tt /\ (AuthVerification vote_b two_branches).1 = Ret tt
  /\ LastFinalized (AuthVerification vote_c two_branches).2 = (2, c 2)
  /\ LastFinalized (AuthVerification vote_b two_branches).2 = (4, b 4)
  /\ ~ ancestor (c 2) (b 4) /\ ~ ancestor (b 4) (c 2).
Proof.
  assert (Hanc : forall x h, x ∉ chain_of 10 h -> (forall z, height_of h = Some z -> z <= 10) -> ~ ancestor x h).
  { intros x h Hx Hz Ha. by apply Hx, ancestor_chain. }
  split; [apply apply_all_reachable; [vm_compute; reflexivity|apply rtc_refl]|].
  do 5 (split; [vm_compute; reflexivity|]).
  split; (apply Hanc; [|intros z Hz; vm_compute in Hz; by injection Hz as <-]);
    apply (bool_decide_eq_false_1 (_ ∈ _)); vm_compute; reflexivity.
Qed.

(** ** What the vote checks let through *)

(** Two votes of one validator for one target, from different sources, are both
    accepted and posted, although the comment on [verifySameHeight] forbids it. *)
Theorem two_votes_for_one_target :
  let s := apply_all branch_b (init genesis) in
  let s1 := (AuthVerification (vote K0 [x00] (b 4)) s).2 in
  reachable genesis s
  /\ (AuthVerification (vote K0 [x00] (b 4)) s).1 = Ret tt
  /\ (AuthVerification (vote K0 (b 2) (b 4)) s1).1 = Ret tt
  /\ posted (AuthVerification (vote K0 (b 2) (b 4)) s1).2 = [vote K0 [x00] (b 4); vote K0 (b 2) (b 4)].
Proof.
  intros s s1. split; [apply apply_all_reachable; [vm_compute; reflexivity|apply rtc_refl]|].
  do 2 (split; [vm_compute; reflexivity|]). vm_compute. reflexivity.
Qed.

(** The check for surrounding votes compares validators by their order in
    different validator sets: after a vote of one validator the first vote of
    another, which has the same order in a later set, is rejected, while the
    surrounding vote of the first is accepted. *)
Theorem surround_check_by_order :
  let s := apply_all branch_a (init genesis) in
  let s1 := (AuthVerification (vote K1 (a 2) (a 4)) s).2 in
  reachable genesis s
  /\ (AuthVerification (vote K1 (a 2) (a 4)) s).1 = Ret tt
  /\ (AuthVerification (vote K1 [x00] (a 6)) s1).1 = Ret tt
  /\ (AuthVerification (vote K2 [x00] (a 6)) s1).1 = Fail ErrSpanHeightInVerification
  /\ forall m, m ∈ posted s1 -> m_PubKey m <> K2.
Proof.
  intros s s1. split; [apply apply_all_reachable; [vm_compute; reflexivity|apply rtc_refl]|].
  do 3 (split; [vm_compute; reflexivity|]). intros m. replace (posted s1) with [vote K1 (a 2) (a 4)] by (vm_compute; reflexivity).
  by intros ->%list_elem_of_singleton.
Qed.

(** A link with bytes that are no signature, for the validator of order 0. *)
Definition garbage : SupLink := mkSup 2 (c 2) ([x00] :: replicate 9 []).

(** The check for two votes of one height trusts the links of stored
    headers, which no one has verified and the block hash does not cover: a block
    with garbage in its links is stored like the honest one, and makes an honest
    vote fail. *)
Theorem garbage_signature_silences :
  let s := apply_all (branch_b ++ take 3 branch_c) (init genesis) in
  let honest := apply_save [] (blk x0c 4 []) s in
  let attacked := apply_save [garbage] (blk x0c 4 []) s in
  reachable genesis honest /\ reachable genesis attacked
  /\ statuses attacked = statuses honest
  /\ (AuthVerification (vote K0 (b 2) (b 4)) honest).1 = Ret tt
  /\ (AuthVerification (vote K0 (b 2) (b 4)) attacked).1 = Fail ErrSameHeightInVerification.
Proof.
  intros s honest attacked.
  assert (Hs : reachable genesis s) by (apply apply_all_reachable; [vm_compute; reflexivity|apply rtc_refl]).
  split; [apply apply_save_reachable; [vm_compute; reflexivity|constructor|done]|].
  split; [apply apply_save_reachable; [vm_compute; reflexivity|by repeat constructor|done]|].
  do 2 (split; [vm_compute; reflexivity|]). vm_compute. reflexivity.
Qed.

(** Applying a block of the middle of an epoch again adds a checkpoint to the
    tree: the test for a known block only finds the last block of a checkpoint. *)
Theorem ApplyBlock_not_idempotent :
  let s := apply_all (take 2 branch_b) (init genesis) in
  reachable genesis s
  /\ statuses s = [([x00], Justified); (b 2, Unjustified)]
  /\ statuses (ApplyBlock 10 (blk x0b 1 []) [] s).2 = [([x00], Justified); (b 2, Unjustified); (b 1, Growing)].
Proof.
  intros s. split; [apply apply_all_reachable; [vm_compute; reflexivity|apply rtc_refl]|].
  split; vm_compute; reflexivity.
Qed.

(** ** Instances of the theorems of [CasperSafety.v] *)

Definition justified_state : Casper MapLRU := (AuthVerification vote_c two_branches).2.

Lemma justified_reachable : reachable genesis justified_state.
Proof.
  apply auth_reachable; [vm_compute; reflexivity|]. apply apply_all_reachable; [vm_compute; reflexivity|apply rtc_refl].
Qed.

Definition root_ptr : nat := tn_cp (tree justified_state).
Definition child_ptr : nat := default 0%nat (tn_cp <$> head (tn_children (tree justified_state))).

Lemma justified_supermajority_witness :
  exists l, l ∈ SupLinks (get justified_state child_ptr) /\ SourceHeight l < 4.
Proof.
  destruct (justified_supermajority genesis justified_state root_ptr child_ptr) as (l & H1 & _ & H2 & _).
  - vm_compute. reflexivity.
  - reflexivity.
  - exact justified_reachable.
  - apply (bool_decide_eq_true_1 ((root_ptr, child_ptr) ∈ edges (tree justified_state))). vm_compute. reflexivity.
  - vm_compute. reflexivity.
  - exists l. split; [exact H1|]. replace 4 with (Height (get justified_state child_ptr)) by (vm_compute; reflexivity). exact H2.
Defined.

Definition voted_twice : Casper MapLRU :=
  (AuthVerification (vote K0 (b 2) (b 4)) (AuthVerification (vote K0 [x00] (b 2)) (apply_all branch_b (init genesis))).2).2.
Definition voted_root : nat := tn_cp (tree voted_twice).
Definition voted_child : nat := default 0%nat (tn_cp <$> head (tn_children (tree voted_twice))).
Definition link_from (p : nat) : SupLink := default garbage (head (SupLinks (get voted_twice p))).

Lemma no_surrounding_votes_witness :
  ~ (2 < 0 /\ 0 < Height (get voted_twice voted_root)
     /\ Height (get voted_twice voted_root) < Height (get voted_twice voted_child)).
Proof.
  pose proof (no_surrounding_votes genesis voted_twice voted_root voted_child (link_from voted_root) (link_from voted_child) 0) as H.
  replace (SourceHeight (link_from voted_child)) with 2 in H by (vm_compute; reflexivity).
  replace (SourceHeight (link_from voted_root)) with 0 in H by (vm_compute; reflexivity). apply H.
  - vm_compute. reflexivity.
  - reflexivity.
  - apply auth_reachable; [vm_compute; reflexivity|]. apply auth_reachable; [vm_compute; reflexivity|].
    apply apply_all_reachable; [vm_compute; reflexivity|apply rtc_refl].
  - apply (bool_decide_eq_true_1 (_ ∈ _)). vm_compute. reflexivity.
  - apply (bool_decide_eq_true_1 (_ ∈ _)). vm_compute. reflexivity.
  - replace (SupLinks (get voted_twice voted_root)) with [link_from voted_root] by (vm_compute; reflexivity). left.
  - replace (SupLinks (get voted_twice voted_child)) with [link_from voted_child] by (vm_compute; reflexivity). left.
  - vm_compute. reflexivity.
  - vm_compute. reflexivity.
Defined.

Lemma finality_witness : ancestor [x00] (c 2) /\ ancestor [x00] (bestChain justified_state).
Proof.
  pose proof (finality genesis (init genesis) justified_state) as H.
  replace (LastFinalized (init genesis)).2 with ([x00] : Hash) in H by (vm_compute; reflexivity).
  replace (LastFinalized justified_state).2 with (c 2) in H by (vm_compute; reflexivity). apply H.
  - vm_compute. reflexivity.
  - reflexivity.
  - apply rtc_refl.
  - exact justified_reachable.
Defined.

Lemma operations_return_witness :
  returns (LastJustified justified_state) /\ returns (AuthVerification vote_b justified_state).
Proof.
  destruct (operations_return genesis justified_state) as (_ & H1 & _ & H2).
  - vm_compute. reflexivity.
  - reflexivity.
  - exact justified_reachable.
  - split; [exact H2|]. assert (Hm : not_root_target justified_state (m_TargetHash vote_b)).
    { unfold not_root_target. replace (LastFinalized justified_state).2 with (c 2) by (vm_compute; reflexivity). discriminate. }
    assert (Hv : (AuthVerification vote_b justified_state).1 = Ret tt) by (vm_compute; reflexivity).
    specialize (H1 vote_b Hm). cbv zeta in H1. destruct H1 as [H1|[H1 _]]; [exact H1|rewrite Hv in H1; discriminate H1].
Defined.

(** A message that names the root crashes the node, without a key or a signature. *)
Lemma AuthVerification_panics_iff_witness : (AuthVerification (mkMsg [x00] [x00] [] []) (init genesis)).1 = Panics.
Proof.
  apply (AuthVerification_panics_iff genesis (init genesis)).
  - vm_compute. reflexivity.
  - reflexivity.
  - apply rtc_refl.
  - split; [vm_compute; reflexivity|]. exists 1%nat. vm_compute. reflexivity.
Defined.
