(* ===== verification/RestartRuns.v ===== *)
(** * A restart on a concrete chain

    The runs of [CasperRuns.v], with a restart in between: what a checkpoint
    carries after it was read back from the database, and what its links count
    for. *)

From S2P Require Import Prelude Encoding VMTypes Orphans Checkpoint Tree CasperState Casper CasperInv CasperSpec CasperBlocks CasperSafety CasperRuns Restart.
From Stdlib Require Import Strings.Byte.
#[local] Open Scope Z_scope.

(** The node starts again, with the genesis block as the last finalized one. *)
Definition restarted (s : Casper MapLRU) : Casper MapLRU := (newCasper 10 0 [x00] (reopen s)).2.

(** Bytes that are no signature, for the validator of order 0: [K2], with the
    most votes. *)
Definition forged : SupLink := mkSup 4 (a 4) ([x00] :: replicate 9 []).
Definition before_forged : Casper MapLRU := apply_all (take 5 branch_a) (init genesis).
Definition with_forged : Casper MapLRU := apply_save [forged] (blk x0a 6 []) before_forged.
Definition vote_1 : ValidCasperSignMsg := vote K1 (a 4) (a 6).

Definition validators_of (h : Hash) (s : Casper MapLRU) : gmap bytes Validator :=
  match nodeByHash_ h s with Some n => EffectiveValidators net (get s (tn_cp n)) | None => ∅ end.

(** After a restart signatures nobody has verified count for a supermajority:
    the links of the checkpoints are read from the stored headers, where the node
    keeps whatever came with a block.  A block with bytes in its links that are no
    signature is stored like any other; the vote of one of two validators then
    finalizes its parent on the node that was restarted, and not on the others. *)
Theorem restart_counts_forged :
  reachable genesis with_forged
  /\ statuses (restarted with_forged) = statuses with_forged
  /\ size (validators_of (a 4) with_forged) = 2%nat /\ Order <$> validators_of (a 4) with_forged !! K2 = Some 0%nat
  /\ xpub_verify (default [] (hex_decode K2)) (sha3_256 (a 4 ++ a 6)) (Signatures forged !!! 0%nat) = false
  /\ (AuthVerification vote_1 with_forged).1 = Ret tt /\ LastFinalized (AuthVerification vote_1 with_forged).2 = (0, [x00])
  /\ (AuthVerification vote_1 (restarted with_forged)).1 = Ret tt
  /\ LastFinalized (AuthVerification vote_1 (restarted with_forged)).2 = (4, a 4).
Proof.
  split; [|do 7 (split; [vm_compute; reflexivity|]); vm_compute; reflexivity].
  apply apply_save_reachable; [vm_compute; reflexivity|by repeat constructor|].
  apply apply_all_reachable; [vm_compute; reflexivity|apply rtc_refl].
Qed.

(** The four checkpoints, loaded in the order of their keys. *)
Definition loaded : Casper MapLRU := set_objs (flip mkObj None <$> match CheckpointsFromNode 0 [x00] (reopen with_forged) with (Ret cs, _) => cs | _ => [] end) (reopen with_forged).

Lemma makeTree_spec_witness :
  exists s', makeTree 5 0 [1; 2; 3]%nat loaded = (Ret tt, s') /\ NoDup (nodes (tree s')) /\ 3%nat ∈ nodes (tree s')
    /\ forall p c, (p, c) ∈ edges (tree s') -> parent s' c = Some p.
Proof.
  destruct (makeTree_spec 5 0%nat [1; 2; 3]%nat loaded) as (s' & H1 & _ & H2 & H3 & _ & H4 & _).
  - apply (bool_decide_unpack _). vm_compute. exact I.
  - intros p Hp. repeat (apply elem_of_cons in Hp as [->|Hp]; [vm_compute; lia|]). by apply not_elem_of_nil in Hp.
  - cbn. lia.
  - exists s'. split; [exact H1|]. split; [exact H2|]. split; [|exact H4]. apply H3.
    apply (descends_child _ _ _ 2%nat); [|do 2 right; left|vm_compute; reflexivity].
    apply (descends_child _ _ _ 1%nat); [|right; left|vm_compute; reflexivity].
    apply (descends_child _ _ _ 0%nat); [constructor|left|vm_compute; reflexivity].
Defined.
