(* ===== verification/Rollback.v ===== *)
(** * The consensus and the chain together: the rollback request

    [AuthVerification] holds the mutex of [Casper] while it asks the chain to
    roll back and waits for the reply ([tryRollback]); the chain answers from
    its only goroutine, [blockProcessor] of protocol/block.go, which takes the
    same mutex in [ApplyBlock], [BestChain] and, through [setState] of
    protocol.go, in [LastFinalized].  The calls of [AuthVerification] and the
    block processor are threads; a step is a part that no other thread can
    interrupt. *)

From S2P Require Import Prelude Encoding VMTypes Orphans Checkpoint Tree CasperState Casper CasperInv CasperSpec CasperBlocks CasperSafety CasperRuns.
From Stdlib Require Import Strings.Byte.
#[local] Open Scope Z_scope.

Section Rollback.
Context {R : MapRange} {L : LRU} {Cr : Crypto} {N : Node_}.

(** ** Threads *)

Inductive auth_pc :=
  | Called (msg : ValidCasperSignMsg)   (* at c.mu.Lock() *)
  | Sending (h : Hash)                  (* at c.rollbackCh <- msg, with the mutex *)
  | Waiting (h : Hash)                  (* at <-msg.Reply, with the mutex *)
  | Returned.

Inductive chain_pc :=
  | Idle                                             (* at the select of blockProcessor *)
  | Applying (b : cp_block) (links : list SupLink)   (* at c.mu.Lock() of ApplyBlock *)
  | Choosing                                         (* at BestChain() of processBlock *)
  | Reorganizing (h : Hash) (reply : option nat)     (* at LastFinalized() of setState *)
  | Replying (i : nat).                              (* at msg.Reply <- *)

Record system := mkSystem {
  sy_casper : Casper L;
  sy_mu : option nat;              (* the call that holds the mutex between steps *)
  sy_calls : list auth_pc;
  sy_chain : chain_pc;
  sy_rollbackCh : list (nat * Hash);
  sy_best : Hash;                  (* of bestBlockHeader *)
}.

Definition maxRollbackChSize : nat := 64.

(** [reorganizeChain] from the best block to another fails before [setState]. *)
Variable fails : Hash -> Hash -> bool.

(** [tryReorganize]: [None] when it returns without [setState]. *)
Definition tryReorganize (best h : Hash) : option Hash :=
  if bool_decide (best = h) || fails best h then None else Some h.

Inductive sys_step : system -> system -> Prop :=
  (* a peer's message arrives *)
  | sys_call s mu calls ch q best msg :
      sys_step (mkSystem s mu calls ch q best) (mkSystem s mu (calls ++ [Called msg]) ch q best)
  | sys_auth i msg s s' calls ch q best r :
      calls !! i = Some (Called msg) -> auth_locked msg s = (r, s') ->
      (r = Ret None \/ exists e, r = Fail e) ->
      sys_step (mkSystem s None calls ch q best) (mkSystem s' None (<[i := Returned]> calls) ch q best)
  | sys_auth_rollback i msg s s' calls ch q best h :
      calls !! i = Some (Called msg) -> auth_locked msg s = (Ret (Some h), s') ->
      sys_step (mkSystem s None calls ch q best) (mkSystem s' (Some i) (<[i := Sending h]> calls) ch q best)
  | sys_send i h s mu calls ch q best :
      calls !! i = Some (Sending h) -> (length q < maxRollbackChSize)%nat ->
      sys_step (mkSystem s mu calls ch q best) (mkSystem s mu (<[i := Waiting h]> calls) ch (q ++ [(i, h)]) best)
  | sys_reply i h s mu calls q best :
      calls !! i = Some (Waiting h) ->
      sys_step (mkSystem s mu calls (Replying i) q best) (mkSystem s None (<[i := Returned]> calls) Idle q best)
  (* the block processor: a block to apply, directly or as an orphan of the last one *)
  | sys_block s mu calls ch q best b links :
      ch = Idle \/ ch = Choosing ->
      sys_step (mkSystem s mu calls ch q best) (mkSystem s mu calls (Applying b links) q best)
  | sys_apply fuel s s' calls q best b links h links' :
      ApplyBlock fuel b links s = (Ret (h, links'), s') ->
      sys_step (mkSystem s None calls (Applying b links) q best) (mkSystem (SaveBlock b links' s').2 None calls Choosing q best)
  | sys_apply_fail fuel s s' calls q best b links e :
      ApplyBlock fuel b links s = (Fail e, s') ->
      sys_step (mkSystem s None calls (Applying b links) q best) (mkSystem s' None calls Idle q best)
  | sys_choose s calls q best :
      sys_step (mkSystem s None calls Choosing q best)
               (mkSystem s None calls (match tryReorganize best (bestChain s) with Some h => Reorganizing h None | None => Idle end) q best)
  | sys_rollback s mu calls q best i h :
      sys_step (mkSystem s mu calls Idle ((i, h) :: q) best)
               (mkSystem s mu calls (match tryReorganize best h with Some h => Reorganizing h (Some i) | None => Replying i end) q best)
  | sys_setState s calls q best h reply :
      sys_step (mkSystem s None calls (Reorganizing h reply) q best)
               (mkSystem s None calls (match reply with Some i => Replying i | None => Idle end) q h).

Definition sys_start (s : Casper L) (best : Hash) : system := mkSystem s None [] Idle [] best.

(** ** The mutex *)

(** The calls that the block processor is to answer. *)
Definition handled (ch : chain_pc) : list nat :=
  match ch with Reorganizing _ (Some i) => [i] | Replying i => [i] | _ => [] end.
Definition pending (y : system) : list nat := handled (sy_chain y) ++ (sy_rollbackCh y).*1.

Record sys_inv (y : system) : Prop := {
  si_holder : forall i h, sy_calls y !! i = Some (Sending h) \/ sy_calls y !! i = Some (Waiting h) -> sy_mu y = Some i;
  si_pending : forall i, i ∈ pending y -> exists h, sy_calls y !! i = Some (Waiting h);
  si_once : NoDup (pending y);
}.

Lemma calls_insert (calls : list auth_pc) i j x y :
  calls !! i = Some x -> <[i := y]> calls !! j = if decide (j = i) then Some y else calls !! j.
Proof.
  intros Hi. destruct (decide (j = i)) as [->|Hne]; [|by rewrite list_lookup_insert_ne].
  apply list_lookup_insert_eq. by eapply lookup_lt_Some.
Qed.

(** Another call may change while the mutex is free. *)
Lemma sys_inv_returned s s' calls ch q best i msg pc mu :
  sys_inv (mkSystem s None calls ch q best) -> calls !! i = Some (Called msg) ->
  (forall h, pc <> Waiting h) -> (forall h, pc = Sending h -> mu = Some i) -> (mu = None \/ mu = Some i) ->
  sys_inv (mkSystem s' mu (<[i := pc]> calls) ch q best).
Proof.
  intros [H P U] Hc Hw Hs Hmu. split; cbn in *.
  - intros j h. rewrite (calls_insert _ _ _ _ _ Hc). case_decide as Hij.
    + subst j. intros [[= Hpc]|[= Hpc]]; [by eapply Hs|by destruct (Hw h)].
    + intros Hj. by specialize (H j h Hj).
  - intros j Hj. destruct (P j Hj) as [h Hh]. exists h. rewrite (calls_insert _ _ _ _ _ Hc). case_decide; [congruence|done].
  - done.
Qed.

(** Steps of the block processor that keep the calls and the open requests. *)
Lemma sys_inv_chain s s' mu calls ch ch' q q' best best' :
  sys_inv (mkSystem s mu calls ch q best) -> handled ch' ++ q'.*1 = handled ch ++ q.*1 ->
  sys_inv (mkSystem s' mu calls ch' q' best').
Proof. intros [H P U] He. unfold pending in *. cbn in *. split; unfold pending; cbn; [done|by rewrite He..]. Qed.

Lemma sys_step_inv y y' : sys_inv y -> sys_step y y' -> sys_inv y'.
Proof.
  intros Hy Hs. destruct Hs as [s mu calls ch q best msg|i msg s s' calls ch q best r Hc Hr Ho|i msg s s' calls ch q best h Hc Hr
    |i h s mu calls ch q best Hc Hl|i h s mu calls q best Hc|s mu calls ch q best b links Hch
    |fuel s s' calls q best b links h links' Ha|fuel s s' calls q best b links e Ha|s calls q best
    |s mu calls q best i h|s calls q best h reply].
  - destruct Hy as [H P U]. split; cbn in *; [|intros j Hj|done].
    + intros j h Hj. apply (H j h).
      assert (Hlt : forall x, (calls ++ [Called msg]) !! j = Some x -> x <> Called msg -> calls !! j = Some x).
      { intros x [?|[_ Hx]]%lookup_app_Some Hne; [done|]. by apply list_lookup_singleton_Some in Hx as [_ <-]. }
      destruct Hj as [Hj|Hj]; apply Hlt in Hj; auto.
    + destruct (P j Hj) as [h Hh]. exists h. by apply lookup_app_l_Some.
  - by eapply sys_inv_returned; eauto.
  - eapply sys_inv_returned; eauto; congruence.
  - destruct Hy as [H P U]. unfold pending in *. cbn in *.
    assert (Hi : i ∉ handled ch ++ q.*1) by (intros Hi; destruct (P i Hi); congruence). split; unfold pending; cbn.
    + intros j h'. rewrite (calls_insert _ _ _ _ _ Hc). case_decide as Hij; [|apply H]. subst j. intros _. apply (H i h). by left.
    + intros j. rewrite fmap_app, app_assoc. cbn. rewrite (calls_insert _ _ _ _ _ Hc).
      intros [Hj|Hj%list_elem_of_singleton]%elem_of_app; [|subst j; rewrite decide_True by done; eauto].
      case_decide as Hij; [congruence|by apply P].
    + rewrite fmap_app, app_assoc. cbn. apply NoDup_app. split_and!; [done| |apply NoDup_singleton].
      intros j Hj Hj'%list_elem_of_singleton. congruence.
  - destruct Hy as [H P U]. unfold pending in *. cbn in *. apply NoDup_cons in U as [Hi U]. split; unfold pending; cbn.
    + intros j h'. rewrite (calls_insert _ _ _ _ _ Hc). case_decide as Hij; [by intros [?|?]|]. intros Hj.
      pose proof (H j h' Hj). pose proof (H i h (or_intror Hc)). congruence.
    + intros j Hj. destruct (P j) as [h' Hh]; [by right|]. exists h'. rewrite (calls_insert _ _ _ _ _ Hc).
      case_decide; [congruence|done].
    + done.
  - eapply sys_inv_chain; [exact Hy|]. by destruct Hch as [-> | ->].
  - by eapply sys_inv_chain.
  - by eapply sys_inv_chain.
  - eapply sys_inv_chain; [exact Hy|]. by destruct (tryReorganize _ _).
  - eapply sys_inv_chain; [exact Hy|]. by destruct (tryReorganize _ _).
  - eapply sys_inv_chain; [exact Hy|]. by destruct reply.
Qed.

Lemma sys_start_inv s best : sys_inv (sys_start s best).
Proof.
  split; cbn; [intros i h [?|?]; done|intros i Hi; by apply not_elem_of_nil in Hi|constructor].
Qed.

Lemma sys_reach_inv s best y : rtc sys_step (sys_start s best) y -> sys_inv y.
Proof.
  intros Hr. remember (sys_start s best) as y0 eqn:Hy0. assert (Hi : sys_inv y0) by (subst; apply sys_start_inv).
  clear Hy0. induction Hr as [|y1 y2 y3 H1 _ IH]; [done|]. by apply IH, (sys_step_inv y1).
Qed.

(** ** The deadlock *)

(** The call [i] holds the mutex to roll back to [h]. *)
Definition stuck (i : nat) (h : Hash) (y : system) : Prop :=
  sy_mu y = Some i /\ (sy_calls y !! i = Some (Sending h) \/ sy_calls y !! i = Some (Waiting h))
  /\ sy_chain y <> Replying i /\ (forall h', (i, h') ∈ sy_rollbackCh y -> h' = h).

Lemma stuck_step i h y y' :
  sys_inv y -> sy_best y <> h -> fails (sy_best y) h = false -> stuck i h y -> sys_step y y' ->
  stuck i h y' /\ sy_best y' = sy_best y /\ sy_casper y' = sy_casper y.
Proof.
  intros [Hh P U] Hne Hf (Hmu & Hc & Hr & Hq) Hs. unfold stuck.
  destruct Hs as [s mu calls ch q best msg|j msg s s' calls ch q best r Hcj Hrj Ho|j msg s s' calls ch q best hj Hcj Hrj
    |j hj s mu calls ch q best Hcj Hl|j hj s mu calls q best Hcj|s mu calls ch q best b links Hch
    |fuel s s' calls q best b links h1 links' Ha|fuel s s' calls q best b links e Ha|s calls q best
    |s mu calls q best j hj|s calls q best h1 reply]; cbn in *; try done.
  - split_and!; try done. destruct Hc as [Hc|Hc]; [left|right]; by apply lookup_app_l_Some.
  - assert (j = i) as -> by (specialize (Hh j hj (or_introl Hcj)); congruence).
    assert (hj = h) as -> by (destruct Hc; congruence). split_and!; try done.
    + right. rewrite (calls_insert _ _ _ _ _ Hcj). by rewrite decide_True.
    + intros h' [Hin|Hin%list_elem_of_singleton]%elem_of_app; [by apply Hq|congruence].
  - destruct Hr. assert (j = i) as -> by (specialize (Hh j hj (or_intror Hcj)); congruence). done.
  - assert (Hj : j = i -> hj = h) by (intros ->; apply Hq; left). split_and!; try done.
    + destruct (tryReorganize best hj) as [h2|] eqn:Ht; [done|]. intros [= ->]. rewrite (Hj eq_refl) in Ht.
      unfold tryReorganize in Ht. rewrite bool_decide_eq_false_2, Hf in Ht by done. done.
    + intros h' Hin. apply Hq. by right.
Qed.

(** C26.  A vote that changes the best chain holds the mutex of the consensus
    while it waits for the chain, whose goroutine needs that mutex to answer: once
    a vote is about to ask for a best block that is not the chain's, and the
    reorganisation to it does not fail before [setState], no interleaving ever
    lets the vote complete, and neither the consensus nor the best block ever
    changes again. *)
Theorem rollback_deadlock s0 best0 y i h y' :
  rtc sys_step (sys_start s0 best0) y ->
  sy_calls y !! i = Some (Sending h) -> sy_best y <> h -> fails (sy_best y) h = false ->
  rtc sys_step y y' ->
  (sy_calls y' !! i = Some (Sending h) \/ sy_calls y' !! i = Some (Waiting h))
  /\ sy_mu y' = Some i /\ sy_casper y' = sy_casper y /\ sy_best y' = sy_best y.
Proof.
  intros Hr Hc Hne Hf Hs. pose proof (sys_reach_inv _ _ _ Hr) as Hi.
  assert (Hst : stuck i h y).
  { assert (Hp : i ∉ pending y) by (intros Hp; destruct (si_pending _ Hi i Hp); congruence). split_and!.
    - apply (si_holder _ Hi i h). by left.
    - by left.
    - intros Hch. apply Hp. unfold pending. rewrite Hch. left.
    - intros h' Hin. destruct Hp. unfold pending. apply elem_of_app. right. apply list_elem_of_fmap. by exists (i, h'). }
  clear Hr Hc. induction Hs as [y|y y1 y' H1 _ IH]; [by destruct Hst as (? & ? & _)|].
  destruct (stuck_step i h y y1 Hi Hne Hf Hst H1) as (Hst1 & Hb & Hcs).
  destruct IH as (I1 & I2 & I3 & I4); rewrite ?Hb; try done; [by eapply sys_step_inv|]. rewrite Hb in I4. rewrite Hcs in I3. done.
Qed.
End Rollback.

(** The vote of [CasperRuns.v] that makes branch [c] the best: the node whose
    best block is on branch [b] never takes part in the consensus again. *)
Definition never_fails (best h : Hash) : bool := false.

Definition called : system := mkSystem two_branches None [Called vote_c] Idle [] (b 6).
Definition locked : system := mkSystem (auth_locked vote_c two_branches).2 (Some 0%nat) [Sending (c 4)] Idle [] (b 6).

Lemma fst_outcome {A B} (x : A * B) (y : A) : x.1 = y -> x = (y, x.2).
Proof. destruct x. by intros <-. Qed.
Lemma locked_step : auth_locked vote_c two_branches = (Ret (Some (c 4)), (auth_locked vote_c two_branches).2).
Proof. apply fst_outcome. vm_compute. reflexivity. Qed.

Lemma locked_reachable : rtc (sys_step never_fails) (sys_start two_branches (b 6)) locked.
Proof.
  apply rtc_l with called; [exact (sys_call _ two_branches None [] Idle [] (b 6) vote_c)|]. apply rtc_once.
  exact (sys_auth_rollback never_fails 0 vote_c two_branches _ [Called vote_c] Idle [] (b 6) (c 4) eq_refl locked_step).
Qed.

Lemma rollback_deadlock_witness :
  bestChain two_branches = b 6
  /\ forall y', rtc (sys_step never_fails) locked y' -> sy_mu y' = Some 0%nat /\ sy_casper y' = sy_casper locked.
Proof.
  split; [vm_compute; reflexivity|]. intros y' Hs.
  destruct (rollback_deadlock never_fails two_branches (b 6) locked 0 (c 4) y') as (_ & H1 & H2 & _).
  - exact locked_reachable.
  - reflexivity.
  - discriminate.
  - reflexivity.
  - exact Hs.
  - split; [exact H1|exact H2].
Defined.
