(* ===== verification/Ancestry.v ===== *)
(** * The checkpoint a block belongs to: [parentCheckpointHash] of casper.go

    The loop over the previous blocks stops at the end of an epoch, or where
    the cache [prevCheckpointCache] knows the answer.  The cache is filled
    under two kinds of keys; the theorem says that it never changes the
    result: the hash found is the one that [boundary], the search without a
    cache, determines. *)

From S2P Require Import Prelude Encoding VMTypes Orphans Checkpoint Tree CasperState Casper CasperInv CasperSafety CasperRuns.
From Stdlib Require Import Strings.Byte.
#[local] Open Scope Z_scope.

Section Ancestry.
Context {R : MapRange} {L : LRU} {LL : LRULaws L} {Cr : Crypto} {N : Node_} {W : World}.
#[local] Abbreviation epoch := (BlocksOfEpoch net).
Implicit Types s : Casper L.

(** The last block at the end of an epoch, from [h] back. *)
Inductive boundary : Hash -> Hash -> Prop :=
  | boundary_here h b : world h = Some b -> blk_Height b mod epoch = 0 -> boundary h h
  | boundary_prev h b k : world h = Some b -> blk_Height b mod epoch <> 0 -> boundary (blk_Prev b) k -> boundary h k.

Lemma boundary_unique h k k' : boundary h k -> boundary h k' -> k = k'.
Proof.
  intros H. revert k'. induction H as [h b Hw Hm|h b k Hw Hm _ IH]; intros k' H'; inversion H'; subst; simplify_eq; auto.
Qed.

(** An entry is the checkpoint before the block of its key. *)
Definition cache_sound s : Prop :=
  forall h k, entries (prevCheckpointCache s) !! h = Some k -> exists b, world h = Some b /\ boundary (blk_Prev b) k.

(** The database holds blocks of the world, with all their predecessors. *)
Record chain_stored s : Prop := {
  cs_world : forall h sb, db_blocks s !! h = Some sb -> world h = Some (sb_block sb);
  cs_prev : forall h sb, db_blocks s !! h = Some sb -> 0 < blk_Height (sb_block sb) ->
    is_Some (db_blocks s !! blk_Prev (sb_block sb));
}.

Lemma cache_Get_spec (h : Hash) s :
  entries (cache_Get h (prevCheckpointCache s)).2 = entries (prevCheckpointCache s)
  /\ (cache_Get h (prevCheckpointCache s)).1 = entries (prevCheckpointCache s) !! h.
Proof. by destruct (entries_Get h (prevCheckpointCache s)). Qed.

Lemma sound_set c s :
  (forall h k, entries c !! h = Some k -> exists b, world h = Some b /\ boundary (blk_Prev b) k) ->
  cache_sound (set_prevCache c s) /\ db_blocks (set_prevCache c s) = db_blocks s.
Proof. intros Hc. split; [|by destruct s]. intros h k. destruct s. apply Hc. Qed.

Lemma sound_add h k b s :
  cache_sound s -> world h = Some b -> boundary (blk_Prev b) k ->
  cache_sound (set_prevCache (cache_Add h k (prevCheckpointCache s)) s)
  /\ db_blocks (set_prevCache (cache_Add h k (prevCheckpointCache s)) s) = db_blocks s.
Proof.
  intros Hs Hw Hb. apply sound_set. intros h' k' Hk. eapply lookup_weaken in Hk; [|apply entries_Add].
  apply lookup_insert_Some in Hk as [[<- <-]|[_ Hk]]; [by exists b|by apply Hs].
Qed.

(** The iterated block [iter] has the same boundary as the first one, [prev]. *)
Lemma prev_loop_spec fuel prev iter sb s :
  2 <= epoch -> chain_stored s -> cache_sound s -> db_blocks s !! iter = Some sb -> blk_Height (sb_block sb) < Z.of_nat fuel ->
  (prev = iter \/ exists b, world prev = Some b /\ blk_Height b mod epoch <> 0) ->
  (forall k, boundary iter k -> boundary prev k) ->
  exists k s', prev_loop fuel prev iter s = (Ret k, s') /\ boundary prev k /\ cache_sound s' /\ db_blocks s' = db_blocks s.
Proof.
  intros He. revert iter sb s. induction fuel as [|fuel IH]; intros iter sb s Hc Hs Hsb Hf Hp Hb.
  { pose proof (cs_world _ Hc _ _ Hsb) as Hw. pose proof (world_height _ _ Hw). lia. }
  pose proof (cs_world _ Hc _ _ Hsb) as Hw. pose proof (world_height _ _ Hw) as Hht. cbn [prev_loop].
  unfold mbind at 1, C_bind at 1. unfold GetBlockHeader, gets, mbind at 1, C_bind at 1. rewrite Hsb. cbn [or_fail mret C_ret].
  destruct (Z.eqb_spec (blk_Height (sb_block sb) mod epoch) 0) as [H0|H0].
  { exists iter, s. split_and!; [done| |done|done]. by eapply Hb, boundary_here. }
  assert (Hpos : 0 < blk_Height (sb_block sb)).
  { destruct (Z.eq_dec (blk_Height (sb_block sb)) 0) as [E|]; [|lia]. by rewrite E, Z.mod_0_l in H0 by lia. }
  destruct (Z.eqb_spec (blk_Height (sb_block sb) mod epoch) 1) as [H1|H1].
  { exists (blk_Prev (sb_block sb)), s. split_and!; [done| |done|done]. eapply Hb, boundary_prev; [exact Hw|done|].
    destruct (world_prev _ _ Hw) as [[? _]|(p & Hp' & Hh)]; [lia|]. eapply boundary_here; [exact Hp'|].
    replace (blk_Height p) with (blk_Height (sb_block sb) - 1) by lia.
    rewrite Zminus_mod, H1, (Z.mod_small 1) by lia. by rewrite Z.sub_diag, Z.mod_0_l by lia. }
  assert (Hprev : exists b, world prev = Some b /\ blk_Height b mod epoch <> 0).
  { destruct Hp as [->|?]; [by exists (sb_block sb)|done]. }
  unfold mbind at 1, C_bind at 1. destruct (cache_Get_spec iter s) as [Ee Eg].
  destruct (cache_Get iter (prevCheckpointCache s)) as [x c0]. cbn [fst snd] in Ee, Eg.
  destruct (sound_set c0 s) as [Hs0 Hd0]; [by rewrite Ee|]. destruct x as [data|].
  - symmetry in Eg. destruct (Hs _ _ Eg) as (bi & Hbi & Hdata). assert (bi = sb_block sb) as -> by congruence.
    assert (Hbd : boundary prev data) by (by eapply Hb, boundary_prev).
    destruct Hprev as (bp & Hwp & Hmp).
    assert (Hbp : boundary (blk_Prev bp) data) by (inversion Hbd; subst; congruence).
    destruct (sound_add prev data bp _ Hs0 Hwp Hbp) as [Hs1 Hd1]. eexists data, _. split; [done|].
    split; [done|]. split; [exact Hs1|]. by rewrite Hd1.
  - destruct (cs_prev _ Hc _ _ Hsb Hpos) as [sb' Hsb']. destruct (world_prev _ _ Hw) as [[? _]|(p & Hp' & Hh)]; [lia|].
    assert (sb_block sb' = p) by (pose proof (cs_world _ Hc _ _ Hsb'); congruence).
    destruct (IH (blk_Prev (sb_block sb)) sb' (set_prevCache c0 s)) as (k & s' & Hk & Hbk & Hs' & Hd').
    + destruct Hc. split; by rewrite Hd0.
    + done.
    + by rewrite Hd0.
    + subst p. lia.
    + by right.
    + intros k Hk. by eapply Hb, boundary_prev.
    + exists k, s'. split; [done|]. split; [done|]. split; [done|]. congruence.
Qed.

(** [parentCheckpointHash] returns the hash of the last epoch boundary
    strictly below the block, with any sound contents of [prevCheckpointCache],
    and leaves the cache sound: the cache never changes an answer. *)
Theorem parentCheckpointHash_spec fuel h sb s :
  2 <= epoch -> chain_stored s -> cache_sound s -> db_blocks s !! h = Some sb -> blk_Height (sb_block sb) < Z.of_nat fuel ->
  (exists k s', parentCheckpointHashByPrevHash fuel h s = (Ret k, s') /\ boundary h k
     /\ cache_sound s' /\ db_blocks s' = db_blocks s)
  /\ (0 < blk_Height (sb_block sb) ->
      exists k s', parentCheckpointHash fuel h s = (Ret k, s') /\ boundary (blk_Prev (sb_block sb)) k
        /\ cache_sound s' /\ db_blocks s' = db_blocks s).
Proof.
  intros He Hc Hs Hsb Hf. pose proof (cs_world _ Hc _ _ Hsb) as Hw. split.
  - by eapply prev_loop_spec; eauto.
  - intros Hpos. unfold parentCheckpointHash. unfold mbind at 1, C_bind at 1. destruct (cache_Get_spec h s) as [Ee Eg].
    destruct (cache_Get h (prevCheckpointCache s)) as [x c0]. cbn [fst snd] in Ee, Eg.
    destruct (sound_set c0 s) as [Hs0 Hd0]; [by rewrite Ee|]. destruct x as [data|].
    + symmetry in Eg. destruct (Hs _ _ Eg) as (b & Hb & Hdata). assert (b = sb_block sb) as -> by congruence.
      by exists data, (set_prevCache c0 s).
    + unfold mbind at 1, C_bind at 1. unfold GetBlockHeader, gets, mbind at 1, C_bind at 1. rewrite Hd0, Hsb.
      cbn [or_fail mret C_ret]. destruct (cs_prev _ Hc _ _ Hsb Hpos) as [sb' Hsb'].
      destruct (world_prev _ _ Hw) as [[? _]|(p & Hp' & Hh)]; [lia|].
      assert (Hsp : sb_block sb' = p) by (pose proof (cs_world _ Hc _ _ Hsb'); congruence).
      assert (Hc0 : chain_stored (set_prevCache c0 s)) by (destruct Hc; split; by rewrite Hd0).
      destruct (prev_loop_spec fuel (blk_Prev (sb_block sb)) (blk_Prev (sb_block sb)) sb' (set_prevCache c0 s))
        as (k & s1 & Hk & Hbk & Hs1 & Hd1); [done|done|done|by rewrite Hd0|rewrite Hsp; lia|by left|done|].
      unfold mbind at 1, C_bind at 1. unfold parentCheckpointHashByPrevHash. rewrite Hk.
      destruct (sound_add h k (sb_block sb) s1 Hs1 Hw Hbk) as [Hs2 Hd2]. eexists k, _. split; [done|].
      split; [done|]. split; [exact Hs2|]. congruence.
Qed.
End Ancestry.

(** On branch [b] of [CasperRuns.v], with the answer for block 3 in the cache. *)
Definition ancestry_state : Casper MapLRU :=
  set_prevCache {[ b 3 := b 2 ]} (apply_all branch_b (init genesis)).

Definition stored_test (m : gmap Hash stored) : bool :=
  forallb (fun '(h, sb) => bool_decide (run_world h = Some (sb_block sb))
             && ((blk_Height (sb_block sb) <=? 0) || bool_decide (is_Some (m !! blk_Prev (sb_block sb))))) (map_to_list m).

Lemma stored_test_spec (s : Casper MapLRU) : stored_test (db_blocks s) = true -> chain_stored s.
Proof.
  unfold stored_test. rewrite forallb_forall. intros Hall.
  assert (Hin : forall h sb, db_blocks s !! h = Some sb -> In (h, sb) (map_to_list (db_blocks s))).
  { intros h sb Hsb. by apply list_elem_of_In, elem_of_map_to_list. }
  split; intros h sb Hsb; specialize (Hall _ (Hin _ _ Hsb)); apply andb_true_iff in Hall as [H1 H2].
  - by apply bool_decide_eq_true in H1.
  - intros Hpos. apply orb_true_iff in H2 as [H2|H2]; [lia|by apply bool_decide_eq_true in H2].
Qed.

Lemma ancestry_sound : cache_sound ancestry_state.
Proof.
  unfold ancestry_state. generalize (apply_all branch_b (init genesis)). intros s h k Hk. destruct s.
  change (({[ b 3 := b 2 ]} : gmap bytes Hash) !! h = Some k) in Hk. apply lookup_singleton_Some in Hk as [<- <-]. exists (blk x0b 3 []). split; [reflexivity|].
  apply (boundary_here (b 2) (blk x0b 2 [])); reflexivity.
Qed.

Lemma parentCheckpointHash_spec_witness :
  exists k s', parentCheckpointHash 10 (b 5) ancestry_state = (Ret k, s') /\ boundary (b 4) k.
Proof.
  destruct (parentCheckpointHash_spec 10 (b 5) (mkStored (blk x0b 5 []) []) ancestry_state) as [_ H].
  - cbn. lia.
  - apply stored_test_spec. vm_compute. reflexivity.
  - exact ancestry_sound.
  - vm_compute. reflexivity.
  - reflexivity.
  - destruct H as (k & s' & H1 & H2 & _); [reflexivity|]. exists k, s'. exact (conj H1 H2).
Defined.
