(* ===== verification/Merkle.v ===== *)
(** * Merkle trees of transactions: protocol/bc/types/merkle.go

    The root over the transaction ids of a block, the proofs that transactions
    are among them, and their validation.  Leaves and interior nodes are hashed
    behind different prefixes.  The Go lists a validation consumes
    ([container/list]) are its state.

    Theorems: the root binds the list of transactions; a proof that validates
    against the root of a block is about a subsequence of its transactions; and
    the proofs that [GetTxMerkleTreeProof] makes validate.  The first two hold
    up to a collision between strings that were hashed for the tree and for the
    proof, which the statements name. *)

From S2P Require Import Prelude VMTypes Entries.
From Stdlib Require Import Strings.Byte.
#[local] Open Scope Z_scope.

Abbreviation Hash := bytes.

(** ** prevPowerOfTwo *)

(** [math.Log2] of a float64 that holds an integer is off by less than what
    separates an integer below 2^47 from the next power of two, so that its
    truncation is [Z.log2]. *)
Definition prevPowerOfTwo (n : Z) : Z :=
  if Z.land n (n - 1) =? 0 then n / 2 else Z.shiftl 1 (Z.log2 n).

Lemma land_pred n : 2 <= n -> (Z.land n (n - 1) = 0 <-> n = 2 ^ Z.log2 n).
Proof.
  intros Hn. pose proof (Z.log2_spec n ltac:(lia)) as [Hlo Hhi]. pose proof (Z.log2_nonneg n) as Hl. split; intros H.
  - destruct (decide (n = 2 ^ Z.log2 n)) as [|Hne]; [done|]. exfalso.
    assert (Hlog : Z.log2 (n - 1) = Z.log2 n) by (apply Z.log2_unique; lia).
    assert (Hbit : Z.testbit (Z.land n (n - 1)) (Z.log2 n) = true).
    { rewrite Z.land_spec, Z.bit_log2 by lia. rewrite <- Hlog, Z.bit_log2 by lia. done. }
    rewrite H, Z.bits_0 in Hbit. done.
  - rewrite H at 1 2. replace (2 ^ Z.log2 n - 1) with (Z.ones (Z.log2 n)) by (rewrite Z.ones_equiv; lia).
    rewrite Z.land_ones by done. apply Z_mod_same_full.
Qed.

Lemma prevPowerOfTwo_spec n :
  2 <= n -> exists e, 0 <= e /\ prevPowerOfTwo n = 2 ^ e /\ prevPowerOfTwo n < n <= 2 * prevPowerOfTwo n.
Proof.
  intros Hn. pose proof (Z.log2_spec n ltac:(lia)) as [Hlo Hhi]. pose proof (Z.log2_nonneg n) as Hl.
  unfold prevPowerOfTwo. destruct (Z.eqb_spec (Z.land n (n - 1)) 0) as [H|H].
  - apply land_pred in H; [|done]. assert (1 <= Z.log2 n) by (apply Z.log2_le_pow2; lia).
    assert (Hd : n / 2 = 2 ^ (Z.log2 n - 1)).
    { rewrite H at 1. replace (Z.log2 n) with (1 + (Z.log2 n - 1)) at 1 by lia. rewrite Z.pow_add_r by lia.
      change (2 ^ 1) with 2. rewrite Z.mul_comm, Z.div_mul by lia. done. }
    exists (Z.log2 n - 1). rewrite Hd. split; [lia|]. split; [done|].
    assert (n = 2 * 2 ^ (Z.log2 n - 1)) by (rewrite H at 1; rewrite <- Z.pow_succ_r by lia; f_equal; lia).
    pose proof (Z.pow_pos_nonneg 2 (Z.log2 n - 1)). lia.
  - rewrite Z.shiftl_1_l. exists (Z.log2 n). split; [done|]. split; [done|].
    rewrite Z.pow_succ_r in Hhi by done. destruct (decide (n = 2 ^ Z.log2 n)) as [E|]; [|lia].
    by apply land_pred in E.
Qed.

(** Where a list of at least two elements is split. *)
Definition split_at {A} (l : list A) : nat := Z.to_nat (prevPowerOfTwo (zlen l)).

Lemma split_at_bounds {A} (l : list A) : (2 <= length l)%nat -> (0 < split_at l < length l)%nat.
Proof.
  intros Hl. unfold split_at. destruct (prevPowerOfTwo_spec (zlen l)) as (e & He & Hk & Hb); [unfold zlen; lia|].
  pose proof (Z.pow_pos_nonneg 2 e). unfold zlen in *. lia.
Qed.

Section Merkle.
Context {Cr : Crypto}.

Definition EmptyStringHash : Hash := sha3_256 [].
Definition leafPrefix : bytes := [x00].
Definition interiorPrefix : bytes := [x01].

(** What is hashed for a node. *)
Definition leaf_input (x : bytes) : bytes := leafPrefix ++ x.
Definition interior_input (l r : Hash) : bytes := interiorPrefix ++ l ++ r.
Definition leafMerkleHash (x : bytes) : Hash := sha3_256 (leaf_input x).
Definition interiorMerkleHash (l r : Hash) : Hash := sha3_256 (interior_input l r).

(** ** The root and the tree *)

(** The recursion is on shorter lists; [fuel] is at least the length. *)
Fixpoint merkleRoot_go (fuel : nat) (nodes : list bytes) : Hash :=
  match fuel, nodes with
  | _, [] => EmptyStringHash
  | _, [x] => leafMerkleHash x
  | O, _ => []
  | S fuel, _ => interiorMerkleHash (merkleRoot_go fuel (take (split_at nodes) nodes)) (merkleRoot_go fuel (drop (split_at nodes) nodes))
  end.
Definition merkleRoot (nodes : list bytes) : Hash := merkleRoot_go (length nodes) nodes.

(** [buildMerkleTree] makes nodes with two children, or none. *)
Inductive merkleTreeNode :=
  | Leaf (hash : Hash)
  | Node (hash : Hash) (l r : merkleTreeNode).
Definition hash (t : merkleTreeNode) : Hash := match t with Leaf h => h | Node h _ _ => h end.

Fixpoint buildMerkleTree_go (fuel : nat) (rawDatas : list bytes) : option merkleTreeNode :=
  match fuel, rawDatas with
  | _, [] => None
  | _, [x] => Some (Leaf (leafMerkleHash x))
  | O, _ => None
  | S fuel, _ =>
      l ← buildMerkleTree_go fuel (take (split_at rawDatas) rawDatas);
      r ← buildMerkleTree_go fuel (drop (split_at rawDatas) rawDatas);
      Some (Node (interiorMerkleHash (hash l) (hash r)) l r)
  end.
Definition buildMerkleTree (rawDatas : list bytes) : option merkleTreeNode := buildMerkleTree_go (length rawDatas) rawDatas.

Definition TxMerkleRoot (ids : list Hash) : Hash := merkleRoot ids.

(** ** Proofs *)

Definition FlagAssist : Z := 0.
Definition FlagTxParent : Z := 1.
Definition FlagTxLeaf : Z := 2.

(** The set holds the hashes as text, which is injective on them. *)
Fixpoint tree_proof (node : merkleTreeNode) (merkleHashSet : gset Hash) : list Hash * list Z :=
  match node with
  | Leaf h => if bool_decide (h ∈ merkleHashSet) then ([h], [FlagTxLeaf]) else ([], [])
  | Node _ l r =>
      let '(leftHashes, leftFlags) := tree_proof l merkleHashSet in
      let '(rightHashes, rightFlags) := tree_proof r merkleHashSet in
      let leftFind := (0 <? length leftHashes)%nat in
      let rightFind := (0 <? length rightHashes)%nat in
      if leftFind || rightFind then
        let '(h1, f1) := if leftFind then (leftHashes, leftFlags) else ([hash l], [FlagAssist]) in
        let '(h2, f2) := if rightFind then (rightHashes, rightFlags) else ([hash r], [FlagAssist]) in
        (h1 ++ h2, FlagTxParent :: f1 ++ f2)
      else ([], [])
  end.

Definition getMerkleTreeProof (rawDatas relatedRawDatas : list bytes) : list Hash * list Z :=
  match buildMerkleTree rawDatas with
  | None => ([], [])
  | Some merkleTree =>
      let merkleHashSet : gset Hash := list_to_set (leafMerkleHash <$> relatedRawDatas) in
      if (size merkleHashSet =? 0)%nat then ([hash merkleTree], [FlagAssist])
      else tree_proof merkleTree merkleHashSet
  end.
Definition GetTxMerkleTreeProof (txs relatedTxs : list Hash) : list Hash * list Z := getMerkleTreeProof txs relatedTxs.

(** The hashes a list of flags asks for, and the flags l. *)
Fixpoint tree_proof_by_flags (node : merkleTreeNode) (flagList : list Z) : list Hash * list Z :=
  match flagList with
  | [] => ([], [])
  | flag :: flagList =>
      if (flag =? FlagTxLeaf) || (flag =? FlagAssist) then ([hash node], flagList)
      else match node with
           | Leaf _ => ([], flagList)
           | Node _ l r =>
               let '(leftHashes, flagList) := tree_proof_by_flags l flagList in
               let '(rightHashes, flagList) := tree_proof_by_flags r flagList in
               (leftHashes ++ rightHashes, flagList)
           end
  end.
(** On no data the root is a nil pointer: [None] when it is dereferenced. *)
Definition getMerkleTreeProofByFlags (rawDatas : list bytes) (flagList : list Z) : option (list Hash) :=
  match buildMerkleTree rawDatas, flagList with
  | Some tree, _ => Some (tree_proof_by_flags tree flagList).1
  | None, [] => Some []
  | None, flag :: _ => None
  end.

(** ** Validation *)

(** The three lists that are consumed. *)
Record plists := mkLists { hashList : list Hash; flagList : list Z; merkleHashes : list Hash }.

Fixpoint getMerkleRootByProof (fuel : nat) (s : plists) : option (Hash * plists) :=
  match fuel with
  | O => None
  | S fuel =>
      match flagList s, hashList s with
      | [], _ | _, [] => Some (EmptyStringHash, s)
      | flag :: flags, h :: hashes =>
          let s := mkLists (h :: hashes) flags (merkleHashes s) in
          if flag =? FlagAssist then Some (h, mkLists hashes flags (merkleHashes s))
          else if flag =? FlagTxLeaf then
            match merkleHashes s with
            | [] => Some (EmptyStringHash, s)
            | related :: rest => if bool_decide (h = related) then Some (h, mkLists hashes flags rest) else Some (EmptyStringHash, s)
            end
          else if flag =? FlagTxParent then
            '(leftHash, s) ← getMerkleRootByProof fuel s;
            '(rightHash, s) ← getMerkleRootByProof fuel s;
            Some (interiorMerkleHash leftHash rightHash, s)
          else Some (EmptyStringHash, s)
      end
  end.

(** Every call takes a flag, or returns. *)
Definition validateMerkleTreeProof (hashes : list Hash) (flags : list Z) (relatedNodes : list bytes) (root : Hash) : bool :=
  match getMerkleRootByProof (S (length flags)) (mkLists hashes flags (leafMerkleHash <$> relatedNodes)) with
  | Some (r, s) => bool_decide (r = root) && (length (merkleHashes s) =? 0)%nat
  | None => false
  end.
Definition ValidateTxMerkleTreeProof (hashes : list Hash) (flags : list Z) (relatedHashes : list Hash) (root : Hash) : bool :=
  validateMerkleTreeProof hashes flags relatedHashes root.

(** What is hashed on the way to the root. *)
Fixpoint tree_inputs_go (fuel : nat) (nodes : list bytes) : list bytes :=
  match fuel, nodes with
  | _, [] => [[]]
  | _, [x] => [leaf_input x]
  | O, _ => []
  | S fuel, _ =>
      interior_input (merkleRoot (take (split_at nodes) nodes)) (merkleRoot (drop (split_at nodes) nodes))
      :: tree_inputs_go fuel (take (split_at nodes) nodes) ++ tree_inputs_go fuel (drop (split_at nodes) nodes)
  end.
Definition tree_inputs (nodes : list bytes) : list bytes := tree_inputs_go (length nodes) nodes.

(** ** The recursion *)

Lemma halves {A} (l : list A) n :
  (2 <= length l)%nat -> (length l <= S n)%nat -> (length (take (split_at l) l) <= n /\ length (drop (split_at l) l) <= n)%nat.
Proof. intros Hl Hn. pose proof (split_at_bounds l Hl). rewrite length_take, length_drop. lia. Qed.

Ltac fuel_irrelevant f :=
  induction f as [|f IH]; intros f' l Hf Hf';
  (destruct l as [|x [|y l]]; [by destruct f'|by destruct f'|]); [cbn in Hf; lia|];
  (destruct f' as [|f']; [cbn in Hf'; lia|]);
  destruct (halves (x :: y :: l) f ltac:(cbn; lia) Hf) as [N1 N2], (halves (x :: y :: l) f' ltac:(cbn; lia) Hf') as [M1 M2];
  cbn -[split_at take drop]; by rewrite (IH f' _ N1 M1), (IH f' _ N2 M2).

Lemma merkleRoot_fuel fuel fuel' l :
  (length l <= fuel)%nat -> (length l <= fuel')%nat -> merkleRoot_go fuel l = merkleRoot_go fuel' l.
Proof. revert fuel' l. fuel_irrelevant fuel. Qed.
Lemma buildMerkleTree_fuel fuel fuel' l :
  (length l <= fuel)%nat -> (length l <= fuel')%nat -> buildMerkleTree_go fuel l = buildMerkleTree_go fuel' l.
Proof. revert fuel' l. fuel_irrelevant fuel. Qed.
Lemma tree_inputs_fuel fuel fuel' l :
  (length l <= fuel)%nat -> (length l <= fuel')%nat -> tree_inputs_go fuel l = tree_inputs_go fuel' l.
Proof. revert fuel' l. fuel_irrelevant fuel. Qed.

(** Lists of transactions, by the recursion of the code. *)
Lemma merkle_ind (P : list bytes -> Prop) :
  P [] -> (forall x, P [x]) ->
  (forall l, (2 <= length l)%nat -> P (take (split_at l) l) -> P (drop (split_at l) l) -> P l) -> forall l, P l.
Proof.
  intros H0 H1 H2 l. induction l as [l IH] using (induction_ltof1 _ (@length _)). unfold ltof in IH.
  destruct l as [|x [|y l]]; [done..|]. assert (Hl : (2 <= length (x :: y :: l))%nat) by (cbn; lia).
  pose proof (split_at_bounds _ Hl). apply H2; [done|apply IH; rewrite length_take; lia|apply IH; rewrite length_drop; lia].
Qed.

Section Step.
Context (l : list bytes) (Hl : (2 <= length l)%nat).
#[local] Abbreviation L := (take (split_at l) l).
#[local] Abbreviation R := (drop (split_at l) l).

Lemma halves_le : (length L <= length l /\ length R <= length l)%nat.
Proof. apply halves; [done|lia]. Qed.

Lemma merkleRoot_step : merkleRoot l = interiorMerkleHash (merkleRoot L) (merkleRoot R).
Proof.
  destruct halves_le as [H1 H2]. unfold merkleRoot at 1. rewrite (merkleRoot_fuel _ (S (length l)) l) by lia.
  destruct l as [|x [|y l']]; [cbn in Hl; lia..|]. cbn [merkleRoot_go]. f_equal; by apply merkleRoot_fuel.
Qed.
Lemma tree_inputs_step : tree_inputs l = interior_input (merkleRoot L) (merkleRoot R) :: tree_inputs L ++ tree_inputs R.
Proof.
  destruct halves_le as [H1 H2]. unfold tree_inputs at 1. rewrite (tree_inputs_fuel _ (S (length l)) l) by lia.
  destruct l as [|x [|y l']]; [cbn in Hl; lia..|]. cbn [tree_inputs_go]. f_equal. f_equal; by apply tree_inputs_fuel.
Qed.
Lemma buildMerkleTree_step :
  buildMerkleTree l = left ← buildMerkleTree L; right ← buildMerkleTree R;
                      Some (Node (interiorMerkleHash (hash left) (hash right)) left right).
Proof.
  destruct halves_le as [H1 H2]. unfold buildMerkleTree at 1. rewrite (buildMerkleTree_fuel _ (S (length l)) l) by lia.
  destruct l as [|x [|y l']]; [cbn in Hl; lia..|]. cbn [buildMerkleTree_go].
  by rewrite (buildMerkleTree_fuel _ _ _ H1 (le_n _)), (buildMerkleTree_fuel _ _ _ H2 (le_n _)).
Qed.
End Step.

(** ** The root binds the transactions *)

(** What the root is the hash of. *)
Definition top_input (l : list bytes) : bytes :=
  match l with
  | [] => []
  | [x] => leaf_input x
  | _ => interior_input (merkleRoot (take (split_at l) l)) (merkleRoot (drop (split_at l) l))
  end.

Lemma merkleRoot_top l : merkleRoot l = sha3_256 (top_input l) /\ top_input l ∈ tree_inputs l.
Proof.
  destruct (decide (2 <= length l)%nat) as [Hl|Hl].
  - rewrite merkleRoot_step, tree_inputs_step by done. destruct l as [|x [|y l]]; [cbn in Hl; lia..|]. split; [done|left].
  - destruct l as [|x [|y l]]; [..|cbn in Hl; lia]; (split; [done|left]).
Qed.

Context {CL : CryptoLaws Cr}.

Lemma merkleRoot_length l : length (merkleRoot l) = 32%nat.
Proof. destruct (merkleRoot_top l) as [-> _]. pose proof (sha3_256_len (top_input l)). unfold zlen in *. lia. Qed.

Lemma interior_inj l1 r1 l2 r2 :
  length l1 = length l2 -> interior_input l1 r1 = interior_input l2 r2 -> l1 = l2 /\ r1 = r2.
Proof. intros Hl [= H]. by apply app_inj_1 in H. Qed.

(** The root binds the list. *)
Lemma merkleRoot_binding l1 l2 :
  merkleRoot l1 = merkleRoot l2 -> l1 = l2 \/ collision (tree_inputs l1) (tree_inputs l2).
Proof.
  revert l2. induction l1 as [|x|l1 Hl1 IHL IHR] using merkle_ind; intros l2 Heq;
    destruct (merkleRoot_top l2) as [E2 T2]; rewrite E2 in Heq.
  1,2: match type of Heq with merkleRoot ?l = _ => destruct (merkleRoot_top l) as [E1 T1]; rewrite E1 in Heq end;
    destruct (collision_or _ _ _ _ T1 T2 Heq) as [Ht|]; [left|by right]; destruct l2 as [|z [|? ?]]; try done; by injection Ht as ->.
  destruct (merkleRoot_top l1) as [E1 T1]. rewrite E1 in Heq. destruct (collision_or _ _ _ _ T1 T2 Heq) as [Ht|]; [|by right].
  destruct l1 as [|x1 [|y1 l1']]; [cbn in Hl1; lia..|]. destruct l2 as [|x2 [|y2 l2']]; [done..|].
  set (l1 := x1 :: y1 :: l1') in *. set (l2 := x2 :: y2 :: l2') in *.
  assert (Hl2 : (2 <= length l2)%nat) by (cbn; lia).
  apply interior_inj in Ht as [HL HR]; [|by rewrite !merkleRoot_length].
  rewrite (tree_inputs_step l1 Hl1), (tree_inputs_step l2 Hl2).
  destruct (IHL _ HL) as [HL'|Hc]; [|right; by apply collision_cons, collision_app_l].
  destruct (IHR _ HR) as [HR'|Hc]; [|right; by apply collision_cons, collision_app_r].
  left. rewrite <- (take_drop (split_at l1) l1), <- (take_drop (split_at l2) l2). by rewrite HL', HR'.
Qed.

(** ** What a valid proof shows *)

(** The strings a validation hashes for interior nodes. *)
Fixpoint interior_inputs (fuel : nat) (s : plists) : list bytes :=
  match fuel with
  | O => []
  | S fuel =>
      match flagList s, hashList s with
      | flag :: flags, _ :: _ =>
          if flag =? FlagTxParent then
            let s := mkLists (hashList s) flags (merkleHashes s) in
            match getMerkleRootByProof fuel s with
            | Some (l, s1) =>
                interior_inputs fuel s ++ match getMerkleRootByProof fuel s1 with
                                          | Some (r, _) => interior_input l r :: interior_inputs fuel s1
                                          | None => []
                                          end
            | None => []
            end
          else []
      | _, _ => []
      end
  end.
Definition proof_inputs (hashes : list Hash) (flags : list Z) (relatedNodes : list bytes) : list bytes :=
  (leaf_input <$> relatedNodes)
  ++ interior_inputs (S (length flags)) (mkLists hashes flags (leafMerkleHash <$> relatedNodes)).

Definition hashes_ok (s : plists) : Prop := Forall (fun h => length h = 32%nat) (hashList s).

(** A call returns, takes flags away, and returns a hash. *)
Lemma proof_returns fuel s :
  (length (flagList s) < fuel)%nat -> exists r s', getMerkleRootByProof fuel s = Some (r, s') /\ (length (flagList s') <= length (flagList s))%nat.
Proof.
  revert s. induction fuel as [|fuel IH]; intros [hs fs ms] Hf; [lia|]. cbn [getMerkleRootByProof flagList hashList merkleHashes].
  destruct fs as [|f fs]; [eauto|]. destruct hs as [|h hs]; [eauto|]. cbn in Hf.
  destruct (f =? FlagAssist); [eexists _, _; split; [done|cbn; lia]|].
  destruct (f =? FlagTxLeaf).
  { destruct ms as [|m ms]; [|destruct (bool_decide _)]; eexists _, _; (split; [done|cbn; lia]). }
  destruct (f =? FlagTxParent); [|eexists _, _; split; [done|cbn; lia]].
  destruct (IH (mkLists (h :: hs) fs ms)) as (l & s1 & -> & H1); [cbn; lia|]. cbn in H1 |- *.
  destruct (IH s1) as (r & s2 & -> & H2); [lia|]. eexists _, _. split; [done|]. lia.
Qed.

Lemma sha3_length b : length (sha3_256 b) = 32%nat.
Proof. pose proof (sha3_256_len b). unfold zlen in *. lia. Qed.

(** The parts of one call that returned. *)
Inductive call (fuel : nat) (s : plists) (r : Hash) (s' : plists) : Prop :=
  | call_empty : r = EmptyStringHash -> merkleHashes s' = merkleHashes s -> hashList s' = hashList s -> call fuel s r s'
  | call_assist : hashList s = r :: hashList s' -> merkleHashes s' = merkleHashes s -> call fuel s r s'
  | call_leaf : hashList s = r :: hashList s' -> merkleHashes s = r :: merkleHashes s' -> call fuel s r s'
  | call_parent s1 s2 lh rh :
      hashList s1 = hashList s -> merkleHashes s1 = merkleHashes s ->
      getMerkleRootByProof fuel s1 = Some (lh, s2) -> getMerkleRootByProof fuel s2 = Some (rh, s') ->
      r = interiorMerkleHash lh rh ->
      interior_inputs (S fuel) s = interior_inputs fuel s1 ++ interior_input lh rh :: interior_inputs fuel s2 -> call fuel s r s'.

Lemma proof_call fuel s r s' : getMerkleRootByProof (S fuel) s = Some (r, s') -> call fuel s r s'.
Proof.
  destruct s as [hs fs ms]. cbn [getMerkleRootByProof flagList hashList merkleHashes]. intros H.
  destruct fs as [|f fs]; [injection H as <- <-; by apply call_empty|].
  destruct hs as [|h hs]; [injection H as <- <-; by apply call_empty|].
  destruct (f =? FlagAssist); [injection H as <- <-; by apply call_assist|].
  destruct (f =? FlagTxLeaf).
  { destruct ms as [|m ms]; [injection H as <- <-; by apply call_empty|]. case_bool_decide as Hm; injection H as <- <-; subst;
      [by apply call_leaf|by apply call_empty]. }
  destruct (f =? FlagTxParent) eqn:Hp; [|injection H as <- <-; by apply call_empty].
  destruct (getMerkleRootByProof fuel (mkLists (h :: hs) fs ms)) as [[lh s1]|] eqn:H1; [cbn in H|done].
  destruct (getMerkleRootByProof fuel s1) as [[rh s2]|] eqn:H2; [cbn in H|done]. injection H as <- <-.
  eapply call_parent; [| |exact H1|exact H2|done|]; [done..|].
  cbn [interior_inputs flagList hashList merkleHashes]. by rewrite Hp, H1, H2.
Qed.

Lemma proof_hashes fuel s r s' :
  getMerkleRootByProof fuel s = Some (r, s') -> hashes_ok s -> length r = 32%nat /\ hashes_ok s'.
Proof.
  revert s r s'. induction fuel as [|fuel IH]; intros s r s' H Hok; [done|]. unfold hashes_ok in *. apply proof_call in H as [].
  - subst r. split; [apply sha3_length|congruence].
  - rewrite H in Hok. by apply Forall_cons in Hok.
  - rewrite H in Hok. by apply Forall_cons in Hok.
  - subst r. split; [apply sha3_length|]. eapply IH in H1 as [_ H1]; [|by rewrite H]. by eapply IH in H2 as [_ H2].
Qed.

(** A proof of the root of [l] takes a subsequence of [l] off the related nodes. *)
Lemma proof_subsequence fuel P s r s' l rel :
  getMerkleRootByProof fuel s = Some (r, s') -> hashes_ok s -> merkleHashes s = leafMerkleHash <$> rel ->
  (forall x, x ∈ rel -> leaf_input x ∈ P) -> interior_inputs fuel s ⊆ P -> r = merkleRoot l ->
  collision (tree_inputs l) P
  \/ exists used rest, rel = used ++ rest /\ merkleHashes s' = leafMerkleHash <$> rest /\ used `sublist_of` l.
Proof.
  revert s r s' l rel. induction fuel as [|fuel IH]; intros s r s' l rel H Hok Hrel Hleaf HP Hroot; [done|].
  apply proof_call in H as [Hr Hm _|Hh Hm|Hh Hm|s1 s2 lh rh Hh1 Hm1 Hl Hrr Hr Hin].
  - right. exists [], rel. split_and!; [done|by rewrite Hm|apply sublist_nil_l].
  - right. exists [], rel. split_and!; [done|by rewrite Hm|apply sublist_nil_l].
  - rewrite Hm in Hrel. destruct rel as [|x rel]; [done|]. injection Hrel as -> Hrel. destruct (merkleRoot_top l) as [E T].
    rewrite E in Hroot. symmetry in Hroot. destruct (collision_or _ P _ _ T (Hleaf x ltac:(left)) Hroot) as [Ht|]; [right|by left].
    exists [x], rel. split_and!; try done. destruct l as [|z [|? ?]]; try done. injection Ht as ->. by repeat constructor.
  - subst r. destruct (merkleRoot_top l) as [E T]. rewrite E in Hroot. symmetry in Hroot.
    assert (Hi : interior_input lh rh ∈ P) by (apply HP; rewrite Hin; set_solver).
    destruct (collision_or _ P _ _ T Hi Hroot) as [Ht|]; [|by left]. destruct l as [|x [|y l']]; [done..|].
    set (l := x :: y :: l') in *. assert (Hll : (2 <= length l)%nat) by (cbn; lia).
    assert (Hok1 : hashes_ok s1) by (unfold hashes_ok; by rewrite Hh1). destruct (proof_hashes _ _ _ _ Hl Hok1) as [Hlen Hok2].
    apply interior_inj in Ht as [HL HR]; [|by rewrite merkleRoot_length, Hlen]. rewrite (tree_inputs_step l Hll).
    destruct (IH s1 lh s2 (take (split_at l) l) rel) as [Hc|(u1 & r1 & -> & E1 & S1)]; try done;
      [by rewrite Hm1|rewrite Hin in HP; set_solver|left; eapply collision_mono; [..|exact Hc]; set_solver|].
    destruct (IH s2 rh s' (drop (split_at l) l) r1) as [Hc|(u2 & r2 & -> & E2 & S2)]; try done;
      [set_solver|rewrite Hin in HP; set_solver|left; eapply collision_mono; [..|exact Hc]; set_solver|].
    right. exists (u1 ++ u2), r2. rewrite app_assoc. split_and!; [done|done|]. rewrite <- (take_drop (split_at l) l). by apply sublist_app.
Qed.

(** C16.  A Merkle proof that validates against the root of a list of transactions
    is about transactions of that list, in their order; or two different strings
    hashed for the tree and for the proof collide. *)
Theorem proof_sound txs hashes flags related :
  Forall (fun h => length h = 32%nat) hashes -> ValidateTxMerkleTreeProof hashes flags related (TxMerkleRoot txs) = true ->
  related `sublist_of` txs \/ collision (tree_inputs txs) (proof_inputs hashes flags related).
Proof.
  unfold ValidateTxMerkleTreeProof, validateMerkleTreeProof. intros Hok Hv.
  destruct (getMerkleRootByProof _ _) as [[r s]|] eqn:H; [|done]. apply andb_true_iff in Hv as [Hr Hl].
  apply bool_decide_eq_true in Hr. apply Nat.eqb_eq, length_zero_iff_nil in Hl.
  destruct (proof_subsequence _ (proof_inputs hashes flags related) _ _ _ txs related H) as [|(used & rest & -> & Hm & Hs)]; try done.
  - intros x Hx. unfold proof_inputs. apply elem_of_app. left. by apply list_elem_of_fmap_2.
  - unfold proof_inputs. set_solver.
  - by right.
  - rewrite Hl in Hm. symmetry in Hm. apply fmap_nil_inv in Hm as ->. rewrite app_nil_r. by left.
Qed.

(** ** The proofs that are made validate *)

Lemma buildMerkleTree_root l : l <> [] -> exists t, buildMerkleTree l = Some t /\ hash t = merkleRoot l.
Proof.
  induction l as [|x|l Hl IHL IHR] using merkle_ind; [done|by eexists|]. intros _.
  pose proof (split_at_bounds l Hl). assert (forall k : list bytes, (0 < length k)%nat -> k <> []) as Hne by (intros [|]; cbn; [lia|done]).
  destruct IHL as (t1 & E1 & H1); [apply Hne; rewrite length_take; lia|].
  destruct IHR as (t2 & E2 & H2); [apply Hne; rewrite length_drop; lia|].
  rewrite buildMerkleTree_step, E1, E2, merkleRoot_step by done. cbn. eexists. split; [done|]. cbn. by rewrite H1, H2.
Qed.

(** The proof for a subtree: empty if nothing in it is asked for, and otherwise
    a validation consumes it in front of anything and computes the hash. *)
Definition proves (t : merkleTreeNode) (found : list bytes) (p : list Hash * list Z) : Prop :=
  match found with
  | [] => p = ([], [])
  | _ => p.1 <> [] /\ forall fuel hs fs ms, (length p.2 <= fuel)%nat ->
      getMerkleRootByProof fuel (mkLists (p.1 ++ hs) (p.2 ++ fs) ((leafMerkleHash <$> found) ++ ms)) = Some (hash t, mkLists hs fs ms)
  end.

Lemma getRoot_assist fuel h hs fs ms :
  getMerkleRootByProof (S fuel) (mkLists (h :: hs) (FlagAssist :: fs) ms) = Some (h, mkLists hs fs ms).
Proof. done. Qed.

(** One side of a parent: its own proof, or its hash. *)
Definition side (t : merkleTreeNode) (p : list Hash * list Z) : list Hash * list Z :=
  if (0 <? length p.1)%nat then p else ([hash t], [FlagAssist]).

Lemma side_ok t found p fuel hs fs ms :
  proves t found p -> (length (side t p).2 <= fuel)%nat ->
  getMerkleRootByProof fuel (mkLists ((side t p).1 ++ hs) ((side t p).2 ++ fs) ((leafMerkleHash <$> found) ++ ms)) = Some (hash t, mkLists hs fs ms)
  /\ (side t p).1 <> [].
Proof.
  unfold side. destruct found as [|x found]; cbn [proves].
  - intros ->. cbn. intros Hf. destruct fuel as [|fuel]; [lia|]. by rewrite getRoot_assist.
  - intros [Hne Hp]. destruct p as [[|h h'] f]; [done|]. cbn [length Nat.ltb Nat.leb fst snd]. intros Hf. split; [by apply Hp|done].
Qed.

Lemma tree_proof_node h l r S :
  tree_proof (Node h l r) S =
    if (0 <? length (tree_proof l S).1)%nat || (0 <? length (tree_proof r S).1)%nat
    then ((side l (tree_proof l S)).1 ++ (side r (tree_proof r S)).1, FlagTxParent :: (side l (tree_proof l S)).2 ++ (side r (tree_proof r S)).2)
    else ([], []).
Proof.
  unfold side. cbn [tree_proof]. destruct (tree_proof l S) as [h1 f1], (tree_proof r S) as [h2 f2]. cbn [fst snd].
  destruct (0 <? length h1)%nat, (0 <? length h2)%nat; done.
Qed.

Lemma proves_found t found p : proves t found p -> (0 <? length p.1)%nat = negb (bool_decide (found = [])).
Proof. destruct found as [|x f]; cbn; [by intros ->|]. intros [Hne _]. by destruct p as [[|] ?]. Qed.

Lemma tree_proof_proves S l t :
  buildMerkleTree l = Some t -> proves t (filter (fun x => leafMerkleHash x ∈ S) l) (tree_proof t S).
Proof.
  revert t. induction l as [|x|l Hl IHL IHR] using merkle_ind; intros t Ht; [done| |].
  - injection Ht as <-. cbn [tree_proof]. rewrite filter_cons, filter_nil. case_decide as Hd.
    + rewrite bool_decide_eq_true_2 by done. split; [done|]. intros [|fuel] hs fs ms Hf; [cbn in Hf; lia|].
      cbn. by rewrite bool_decide_eq_true_2.
    + by rewrite bool_decide_eq_false_2.
  - rewrite buildMerkleTree_step in Ht by done. destruct (buildMerkleTree (take (split_at l) l)) as [t1|]; [cbn in Ht|done].
    destruct (buildMerkleTree (drop (split_at l) l)) as [t2|]; [cbn in Ht|done]. injection Ht as <-.
    specialize (IHL t1 eq_refl). specialize (IHR t2 eq_refl). rewrite <- (take_drop (split_at l) l) at 1. rewrite filter_app.
    set (F1 := filter _ (take _ _)) in *. set (F2 := filter _ (drop _ _)) in *. rewrite tree_proof_node.
    rewrite (proves_found _ _ _ IHL), (proves_found _ _ _ IHR).
    destruct (decide (F1 ++ F2 = [])) as [E|Hne].
    { apply app_eq_nil in E as [E1 E2]. by rewrite E1, E2. }
    assert (Hp : negb (bool_decide (F1 = [])) || negb (bool_decide (F2 = [])) = true).
    { destruct F1; [|done]. by destruct F2. }
    rewrite Hp. destruct (F1 ++ F2) as [|y F] eqn:HF; [done|]. rewrite <- HF. cbn [proves fst snd]. rewrite HF. split.
    + destruct (side_ok t1 F1 _ (length (side t1 (tree_proof t1 S)).2) [] [] [] IHL (le_n _)) as [_ H1]. by destruct (side t1 _).1.
    + intros fuel hs fs ms Hf. rewrite <- HF. cbn [snd length] in Hf. rewrite length_app in Hf. destruct fuel as [|fuel]; [lia|].
      destruct (side_ok t1 F1 _ fuel ((side t2 (tree_proof t2 S)).1 ++ hs) ((side t2 (tree_proof t2 S)).2 ++ fs) ((leafMerkleHash <$> F2) ++ ms) IHL) as [R1 Hn1]; [lia|].
      destruct (side_ok t2 F2 _ fuel hs fs ms IHR) as [R2 _]; [lia|].
      cbn [fst snd]. rewrite fmap_app, <- app_assoc, <- app_comm_cons, <- !app_assoc. destruct (side t1 (tree_proof t1 S)).1 as [|h0 hs0]; [done|].
      change ((h0 :: hs0) ++ ?k) with (h0 :: hs0 ++ k) in R1 |- *. cbn. cbn in R1. rewrite R1. cbn. by rewrite R2.
Qed.

(** The proof [GetTxMerkleTreeProof] makes for some transactions of a list
    validates against its root. *)
Theorem proof_complete txs related :
  related = filter (fun x => leafMerkleHash x ∈ leafMerkleHash <$> related) txs ->
  ValidateTxMerkleTreeProof (GetTxMerkleTreeProof txs related).1 (GetTxMerkleTreeProof txs related).2 related (TxMerkleRoot txs) = true.
Proof.
  intros Hrel. unfold ValidateTxMerkleTreeProof, GetTxMerkleTreeProof, getMerkleTreeProof, validateMerkleTreeProof, TxMerkleRoot.
  destruct (decide (txs = [])) as [->|Hne].
  { rewrite filter_nil in Hrel. subst related. cbn. by rewrite bool_decide_eq_true_2. }
  destruct (buildMerkleTree_root txs Hne) as (t & Ht & Hroot). rewrite Ht.
  set (S := list_to_set (leafMerkleHash <$> related) : gset Hash).
  destruct (Nat.eqb_spec (size S) 0) as [Hz|Hz].
  - assert (related = []) as ->.
    { apply size_empty_inv in Hz. destruct related as [|x l]; [done|]. exfalso.
      apply (not_elem_of_empty (C := gset Hash) (leafMerkleHash x)). apply Hz. unfold S. apply elem_of_list_to_set. left. }
    cbn. by rewrite bool_decide_eq_true_2.
  - assert (Hf : filter (fun x => leafMerkleHash x ∈ S) txs = related).
    { etrans; [|symmetry; exact Hrel]. apply list_filter_iff. intros x. unfold S. by rewrite elem_of_list_to_set. }
    pose proof (tree_proof_proves S txs t Ht) as Hp. rewrite Hf in Hp.
    destruct related as [|x l]; [by destruct Hz; apply size_empty_iff|]. destruct Hp as [_ Hp].
    specialize (Hp (Datatypes.S (length (tree_proof t S).2)) [] [] [] ltac:(lia)). rewrite !app_nil_r in Hp. rewrite Hp. cbn.
    by rewrite bool_decide_eq_true_2.
Qed.
End Merkle.

(** ** Five transactions *)

Definition ex_ids : list Hash := (fun b => replicate 32 b) <$> [x0a; x0b; x0c; x0d; x0e].
Definition ex_related : list Hash := (fun b => replicate 32 b) <$> [x0b; x0e].

#[local] Existing Instance StubCrypto.


Lemma proof_complete_witness :
  ValidateTxMerkleTreeProof (GetTxMerkleTreeProof ex_ids ex_related).1 (GetTxMerkleTreeProof ex_ids ex_related).2 ex_related (TxMerkleRoot ex_ids) = true.
Proof. apply (proof_complete ex_ids ex_related). vm_compute. reflexivity. Defined.

Lemma proof_sound_witness :
  ex_related `sublist_of` ex_ids
  \/ collision (tree_inputs ex_ids) (proof_inputs (GetTxMerkleTreeProof ex_ids ex_related).1 (GetTxMerkleTreeProof ex_ids ex_related).2 ex_related).
Proof.
  apply (proof_sound ex_ids).
  - vm_compute. repeat constructor.
  - vm_compute. reflexivity.
Defined.
