(* ===== verification/MapTx.v ===== *)
(** * From a transaction to its entries: protocol/bc/types/map.go

    [MapTx] builds the entries of a transaction: a prevout and an input entry
    for every input, the mux that collects the inputs, and an output entry for
    every output.  Entries are objects: [SetDestination] fills the destination
    of an input after [addEntry] has computed its identifier, through the
    pointer that [entryMap] shares with [spends] and the other lists.  A
    pointer is an index of [objs]; [None] is a panic. *)

From S2P Require Import Prelude Encoding GoSlice VMTypes Opcode Script Entries TxData.
From Stdlib Require Import Strings.Byte.
#[local] Open Scope Z_scope.

(** [bc.Tx]. *)
Record Tx := mkTx {
  tx_Header : tx_header;
  tx_ID : Hash;
  tx_Entries : gmap Hash Entry;
  tx_InputIDs : list Hash;
  tx_SpentOutputIDs : list Hash;
}.

#[export] Instance Tx_eq_dec : EqDecision Tx.
Proof. solve_decision. Defined.

Record mapHelper := mkHelper {
  objs : list Entry;
  entryMap : gmap Hash nat;
  spends : list nat;
  issuances : list nat;
  vetos : list nat;
  mh_coinbase : option nat;
  muxSources : list ValueSource;
  mh_mux : option nat;
  inputIDs : list Hash;
  spentOutputIDs : list Hash;
  resultIDs : list Hash;
}.

Definition newMapHelper : mapHelper := mkHelper [] ∅ [] [] [] None [] None [] [] [].

Definition set_objs (x : list Entry) (h : mapHelper) : mapHelper :=
  let 'mkHelper _ e s i v c ms m ii so r := h in mkHelper x e s i v c ms m ii so r.
Definition set_entryMap (x : gmap Hash nat) (h : mapHelper) : mapHelper :=
  let 'mkHelper o _ s i v c ms m ii so r := h in mkHelper o x s i v c ms m ii so r.
Definition add_spend (p : nat) (h : mapHelper) : mapHelper :=
  let 'mkHelper o e s i v c ms m ii so r := h in mkHelper o e (s ++ [p]) i v c ms m ii so r.
Definition add_issuance (p : nat) (h : mapHelper) : mapHelper :=
  let 'mkHelper o e s i v c ms m ii so r := h in mkHelper o e s (i ++ [p]) v c ms m ii so r.
Definition add_veto (p : nat) (h : mapHelper) : mapHelper :=
  let 'mkHelper o e s i v c ms m ii so r := h in mkHelper o e s i (v ++ [p]) c ms m ii so r.
Definition set_coinbase (p : nat) (h : mapHelper) : mapHelper :=
  let 'mkHelper o e s i v _ ms m ii so r := h in mkHelper o e s i v (Some p) ms m ii so r.
(** The source of the next input, and its id. *)
Definition add_source (id : Hash) (x : ValueSource) (h : mapHelper) : mapHelper :=
  let 'mkHelper o e s i v c ms m ii so r := h in mkHelper o e s i v c (ms ++ [x]) m (ii ++ [id]) so r.
Definition set_mux (p : nat) (h : mapHelper) : mapHelper :=
  let 'mkHelper o e s i v c ms _ ii so r := h in mkHelper o e s i v c ms (Some p) ii so r.
Definition add_spent (x : Hash) (h : mapHelper) : mapHelper :=
  let 'mkHelper o e s i v c ms m ii so r := h in mkHelper o e s i v c ms m ii (so ++ [x]) r.
Definition add_result (x : Hash) (h : mapHelper) : mapHelper :=
  let 'mkHelper o e s i v c ms m ii so r := h in mkHelper o e s i v c ms m ii so (r ++ [x]).

(** ** The monad: state, and panics *)

Definition H (A : Type) : Type := mapHelper -> option (A * mapHelper).
#[export] Instance H_ret : MRet H := fun A a h => Some (a, h).
#[export] Instance H_bind : MBind H := fun A B f m h => match m h with None => None | Some (a, h') => f a h' end.
Definition hgets {A} (f : mapHelper -> A) : H A := fun h => Some (f h, h).
Definition hmodify (f : mapHelper -> mapHelper) : H unit := fun h => Some (tt, f h).
Definition or_panics {A} (x : option A) : H A := fun h => match x with None => None | Some a => Some (a, h) end.

Fixpoint for_each {A} (f : nat -> A -> H unit) (i : nat) (l : list A) : H unit :=
  match l with [] => mret tt | x :: l' => f i x ;; for_each f (S i) l' end.

Definition SetDestination (id : Hash) (val : option AssetAmount) (pos : Z) (e : Entry) : Entry :=
  let d := Some (mkValueDestination (Some id) val pos) in
  match e with
  | Issuance i => Issuance (mkIssuance (is_NonceHash i) (is_Value i) d (is_AssetDefinition i) (is_Arguments i) (is_Ordinal i))
  | Spend s => Spend (mkSpend (sp_SpentOutputId s) d (sp_Arguments s) (sp_Ordinal s))
  | VetoInput s => VetoInput (mkSpend (sp_SpentOutputId s) d (sp_Arguments s) (sp_Ordinal s))
  | Coinbase c => Coinbase (mkCoinbase d (cb_Arbitrary c))
  | _ => e
  end.

Section MapTx.
Context {Cr : Crypto}.
(** The transaction: [mh.txData]. *)
Variable txData : TxData.

(** [new] allocates the entry [addEntry] is called with. *)
Definition addEntry (e : Entry) : H (nat * Hash) :=
  id ← or_panics (EntryID e);
  p ← hgets (fun h => length (objs h));
  hmodify (fun h => set_objs (objs h ++ [e]) h) ;;
  hmodify (fun h => set_entryMap (<[id := p]> (entryMap h)) h) ;;
  mret (p, id).

Definition totalAmount (outs : list TxOutput) : Z :=
  foldl (fun n o => u64 (n + aa_Amount (oc_AssetAmount (to_Commitment o)))) 0 outs.

Definition mapCoinbaseInput (i : nat) (arbitrary : bytes) : H unit :=
  '(p, id) ← addEntry (Coinbase (mkCoinbase None arbitrary));
  hmodify (set_coinbase p) ;;
  hmodify (add_source id (mkValueSource (Some id) (Some (mkAssetAmount (Some BTMAssetID) (totalAmount (Outputs txData)))) 0)).

Definition mapIssuanceInput (i : nat) (input : IssuanceInput) : H unit :=
  let value := mkAssetAmount (Some (issuance_AssetID input)) (ii_Amount input) in
  '(p, id) ← addEntry (Issuance (mkIssuance (NonceHash input) value None (asset_definition input) (ii_Arguments input) (Z.of_nat i)));
  hmodify (add_issuance p) ;;
  hmodify (add_source id (mkValueSource (Some id) (Some value) 0)).

(** The source of the output an input spends. *)
Definition prevout_source (sc : SpendCommitment) : ValueSource :=
  mkValueSource (Some (sc_SourceID sc)) (Some (sc_AssetAmount sc)) (sc_SourcePosition sc).
Definition prevout (sc : SpendCommitment) : output :=
  mkOutput (Some (prevout_source sc)) (mkProgram (sc_VMVersion sc) (sc_ControlProgram sc)) 0 (sc_StateData sc).

Definition mapSpendInput (i : nat) (args : list bytes) (sc : SpendCommitment) : H unit :=
  '(_, prevoutID) ← addEntry (OriginalOutput (prevout sc));
  '(p, id) ← addEntry (Spend (mkSpend (Some prevoutID) None args (Z.of_nat i)));
  hmodify (add_spend p) ;;
  hmodify (add_spent prevoutID) ;;
  hmodify (add_source id (mkValueSource (Some id) (Some (sc_AssetAmount sc)) 0)).

Definition mapVetoInput (i : nat) (args : list bytes) (vote : bytes) (sc : SpendCommitment) : H unit :=
  '(_, prevoutID) ← addEntry (VoteOutput (prevout sc) vote);
  '(p, id) ← addEntry (VetoInput (mkSpend (Some prevoutID) None args (Z.of_nat i)));
  hmodify (add_veto p) ;;
  hmodify (add_spent prevoutID) ;;
  hmodify (add_source id (mkValueSource (Some id) (Some (sc_AssetAmount sc)) 0)).

Definition mapInput (i : nat) (input : TxInput) : H unit :=
  match ti_TypedInput input with
  | Some (TIssuance ii) => mapIssuanceInput i ii
  | Some (TSpend _ args sc) => mapSpendInput i args sc
  | Some (TVeto _ args vote sc) => mapVetoInput i args vote sc
  | Some (TCoinbase arbitrary) => mapCoinbaseInput i arbitrary
  | None => or_panics None
  end.
Definition mapInputs : H unit := for_each mapInput 0 (Inputs txData).

(** The value of the spent output, after the assertion of its type. *)
Definition spent_value (vote : bool) (id : option Hash) (h : mapHelper) : option (option AssetAmount) :=
  id ← id;
  p ← entryMap h !! id;
  e ← objs h !! p;
  match e, vote with
  | OriginalOutput o, false | VoteOutput o _, true => s ← o_Source o; Some (src_Value s)
  | _, _ => None
  end.

Definition update (p : nat) (f : Entry -> Entry) : H unit := hmodify (fun h => set_objs (alter f p (objs h)) h).

(** [spend.SetDestination(&muxID, spentOutput.Source.Value, spend.Ordinal)]. *)
Definition connect (vote : bool) (muxID : Hash) (p : nat) : H unit :=
  e ← hgets (fun h => objs h !! p);
  match e with
  | Some (Spend s) | Some (VetoInput s) =>
      v ← hgets (spent_value vote (sp_SpentOutputId s));
      v ← or_panics v;
      update p (SetDestination muxID v (sp_Ordinal s))
  | Some (Issuance i) => update p (SetDestination muxID (Some (is_Value i)) (is_Ordinal i))
  | _ => or_panics None
  end.

Definition initMux : H unit :=
  sources ← hgets muxSources;
  '(p, muxID) ← addEntry (Mux (mkMux sources (mkProgram 1 [z2b OP_TRUE]) []));
  hmodify (set_mux p) ;;
  l ← hgets spends; for_each (fun _ => connect false muxID) 0 l ;;
  l ← hgets vetos; for_each (fun _ => connect true muxID) 0 l ;;
  l ← hgets issuances; for_each (fun _ => connect false muxID) 0 l ;;
  c ← hgets mh_coinbase;
  match c with
  | None => mret tt
  | Some c => s ← or_panics (head sources); update c (SetDestination muxID (src_Value s) 0)
  end.

(** The entry of output [i]. *)
Definition result_entry (muxID : Hash) (i : nat) (out : TxOutput) : Entry :=
  let oc := to_Commitment out in
  let src := mkValueSource (Some muxID) (Some (oc_AssetAmount oc)) (Z.of_nat i) in
  let o := mkOutput (Some src) (mkProgram (oc_VMVersion oc) (oc_ControlProgram oc)) (Z.of_nat i) (oc_StateData oc) in
  if IsUnspendable (oc_ControlProgram oc) then Retirement (Some src) (Z.of_nat i)
  else match to_TypedOutput out with
       | originalTxOutput => OriginalOutput o
       | TVoteOutput vote => VoteOutput o vote
       end.

Definition add_destination (d : ValueDestination) (e : Entry) : Entry :=
  match e with Mux m => Mux (mkMux (mux_Sources m) (mux_Program m) (mux_Destinations m ++ [d])) | _ => e end.

Definition mapOutput (p : nat) (muxID : Hash) (i : nat) (out : TxOutput) : H unit :=
  '(_, resultID) ← addEntry (result_entry muxID i out);
  hmodify (add_result resultID) ;;
  update p (add_destination (mkValueDestination (Some resultID) (Some (oc_AssetAmount (to_Commitment out))) 0)).

Definition mapOutputs : H unit :=
  m ← hgets mh_mux;
  p ← or_panics m;
  e ← hgets (fun h => objs h !! p);
  e ← or_panics e;
  muxID ← or_panics (EntryID e);
  for_each (mapOutput p muxID) 0 (Outputs txData).

Definition generateTx : H Tx :=
  ids ← hgets resultIDs;
  let header := mkTxHeader (Version txData) (SerializedSize txData) (TimeRange txData) ids in
  '(_, id) ← addEntry (TxHeader header);
  h ← hgets (fun h => h);
  mret (mkTx header id (omap (fun p => objs h !! p) (entryMap h)) (inputIDs h) (spentOutputIDs h)).

Definition MapTx : option Tx := fst <$> (mapInputs ;; initMux ;; mapOutputs ;; generateTx) newMapHelper.
End MapTx.
