(* ===== verification/Validate.v ===== *)
(** * Validation of transactions: protocol/validation/tx.go and vmcontext.go

    [checkValid] walks the entries of a transaction from its results to its
    inputs.  A [validationState] is copied for every call, except for the gas
    status and the cache, which are shared: they are the state of the monad.
    Errors abort the walk, so that only successful results are ever read back
    from the cache.  Dereferencing a nil pointer is [VPanic]; the recursion is
    bounded by [fuel], the interpreter by [vmfuel].

    The virtual machine runs on items as values, which is what it computes as
    long as no append is in place ([Alias.v]).  [checkOutput], the closure that
    CHECKOUTPUT calls, tells a nil slice from an empty one and is left
    abstract; nothing below depends on it. *)

From S2P Require Import Prelude Checked GoSlice VMTypes Opcode Machine Interp Script Orphans Encoding Entries TxData MapTx.
From Stdlib Require Import Strings.Byte.
#[local] Open Scope Z_scope.

(** consensus/general.go *)
Definition VMGasRate : Z := 200.
Definition StorageGasRate : Z := 1.
Definition MaxGasAmount : Z := 300000.
Definition MaxBlockGas : Z := 10000000.
Definition MinVoteOutputAmount : Z := 100000000.
Definition CoinbaseArbitrarySizeLimit : Z := 128.

Inductive tx_error :=
  | ErrTxVersion
  | ErrWrongTransactionSize
  | ErrBadTimeRange
  | ErrInputDoubleSend
  | ErrWrongCoinbaseTransaction
  | ErrWrongCoinbaseAsset
  | ErrCoinbaseArbitraryOversize
  | ErrEmptyResults
  | ErrMismatchedAssetID
  | ErrMismatchedPosition
  | ErrMismatchedReference
  | ErrMismatchedValue
  | ErrMissingField
  | ErrNoSource
  | ErrOverflowTx                (* ErrOverflow *)
  | ErrPosition
  | ErrUnbalanced
  | ErrOverGasCredit
  | ErrGasCalculate
  | ErrVotePubKey
  | ErrVoteOutputAmount
  | ErrVoteOutputAseet
  | ErrEntryType                 (* of bc/tx.go *)
  | ErrMissingEntryTx            (* bc.ErrMissingEntry *)
  | ErrUnexpectedType            (* entry has unexpected type *)
  | ErrEmptyAmount               (* of AssetAmount.Equal *)
  | ErrVMError (e : error).

Record GasState := mkGas { BTMValue : Z; GasLeft : Z; GasUsed : Z; StorageGas : Z }.

(** ** The monad *)

Record vstate := mkV { gasStatus : GasState; cache : gset Hash }.

Inductive vres (A : Type) := VOk (a : A) | VErr (e : tx_error) | VPanic | VFuel.
Arguments VOk {A} a.
Arguments VErr {A} e.
Arguments VPanic {A}.
Arguments VFuel {A}.

Definition V (A : Type) : Type := vstate -> vres A * vstate.

#[export] Instance V_ret : MRet V := fun A a s => (VOk a, s).
#[export] Instance V_bind : MBind V := fun A B f m s =>
  match m s with
  | (VOk a, s') => f a s'
  | (VErr e, s') => (VErr e, s')
  | (VPanic, s') => (VPanic, s')
  | (VFuel, s') => (VFuel, s')
  end.

Definition verr {A} (e : tx_error) : V A := fun s => (VErr e, s).
Definition vpanic {A} : V A := fun s => (VPanic, s).
Definition vfuel {A} : V A := fun s => (VFuel, s).
(** A nil pointer dereferenced, or a missing value that is the error [e]. *)
Definition deref {A} (x : option A) : V A := match x with Some a => mret a | None => vpanic end.
Definition orr {A} (e : tx_error) (x : option A) : V A := match x with Some a => mret a | None => verr e end.
(** [if !b { return e }]. *)
Definition require (b : bool) (e : tx_error) : V unit := if b then mret tt else verr e.
Definition get_gas : V GasState := fun s => (VOk (gasStatus s), s).
Definition put_gas (g : GasState) : V unit := fun s => (VOk tt, mkV g (cache s)).

Fixpoint vfor {A} (f : nat -> A -> V unit) (i : nat) (l : list A) : V unit :=
  match l with [] => mret tt | x :: l' => f i x ;; vfor f (S i) l' end.

(** ** Gas *)

Definition setGas (value txSize : Z) : V unit :=
  require (negb (value <? 0)) ErrGasCalculate ;;
  g ← get_gas;
  left ← orr ErrGasCalculate (DivInt64 value VMGasRate);
  let left := if left >? MaxGasAmount then MaxGasAmount else left in
  storage ← orr ErrGasCalculate (MulInt64 txSize StorageGasRate);
  put_gas (mkGas (u64 value) left (GasUsed g) storage).

Definition chargeStorageGas : V unit :=
  g ← get_gas;
  left ← orr ErrGasCalculate (SubInt64 (GasLeft g) (StorageGas g));
  require (negb (left <? 0)) ErrGasCalculate ;;
  used ← orr ErrGasCalculate (AddInt64 (GasUsed g) (StorageGas g));
  put_gas (mkGas (BTMValue g) left used (StorageGas g)).

Definition updateUsage (gasLeft : Z) : V unit :=
  require (negb (gasLeft <? 0)) ErrGasCalculate ;;
  g ← get_gas;
  gasUsed ← orr ErrGasCalculate (SubInt64 (GasLeft g) gasLeft);
  put_gas (mkGas (BTMValue g) gasLeft (i64 (GasUsed g + gasUsed)) (StorageGas g)) ;;
  require (negb (StorageGas g >? gasLeft)) ErrOverGasCredit.

(** ** The context of the virtual machine *)

(** [bc.Block]: the header fields that are read, and the pointers to the transactions. *)
Record Block := mkBcBlock { bk_Version : Z; bk_Height : Z; bk_Transactions : list nat }.

Section Validate.
Context {R : MapRange} {U : Uint256} {Cr : Crypto}.
(** [ProgramConverterFunc], the chain's contract lookup; [None] is an error. *)
Variable converter : bytes -> option bytes.
(** The closure [entryContext.checkOutput] of an entry. *)
Variable checkOutput : Entry -> gmap Hash Entry -> Z -> Z -> bytes -> Z -> bytes -> list bytes -> bool -> bool + error.
(** The transaction, the pointer to it, and the block. *)
Variables (tx : Tx) (tx_ptr : nat) (block : Block) (vmfuel : nat).

Definition convertProgram (prog : bytes) : bytes :=
  if IsP2WPKHScript prog then match ConvertP2PKHSigProgram prog with Done w => w | _ => prog end
  else if IsP2WSHScript prog then match ConvertP2SHProgram prog with Done w => w | _ => prog end
  else if IsCallContractScript prog then match converter prog with Some c => c | None => prog end
  else prog.

(** [tx.Entries[id]] as an original output, or a vote output. *)
Definition getOriginalOutput (id : Hash) : V output :=
  e ← orr ErrMissingEntryTx (tx_Entries tx !! id);
  match e with OriginalOutput o => mret o | _ => verr ErrEntryType end.
Definition getVoteOutput (id : Hash) : V (output * bytes) :=
  e ← orr ErrMissingEntryTx (tx_Entries tx !! id);
  match e with VoteOutput o vote => mret (o, vote) | _ => verr ErrEntryType end.

Definition NewTxVMContext (e : Entry) (prog : Program) (stateData args : list bytes) : V (Context_ ValueStore) :=
  entryID ← deref (EntryID e);
  '(assetID, amount, destPos, spentOutputID) ←
    match e with
    | Issuance i =>
        a ← deref (aa_AssetId (is_Value i));
        d ← deref (is_Destination i);
        mret (Some a, Some (aa_Amount (is_Value i)), Some (dst_Position d), None)
    | Spend s =>
        id ← deref (sp_SpentOutputId s);
        o ← deref (match tx_Entries tx !! id with Some (OriginalOutput o) => Some o | _ => None end);
        src ← deref (o_Source o);
        v ← deref (src_Value src);
        a ← deref (aa_AssetId v);
        d ← deref (sp_Destination s);
        mret (Some a, Some (aa_Amount v), Some (dst_Position d), Some id)
    | _ => mret (None, None, None, None)
    end;
  mret (mkContext (S := ValueStore) (VmVersion prog) (convertProgram (prog_Code prog)) stateData args entryID
          (Some (hd_Version (tx_Header tx))) (Some (bk_Height block)) (Some (zlen (hd_ResultIds (tx_Header tx))))
          assetID amount destPos spentOutputID (Some (sha3_256 (entryID ++ tx_ID tx)))
          (Some (checkOutput e (tx_Entries tx)))).

(** [vm.Verify] under the gas that is left, and [updateUsage]. *)
Definition run_program (e : Entry) (prog : Program) (stateData args : list bytes) : V unit :=
  ctx ← NewTxVMContext e prog stateData args;
  g ← get_gas;
  match (Verify (S := ValueStore) vmfuel ctx (GasLeft g) tt).1 with
  | None => vfuel
  | Some v =>
      match verify_err v with
      | Some err => verr (ErrVMError err)
      | None => updateUsage (gasLeft v)
      end
  end.

(** ** Entries, sources and destinations *)

(** The fields of [validationState] that are copied. *)
Record vpos := mkPos { entryID : Hash; sourcePos : Z; destPos : Z }.

(** The common end of [checkValidSrc] and [checkValidDest]: the other end of
    the link refers back, by id, position and value. *)
Definition check_link (ref : option Hash) (pos : Z) (value : option AssetAmount) (id : Hash) (at_ : Z)
    (expected : option AssetAmount) : V unit :=
  (if bool_decide (ref = Some id) then mret tt
   else (deref ref ;; verr ErrMismatchedReference)) ;;
  require (pos =? at_) ErrMismatchedPosition ;;
  eq ← orr ErrMissingField (Equal value expected);
  require eq ErrMismatchedValue.

(** [checkValid] of the source entry is an argument. *)
Definition checkValidSrc (check : vpos -> option Entry -> V unit) (vs : vpos) (s : option ValueSource) : V unit :=
  s ← orr ErrMissingField s;
  ref ← orr ErrMissingField (src_Ref s);
  v ← orr ErrMissingField (src_Value s);
  _ ← orr ErrMissingField (aa_AssetId v);
  e ← orr ErrMissingEntryTx (tx_Entries tx !! ref);
  check (mkPos ref (sourcePos vs) (destPos vs)) (Some e) ;;
  dest ← match e with
         | Coinbase c => require (src_Position s =? 0) ErrPosition ;; mret (cb_Destination c)
         | Issuance i => require (src_Position s =? 0) ErrPosition ;; mret (is_Destination i)
         | Spend x | VetoInput x => require (src_Position s =? 0) ErrPosition ;; mret (sp_Destination x)
         | Mux m =>
             require (src_Position s <? zlen (mux_Destinations m)) ErrPosition ;;
             mret (zlookup (mux_Destinations m) (src_Position s))
         | _ => verr ErrEntryType
         end;
  d ← deref dest;
  check_link (dst_Ref d) (dst_Position d) (dst_Value d) (entryID vs) (sourcePos vs) (src_Value s).

Definition checkValidDest (vs : vpos) (d : option ValueDestination) : V unit :=
  d ← orr ErrMissingField d;
  ref ← orr ErrMissingField (dst_Ref d);
  v ← orr ErrMissingField (dst_Value d);
  _ ← orr ErrMissingField (aa_AssetId v);
  e ← orr ErrMissingEntryTx (tx_Entries tx !! ref);
  src ← match e with
        | OriginalOutput o | VoteOutput o _ => require (dst_Position d =? 0) ErrPosition ;; mret (o_Source o)
        | Retirement s _ => require (dst_Position d =? 0) ErrPosition ;; mret s
        | Mux m =>
            require (dst_Position d <? zlen (mux_Sources m)) ErrPosition ;;
            mret (zlookup (mux_Sources m) (dst_Position d))
        | _ => verr ErrEntryType
        end;
  s ← deref src;
  check_link (src_Ref s) (src_Position s) (src_Value s) (entryID vs) (destPos vs) (dst_Value d).

(** ** The mux *)

Definition parity_source (parity : gmap AssetID Z) (s : ValueSource) : V (gmap AssetID Z) :=
  v ← deref (src_Value s);
  require (negb (aa_Amount v >? MaxInt64)) ErrOverflowTx ;;
  id ← deref (aa_AssetId v);
  sum ← orr ErrOverflowTx (AddInt64 (default 0 (parity !! id)) (i64 (aa_Amount v)));
  mret (<[id := sum]> parity).
Definition parity_dest (parity : gmap AssetID Z) (d : ValueDestination) : V (gmap AssetID Z) :=
  v ← deref (dst_Value d);
  id ← deref (aa_AssetId v);
  sum ← orr ErrNoSource (parity !! id);
  require (negb (aa_Amount v >? MaxInt64)) ErrOverflowTx ;;
  diff ← orr ErrOverflowTx (SubInt64 sum (i64 (aa_Amount v)));
  mret (<[id := diff]> parity).

Fixpoint vfold {A B} (f : B -> A -> V B) (b : B) (l : list A) : V B :=
  match l with [] => mret b | x :: l' => b ← f b x; vfold f b l' end.

Definition check_balance (_ : nat) (p : AssetID * Z) : V unit :=
  let '(assetID, amount) := p in
  if bool_decide (assetID = BTMAssetID) then setGas amount (i64 (hd_SerializedSize (tx_Header tx)))
  else require (amount =? 0) ErrUnbalanced.

Definition check_mux (check : vpos -> option Entry -> V unit) (vs : vpos) (m : mux) : V unit :=
  parity ← vfold parity_source ∅ (mux_Sources m);
  parity ← vfold parity_dest parity (mux_Destinations m);
  vfor check_balance 0 (map_range parity) ;;
  vfor (fun i d => checkValidDest (mkPos (entryID vs) (sourcePos vs) (Z.of_nat i)) (Some d)) 0 (mux_Destinations m) ;;
  vfor (fun i s => checkValidSrc check (mkPos (entryID vs) (Z.of_nat i) (destPos vs)) (Some s)) 0 (mux_Sources m) ;;
  chargeStorageGas.

(** ** The entries *)

(** The spend of [prev], with the value check and the destination. *)
Definition check_spend (vs : vpos) (e : Entry) (s : spend) (prev : output) : V unit :=
  run_program e (o_Program prev) (o_StateData prev) (sp_Arguments s) ;;
  src ← deref (o_Source prev);
  d ← deref (sp_Destination s);
  eq ← orr ErrEmptyAmount (Equal (src_Value src) (dst_Value d));
  require eq ErrMismatchedValue ;;
  checkValidDest (mkPos (entryID vs) (sourcePos vs) 0) (sp_Destination s).

Definition check_entry (check : vpos -> option Entry -> V unit) (vs : vpos) (e : Entry) : V unit :=
  let src_at_0 := checkValidSrc check (mkPos (entryID vs) 0 (destPos vs)) in
  match e with
  | TxHeader h =>
      vfor (fun _ resID => check (mkPos resID (sourcePos vs) (destPos vs)) (tx_Entries tx !! resID)) 0 (hd_ResultIds h) ;;
      require (negb ((hd_Version h =? 1) && (zlen (hd_ResultIds h) =? 0))) ErrEmptyResults
  | Mux m => check_mux check vs m
  | OriginalOutput o => src_at_0 (o_Source o)
  | Retirement s _ => src_at_0 s
  | VoteOutput o vote =>
      require (zlen vote =? 64) ErrVotePubKey ;;
      src_at_0 (o_Source o) ;;
      s ← deref (o_Source o);
      v ← deref (src_Value s);
      require (negb (aa_Amount v <? MinVoteOutputAmount)) ErrVoteOutputAmount ;;
      id ← deref (aa_AssetId v);
      require (bool_decide (id = BTMAssetID)) ErrVoteOutputAseet
  | Issuance i =>
      id ← deref (aa_AssetId (is_Value i));
      require (bool_decide (ComputeAssetID (is_AssetDefinition i) = id)) ErrMismatchedAssetID ;;
      run_program e (def_IssuanceProgram (is_AssetDefinition i)) [] (is_Arguments i) ;;
      checkValidDest (mkPos (entryID vs) (sourcePos vs) 0) (is_Destination i)
  | Spend s =>
      id ← orr ErrMissingField (sp_SpentOutputId s);
      prev ← getOriginalOutput id;
      check_spend vs e s prev
  | VetoInput s =>
      id ← orr ErrMissingField (sp_SpentOutputId s);
      '(prev, vote) ← getVoteOutput id;
      require (zlen vote =? 64) ErrVotePubKey ;;
      check_spend vs e s prev
  | Coinbase c =>
      require (bool_decide (head (bk_Transactions block) = Some tx_ptr)) ErrWrongCoinbaseTransaction ;;
      d ← deref (cb_Destination c);
      v ← deref (dst_Value d);
      id ← deref (aa_AssetId v);
      require (bool_decide (id = BTMAssetID)) ErrWrongCoinbaseAsset ;;
      require (negb (zlen (cb_Arbitrary c) >? CoinbaseArbitrarySizeLimit)) ErrCoinbaseArbitraryOversize ;;
      checkValidDest (mkPos (entryID vs) (sourcePos vs) 0) (cb_Destination c) ;;
      g ← get_gas;
      put_gas (mkGas (BTMValue g) (GasLeft g) (GasUsed g) 0)
  end.

(** The entries found valid. *)
Definition in_cache (id : Hash) : V bool := fun s => (VOk (bool_decide (id ∈ cache s)), s).
Definition to_cache (id : Hash) : V unit := fun s => (VOk tt, mkV (gasStatus s) ({[id]} ∪ cache s)).

Fixpoint checkValid (fuel : nat) (vs : vpos) (e : option Entry) : V unit :=
  match fuel with
  | O => vfuel
  | S fuel =>
      id ← match e with None => mret (replicate 32 x00) | Some e => deref (EntryID e) end;
      c ← in_cache id;
      if c : bool then mret tt
      else
        match e with
        | None => verr ErrUnexpectedType
        | Some e => check_entry (checkValid fuel) vs e ;; to_cache id
        end
  end.

(** ** The transaction *)

Definition checkDoubleSpend : V unit := require (bool_decide (NoDup (tx_InputIDs tx))) ErrInputDoubleSend.

Definition checkTimeRange : V unit :=
  let t := hd_TimeRange (tx_Header tx) in
  if t =? 0 then mret tt else require (negb (t <? bk_Height block)) ErrBadTimeRange.

Definition ValidateTx_body (fuel : nat) : V unit :=
  require (negb ((bk_Version block =? 1) && negb (hd_Version (tx_Header tx) =? 1))) ErrTxVersion ;;
  require (negb (hd_SerializedSize (tx_Header tx) =? 0)) ErrWrongTransactionSize ;;
  checkTimeRange ;;
  checkDoubleSpend ;;
  checkValid fuel (mkPos (tx_ID tx) 0 0) (Some (TxHeader (tx_Header tx))).

Definition ValidateTx (fuel : nat) : vres GasState :=
  match ValidateTx_body fuel (mkV (mkGas 0 0 0 0) ∅) with
  | (VOk _, s) => VOk (gasStatus s)
  | (VErr e, _) => VErr e
  | (VPanic, _) => VPanic
  | (VFuel, _) => VFuel
  end.
End Validate.
