(* ===== verification/ValidateSpec.v ===== *)
(** * What a valid transaction is

    [checkValid] as a declarative specification: the entries it puts in its
    cache are closed under sources, every link between two entries is agreed on
    by both ends, every mux is balanced for each asset, and every input is
    authorised by its program ([local_ok]).  Success of a computation of [V] is
    inverted step by step by the lemmas at the beginning. *)

From S2P Require Import Prelude Checked GoSlice VMTypes Opcode Machine Interp Script Orphans Encoding Entries TxData MapTx Validate.
From Stdlib Require Import Strings.Byte.
#[local] Open Scope Z_scope.

(** ** Inversion of success *)

Lemma V_bind_ok {A B} (m : V A) (f : A -> V B) s b s2 :
  (m ≫= f) s = (VOk b, s2) -> exists a s1, m s = (VOk a, s1) /\ f a s1 = (VOk b, s2).
Proof. unfold mbind, V_bind. destruct (m s) as [[a|e| |] s1] eqn:Hm; try done. eauto. Qed.
Lemma mret_ok {A} (a : A) s b s1 : (mret a : V A) s = (VOk b, s1) -> b = a /\ s1 = s.
Proof. by intros [= <- <-]. Qed.
Lemma deref_ok {A} (x : option A) s a s1 : deref x s = (VOk a, s1) -> x = Some a /\ s1 = s.
Proof. destruct x; [by intros [= <- <-]|done]. Qed.
Lemma orr_ok {A} e (x : option A) s a s1 : orr e x s = (VOk a, s1) -> x = Some a /\ s1 = s.
Proof. destruct x; [by intros [= <- <-]|done]. Qed.
Lemma require_ok b e s a s1 : require b e s = (VOk a, s1) -> b = true /\ s1 = s.
Proof. destruct b; [by intros [= <- <-]|done]. Qed.
Lemma get_gas_ok s a s1 : get_gas s = (VOk a, s1) -> a = gasStatus s /\ s1 = s.
Proof. by intros [= <- <-]. Qed.
Lemma put_gas_ok g s a s1 : put_gas g s = (VOk a, s1) -> s1 = mkV g (cache s).
Proof. by intros [= <- <-]. Qed.
Lemma in_cache_ok id s b s1 : in_cache id s = (VOk b, s1) -> b = bool_decide (id ∈ cache s) /\ s1 = s.
Proof. by intros [= <- <-]. Qed.
Lemma to_cache_ok id s b s1 : to_cache id s = (VOk b, s1) -> s1 = mkV (gasStatus s) ({[id]} ∪ cache s).
Proof. by intros [= <- <-]. Qed.

(** A step in front of the rest. *)
Lemma b_deref {A B} (x : option A) (f : A -> V B) s b s2 : (deref x ≫= f) s = (VOk b, s2) -> exists a, x = Some a /\ f a s = (VOk b, s2).
Proof. destruct x; [eauto|done]. Qed.
Lemma b_orr {A B} e (x : option A) (f : A -> V B) s b s2 : (orr e x ≫= f) s = (VOk b, s2) -> exists a, x = Some a /\ f a s = (VOk b, s2).
Proof. destruct x; [eauto|done]. Qed.
Lemma b_require {B} c e (f : unit -> V B) s b s2 : (require c e ≫= f) s = (VOk b, s2) -> c = true /\ f tt s = (VOk b, s2).
Proof. destruct c; [eauto|done]. Qed.
Lemma b_gas {B} (f : GasState -> V B) s b s2 : (get_gas ≫= f) s = (VOk b, s2) -> f (gasStatus s) s = (VOk b, s2).
Proof. done. Qed.

(** A loop, with an invariant and a fact per round that survives as the cache grows. *)
Lemma vfor_ok {A} (f : nat -> A -> V unit) (I : vstate -> Prop) (Q : nat -> A -> gset Hash -> Prop) i l s s2 :
  (forall j x s s', I s -> x ∈ l -> f j x s = (VOk tt, s') -> I s' /\ cache s ⊆ cache s' /\ Q j x (cache s')) ->
  (forall j x C C', C ⊆ C' -> Q j x C -> Q j x C') ->
  I s -> vfor f i l s = (VOk tt, s2) ->
  I s2 /\ cache s ⊆ cache s2 /\ forall j x, l !! j = Some x -> Q (i + j)%nat x (cache s2).
Proof.
  intros Hf HQ. revert i s. induction l as [|x l IH]; intros i s Hs Hl; cbn [vfor] in Hl.
  { by apply mret_ok in Hl as [_ ->]. }
  apply V_bind_ok in Hl as ([] & s1 & Hx & Hl). destruct (Hf i x s s1 Hs ltac:(left) Hx) as (Hs1 & H01 & Hq).
  destruct (IH ltac:(intros; eapply Hf; [done|by right|done]) (S i) s1 Hs1 Hl) as (H2 & H12 & Hrest).
  split; [done|]. split; [set_solver|]. intros [|j] y; cbn.
  - intros [= <-]. rewrite Nat.add_0_r. by eapply HQ.
  - intros Hj. rewrite <- Nat.add_succ_comm. by apply Hrest.
Qed.

Section Spec.
Context {R : MapRange} {RL : MapRangeLaws R} {U : Uint256} {Cr : Crypto}.
Variable converter : bytes -> option bytes.
Variable checkOutput : Entry -> gmap Hash Entry -> Z -> Z -> bytes -> Z -> bytes -> list bytes -> bool -> bool + error.
Variables (tx : Tx) (tx_ptr : nat) (block : Block) (vmfuel : nat).

#[local] Abbreviation Entries := (tx_Entries tx).
#[local] Abbreviation checkValid := (checkValid converter checkOutput tx tx_ptr block vmfuel).

(** ** Local correctness *)

(** The destination an entry gives to a source at a position, and the source
    an entry gives to a destination. *)
Definition dest_at (e : Entry) (pos : Z) : option ValueDestination :=
  match e with
  | Mux m => zlookup (mux_Destinations m) pos
  | Issuance i => if pos =? 0 then is_Destination i else None
  | Spend x | VetoInput x => if pos =? 0 then sp_Destination x else None
  | Coinbase c => if pos =? 0 then cb_Destination c else None
  | _ => None
  end.
Definition source_at (e : Entry) (pos : Z) : option ValueSource :=
  match e with
  | Mux m => zlookup (mux_Sources m) pos
  | OriginalOutput o | VoteOutput o _ => if pos =? 0 then o_Source o else None
  | Retirement s _ => if pos =? 0 then s else None
  | _ => None
  end.

(** The source [s], at position [i] of the entry [id]: it refers to a checked
    entry whose destination there is [id] at [i], with the same value. *)
Definition source_ok (C : gset Hash) (id : Hash) (i : Z) (s : option ValueSource) : Prop :=
  exists s' ref v e, s = Some s' /\ src_Ref s' = Some ref /\ src_Value s' = Some v /\ is_Some (aa_AssetId v)
    /\ Entries !! ref = Some e /\ ref ∈ C
    /\ dest_at e (src_Position s') = Some (mkValueDestination (Some id) (Some v) i).
Definition dest_ok (id : Hash) (i : Z) (d : option ValueDestination) : Prop :=
  exists d' ref v e, d = Some d' /\ dst_Ref d' = Some ref /\ dst_Value d' = Some v /\ is_Some (aa_AssetId v)
    /\ Entries !! ref = Some e
    /\ source_at e (dst_Position d') = Some (mkValueSource (Some id) (Some v) i).

(** The program accepts the arguments, under some amount of gas. *)
Definition accepted (e : Entry) (prog : Program) (stateData args : list bytes) : Prop :=
  exists ctx s gas v,
    (NewTxVMContext converter checkOutput tx block e prog stateData args s).1 = VOk ctx
    /\ (Verify (S := ValueStore) vmfuel ctx gas tt).1 = Some v /\ verify_err v = None.

Definition value_of (a : AssetID) (v : option AssetAmount) : Z :=
  match v with Some v => if bool_decide (aa_AssetId v = Some a) then aa_Amount v else 0 | None => 0 end.
Definition total (a : AssetID) (l : list (option AssetAmount)) : Z := foldr (fun v n => value_of a v + n) 0 l.

Definition balanced (m : mux) : Prop :=
  forall a, let ins := total a (src_Value <$> mux_Sources m) in let outs := total a (dst_Value <$> mux_Destinations m) in
  ins <= MaxInt64 /\ if bool_decide (a = BTMAssetID) then outs <= ins else ins = outs.

Definition spend_ok (C : gset Hash) (id : Hash) (e : Entry) (s : spend) (prev : output) : Prop :=
  accepted e (o_Program prev) (o_StateData prev) (sp_Arguments s)
  /\ (exists src d, o_Source prev = Some src /\ sp_Destination s = Some d /\ src_Value src = dst_Value d)
  /\ dest_ok id 0 (sp_Destination s).

(** What [checkValid] has established of the entry [e] with identifier [id],
    if the entries of [C] are those it has checked. *)
Definition local_ok (C : gset Hash) (id : Hash) (e : Entry) : Prop :=
  match e with
  | TxHeader h => forall r, r ∈ hd_ResultIds h -> r ∈ C
  | Mux m => balanced m
      /\ (forall i d, mux_Destinations m !! i = Some d -> dest_ok id (Z.of_nat i) (Some d))
      /\ (forall i s, mux_Sources m !! i = Some s -> source_ok C id (Z.of_nat i) (Some s))
  | OriginalOutput o => source_ok C id 0 (o_Source o)
  | Retirement s _ => source_ok C id 0 s
  | VoteOutput o vote => source_ok C id 0 (o_Source o) /\ zlen vote = 64
      /\ exists s v, o_Source o = Some s /\ src_Value s = Some v /\ aa_AssetId v = Some BTMAssetID /\ MinVoteOutputAmount <= aa_Amount v
  | Issuance i => aa_AssetId (is_Value i) = Some (ComputeAssetID (is_AssetDefinition i))
      /\ accepted e (def_IssuanceProgram (is_AssetDefinition i)) [] (is_Arguments i)
      /\ dest_ok id 0 (is_Destination i)
  | Spend s => exists ref prev, sp_SpentOutputId s = Some ref /\ Entries !! ref = Some (OriginalOutput prev) /\ spend_ok C id e s prev
  | VetoInput s => exists ref prev vote, sp_SpentOutputId s = Some ref /\ Entries !! ref = Some (VoteOutput prev vote)
      /\ zlen vote = 64 /\ spend_ok C id e s prev
  | Coinbase c => head (bk_Transactions block) = Some tx_ptr /\ dest_ok id 0 (cb_Destination c)
      /\ exists d v, cb_Destination c = Some d /\ dst_Value d = Some v /\ aa_AssetId v = Some BTMAssetID
  end.

Definition closed (C : gset Hash) : Prop := forall id, id ∈ C -> exists e, Entries !! id = Some e /\ local_ok C id e.

Lemma source_ok_mono C C' id i s : C ⊆ C' -> source_ok C id i s -> source_ok C' id i s.
Proof. intros Hs (s' & ref & v & e & H1 & H2 & H3 & H4 & H5 & H6 & H7). exists s', ref, v, e. split_and!; try done. by apply Hs. Qed.

Lemma local_ok_mono C C' id e : C ⊆ C' -> local_ok C id e -> local_ok C' id e.
Proof.
  intros Hs. destruct e; cbn; try done; try (by apply source_ok_mono).
  - intros Hr r Hin. by apply Hs, Hr.
  - intros (H1 & H2 & H3). split; [done|]. split; [done|]. intros i s Hi. by eapply source_ok_mono, H3.
  - intros (H1 & H2). split; [|done]. by eapply source_ok_mono.
Qed.

(** ** Links *)

Lemma check_link_ok ref pos v id i w s r s' :
  check_link ref pos v id i w s = (VOk r, s') ->
  s' = s /\ ref = Some id /\ pos = i /\ v = w /\ exists x, w = Some x /\ is_Some (aa_AssetId x).
Proof.
  unfold check_link. intros Hl. apply V_bind_ok in Hl as ([] & s1 & H1 & Hl).
  case_bool_decide as Href; [apply mret_ok in H1 as [_ ->]|by apply V_bind_ok in H1 as (? & ? & _ & H1)].
  apply b_require in Hl as [Hpos Hl]. apply b_orr in Hl as (eq & Heq & Hl).
  apply require_ok in Hl as [-> ->]. apply Z.eqb_eq in Hpos. destruct (Equal_true v w Heq) as (x & y & -> & -> & Hx).
  split_and!; eauto.
Qed.

(** The two ends of a destination. *)
Lemma checkValidDest_ok vs d s r s' :
  checkValidDest tx vs d s = (VOk r, s') -> s' = s /\ dest_ok (entryID vs) (destPos vs) d.
Proof.
  unfold checkValidDest. intros Hd. apply b_orr in Hd as (d' & Hd' & Hd). apply b_orr in Hd as (ref & Href & Hd).
  apply b_orr in Hd as (v & Hv & Hd). apply b_orr in Hd as (id & Hid & Hd).
  apply b_orr in Hd as (e & He & Hd). apply V_bind_ok in Hd as (src & s1 & Hsrc & Hd).
  apply b_deref in Hd as (src' & -> & Hd).
  assert (source_at e (dst_Position d') = Some src' /\ s1 = s) as [Hat ->].
  { destruct e; try done; apply b_require in Hsrc as [Hz Hsrc]; apply mret_ok in Hsrc as [Hsrc ->];
      (split; [|done]); cbn [source_at]; rewrite ?Hz; by symmetry. }
  apply check_link_ok in Hd as (-> & H5 & H6 & H7 & x & Hx & His). split; [done|].
  destruct src' as [ref' v' p']. cbn in H5, H6, H7. subst. exists d', ref, v, e. split_and!; try done. by rewrite <- Hv.
Qed.

(** The two ends of a source; [check] is [checkValid] with less fuel. *)
Lemma checkValidSrc_ok check (I : vstate -> Prop) vs x s r s' :
  (forall ref e s s', I s -> Entries !! ref = Some e -> check (mkPos ref (sourcePos vs) (destPos vs)) (Some e) s = (VOk tt, s') ->
     I s' /\ cache s ⊆ cache s' /\ ref ∈ cache s') ->
  I s -> checkValidSrc tx check vs x s = (VOk r, s') ->
  I s' /\ cache s ⊆ cache s' /\ source_ok (cache s') (entryID vs) (sourcePos vs) x.
Proof.
  unfold checkValidSrc. intros Hc Hs Hd. apply b_orr in Hd as (x' & Hx' & Hd). apply b_orr in Hd as (ref & Href & Hd).
  apply b_orr in Hd as (v & Hv & Hd). apply b_orr in Hd as (id & Hid & Hd). apply b_orr in Hd as (e & He & Hd).
  apply V_bind_ok in Hd as ([] & s1 & Hck & Hd). destruct (Hc _ _ _ _ Hs He Hck) as (Hs1 & Hsub & Hin).
  apply V_bind_ok in Hd as (dst & s2 & Hdst & Hd). apply b_deref in Hd as (d & -> & Hd).
  assert (dest_at e (src_Position x') = Some d /\ s2 = s1) as [Hat ->].
  { destruct e; try done; apply b_require in Hdst as [Hz Hdst]; apply mret_ok in Hdst as [Hdst ->];
      (split; [|done]); cbn [dest_at]; rewrite ?Hz; by symmetry. }
  apply check_link_ok in Hd as (-> & H5 & H6 & H7 & y & Hy & His). split; [done|]. split; [done|].
  destruct d as [ref' v' p']. cbn in H5, H6, H7. subst. exists x', ref, v, e. split_and!; try done. by rewrite <- Hv.
Qed.

(** ** Programs *)

Lemma updateUsage_ok n s r s' :
  updateUsage n s = (VOk r, s') -> cache s' = cache s.
Proof.
  unfold updateUsage. intros Hu. apply b_require in Hu as [_ Hu]. apply b_gas in Hu. apply b_orr in Hu as (g & _ & Hu).
  apply V_bind_ok in Hu as ([] & s1 & Hp & Hu). apply put_gas_ok in Hp as ->. by apply require_ok in Hu as [_ ->].
Qed.

Lemma NewTxVMContext_pure e prog st args s r s' :
  NewTxVMContext converter checkOutput tx block e prog st args s = (VOk r, s') -> s' = s.
Proof.
  unfold NewTxVMContext. intros Hn. apply b_deref in Hn as (id & _ & Hn).
  apply V_bind_ok in Hn as ([[[a n] d] o] & s1 & Hx & Hn). apply mret_ok in Hn as [_ ->].
  destruct e; try by apply mret_ok in Hx as [_ ->].
  - do 2 apply b_deref in Hx as (? & _ & Hx). by apply mret_ok in Hx as [_ ->].
  - do 6 apply b_deref in Hx as (? & _ & Hx). by apply mret_ok in Hx as [_ ->].
Qed.

Lemma run_program_ok e prog st args s r s' :
  run_program converter checkOutput tx block vmfuel e prog st args s = (VOk r, s') ->
  cache s' = cache s /\ accepted e prog st args.
Proof.
  unfold run_program. intros Hr. apply V_bind_ok in Hr as (ctx & s1 & Hctx & Hr).
  pose proof (NewTxVMContext_pure _ _ _ _ _ _ _ Hctx) as ->. apply b_gas in Hr.
  destruct (Verify vmfuel ctx _ tt).1 as [v|] eqn:Hv; [|done]. destruct (verify_err v) eqn:He; [done|].
  split; [by eapply updateUsage_ok|]. exists ctx, s, (GasLeft (gasStatus s)), v. by rewrite Hctx.
Qed.

(** ** The balance of a mux *)

Definition amounts_u64 (e : Entry) : Prop :=
  match e with
  | Mux m => Forall (fun v => match v with Some v => 0 <= aa_Amount v | None => True end)
               ((src_Value <$> mux_Sources m) ++ (dst_Value <$> mux_Destinations m))
  | _ => True
  end.

Lemma total_cons a v l : total a (v :: l) = value_of a v + total a l.
Proof. done. Qed.

Definition in_int64 (p : gmap AssetID Z) : Prop := forall a x, p !! a = Some x -> MinInt64 <= x <= MaxInt64.

Lemma in_int64_insert p id x : in_int64 p -> int64 x -> in_int64 (<[id := x]> p).
Proof.
  intros Hp Hx a y. destruct (decide (a = id)) as [->|]; [rewrite lookup_insert|rewrite lookup_insert_ne by done; apply Hp].
  case_decide; [|done]. intros [= <-]. exact Hx.
Qed.

(** A new total of one asset in the map. *)
Lemma default_insert (p : gmap AssetID Z) id x a :
  default 0 (<[id := x]> p !! a) = if bool_decide (Some id = Some a) then x else default 0 (p !! a).
Proof.
  case_bool_decide as H; [injection H as ->|]; [rewrite lookup_insert; by case_decide|].
  by rewrite lookup_insert_ne by congruence.
Qed.

Lemma parity_sources l p s p' s' :
  Forall (fun v => match v with Some v => 0 <= aa_Amount v | None => True end) (src_Value <$> l) -> in_int64 p ->
  vfold parity_source p l s = (VOk p', s') ->
  s' = s /\ in_int64 p' /\ forall a, default 0 (p' !! a) = default 0 (p !! a) + total a (src_Value <$> l).
Proof.
  revert p s. induction l as [|x l IH]; intros p s Hl Hp Hf; cbn [vfold] in Hf.
  { apply mret_ok in Hf as [-> ->]. cbn. split_and!; try done. intros a. lia. }
  rewrite fmap_cons, Forall_cons in Hl. destruct Hl as [Hx Hl].
  apply V_bind_ok in Hf as (p1 & s1 & H1 & Hf). unfold parity_source in H1. apply b_deref in H1 as (v & Hv & H1).
  apply b_require in H1 as [Hmax H1]. apply b_deref in H1 as (id & Hid & H1). apply b_orr in H1 as (sum & Hsum & H1).
  apply mret_ok in H1 as [-> ->]. rewrite Hv in Hx. zbool.
  assert (Hd : MinInt64 <= default 0 (p !! id) <= MaxInt64) by (destruct (p !! id) eqn:E; cbn; [by eapply Hp|words; lia]).
  rewrite i64_id in Hsum by (words; lia). apply AddInt64_Some in Hsum as [-> Hsum]; [|split; words; lia..].
  destruct (IH _ _ Hl (in_int64_insert _ _ _ Hp Hsum) Hf) as (-> & Hp' & Ht).
  split_and!; try done. intros a. rewrite Ht, default_insert, fmap_cons. rewrite total_cons, Hv.
  cbn [value_of]. rewrite Hid. destruct (decide (id = a)) as [->|Hne];
    [rewrite !bool_decide_eq_true_2 by done|rewrite !bool_decide_eq_false_2 by congruence]; lia.
Qed.

Lemma parity_dests l p s p' s' :
  Forall (fun v => match v with Some v => 0 <= aa_Amount v | None => True end) (dst_Value <$> l) -> in_int64 p ->
  vfold parity_dest p l s = (VOk p', s') ->
  s' = s /\ in_int64 p' /\ forall a, default 0 (p' !! a) = default 0 (p !! a) - total a (dst_Value <$> l).
Proof.
  revert p s. induction l as [|x l IH]; intros p s Hl Hp Hf; cbn [vfold] in Hf.
  { apply mret_ok in Hf as [-> ->]. cbn. split_and!; try done. intros a. lia. }
  rewrite fmap_cons, Forall_cons in Hl. destruct Hl as [Hx Hl].
  apply V_bind_ok in Hf as (p1 & s1 & H1 & Hf). unfold parity_dest in H1. apply b_deref in H1 as (v & Hv & H1).
  apply b_deref in H1 as (id & Hid & H1). apply b_orr in H1 as (sum & Hsum & H1). apply b_require in H1 as [Hmax H1].
  apply b_orr in H1 as (diff & Hdiff & H1). apply mret_ok in H1 as [-> ->]. rewrite Hv in Hx. zbool.
  assert (Hd : MinInt64 <= sum <= MaxInt64) by by eapply Hp.
  rewrite i64_id in Hdiff by (words; lia). apply SubInt64_Some in Hdiff as [-> Hdiff]; [|split; words; lia..].
  destruct (IH _ _ Hl (in_int64_insert _ _ _ Hp Hdiff) Hf) as (-> & Hp' & Ht).
  split_and!; try done. intros a. rewrite Ht, default_insert, fmap_cons. rewrite total_cons, Hv.
  cbn [value_of]. rewrite Hid. destruct (decide (id = a)) as [->|Hne];
    [rewrite !bool_decide_eq_true_2 by done; rewrite Hsum; cbn|rewrite !bool_decide_eq_false_2 by congruence]; lia.
Qed.

Lemma setGas_ok v n s r s' : setGas v n s = (VOk r, s') -> 0 <= v /\ cache s' = cache s.
Proof.
  unfold setGas. intros Hg. apply b_require in Hg as [Hv Hg]. apply b_gas in Hg. apply b_orr in Hg as (l & _ & Hg).
  apply b_orr in Hg as (st & _ & Hg). apply put_gas_ok in Hg as ->. split; [by zbool|done].
Qed.

Lemma check_balance_ok i a n s r s' :
  check_balance tx i (a, n) s = (VOk r, s') -> cache s' = cache s /\ (if bool_decide (a = BTMAssetID) then 0 <= n else n = 0).
Proof.
  cbn. case_bool_decide; [by intros [??]%setGas_ok|]. intros [Hn ->]%require_ok. by apply Z.eqb_eq in Hn.
Qed.

Lemma check_balances_ok parity s r s' :
  vfor (check_balance tx) 0 (map_range parity) s = (VOk r, s') ->
  cache s' = cache s /\ forall a, if bool_decide (a = BTMAssetID) then 0 <= default 0 (parity !! a) else default 0 (parity !! a) = 0.
Proof.
  destruct r. intros Hb. apply (vfor_ok _ (fun s1 => cache s1 = cache s)
    (fun _ p _ => if bool_decide (p.1 = BTMAssetID) then 0 <= p.2 else p.2 = 0)) in Hb as (Hc & _ & Hb); [|..|done].
  - split; [done|]. intros a. destruct (parity !! a) as [n|] eqn:Ha; [|by case_bool_decide].
    apply elem_of_map_to_list in Ha. rewrite <- map_range_perm, list_elem_of_lookup in Ha. destruct Ha as [j Ha].
    exact (Hb _ _ Ha).
  - intros j [a n] s1 s2 H1 _ H2. apply check_balance_ok in H2 as [-> H2]. by split_and!.
  - done.
Qed.

(** ** One entry *)

(** The checks of a mux, up to its sources. *)
Lemma mux_balanced m parity1 parity2 s s1 s2 s3 r :
  amounts_u64 (Mux m) ->
  vfold parity_source ∅ (mux_Sources m) s = (VOk parity1, s1) ->
  vfold parity_dest parity1 (mux_Destinations m) s1 = (VOk parity2, s2) ->
  vfor (check_balance tx) 0 (map_range parity2) s2 = (VOk r, s3) -> cache s3 = cache s /\ balanced m.
Proof.
  cbn. intros [Hsrc Hdst]%Forall_app H1 H2 H3.
  apply parity_sources in H1 as (-> & Hp1 & Ht1); [|done|by intros ??; rewrite lookup_empty].
  apply parity_dests in H2 as (-> & _ & Ht2); [|done..].
  apply check_balances_ok in H3 as [-> Hb]. split; [done|]. intros a. cbn zeta.
  specialize (Hb a). specialize (Ht1 a). rewrite lookup_empty in Ht1. cbn in Ht1. rewrite Ht2, Ht1 in Hb.
  split; [|destruct (bool_decide (a = BTMAssetID)); cbn in Hb; lia].
  rewrite <- (Z.add_0_l (total _ _)), <- Ht1. destruct (parity1 !! a) eqn:E; cbn; [by eapply Hp1|words; lia].
Qed.

(** What is assumed of a transaction, and holds of those [MapTx] builds. *)
Record tx_wf : Prop := {
  wf_id id e : Entries !! id = Some e -> EntryID e = Some id;
  wf_amounts id e : Entries !! id = Some e -> amounts_u64 e;
  wf_results id h r : Entries !! id = Some (TxHeader h) -> r ∈ hd_ResultIds h -> is_Some (Entries !! r);
  wf_header : Entries !! tx_ID tx = Some (TxHeader (tx_Header tx));
}.

(** The recursive call, on any entry of the transaction. *)
Definition sound (check : vpos -> option Entry -> V unit) : Prop := forall vs e s s',
  Entries !! entryID vs = Some e -> closed (cache s) -> check vs (Some e) s = (VOk tt, s') ->
  closed (cache s') /\ cache s ⊆ cache s' /\ entryID vs ∈ cache s'.

Definition extends (s s' : vstate) : Prop := closed (cache s') /\ cache s ⊆ cache s'.

Lemma extends_eq s s' : closed (cache s) -> cache s' = cache s -> extends s s'.
Proof. unfold extends. by intros ? ->. Qed.
Lemma extends_trans s1 s2 s3 : extends s1 s2 -> extends s2 s3 -> extends s1 s3.
Proof. intros [_ ?] [??]. split; [done|by etrans]. Qed.

Lemma src_extends check vs x s r s' :
  sound check -> closed (cache s) -> checkValidSrc tx check vs x s = (VOk r, s') ->
  extends s s' /\ source_ok (cache s') (entryID vs) (sourcePos vs) x.
Proof.
  intros Hc Hs Hx. apply (checkValidSrc_ok _ (fun s => closed (cache s))) in Hx as (?&?&?); [by repeat split| |done].
  intros ref e s1 s2 Hs1 He. by apply (Hc (mkPos ref (sourcePos vs) (destPos vs)) e).
Qed.

Lemma mux_ok check vs m s r s' :
  sound check -> amounts_u64 (Mux m) -> closed (cache s) -> check_mux tx check vs m s = (VOk r, s') ->
  extends s s' /\ local_ok (cache s') (entryID vs) (Mux m).
Proof.
  intros Hc Ha Hs Hm. unfold check_mux in Hm. apply V_bind_ok in Hm as (p1 & s1 & H1 & Hm).
  apply V_bind_ok in Hm as (p2 & s2 & H2 & Hm). apply V_bind_ok in Hm as ([] & s3 & H3 & Hm).
  apply V_bind_ok in Hm as ([] & s4 & H4 & Hm). apply V_bind_ok in Hm as ([] & s5 & H5 & Hm).
  destruct (mux_balanced _ _ _ _ _ _ _ _ Ha H1 H2 H3) as [E3 Hb].
  apply (vfor_ok _ (fun s => cache s = cache s3) (fun i d _ => dest_ok (entryID vs) (Z.of_nat i) (Some d))) in H4 as (E4 & _ & Hd); [| |done..].
  2:{ intros j d t t' Ht _ Hd. apply checkValidDest_ok in Hd as [-> ?]. by split_and!. }
  apply (vfor_ok _ (fun s => closed (cache s)) (fun i x C => source_ok C (entryID vs) (Z.of_nat i) (Some x))) in H5 as (C5 & E5 & Hx); [|..].
  2:{ intros j x t t' Ht _ Hx. destruct (src_extends _ _ _ _ _ _ Hc Ht Hx) as [[??]?]. by split_and!. }
  2:{ intros j x C C' HC. by apply source_ok_mono. }
  2:{ by rewrite E4, E3. }
  unfold extends. assert (cache s' = cache s5) as ->.
  { unfold chargeStorageGas in Hm. apply b_gas in Hm. apply b_orr in Hm as (? & _ & Hm). apply b_require in Hm as [_ Hm].
    apply b_orr in Hm as (? & _ & Hm). by apply put_gas_ok in Hm as ->. }
  split; [split; [exact C5|by rewrite <- E3, <- E4]|]. split; [done|]. split; [exact Hd|exact Hx].
Qed.

Lemma spend_ok_of vs e x prev s r s' :
  check_spend converter checkOutput tx block vmfuel vs e x prev s = (VOk r, s') ->
  cache s' = cache s /\ spend_ok (cache s') (entryID vs) e x prev.
Proof.
  unfold check_spend. intros H. apply V_bind_ok in H as ([] & s1 & Hr & H). apply run_program_ok in Hr as [E Hr].
  apply b_deref in H as (src & Hsrc & H). apply b_deref in H as (d & Hd & H). apply b_orr in H as (eq & Heq & H).
  apply b_require in H as [-> H]. apply checkValidDest_ok in H as [-> H]. split; [done|]. split; [done|]. split; [|done].
  exists src, d. split_and!; [done..|]. destruct (Equal_true _ _ Heq) as (? & ? & -> & -> & _). done.
Qed.

Lemma original_ok id s o s' : getOriginalOutput tx id s = (VOk o, s') -> s' = s /\ Entries !! id = Some (OriginalOutput o).
Proof.
  unfold getOriginalOutput. intros H. apply b_orr in H as (e & He & H). destruct e; try done. by apply mret_ok in H as [-> ->].
Qed.
Lemma vote_ok id s o vote s' :
  getVoteOutput tx id s = (VOk (o, vote), s') -> s' = s /\ Entries !! id = Some (VoteOutput o vote).
Proof.
  unfold getVoteOutput. intros H. apply b_orr in H as (e & He & H). destruct e; try done. by apply mret_ok in H as [[= -> ->] ->].
Qed.

Lemma results_ok check vs h s r s' :
  tx_wf -> sound check -> Entries !! entryID vs = Some (TxHeader h) -> closed (cache s) ->
  check_entry converter checkOutput tx tx_ptr block vmfuel check vs (TxHeader h) s = (VOk r, s') ->
  extends s s' /\ local_ok (cache s') (entryID vs) (TxHeader h).
Proof.
  intros Wf Hc He Hs H. cbn [check_entry] in H. apply V_bind_ok in H as ([] & s1 & H1 & H). apply require_ok in H as [_ ->].
  apply (vfor_ok _ (fun s => closed (cache s)) (fun i r C => r ∈ C)) in H1 as (C1 & E1 & H1); [|..].
  - split; [done|]. intros x [j Hj]%list_elem_of_lookup. by eapply H1.
  - intros j x t t' Ht Hx Hr. destruct (wf_results Wf _ _ _ He Hx) as [y Hy]. rewrite Hy in Hr.
    by apply (Hc (mkPos x (sourcePos vs) (destPos vs)) y).
  - intros j x C C' HC. apply HC.
  - done.
Qed.

Lemma check_entry_ok check vs e s r s' :
  tx_wf -> sound check -> Entries !! entryID vs = Some e -> closed (cache s) ->
  check_entry converter checkOutput tx tx_ptr block vmfuel check vs e s = (VOk r, s') ->
  extends s s' /\ local_ok (cache s') (entryID vs) e.
Proof.
  intros Wf Hc He Hs H. destruct e as [h|m|o|o vote|x n|i|x|x|c].
  - by eapply results_ok.
  - eapply mux_ok; [done|by eapply wf_amounts|done..].
  - by eapply src_extends in H.
  - cbn [check_entry] in H. apply b_require in H as [Hv H]. apply V_bind_ok in H as ([] & s1 & H1 & H).
    eapply src_extends in H1 as [HE H1]; [|done..]. apply b_deref in H as (src & Hsrc & H). apply b_deref in H as (v & Hval & H).
    apply b_require in H as [Ham H]. apply b_deref in H as (a & Ha & H). apply require_ok in H as [Hb ->].
    split; [done|]. apply bool_decide_eq_true in Hb as ->. zbool. split; [done|]. split; [done|]. exists src, v. by split_and!.
  - by eapply src_extends in H.
  - cbn [check_entry] in H. apply b_deref in H as (a & Ha & H). apply b_require in H as [Hb H].
    apply V_bind_ok in H as ([] & s1 & H1 & H). apply run_program_ok in H1 as [E1 H1]. apply checkValidDest_ok in H as [-> H].
    apply bool_decide_eq_true in Hb as <-. split; [by apply extends_eq|]. by split_and!.
  - cbn [check_entry] in H. apply b_orr in H as (id & Hid & H). apply V_bind_ok in H as (prev & s1 & H1 & H).
    apply original_ok in H1 as [-> H1]. apply spend_ok_of in H as [E H]. split; [by apply extends_eq|]. by exists id, prev.
  - cbn [check_entry] in H. apply b_orr in H as (id & Hid & H). apply V_bind_ok in H as ([prev vote] & s1 & H1 & H).
    apply vote_ok in H1 as [-> H1]. apply b_require in H as [Hv H]. apply spend_ok_of in H as [E H]. zbool.
    split; [by apply extends_eq|]. by exists id, prev, vote.
  - cbn [check_entry] in H. apply b_require in H as [Hb H]. apply b_deref in H as (d & Hd & H). apply b_deref in H as (v & Hv & H).
    apply b_deref in H as (a & Ha & H). apply b_require in H as [Hbtm H]. apply b_require in H as [_ H].
    apply V_bind_ok in H as ([] & s1 & H1 & H). apply checkValidDest_ok in H1 as [-> H1]. apply b_gas, put_gas_ok in H as ->.
    apply bool_decide_eq_true in Hb, Hbtm. subst a. split; [by apply extends_eq|]. split; [done|]. split; [done|]. by exists d, v.
Qed.

(** ** The walk *)

Lemma closed_insert C id e : closed C -> Entries !! id = Some e -> local_ok C id e -> closed ({[id]} ∪ C).
Proof.
  intros HC He Hl j [->%elem_of_singleton|Hj]%elem_of_union.
  - exists e. split; [done|]. eapply local_ok_mono; [|done]. set_solver.
  - destruct (HC j Hj) as (x & Hx & Hloc). exists x. split; [done|]. eapply local_ok_mono; [|done]. set_solver.
Qed.

Lemma checkValid_sound fuel : tx_wf -> sound (checkValid fuel).
Proof.
  intros Wf. induction fuel as [|fuel IH]; intros vs e s s' He Hs H; [done|]. cbn [Validate.checkValid] in H.
  apply b_deref in H as (id & Hid & H). rewrite (wf_id Wf _ _ He) in Hid. injection Hid as <-.
  apply V_bind_ok in H as (b & s1 & Hb & H). apply in_cache_ok in Hb as [-> ->].
  case_bool_decide as Hin; [by apply mret_ok in H as [_ ->]|]. apply V_bind_ok in H as ([] & s1 & H1 & H).
  destruct (check_entry_ok _ _ _ _ _ _ Wf IH He Hs H1) as [[Hc Hsub] Hl]. apply to_cache_ok in H as ->. cbn.
  split; [by eapply closed_insert|]. set_solver.
Qed.

(** What acceptance means, apart from the gas. *)
Record accepted_tx : Prop := {
  at_version : bk_Version block = 1 -> hd_Version (tx_Header tx) = 1;
  at_time : hd_TimeRange (tx_Header tx) = 0 \/ bk_Height block <= hd_TimeRange (tx_Header tx);
  at_inputs : NoDup (tx_InputIDs tx);
  at_results : hd_Version (tx_Header tx) = 1 -> hd_ResultIds (tx_Header tx) <> [];
  at_entries : exists C, closed C /\ forall r, r ∈ hd_ResultIds (tx_Header tx) -> r ∈ C;
}.

(** A non-empty fuel reads the header's own check. *)
Lemma header_results fuel vs s s' h :
  is_Some (EntryID (TxHeader h)) -> cache s = ∅ -> checkValid fuel vs (Some (TxHeader h)) s = (VOk tt, s') ->
  hd_Version h = 1 -> hd_ResultIds h <> [].
Proof.
  intros [id Hid] Hc H Hv Hr. destruct fuel as [|fuel]; [done|]. cbn [Validate.checkValid] in H.
  apply b_deref in H as (? & _ & H). apply V_bind_ok in H as (b & s1 & Hb & H). apply in_cache_ok in Hb as [-> ->].
  rewrite Hc in H. rewrite bool_decide_eq_false_2 in H by set_solver. apply V_bind_ok in H as ([] & s1 & H1 & H).
  cbn [check_entry] in H1. rewrite Hv, Hr in H1. cbn in H1. done.
Qed.

Lemma ValidateTx_accepted fuel g :
  tx_wf -> ValidateTx converter checkOutput tx tx_ptr block vmfuel fuel = VOk g -> accepted_tx.
Proof.
  intros Wf Hv. unfold ValidateTx in Hv.
  destruct (ValidateTx_body converter checkOutput tx tx_ptr block vmfuel fuel (mkV (mkGas 0 0 0 0) ∅)) as [[[]| | |] s] eqn:Hb; try done.
  clear Hv. unfold ValidateTx_body in Hb. apply b_require in Hb as [Hver Hb]. apply b_require in Hb as [_ Hb].
  apply V_bind_ok in Hb as ([] & s1 & Ht & Hb). apply V_bind_ok in Hb as ([] & s2 & Hd & Hb).
  apply require_ok in Hd as [Hd ->]. apply bool_decide_eq_true in Hd.
  assert (s1 = mkV (mkGas 0 0 0 0) ∅ /\ (hd_TimeRange (tx_Header tx) = 0 \/ bk_Height block <= hd_TimeRange (tx_Header tx))) as [-> Htime].
  { unfold checkTimeRange in Ht. destruct (Z.eqb_spec (hd_TimeRange (tx_Header tx)) 0);
      [apply mret_ok in Ht as [_ ->]; auto|apply require_ok in Ht as [Ht ->]; zbool; auto with lia]. }
  pose proof (wf_header Wf) as Hh. pose proof (wf_id Wf _ _ Hh) as Hid.
  assert (H0 : closed ∅) by by intros ? ?%elem_of_empty.
  destruct (checkValid_sound fuel Wf (mkPos (tx_ID tx) 0 0) _ (mkV (mkGas 0 0 0 0) ∅) _ Hh H0 Hb) as (Hc & _ & Hin).
  constructor; try done.
  - intros E. rewrite E in Hver. cbn in Hver. zbool. lia.
  - by eapply header_results; [eexists| |exact Hb].
  - exists (cache s). split; [done|]. destruct (Hc _ Hin) as (x & Hx & Hl). cbn in Hx. rewrite Hh in Hx. injection Hx as <-. exact Hl.
Qed.

(** C6.  [ValidateTx] refines the declarative notion of a valid transaction, on
    entry graphs of any shape: the checked entries are closed under sources, both
    ends of every link agree on identifier, position and value, every mux is
    balanced, every program has accepted, and all results are among them. *)
Theorem ValidateTx_sound fuel g :
  tx_wf -> ValidateTx converter checkOutput tx tx_ptr block vmfuel fuel = VOk g -> accepted_tx.
Proof. exact (ValidateTx_accepted fuel g). Qed.
End Spec.
