(* ===== verification/Ledger.v ===== *)
(** * What MapTx builds, and what validation then guarantees

    [MapTx] builds a graph with one entry per input, one mux and one result
    per output ([built]).  With [ValidateTx_sound] this gives, of a transaction
    as it is on the wire, that an accepted transaction conserves every asset,
    pays a fee that is not negative, and is authorised by the program of every
    output it spends.  The links go through entry identifiers: each statement
    holds unless two entries of this very transaction have one identifier
    although they are hashed from different contents ([clash]). *)

From S2P Require Import Prelude Checked GoSlice VMTypes Opcode Machine Interp Script Orphans Encoding Entries TxData MapTx Validate ValidateSpec.
From Stdlib Require Import Strings.Byte.
#[local] Open Scope Z_scope.

#[export] Instance Entry_eq_dec : EqDecision Entry.
Proof.
  assert (EqDecision Program) by solve_decision. assert (EqDecision ValueSource) by solve_decision.
  assert (EqDecision ValueDestination) by solve_decision. assert (EqDecision AssetDefinition) by solve_decision.
  assert (EqDecision tx_header) by solve_decision. assert (EqDecision mux) by solve_decision.
  assert (EqDecision output) by solve_decision. assert (EqDecision issuance) by solve_decision.
  assert (EqDecision spend) by solve_decision. assert (EqDecision coinbase) by solve_decision. solve_decision.
Defined.

Definition is_input (e : Entry) : bool := match e with Issuance _ | Spend _ | VetoInput _ | Coinbase _ => true | _ => false end.
Definition is_mux (e : Entry) : bool := match e with Mux _ => true | _ => false end.
Definition is_header (e : Entry) : bool := match e with TxHeader _ => true | _ => false end.
Definition is_result (e : Entry) : bool := negb (is_input e || is_mux e || is_header e).

(** ** Running the builder *)

Lemma H_bind_ok {A B} (m : H A) (f : A -> H B) h b h2 :
  (m ≫= f) h = Some (b, h2) -> exists a h1, m h = Some (a, h1) /\ f a h1 = Some (b, h2).
Proof. unfold mbind, H_bind. destruct (m h) as [[a h1]|] eqn:E; [eauto|done]. Qed.

Lemma for_each_ok {A} (f : nat -> A -> H unit) (I : nat -> mapHelper -> Prop) i l h h' :
  (forall j x h h', l !! j = Some x -> I j h -> f (i + j)%nat x h = Some (tt, h') -> I (S j) h') ->
  I 0%nat h -> for_each f i l h = Some (tt, h') -> I (length l) h'.
Proof.
  revert i I h. induction l as [|x l IH]; intros i I h Hf Hh H; cbn [for_each] in H; [by injection H as <-|].
  apply H_bind_ok in H as ([] & h1 & H1 & H). apply (IH (S i) (fun j => I (S j)) h1); [| |done].
  - intros j y t t' Hj Ht Hy. apply (Hf (S j) y t); [done..|]. by rewrite <- Nat.add_succ_comm.
  - apply (Hf 0%nat x h); [done..|]. by rewrite Nat.add_0_r.
Qed.

Section Ledger.
Context {Cr : Crypto}.
Implicit Types (o : list Entry) (em : gmap Hash nat) (h : mapHelper).

(** Two of the entries are hashed from different contents to one identifier. *)
Definition clash o : Prop := exists e1 e2 id,
  e1 ∈ o /\ e2 ∈ o /\ EntryID e1 = Some id /\ EntryID e2 = Some id /\ hashed e1 <> hashed e2.

Lemma clash_or o e1 e2 id :
  e1 ∈ o -> e2 ∈ o -> EntryID e1 = Some id -> EntryID e2 = Some id -> clash o \/ hashed e1 = hashed e2.
Proof. intros. destruct (decide (hashed e1 = hashed e2)); [by right|left]. by exists e1, e2, id. Qed.

Lemma clash_or_not o : clash o \/ forall e1 e2 id, e1 ∈ o -> e2 ∈ o -> EntryID e1 = Some id -> EntryID e2 = Some id -> hashed e1 = hashed e2.
Proof.
  destruct (decide (Forall (fun e1 => Forall (fun e2 => EntryID e1 = EntryID e2 -> EntryID e1 <> None -> hashed e1 = hashed e2) o) o)) as [H|H].
  - right. intros e1 e2 id H1 H2 E1 E2. rewrite Forall_forall in H. specialize (H e1 H1). rewrite Forall_forall in H.
    apply H; congruence.
  - left. apply not_Forall_Exists in H; [|apply _]. apply Exists_exists in H as (e1 & H1 & H).
    apply not_Forall_Exists in H; [|apply _]. apply Exists_exists in H as (e2 & H2 & H).
    destruct (EntryID e1) as [id|] eqn:E1; [|by destruct H]. exists e1, e2, id. split_and!; try done.
    + destruct (decide (EntryID e2 = Some id)); [done|]. destruct H. congruence.
    + intros Hh. by destruct H.
Qed.

(** The map of entries indexes the objects by identifier. *)
Record indexed o em : Prop := {
  ix_sound id p : em !! id = Some p -> exists e, o !! p = Some e /\ EntryID e = Some id;
  ix_total p e : o !! p = Some e -> exists id q, EntryID e = Some id /\ em !! id = Some q;
}.

(** An operation of the builder adds one entry, or changes one in place. *)
Lemma indexed_push o em e id : EntryID e = Some id -> indexed o em -> indexed (o ++ [e]) (<[id := length o]> em).
Proof.
  intros He [Is It]. split.
  - intros j p. rewrite lookup_insert_Some. intros [[<- <-]|[Hne Hp]].
    + exists e. by rewrite list_lookup_middle.
    + destruct (Is _ _ Hp) as (x & Hx & Hid). exists x. by rewrite lookup_app_l by (by eapply lookup_lt_Some).
  - intros p x [Hp|[-> ->]]%lookup_snoc_Some.
    + destruct (It p x) as (j & q & Hj & Hq); [apply Hp|]. destruct (decide (j = id)) as [->|].
      * exists id, (length o). by rewrite lookup_insert_eq.
      * exists j, q. by rewrite lookup_insert_ne.
    + exists id, (length o). by rewrite lookup_insert_eq.
Qed.

Lemma indexed_alter o em f p : (forall e, EntryID (f e) = EntryID e) -> indexed o em -> indexed (alter f p o) em.
Proof.
  intros Hf [Is It]. split.
  - intros id q Hq. destruct (Is _ _ Hq) as (e & He & Hid). destruct (decide (q = p)) as [->|].
    + exists (f e). by rewrite list_lookup_alter_eq, He, Hf.
    + exists e. by rewrite list_lookup_alter_ne.
  - intros q e Hq. destruct (decide (q = p)) as [->|]; [|rewrite list_lookup_alter_ne in Hq by done; by eapply It].
    rewrite list_lookup_alter_eq in Hq. apply fmap_Some in Hq as (x & Hx & ->). rewrite Hf. by eapply It.
Qed.

Lemma EntryID_SetDestination id v pos e : EntryID (SetDestination id v pos e) = EntryID e.
Proof. by destruct e. Qed.
Lemma EntryID_add_destination d e : EntryID (add_destination d e) = EntryID e.
Proof. by destruct e. Qed.

(** ** The inputs *)

Lemma addEntry_ok e h r h' :
  addEntry e h = Some (r, h') ->
  exists id, EntryID e = Some id /\ r = (length (objs h), id)
    /\ h' = set_entryMap (<[id := length (objs h)]> (entryMap h)) (set_objs (objs h ++ [e]) h).
Proof.
  unfold addEntry. intros H. apply H_bind_ok in H as (id & h1 & H1 & H). unfold or_panics in H1.
  destruct (EntryID e) as [id'|]; [injection H1 as <- <-|done]. exists id'. split; [done|].
  destruct h. cbn in *. by injection H as <- <-.
Qed.

Variable txData : TxData.

(** The amount an input brings, and the entry it is mapped to, whatever its destination. *)
Definition input_value (x : TxInput) : option AssetAmount :=
  match ti_TypedInput x with
  | Some (TIssuance ii) => Some (mkAssetAmount (Some (issuance_AssetID ii)) (ii_Amount ii))
  | Some (TSpend _ _ sc) | Some (TVeto _ _ _ sc) => Some (sc_AssetAmount sc)
  | Some (TCoinbase _) => Some (mkAssetAmount (Some BTMAssetID) (totalAmount (Outputs txData)))
  | None => None
  end.
Definition spends_output o (prev : Entry) (args : list bytes) (s : spend) : Prop :=
  prev ∈ o /\ sp_SpentOutputId s = EntryID prev /\ sp_Arguments s = args.
Definition input_entry o (x : TxInput) (e : Entry) : Prop :=
  match ti_TypedInput x, e with
  | Some (TIssuance ii), Issuance y =>
      is_AssetDefinition y = asset_definition ii /\ is_Arguments y = ii_Arguments ii
      /\ is_Value y = mkAssetAmount (Some (issuance_AssetID ii)) (ii_Amount ii)
  | Some (TSpend _ args sc), Spend s => spends_output o (OriginalOutput (prevout sc)) args s
  | Some (TVeto _ args vote sc), VetoInput s => spends_output o (VoteOutput (prevout sc) vote) args s
  | Some (TCoinbase a), Coinbase c => cb_Arbitrary c = a
  | _, _ => False
  end.

Lemma input_entry_is_input o x e : input_entry o x e -> is_input e = true.
Proof. unfold input_entry. by destruct (ti_TypedInput x) as [[]|], e. Qed.
Lemma input_entry_mono o o' x e : (forall y, is_result y = true -> y ∈ o -> y ∈ o') -> input_entry o x e -> input_entry o' x e.
Proof.
  unfold input_entry, spends_output. intros Ho. destruct (ti_TypedInput x) as [[]|], e; try done; intros (Hp & ?); (split; [by apply Ho|done]).
Qed.

(** One input: its entry is new, and so is the output it spends. *)
Lemma mapInput_ok j x h h' :
  mapInput txData j x h = Some (tt, h') ->
  exists pre e id v, objs h' = objs h ++ pre ++ [e] /\ Forall (fun e => is_result e = true) pre
    /\ EntryID e = Some id /\ input_value x = Some v /\ input_entry pre x e
    /\ inputIDs h' = inputIDs h ++ [id] /\ muxSources h' = muxSources h ++ [mkValueSource (Some id) (Some v) 0]
    /\ resultIDs h' = resultIDs h
    /\ (indexed (objs h) (entryMap h) -> indexed (objs h') (entryMap h')).
Proof.
  unfold mapInput, input_value, input_entry. destruct (ti_TypedInput x) as [[ii|suf args sc|arb|suf args vote sc]|]; [..|done]; intros H.
  all: apply H_bind_ok in H as (r & h1 & H1 & H); apply addEntry_ok in H1 as (pid & Hpid & -> & ->).
  1,3: injection H as <-; destruct h; cbn; eexists [], _, pid, _; split_and!; [done..|]; intros Hix; by apply indexed_push.
  all: apply H_bind_ok in H as (r & h2 & H2 & H); apply addEntry_ok in H2 as (id & Hid & -> & ->).
  all: injection H as <-; destruct h; cbn in *; eexists [_], _, id, _; rewrite <- (app_assoc _ [_] [_]); split_and!;
    [done|by constructor|done..| | | | |intros Hix; rewrite (app_assoc _ [_] [_]); by do 2 (apply indexed_push; [done|])]; try done.
  all: split_and!; [left|by rewrite Hpid|done].
Qed.

(** The entries of the first [n] inputs, their identifiers and the sources of the mux. *)
Record inputs_ok (n : nat) o (ii : list Hash) (ms : list ValueSource) : Prop := {
  in_ids : length ii = n;
  in_sources : length ms = n;
  in_at i x : (i < n)%nat -> Inputs txData !! i = Some x -> exists id v e,
    ii !! i = Some id /\ input_value x = Some v /\ ms !! i = Some (mkValueSource (Some id) (Some v) 0)
    /\ e ∈ o /\ EntryID e = Some id /\ is_input e = true;
  in_only e : e ∈ o -> is_input e = true -> exists i x id,
    Inputs txData !! i = Some x /\ ii !! i = Some id /\ EntryID e = Some id /\ input_entry o x e;
}.

Lemma inputs_ok_push n o ii ms pre e id v x :
  inputs_ok n o ii ms -> Inputs txData !! n = Some x -> Forall (fun e => is_result e = true) pre ->
  EntryID e = Some id -> input_value x = Some v -> input_entry pre x e ->
  inputs_ok (S n) (o ++ pre ++ [e]) (ii ++ [id]) (ms ++ [mkValueSource (Some id) (Some v) 0]).
Proof.
  intros [Li Ls At Only] Hx Hpre Hid Hv He.
  assert (He' : input_entry (o ++ pre ++ [e]) x e) by (eapply input_entry_mono; [|done]; intros; set_solver).
  split; [rewrite length_app; cbn; lia..| |].
  - intros i y Hi Hy. destruct (decide (i = n)) as [->|].
    + assert (y = x) as -> by congruence. exists id, v, e. rewrite !lookup_app_r, Li, Ls, Nat.sub_diag by lia.
      split_and!; try done; [set_solver|by eapply input_entry_is_input].
    + destruct (At i y) as (id' & v' & e' & H1 & H2 & H3 & H4 & H5); [lia|done|]. exists id', v', e'.
      rewrite !lookup_app_l by lia. split_and!; try done; [set_solver|by destruct H5..].
  - intros y [Hy|[Hy| ->%list_elem_of_singleton]%elem_of_app]%elem_of_app Hin.
    + destruct (Only y Hy Hin) as (i & x' & id' & H1 & H2 & H3 & H4). exists i, x', id'.
      split_and!; try done; [by apply lookup_app_l_Some|]. eapply input_entry_mono; [|done]. intros; set_solver.
    + rewrite Forall_forall in Hpre. apply Hpre in Hy. unfold is_result in Hy. by rewrite Hin in Hy.
    + exists n, x, id. rewrite lookup_app_r, Li, Nat.sub_diag by lia. done.
Qed.

Record built_inputs (n : nat) h : Prop := {
  bi_inputs : inputs_ok n (objs h) (inputIDs h) (muxSources h);
  bi_indexed : indexed (objs h) (entryMap h);
  bi_kinds e : e ∈ objs h -> is_input e || is_result e = true;
  bi_results : resultIDs h = [];
}.

Lemma mapInputs_ok h' : mapInputs txData newMapHelper = Some (tt, h') -> built_inputs (length (Inputs txData)) h'.
Proof.
  unfold mapInputs. apply (for_each_ok _ built_inputs).
  - intros j x h h1 Hx [Hin Hix Hk Hr] H.
    apply mapInput_ok in H as (pre & e & id & v & Ho & Hpre & Hid & Hv & He & Hii & Hms & Hrs & Hi). split.
    + rewrite Ho, Hii, Hms. by eapply inputs_ok_push.
    + by apply Hi.
    + rewrite Ho. intros y [Hy|[Hy| ->%list_elem_of_singleton]%elem_of_app]%elem_of_app; [by apply Hk| |].
      * rewrite Forall_forall in Hpre. rewrite (Hpre _ Hy). by rewrite orb_true_r.
      * by rewrite (input_entry_is_input _ _ _ He).
    + by rewrite Hrs.
  - split; [|split|..]; try done; try by intros ? []%elem_of_nil.
    split; try done; [cbn; lia|by intros ? []%elem_of_nil].
Qed.

(** ** Changes that leave the inputs as they are *)

Lemma elem_of_alter_inv (f : Entry -> Entry) p o e' : e' ∈ alter f p o -> e' ∈ o \/ exists e, e ∈ o /\ e' = f e.
Proof.
  intros [q Hq]%list_elem_of_lookup. destruct (decide (q = p)) as [->|].
  - rewrite list_lookup_alter_eq in Hq. apply fmap_Some in Hq as (e & He & ->). right. exists e. by eapply list_elem_of_lookup_2 in He.
  - rewrite list_lookup_alter_ne in Hq by done. left. by eapply list_elem_of_lookup_2.
Qed.
Lemma elem_of_alter (f : Entry -> Entry) p o e : e ∈ o -> e ∈ alter f p o \/ f e ∈ alter f p o.
Proof.
  intros [q Hq]%list_elem_of_lookup. destruct (decide (q = p)) as [->|].
  - right. apply (list_elem_of_lookup_2 _ p). by rewrite list_lookup_alter_eq, Hq.
  - left. apply (list_elem_of_lookup_2 _ q). by rewrite list_lookup_alter_ne.
Qed.

(** A change of destinations. *)
Record redirects (f : Entry -> Entry) : Prop := {
  rd_EntryID e : EntryID (f e) = EntryID e;
  rd_input e : is_input (f e) = is_input e;
  rd_result e : is_result e = true -> f e = e;
  rd_kind e : is_result (f e) = is_result e /\ is_mux (f e) = is_mux e;
  rd_entry o x e : input_entry o x e -> input_entry o x (f e);
}.

Lemma redirects_SetDestination id v pos : redirects (SetDestination id v pos).
Proof. split; try by intros []. intros o x []; unfold input_entry; by destruct (ti_TypedInput x) as [[]|]. Qed.
Lemma redirects_add_destination d : redirects (add_destination d).
Proof. split; try by intros []. by intros o x []. Qed.

Lemma inputs_ok_alter n o ii ms f p : redirects f -> inputs_ok n o ii ms -> inputs_ok n (alter f p o) ii ms.
Proof.
  intros [Fid Fin Fres _ Fe] [Li Ls At Only].
  assert (Ho : forall y, is_result y = true -> y ∈ o -> y ∈ alter f p o).
  { intros y Hy Hin. by destruct (elem_of_alter f p o y Hin) as [|H]; [|rewrite Fres in H]. }
  split; [done..| |].
  - intros i x Hi Hx. destruct (At i x Hi Hx) as (id & v & e & H1 & H2 & H3 & H4 & H5 & H6).
    destruct (elem_of_alter f p o e H4); [exists id, v, e|exists id, v, (f e)]; rewrite ?Fid, ?Fin; by split_and!.
  - intros e' [He|(e & He & ->)]%elem_of_alter_inv Hin; rewrite ?Fid, ?Fin in *;
      destruct (Only _ He Hin) as (i & x & id & H1 & H2 & H3 & H4); exists i, x, id; split_and!; try done;
      [|apply Fe]; by eapply input_entry_mono.
Qed.

Lemma inputs_ok_add n o ii ms e : is_input e = false -> inputs_ok n o ii ms -> inputs_ok n (o ++ [e]) ii ms.
Proof.
  intros He [Li Ls At Only]. split; [done..| |].
  - intros i x Hi Hx. destruct (At i x Hi Hx) as (id & v & y & H1 & H2 & H3 & H4 & H5). exists id, v, y.
    split_and!; try done; [set_solver|by destruct H5..].
  - intros y [Hy| ->%list_elem_of_singleton]%elem_of_app Hin; [|congruence].
    destruct (Only y Hy Hin) as (i & x & id & H1 & H2 & H3 & H4). exists i, x, id. split_and!; try done.
    eapply input_entry_mono; [|done]. intros; set_solver.
Qed.

(** ** The mux *)

(** The builder with a mux that has the given destinations. *)
Record built_mux (muxID : Hash) (pm : nat) (dests : list ValueDestination) h : Prop := {
  bm_inputs : inputs_ok (length (Inputs txData)) (objs h) (inputIDs h) (muxSources h);
  bm_indexed : indexed (objs h) (entryMap h);
  bm_kinds e : e ∈ objs h -> is_header e = false;
  bm_mux : mh_mux h = Some pm;
  bm_at : objs h !! pm = Some (Mux (mkMux (muxSources h) (mkProgram 1 [z2b OP_TRUE]) dests));
  bm_id : EntryID (Mux (mkMux (muxSources h) (mkProgram 1 [z2b OP_TRUE]) dests)) = Some muxID;
  bm_only q m : objs h !! q = Some (Mux m) -> q = pm;
}.

Lemma built_mux_alter muxID pm dests h f q :
  redirects f -> (q <> pm \/ forall m, f (Mux m) = Mux m) ->
  built_mux muxID pm dests h -> built_mux muxID pm dests (set_objs (alter f q (objs h)) h).
Proof.
  intros Hf Hq [Hin Hix Hk Hm Hat Hid Ho]. assert (Hat' : alter f q (objs h) !! pm = objs h !! pm).
  { destruct (decide (q = pm)) as [->|]; [|by rewrite list_lookup_alter_ne].
    destruct Hq as [?|Hq]; [done|]. by rewrite list_lookup_alter_eq, Hat; cbn; rewrite Hq. }
  destruct h as [o em ? ? ? ? ms ? ii ? rs]; cbn in *. split; cbn; try done.
  - by apply inputs_ok_alter.
  - by apply indexed_alter; [apply rd_EntryID|].
  - intros e' [He|(e & He & ->)]%elem_of_alter_inv; [by apply Hk|]. destruct (rd_kind f Hf e) as [Hr Hmu].
    pose proof (rd_input f Hf e) as Hi. specialize (Hk e He). by destruct e, (f _).
  - by rewrite Hat'.
  - intros p m Hp. destruct (decide (p = q)) as [->|]; [|rewrite list_lookup_alter_ne in Hp by done; by eapply Ho].
    rewrite list_lookup_alter_eq in Hp. apply fmap_Some in Hp as (e & He & Hm').
    destruct (rd_kind f Hf e) as [_ Hmu]. rewrite <- Hm' in Hmu. destruct e; try done. by eapply Ho.
Qed.

Lemma connect_ok vote muxID p h h' :
  connect vote muxID p h = Some (tt, h') -> exists v pos, h' = set_objs (alter (SetDestination muxID v pos) p (objs h)) h.
Proof.
  unfold connect. intros H. apply H_bind_ok in H as (e & h1 & H1 & H). injection H1 as <- <-.
  destruct (objs h !! p) as [[]|]; try done.
  2,3: apply H_bind_ok in H as (v & h1 & H1 & H); injection H1 as <- <-; apply H_bind_ok in H as (v & h1 & H1 & H);
    unfold or_panics in H1; destruct (spent_value _ _ _) as [v'|]; [injection H1 as <- <-|done].
  all: injection H as <-; eauto.
Qed.

(** The mux, without destinations so far, in a builder that goes on from [h]. *)
Definition mux_from (muxID : Hash) (pm : nat) h h' : Prop :=
  built_mux muxID pm [] h' /\ inputIDs h' = inputIDs h /\ resultIDs h' = resultIDs h.

Lemma redirect_ok muxID pm h t v pos p :
  mux_from muxID pm h t -> mux_from muxID pm h (set_objs (alter (SetDestination muxID v pos) p (objs t)) t).
Proof.
  intros (Hb & E1 & E2). split; [|by destruct t]. apply built_mux_alter; [apply redirects_SetDestination|by right|done].
Qed.

Lemma connects_ok vote muxID pm (l : mapHelper -> list nat) (k : H unit) h t r t' :
  (l' ← hgets l; for_each (fun _ => connect vote muxID) 0 l' ;; k) t = Some (r, t') -> mux_from muxID pm h t ->
  exists t1, mux_from muxID pm h t1 /\ k t1 = Some (r, t').
Proof.
  intros H Hb. apply H_bind_ok in H as (l' & t1 & H1 & H). injection H1 as <- <-.
  apply H_bind_ok in H as ([] & t1 & H1 & H). exists t1. split; [|done].
  apply (for_each_ok _ (fun _ => mux_from muxID pm h)) in H1; [done| |done].
  intros j x t2 t3 _ Ht (v & pos & ->)%connect_ok. by apply redirect_ok.
Qed.

Lemma initMux_ok h r h' :
  built_inputs (length (Inputs txData)) h -> initMux h = Some (r, h') ->
  exists muxID pm, mux_from muxID pm h h' /\ resultIDs h' = [].
Proof.
  intros [Hin Hix Hk Hr] H. unfold initMux in H. apply H_bind_ok in H as (src & h1 & H1 & H). injection H1 as <- <-.
  apply H_bind_ok in H as ((p & muxID) & h1 & H1 & H). apply addEntry_ok in H1 as (id & Hid & [= -> ->] & ->).
  exists id, (length (objs h)). apply H_bind_ok in H as ([] & h1 & H1 & H). injection H1 as <-.
  eapply (connects_ok _ _ (length (objs h)) _ _ h) in H as (t1 & T1 & H); cycle 1.
  { destruct h as [o em ? ? ? ? ms ? ii ? rs]; cbn in *. split; [|done]. split; cbn; try done.
    - by apply inputs_ok_add.
    - by apply indexed_push.
    - intros e [He| ->%list_elem_of_singleton]%elem_of_app; [|done]. specialize (Hk e He). by destruct e.
    - by rewrite list_lookup_middle.
    - intros q m [[_ Hq]|[-> _]]%lookup_snoc_Some; [|done]. by apply list_elem_of_lookup_2, Hk in Hq. }
  eapply connects_ok in H as (t2 & T2 & H); [|exact T1]. eapply connects_ok in H as (t3 & T3 & H); [|exact T2].
  rewrite <- Hr. apply H_bind_ok in H as (c & t4 & H4 & H). injection H4 as <- <-.
  assert (mux_from id (length (objs h)) h h') as T; [|split; [exact T|apply T]].
  destruct (mh_coinbase t3) as [c|]; [|by injection H as _ <-].
  apply H_bind_ok in H as (s & t4 & H4 & H). unfold or_panics in H4. destruct (head _); [injection H4 as <- <-|done].
  injection H as _ <-. by apply redirect_ok.
Qed.

(** ** The outputs *)

Record outputs_ok (muxID : Hash) (k : nat) (dests : list ValueDestination) o (rs : list Hash) : Prop := {
  out_ids : length rs = k;
  out_dests : length dests = k;
  out_at i x : (i < k)%nat -> Outputs txData !! i = Some x -> exists r,
    rs !! i = Some r /\ result_entry muxID i x ∈ o /\ EntryID (result_entry muxID i x) = Some r
    /\ dests !! i = Some (mkValueDestination (Some r) (Some (oc_AssetAmount (to_Commitment x))) 0);
}.

Lemma result_kind muxID i x : is_result (result_entry muxID i x) = true.
Proof. unfold result_entry. destruct (IsUnspendable _); [done|]. by destruct (to_TypedOutput x). Qed.

Lemma outputs_ok_push muxID k dests o o' rs x r d :
  outputs_ok muxID k dests o rs -> (forall e, is_result e = true -> e ∈ o -> e ∈ o') ->
  Outputs txData !! k = Some x -> EntryID (result_entry muxID k x) = Some r -> result_entry muxID k x ∈ o' ->
  d = mkValueDestination (Some r) (Some (oc_AssetAmount (to_Commitment x))) 0 ->
  outputs_ok muxID (S k) (dests ++ [d]) o' (rs ++ [r]).
Proof.
  intros [Lr Ld At] Ho Hx Hr Hin ->. split; [rewrite length_app; cbn; lia..|]. intros i y Hi Hy.
  destruct (decide (i = k)) as [->|].
  - assert (y = x) as -> by congruence. exists r. rewrite !lookup_app_r, Lr, Ld, Nat.sub_diag by lia. done.
  - destruct (At i y) as (r' & H1 & H2 & H3 & H4); [lia|done|]. exists r'. rewrite !lookup_app_l by lia.
    split_and!; try done. apply Ho; [apply result_kind|done].
Qed.

Lemma built_mux_push muxID pm dests h e id rid :
  is_result e = true -> EntryID e = Some id -> built_mux muxID pm dests h ->
  built_mux muxID pm dests (add_result rid (set_entryMap (<[id := length (objs h)]> (entryMap h)) (set_objs (objs h ++ [e]) h))).
Proof.
  intros He Hid [Hin Hix Hk Hm Hat Hmid Ho]. destruct h as [o em ? ? ? ? ms ? ii ? rs]; cbn in *.
  unfold is_result in He. split; cbn; try done.
  - apply inputs_ok_add; [by destruct e|done].
  - by apply indexed_push.
  - intros y [Hy| ->%list_elem_of_singleton]%elem_of_app; [by apply Hk|by destruct e].
  - by apply lookup_app_l_Some.
  - intros q m [[_ Hq]|[-> Hq]]%lookup_snoc_Some; [by eapply Ho|by subst e].
Qed.

(** The destination of the mux itself. *)
Lemma built_mux_dest muxID pm dests h d :
  built_mux muxID pm dests h -> built_mux muxID pm (dests ++ [d]) (set_objs (alter (add_destination d) pm (objs h)) h).
Proof.
  intros [Hin Hix Hk Hm Hat Hid Ho]. pose proof (redirects_add_destination d) as Hf.
  destruct h as [o em ? ? ? ? ms ? ii ? rs]; cbn in *. split; cbn; try done.
  - by apply inputs_ok_alter.
  - by apply indexed_alter; [apply rd_EntryID|].
  - intros e' [He|(e & He & ->)]%elem_of_alter_inv; [by apply Hk|]. specialize (Hk e He). by destruct e.
  - by rewrite list_lookup_alter_eq, Hat.
  - intros p m Hp. destruct (decide (p = pm)) as [->|]; [done|rewrite list_lookup_alter_ne in Hp by done; by eapply Ho].
Qed.

Definition built_outputs (muxID : Hash) (pm k : nat) h : Prop :=
  exists dests, built_mux muxID pm dests h /\ outputs_ok muxID k dests (objs h) (resultIDs h).

Lemma mapOutput_ok muxID pm k x h r h' :
  Outputs txData !! k = Some x -> built_outputs muxID pm k h -> mapOutput pm muxID k x h = Some (r, h') ->
  built_outputs muxID pm (S k) h'.
Proof.
  intros Hx (dests & Hb & Hout) H. unfold mapOutput in H. apply H_bind_ok in H as ((p & rid) & h1 & H1 & H).
  apply addEntry_ok in H1 as (id & Hid & [= -> ->] & ->). apply H_bind_ok in H as ([] & h1 & H1 & H). injection H1 as <-.
  injection H as _ <-. eexists. split.
  - apply built_mux_dest, (built_mux_push _ _ dests); [apply result_kind|done|done].
  - destruct h as [o em ? ? ? ? ms ? ii ? rs]; cbn in *.
    assert (Ho : forall e, is_result e = true -> e ∈ o ++ [result_entry muxID k x] ->
      e ∈ alter (add_destination (mkValueDestination (Some id) (Some (oc_AssetAmount (to_Commitment x))) 0)) pm (o ++ [result_entry muxID k x])).
    { intros e He Hin. destruct (elem_of_alter (add_destination (mkValueDestination (Some id) (Some (oc_AssetAmount (to_Commitment x))) 0)) pm _ e Hin) as [|Hf]; [done|].
      by rewrite (rd_result _ (redirects_add_destination _)) in Hf. }
    eapply outputs_ok_push; [done| |done|done| |done].
    + intros e He Hin. apply Ho; [done|]. set_solver.
    + apply Ho; [apply result_kind|set_solver].
Qed.

Lemma mapOutputs_ok muxID pm h r h' :
  built_mux muxID pm [] h -> resultIDs h = [] -> mapOutputs txData h = Some (r, h') ->
  built_outputs muxID pm (length (Outputs txData)) h'.
Proof.
  intros Hb Hr H. unfold mapOutputs in H. apply H_bind_ok in H as (m & h1 & H1 & H). injection H1 as <- <-.
  rewrite (bm_mux _ _ _ _ Hb) in H. apply H_bind_ok in H as (p & h1 & H1 & H). injection H1 as <- <-.
  apply H_bind_ok in H as (e & h1 & H1 & H). injection H1 as <- <-. rewrite (bm_at _ _ _ _ Hb) in H.
  apply H_bind_ok in H as (e & h1 & H1 & H). injection H1 as <- <-. rewrite (bm_id _ _ _ _ Hb) in H.
  apply H_bind_ok in H as (id & h1 & H1 & H). injection H1 as <- <-. destruct r.
  apply (for_each_ok _ (built_outputs muxID pm)) in H; [done|..].
  - intros j x t t' Hj Ht Hx. by eapply mapOutput_ok.
  - exists []. split; [done|]. rewrite Hr. split; [done..|]. intros; lia.
Qed.

(** ** The transaction *)

(** The transaction, the objects behind its entries, and its mux. *)
Record mapped (tx : Tx) o (muxID : Hash) (m : mux) : Prop := {
  mp_lookup id e : tx_Entries tx !! id = Some e -> e ∈ o /\ EntryID e = Some id;
  mp_dom e : e ∈ o -> exists id e', EntryID e = Some id /\ tx_Entries tx !! id = Some e';
  mp_inputs : inputs_ok (length (Inputs txData)) o (tx_InputIDs tx) (mux_Sources m);
  mp_outputs : outputs_ok muxID (length (Outputs txData)) (mux_Destinations m) o (hd_ResultIds (tx_Header tx));
  mp_mux : Mux m ∈ o /\ EntryID (Mux m) = Some muxID;
  mp_only_mux m' : Mux m' ∈ o -> m' = m;
  mp_only_header hd : TxHeader hd ∈ o -> hd = tx_Header tx;
  mp_header : tx_Entries tx !! tx_ID tx = Some (TxHeader (tx_Header tx));
  mp_version : hd_Version (tx_Header tx) = Version txData;
  mp_size : hd_SerializedSize (tx_Header tx) = SerializedSize txData;
}.

Lemma generateTx_ok muxID pm h tx h' :
  built_outputs muxID pm (length (Outputs txData)) h -> generateTx txData h = Some (tx, h') ->
  exists m, mapped tx (objs h') muxID m.
Proof.
  intros (dests & [Hin Hix Hk Hm Hat Hid Ho] & Hout) H. unfold generateTx in H.
  apply H_bind_ok in H as (ids & h1 & H1 & H). injection H1 as <- <-.
  apply H_bind_ok in H as ((p & id) & h1 & H1 & H). apply addEntry_ok in H1 as (id' & Hhd & [= -> ->] & ->).
  apply H_bind_ok in H as (h2 & h3 & H1 & H). injection H1 as <- <-. injection H as <- <-.
  apply (indexed_push _ _ _ _ Hhd) in Hix as [Is It].
  destruct h as [o em ? ? ? ? ms ? ii ? rs]; cbn in *.
  set (hd := TxHeader (mkTxHeader (Version txData) (SerializedSize txData) (TimeRange txData) rs)) in *.
  exists (mkMux ms (mkProgram 1 [z2b OP_TRUE]) dests). split; cbn.
  - intros j e [q [He Hq]]%lookup_omap_Some. destruct (Is _ _ Hq) as (e' & He' & Hj). rewrite He' in He. injection He as ->.
    split; [by eapply list_elem_of_lookup_2|done].
  - intros e [q Hq]%list_elem_of_lookup. destruct (It _ _ Hq) as (j & q' & Hj & Hq').
    destruct (Is _ _ Hq') as (e' & He' & _). exists j, e'. split; [done|]. by rewrite lookup_omap, Hq'.
  - by apply inputs_ok_add.
  - destruct Hout as [L1 L2 At]. split; [done..|]. intros i x Hi Hx. destruct (At i x Hi Hx) as (r & H1 & H2 & H3 & H4).
    exists r. split_and!; try done. set_solver.
  - split; [|done]. apply list_elem_of_lookup_2 in Hat. set_solver.
  - intros m' [Hm'|Hm'%list_elem_of_singleton]%elem_of_app; [|done].
    apply list_elem_of_lookup in Hm' as [q Hq]. pose proof (Ho _ _ Hq) as ->. congruence.
  - intros hd' [Hh%Hk|Hh%list_elem_of_singleton]%elem_of_app; [done|]. by injection Hh as ->.
  - rewrite lookup_omap, lookup_insert_eq. cbn. by rewrite list_lookup_middle.
  - done.
  - done.
Qed.

(** The entries [MapTx] allocates, those that are spent included. *)
Definition built : list Entry :=
  match (mapInputs txData ;; initMux ;; mapOutputs txData ;; generateTx txData) newMapHelper with
  | Some (_, h) => objs h
  | None => []
  end.

Lemma MapTx_mapped tx : MapTx txData = Some tx -> exists muxID m, mapped tx built muxID m.
Proof.
  unfold MapTx, built. intros H. apply fmap_Some in H as ([tx' h'] & H & ->). rewrite H. cbn.
  apply H_bind_ok in H as ([] & h1 & H1 & H). apply mapInputs_ok in H1. apply H_bind_ok in H as ([] & h2 & H2 & H).
  eapply initMux_ok in H2 as (muxID & pm & (Hb & _) & Hr); [|done].
  apply H_bind_ok in H as ([] & h3 & H3 & H). eapply mapOutputs_ok in H3; [|done..].
  eapply generateTx_ok in H as (m & H); [|done]. by exists muxID, m.
Qed.

(** The amounts are 64-bit numbers. *)
Definition output_value (x : TxOutput) : AssetAmount := oc_AssetAmount (to_Commitment x).
Definition typed : Prop :=
  Forall (fun x => match input_value x with Some v => u64_ok (aa_Amount v) | None => True end) (Inputs txData)
  /\ Forall (fun x => u64_ok (aa_Amount (output_value x))) (Outputs txData).

Section Mapped.
Context (tx : Tx) (muxID : Hash) (m : mux) (M : mapped tx built muxID m).

Lemma mux_sources : src_Value <$> mux_Sources m = input_value <$> Inputs txData.
Proof.
  destruct (mp_inputs _ _ _ _ M) as [Li Ls At _]. apply list_eq. intros i. rewrite !list_lookup_fmap.
  destruct (Inputs txData !! i) as [x|] eqn:Hx.
  - destruct (At i x) as (id & v & e & _ & Hv & Hs & _); [by eapply lookup_lt_Some|done|]. by rewrite Hs; cbn; rewrite Hv.
  - by rewrite (lookup_ge_None_2 (mux_Sources m)) by (rewrite Ls; by apply lookup_ge_None).
Qed.
Lemma mux_destinations : dst_Value <$> mux_Destinations m = (Some ∘ output_value) <$> Outputs txData.
Proof.
  destruct (mp_outputs _ _ _ _ M) as [Lr Ld At]. apply list_eq. intros i. rewrite !list_lookup_fmap.
  destruct (Outputs txData !! i) as [x|] eqn:Hx.
  - destruct (At i x) as (r & _ & _ & _ & Hd); [by eapply lookup_lt_Some|done|]. by rewrite Hd.
  - by rewrite (lookup_ge_None_2 (mux_Destinations m)) by (rewrite Ld; by apply lookup_ge_None).
Qed.

Lemma result_at r : r ∈ hd_ResultIds (tx_Header tx) -> exists i x,
  Outputs txData !! i = Some x /\ result_entry muxID i x ∈ built /\ EntryID (result_entry muxID i x) = Some r.
Proof.
  destruct (mp_outputs _ _ _ _ M) as [Lr Ld At]. intros [i Hi]%list_elem_of_lookup.
  pose proof (lookup_lt_Some _ _ _ Hi) as Hlt. rewrite Lr in Hlt. destruct (lookup_lt_is_Some_2 _ _ Hlt) as [x Hx].
  destruct (At i x Hlt Hx) as (r' & H1 & H2 & H3 & _). exists i, x. assert (r' = r) as -> by congruence. done.
Qed.

Lemma mapped_wf : typed -> tx_wf tx.
Proof.
  intros [Ti To]. split.
  - intros id e He. by apply (mp_lookup _ _ _ _ M).
  - intros id e He. apply (mp_lookup _ _ _ _ M) in He as [He _]. destruct e as [|m'| | | | | | |]; try done.
    apply (mp_only_mux _ _ _ _ M) in He as ->. cbn. rewrite mux_sources, mux_destinations. apply Forall_app. split.
    + apply Forall_fmap. eapply Forall_impl; [exact Ti|]. intros x Hx. cbn in *. destruct (input_value x); [apply Hx|done].
    + apply Forall_fmap. eapply Forall_impl; [exact To|]. intros x Hx. apply Hx.
  - intros id h r He Hr. apply (mp_lookup _ _ _ _ M) in He as [He _]. apply (mp_only_header _ _ _ _ M) in He as ->.
    destruct (result_at r Hr) as (i & x & _ & Hin & Hid). destruct (mp_dom _ _ _ _ M _ Hin) as (id' & e' & Hid' & He').
    exists e'. by congruence.
  - apply (mp_header _ _ _ _ M).
Qed.
End Mapped.

(** ** What acceptance says of the transaction *)

Section Accepted.
Context {R : MapRange} {RL : MapRangeLaws R} {U : Uint256}.
Variable converter : bytes -> option bytes.
Variable checkOutput : Entry -> gmap Hash Entry -> Z -> Z -> bytes -> Z -> bytes -> list bytes -> bool -> bool + error.
Variables (tx : Tx) (tx_ptr : nat) (block : Block) (vmfuel : nat).
#[local] Abbreviation accepted := (accepted converter checkOutput tx block vmfuel).
#[local] Abbreviation local_ok := (local_ok converter checkOutput tx tx_ptr block vmfuel).
#[local] Abbreviation closed := (closed converter checkOutput tx tx_ptr block vmfuel).
#[local] Abbreviation accepted_tx := (accepted_tx converter checkOutput tx tx_ptr block vmfuel).

Lemma source_in_C C r src ref v pos : source_ok tx C r 0 src -> src = Some (mkValueSource (Some ref) v pos) -> ref ∈ C.
Proof. intros (s & ref' & v' & e & -> & Href & _ & _ & _ & Hc & _) [= ->]. cbn in Href. congruence. Qed.

Lemma result_source C muxID i x r e :
  hashed e = hashed (result_entry muxID i x) -> local_ok C r e -> muxID ∈ C.
Proof.
  unfold result_entry. destruct (IsUnspendable _); [|destruct (to_TypedOutput x)]; destruct e; try done; intros [= Hs] Hl.
  - by eapply source_in_C.
  - by eapply source_in_C.
  - destruct Hl as [Hl _]. by eapply source_in_C.
Qed.

(** The first result leads to the mux. *)
Lemma mux_checked muxID m :
  mapped tx built muxID m -> hd_Version (tx_Header tx) = 1 -> accepted_tx ->
  clash built \/ exists C, closed C /\ local_ok C muxID (Mux m).
Proof.
  intros M Hv [_ _ _ Hres (C & HC & Hin)]. specialize (Hres Hv).
  destruct (hd_ResultIds (tx_Header tx)) as [|r rs] eqn:Hrs; [done|]. clear Hres.
  destruct (result_at _ _ _ M r) as (i & x & _ & Hx & Hid); [rewrite Hrs; left|].
  destruct (HC r (Hin r ltac:(left))) as (e & He & Hl). apply (mp_lookup _ _ _ _ M) in He as [Hbe Hide].
  destruct (clash_or built _ _ _ Hbe Hx Hide Hid) as [|Hh]; [by left|].
  pose proof (result_source _ _ _ _ _ _ Hh Hl) as Hmux.
  destruct (HC _ Hmux) as (e' & He' & Hl'). apply (mp_lookup _ _ _ _ M) in He' as [Hbe' Hide'].
  destruct (mp_mux _ _ _ _ M) as [Hbm Hidm].
  destruct (clash_or built _ _ _ Hbe' Hbm Hide' Hidm) as [|Hh']; [by left|right]. exists C. split; [done|].
  destruct e' as [|m'| | | | | | |]; try done. by apply (mp_only_mux _ _ _ _ M) in Hbe' as ->.
Qed.

(** What the inputs bring in and the outputs take out, of one asset. *)
Definition input_total (a : AssetID) : Z := total a (input_value <$> Inputs txData).
Definition output_total (a : AssetID) : Z := total a ((Some ∘ output_value) <$> Outputs txData).

(** The totals of an accepted transaction. *)
Lemma ValidateTx_totals fuel g :
  MapTx txData = Some tx -> typed -> Version txData = 1 ->
  ValidateTx converter checkOutput tx tx_ptr block vmfuel fuel = VOk g ->
  clash built \/ forall a, input_total a <= MaxInt64 /\ if bool_decide (a = BTMAssetID) then output_total a <= input_total a else output_total a = input_total a.
Proof.
  intros Hm Ht Hv HV. apply MapTx_mapped in Hm as (muxID & m & M). pose proof (mapped_wf _ _ _ M Ht) as Wf.
  apply ValidateTx_accepted in HV; [|done].
  destruct (mux_checked muxID m M) as [|(C & _ & Hb & _)]; [by rewrite (mp_version _ _ _ _ M)|done|by left|right].
  intros a. specialize (Hb a). cbn in Hb. rewrite (mux_sources _ _ _ M), (mux_destinations _ _ _ M) in Hb.
  unfold input_total, output_total. destruct Hb as [Hmax Hb]. split; [done|]. by destruct (bool_decide _).
Qed.


(** Input [i] is authorised: by the program of the output it spends, or of the
    asset it issues, run on the arguments of the input. *)
Definition authorised (i : nat) (x : TxInput) : Prop :=
  exists id e, tx_InputIDs tx !! i = Some id /\ tx_Entries tx !! id = Some e /\
  match ti_TypedInput x with
  | Some (TSpend _ args sc) | Some (TVeto _ args _ sc) =>
      accepted e (mkProgram (sc_VMVersion sc) (sc_ControlProgram sc)) (sc_StateData sc) args
  | Some (TIssuance ii) =>
      accepted e (mkProgram (ii_VMVersion ii) (ii_IssuanceProgram ii)) [] (ii_Arguments ii) /\ issuance_AssetID ii = calcAssetID ii
  | Some (TCoinbase _) => head (bk_Transactions block) = Some tx_ptr
  | None => False
  end.

(** The output behind an identifier is the one the input was made from. *)
Lemma spent_entry muxID m s prev e args ref :
  mapped tx built muxID m -> spends_output built prev args s -> sp_SpentOutputId s = Some ref ->
  tx_Entries tx !! ref = Some e -> clash built \/ hashed e = hashed prev.
Proof.
  intros M (Hp & Hid & _) Href He. apply (mp_lookup _ _ _ _ M) in He as [Hbe Hide].
  apply (clash_or _ _ _ ref); [done..|]. by rewrite <- Hid.
Qed.

Lemma input_authorised muxID m C i x :
  mapped tx built muxID m -> NoDup (tx_InputIDs tx) -> closed C -> local_ok C muxID (Mux m) ->
  Inputs txData !! i = Some x -> clash built \/ authorised i x.
Proof.
  intros M Hnd HC (_ & _ & Hsrc) Hx. destruct (mp_inputs _ _ _ _ M) as [Li Ls At Only].
  destruct (At i x) as (id & v & e0 & Hid & _ & Hs & He0 & Hide0 & Hin0); [by eapply lookup_lt_Some|done|].
  destruct (Hsrc i _ Hs) as (s & ref' & v' & e' & [= <-] & [= <-] & _ & _ & _ & Hc & _).
  destruct (HC id Hc) as (e & He & Hl). destruct (mp_lookup _ _ _ _ M _ _ He) as [Hbe Hide].
  destruct (clash_or built e e0 id) as [|Hh]; [done..|by left|].
  assert (is_input e = true) as Hin by (destruct e, e0; done).
  destruct (Only e Hbe Hin) as (j & y & id' & Hy & Hj & Hid' & Hie). assert (id' = id) as -> by congruence.
  assert (j = i) as -> by by eapply NoDup_lookup. assert (y = x) as -> by congruence.
  unfold authorised, input_entry in *. destruct (ti_TypedInput x) as [[ii|suf args sc|arb|suf args vote sc]|], e as [| | | | |y|s|s|c]; try done.
  - right. exists id, (Issuance y). split; [done|]. split; [done|]. destruct Hie as (Hd & Ha & Hval). destruct Hl as (Hl & Hacc & _).
    rewrite Hval in Hl. cbn in Hl. rewrite Hd in *. rewrite Ha in Hacc. split; [done|]. by injection Hl.
  - destruct Hl as (ref & prev & Href & Hprev & Hacc & _). destruct (spent_entry _ _ _ _ _ _ _ M Hie Href Hprev) as [|Hsame]; [by left|right].
    exists id, (Spend s). split; [done|]. split; [done|]. destruct Hie as (_ & _ & Ha). injection Hsame as _ Hp Hst. by rewrite Hp, Hst, Ha in Hacc.
  - right. exists id, (Coinbase c). split; [done|]. split; [done|]. by destruct Hl.
  - destruct Hl as (ref & prev & vote' & Href & Hprev & _ & Hacc & _). destruct (spent_entry _ _ _ _ _ _ _ M Hie Href Hprev) as [|Hsame]; [by left|right].
    exists id, (VetoInput s). split; [done|]. split; [done|]. destruct Hie as (_ & _ & Ha). injection Hsame as _ Hp Hst _. by rewrite Hp, Hst, Ha in Hacc.
Qed.

Lemma ValidateTx_inputs fuel g i x :
  MapTx txData = Some tx -> typed -> Version txData = 1 ->
  ValidateTx converter checkOutput tx tx_ptr block vmfuel fuel = VOk g ->
  Inputs txData !! i = Some x -> clash built \/ authorised i x.
Proof.
  intros Hm Ht Hv HV Hx. apply MapTx_mapped in Hm as (muxID & m & M). pose proof (mapped_wf _ _ _ M Ht) as Wf.
  apply ValidateTx_accepted in HV; [|done].
  destruct (mux_checked muxID m M) as [|(C & HC & Hl)]; [by rewrite (mp_version _ _ _ _ M)|done|by left|].
  eapply input_authorised; [done|apply HV|done..].
Qed.

End Accepted.
End Ledger.
