(* ===== verification/Fees.v ===== *)
(** * What validation says of the gas

    The gas status of an accepted transaction that [MapTx] built: [BTMValue] is
    the fee, the BTM that come in and do not go out, and the gas used and the
    gas left make up what the fee buys, at most [MaxGasAmount].  The sum wraps
    around, since a program can end with more gas than it was given
    ([Mint.v]). *)

From S2P Require Import Prelude Checked GoSlice VMTypes Opcode Machine Interp Script Orphans Encoding Entries TxData MapTx Validate ValidateSpec Ledger.
From Stdlib Require Import Strings.Byte.
#[local] Open Scope Z_scope.

(** The gas a fee buys. *)
Definition gas_limit (fee : Z) : Z := Z.min (fee / VMGasRate) MaxGasAmount.

(** [Q]: no program is run, so that the gas left is not more than was bought. *)
Record gas_inv (Q : Prop) (fee : Z) (g : GasState) : Prop := {
  gi_fee : BTMValue g = fee;
  gi_left : 0 <= GasLeft g;
  gi_used : GasUsed g = i64 (gas_limit fee - GasLeft g);
  gi_quiet : Q -> 0 <= StorageGas g <= MaxInt64 /\ GasLeft g <= gas_limit fee;
}.

(** Arithmetic modulo the width. *)
Lemma i64_mod z : exists k, i64 z = z + k * 18446744073709551616.
Proof.
  exists (- ((z + 9223372036854775808) / 18446744073709551616)). unfold i64.
  rewrite Z.mod_eq by lia. lia.
Qed.
Lemma i64_plus_mod z k : i64 (z + k * 18446744073709551616) = i64 z.
Proof. unfold i64. f_equal. rewrite <- (Z_mod_plus_full (z + 9223372036854775808) k). f_equal. lia. Qed.
Lemma i64_cong a b k : a = b + k * 18446744073709551616 -> i64 a = i64 b.
Proof. intros ->. apply i64_plus_mod. Qed.

Lemma used_spent L left x : i64 (i64 (L - left) + i64 (left - x)) = i64 (L - x).
Proof.
  destruct (i64_mod (L - left)) as [k ->], (i64_mod (left - x)) as [j ->]. apply (i64_cong _ _ (k + j)). lia.
Qed.
Lemma used_stored L left x : i64 (i64 (L - left) + x) = i64 (L - i64 (left - x)).
Proof.
  destruct (i64_mod (L - left)) as [k ->], (i64_mod (left - x)) as [j ->]. apply (i64_cong _ _ (k + j)). lia.
Qed.

(** ** The gas operations *)

Lemma setGas_gas (Q : Prop) v n s r s' :
  setGas v n s = (VOk r, s') -> (Q -> int64 n /\ 0 <= n) -> v <= MaxInt64 -> GasUsed (gasStatus s) = 0 -> gas_inv Q v (gasStatus s').
Proof.
  unfold setGas. intros Hg Hn Hmax Hu. apply b_require in Hg as [Hv Hg]. apply b_gas in Hg. apply b_orr in Hg as (l & Hl & Hg).
  apply b_orr in Hg as (st & Hst & Hg). apply put_gas_ok in Hg as ->. zbool.
  unfold DivInt64, div_s, VMGasRate in Hl. cbn [Z.eqb orb] in Hl.
  rewrite andb_false_r in Hl. injection Hl as <-.
  assert (0 <= v / 200 <= v) by (split; [apply Z.div_pos|apply Z.div_le_upper_bound]; lia).
  rewrite Z.quot_div_nonneg, i64_id by (words; lia).
  assert (gas_limit v = if v / 200 >? MaxGasAmount then MaxGasAmount else v / 200) as E.
  { unfold gas_limit, VMGasRate. destruct (Z.gtb_spec (v / 200) MaxGasAmount); lia. }
  split; cbn [gasStatus BTMValue GasLeft GasUsed]; rewrite <- ?E.
  - apply u64_id. words. lia.
  - unfold gas_limit, VMGasRate, MaxGasAmount. lia.
  - by rewrite Hu, Z.sub_diag.
  - intros HQ. destruct (Hn HQ) as [Hi H0]. apply MulInt64_Some in Hst as [-> Hst]; [|done|split; vm_compute; discriminate]. unfold StorageGasRate, int64 in *. rewrite Z.mul_1_r. cbn. lia.
Qed.

Lemma updateUsage_gas (Q : Prop) fee n s r s' :
  updateUsage n s = (VOk r, s') -> ~ Q -> gas_inv Q fee (gasStatus s) -> gas_inv Q fee (gasStatus s').
Proof.
  unfold updateUsage. intros Hu HQ [Hf Hl Hused _]. apply b_require in Hu as [Hn Hu]. apply b_gas in Hu.
  apply b_orr in Hu as (d & Hd & Hu). apply V_bind_ok in Hu as ([] & s1 & Hp & Hu). apply put_gas_ok in Hp as ->.
  apply require_ok in Hu as [_ ->]. zbool. unfold SubInt64, sub_s in Hd. destruct (_ || _) in Hd; [done|]. injection Hd as <-.
  split; cbn; [done|done|by rewrite Hused, used_spent|done].
Qed.

Lemma chargeStorageGas_gas (Q : Prop) fee s r s' :
  chargeStorageGas s = (VOk r, s') -> gas_inv Q fee (gasStatus s) -> gas_inv Q fee (gasStatus s').
Proof.
  unfold chargeStorageGas. intros Hm [Hf Hl Hused Hq]. apply b_gas in Hm. apply b_orr in Hm as (left & Hleft & Hm).
  apply b_require in Hm as [Hn Hm]. apply b_orr in Hm as (u & Hu & Hm). apply put_gas_ok in Hm as ->. zbool.
  unfold SubInt64, sub_s in Hleft. destruct (_ || _) in Hleft; [done|]. injection Hleft as <-.
  unfold AddInt64, add_s in Hu. destruct (_ || _) in Hu; [done|]. injection Hu as <-.
  split; cbn; [done|done|by rewrite Hused, used_stored|]. intros HQ. destruct (Hq HQ) as [Hs Hb]. split; [done|].
  rewrite i64_id; [lia|]. unfold gas_limit, VMGasRate, MaxGasAmount in Hb. words. lia.
Qed.

Section Walk.
Context {R : MapRange} {RL : MapRangeLaws R} {U : Uint256} {Cr : Crypto}.
Variable converter : bytes -> option bytes.
Variable checkOutput : Entry -> gmap Hash Entry -> Z -> Z -> bytes -> Z -> bytes -> list bytes -> bool -> bool + error.
Variables (tx : Tx) (tx_ptr : nat) (block : Block) (vmfuel : nat).
#[local] Abbreviation checkValid := (checkValid converter checkOutput tx tx_ptr block vmfuel).
(** [Q] rules out programs: all inputs are coinbases, and the size fits. *)
Context (Q : Prop) (Q_size : Q -> int64 (i64 (hd_SerializedSize (tx_Header tx))) /\ 0 <= i64 (hd_SerializedSize (tx_Header tx))).
#[local] Abbreviation check_entry := (check_entry converter checkOutput tx tx_ptr block vmfuel).

(** ** Inputs *)

Ltac no_programs := let HQ := fresh in intros HQ; match goal with Hc : Q -> exists c, _ |- _ => by destruct (Hc HQ) end.

Lemma run_program_gas fee e prog st args s r s' :
  run_program converter checkOutput tx block vmfuel e prog st args s = (VOk r, s') ->
  ~ Q -> gas_inv Q fee (gasStatus s) -> gas_inv Q fee (gasStatus s').
Proof.
  unfold run_program. intros Hr. apply V_bind_ok in Hr as (ctx & s1 & Hctx & Hr).
  pose proof (NewTxVMContext_pure _ _ _ _ _ _ _ _ _ _ _ Hctx) as ->. apply b_gas in Hr.
  destruct (Verify vmfuel ctx _ tt).1 as [v|]; [|done]. destruct (verify_err v); [done|]. by eapply updateUsage_gas.
Qed.

Lemma check_spend_gas fee vs e x prev s r s' :
  check_spend converter checkOutput tx block vmfuel vs e x prev s = (VOk r, s') ->
  ~ Q -> gas_inv Q fee (gasStatus s) -> gas_inv Q fee (gasStatus s').
Proof.
  unfold check_spend. intros H HQ Hg. apply V_bind_ok in H as ([] & s1 & Hr & H). eapply run_program_gas in Hr; [|done..].
  apply b_deref in H as (src & _ & H). apply b_deref in H as (d & _ & H). apply b_orr in H as (eq & _ & H).
  apply b_require in H as [_ H]. by apply checkValidDest_ok in H as [-> _].
Qed.

Lemma input_entry_gas fee check vs e s r s' :
  (Q -> exists c, e = Coinbase c) -> is_input e = true -> check_entry check vs e s = (VOk r, s') ->
  gas_inv Q fee (gasStatus s) -> gas_inv Q fee (gasStatus s').
Proof.
  intros Hc. destruct e as [| | | | |i|x|x|c]; try done; intros _ H Hg; cbn [Validate.check_entry] in H.
  - apply b_deref in H as (a & _ & H). apply b_require in H as [_ H]. apply V_bind_ok in H as ([] & s1 & H1 & H).
    eapply run_program_gas in H1; [|by no_programs|done]. by apply checkValidDest_ok in H as [-> _].
  - apply b_orr in H as (id & _ & H). apply V_bind_ok in H as (prev & s1 & H1 & H). apply original_ok in H1 as [-> _].
    eapply check_spend_gas; [done|by no_programs|done].
  - apply b_orr in H as (id & _ & H). apply V_bind_ok in H as ([prev vote] & s1 & H1 & H). apply vote_ok in H1 as [-> _].
    apply b_require in H as [_ H]. eapply check_spend_gas; [done|by no_programs|done].
  - apply b_require in H as [_ H]. apply b_deref in H as (d & _ & H). apply b_deref in H as (v & _ & H).
    apply b_deref in H as (a & _ & H). do 2 apply b_require in H as [_ H]. apply V_bind_ok in H as ([] & s1 & H1 & H).
    apply checkValidDest_ok in H1 as [-> _]. apply b_gas, put_gas_ok in H as ->. destruct Hg as [? ? ? Hq]. split; [done..|]. intros HQ. destruct (Hq HQ). cbn. words. lia.
Qed.

(** A step of the walk: the entry was valid already, or is checked now. *)
Lemma checkValid_step fuel vs e id s r s' :
  EntryID e = Some id -> checkValid fuel vs (Some e) s = (VOk r, s') ->
  (id ∈ cache s /\ s' = s)
  \/ exists fuel' s1, fuel = S fuel' /\ id ∉ cache s /\ check_entry (checkValid fuel') vs e s = (VOk tt, s1)
       /\ s' = mkV (gasStatus s1) ({[id]} ∪ cache s1).
Proof.
  intros Hid H. destruct fuel as [|fuel]; [done|]. cbn [Validate.checkValid] in H.
  apply b_deref in H as (? & [= <-]%(eq_trans (eq_sym Hid)) & H). apply V_bind_ok in H as (b & s1 & Hb & H).
  apply in_cache_ok in Hb as [-> ->]. case_bool_decide; [left; by apply mret_ok in H as [_ ->]|right].
  apply V_bind_ok in H as ([] & s1 & H1 & H). apply to_cache_ok in H as ->. by exists fuel, s1.
Qed.

Lemma input_gas fee fuel vs e s r s' :
  (Q -> exists c, e = Coinbase c) -> is_Some (EntryID e) -> is_input e = true -> checkValid fuel vs (Some e) s = (VOk r, s') ->
  gas_inv Q fee (gasStatus s) -> gas_inv Q fee (gasStatus s').
Proof.
  intros Hl [id Hid] Hin H Hg. eapply checkValid_step in H as [[_ ->]|(f & s1 & -> & _ & H & ->)]; [done| |done].
  cbn. by eapply input_entry_gas.
Qed.

(** ** The mux *)

(** The gas status before the balance of BTM is known. *)
Definition no_gas (g : GasState) : Prop := g = mkGas 0 0 0 0.

Lemma check_balance_gas i a n s r s' :
  check_balance tx i (a, n) s = (VOk r, s') -> n <= MaxInt64 ->
  if bool_decide (a = BTMAssetID) then GasUsed (gasStatus s) = 0 -> gas_inv Q n (gasStatus s') else s' = s.
Proof.
  cbn. case_bool_decide; intros H1 H2; [intros Hu; by eapply setGas_gas|]. by apply require_ok in H1 as [_ ->].
Qed.

Lemma balance_list i l s r s' :
  NoDup l.*1 -> (forall p, p ∈ l -> p.2 <= MaxInt64) -> vfor (check_balance tx) i l s = (VOk r, s') ->
  (BTMAssetID ∉ l.*1 -> s' = s)
  /\ forall n, (BTMAssetID, n) ∈ l -> GasUsed (gasStatus s) = 0 -> gas_inv Q n (gasStatus s').
Proof.
  revert i s. induction l as [|[a n] l IH]; intros i s Hnd Hmax H; cbn [vfor] in H.
  { apply mret_ok in H as [_ ->]. split; [done|]. intros n Hn. by apply elem_of_nil in Hn. }
  apply V_bind_ok in H as ([] & s1 & H1 & H). rewrite fmap_cons in *. apply NoDup_cons in Hnd as [Hni Hnd].
  apply check_balance_gas in H1; [|apply (Hmax (a, n)); left].
  destruct (IH (S i) s1 Hnd ltac:(intros; apply Hmax; by right) H) as [IH1 IH2].
  destruct (decide (a = BTMAssetID)) as [->|Hne];
    [rewrite bool_decide_eq_true_2 in H1 by done|rewrite bool_decide_eq_false_2 in H1 by done; subst s1].
  - rewrite (IH1 Hni). split; [intros []; left|]. intros n' [[= ->]|Hn']%elem_of_cons Hu; [by apply H1|].
    destruct Hni. by apply (list_elem_of_fmap_2 fst) in Hn'.
  - split; [intros Hn; apply IH1; by intros ?; apply Hn; right|]. intros n' [[= <- _]|Hn']%elem_of_cons Hu; [done|by apply IH2].
Qed.

Lemma balances_gas (parity : gmap AssetID Z) s r s' :
  in_int64 parity -> vfor (check_balance tx) 0 (map_range parity) s = (VOk r, s') -> no_gas (gasStatus s) ->
  gas_inv Q (default 0 (parity !! BTMAssetID)) (gasStatus s').
Proof.
  intros Hp H Hg. apply balance_list in H as [H1 H2].
  - destruct (parity !! BTMAssetID) as [n|] eqn:E; cbn.
    + apply H2; [|by rewrite Hg]. rewrite map_range_perm. by apply elem_of_map_to_list.
    + rewrite H1, Hg; [done|]. rewrite map_range_perm. intros ([a n] & Ha & Hn)%list_elem_of_fmap. change (BTMAssetID = a) in Ha. subst a.
      apply elem_of_map_to_list in Hn. congruence.
  - rewrite map_range_perm. apply NoDup_fst_map_to_list.
  - intros [a n] Hn. rewrite map_range_perm, elem_of_map_to_list in Hn. by apply Hp in Hn as [_ ?].
Qed.

(** Of the state, a source only sees what the check of its entry does. *)
Lemma checkValidSrc_state (I J : vstate -> Prop) check vs x s r s' :
  (forall ref e s s', (exists v p, x = Some (mkValueSource (Some ref) v p)) -> tx_Entries tx !! ref = Some e ->
     check (mkPos ref (sourcePos vs) (destPos vs)) (Some e) s = (VOk tt, s') -> I s -> J s') ->
  checkValidSrc tx check vs x s = (VOk r, s') -> I s -> J s'.
Proof.
  unfold checkValidSrc. intros Hc Hd Hg. apply b_orr in Hd as (x' & -> & Hd). apply b_orr in Hd as (ref & Href & Hd).
  apply b_orr in Hd as (v & Hv & Hd). apply b_orr in Hd as (id & _ & Hd). apply b_orr in Hd as (e & He & Hd).
  apply V_bind_ok in Hd as ([] & s1 & Hck & Hd). apply Hc in Hck; [|destruct x' as [ref' v' p]; cbn in Href; subst; eauto|done..].
  apply V_bind_ok in Hd as (dst & s2 & Hdst & Hd). apply b_deref in Hd as (d & -> & Hd). apply check_link_ok in Hd as (-> & _).
  destruct e; try done; apply b_require in Hdst as [_ Hdst]; by apply mret_ok in Hdst as [_ ->].
Qed.

Lemma vfor_inv {A} (f : nat -> A -> V unit) (I : vstate -> Prop) i l s r s' :
  (forall j x s s', x ∈ l -> I s -> f j x s = (VOk tt, s') -> I s') -> I s -> vfor f i l s = (VOk r, s') -> I s'.
Proof.
  revert i s. induction l as [|x l IH]; intros i s Hf Hs H; cbn [vfor] in H; [by apply mret_ok in H as [_ ->]|].
  apply V_bind_ok in H as ([] & s1 & H1 & H). apply (IH (S i) s1); [|eapply Hf; [left|done..]|done].
  intros j y t t' Hy. apply Hf. by right.
Qed.

Definition mux_fee (m : mux) : Z :=
  total BTMAssetID (src_Value <$> mux_Sources m) - total BTMAssetID (dst_Value <$> mux_Destinations m).

Lemma mux_gas check vs m s r s' :
  amounts_u64 (Mux m) ->
  (forall ref v p vs e s s', mkValueSource (Some ref) v p ∈ mux_Sources m -> tx_Entries tx !! ref = Some e ->
     check vs (Some e) s = (VOk tt, s') -> gas_inv Q (mux_fee m) (gasStatus s) -> gas_inv Q (mux_fee m) (gasStatus s')) ->
  check_mux tx check vs m s = (VOk r, s') -> no_gas (gasStatus s) -> gas_inv Q (mux_fee m) (gasStatus s').
Proof.
  cbn [amounts_u64]. intros [Hsrc Hdst]%Forall_app Hc Hm Hg. unfold check_mux in Hm. apply V_bind_ok in Hm as (p1 & s1 & H1 & Hm).
  apply V_bind_ok in Hm as (p2 & s2 & H2 & Hm). apply V_bind_ok in Hm as ([] & s3 & H3 & Hm).
  apply V_bind_ok in Hm as ([] & s4 & H4 & Hm). apply V_bind_ok in Hm as ([] & s5 & H5 & Hm).
  apply parity_sources in H1 as (-> & Hp1 & Ht1); [|done|by intros ??; rewrite lookup_empty].
  apply parity_dests in H2 as (-> & Hp2 & Ht2); [|done..].
  eapply balances_gas in H3; [|done..]. rewrite Ht2, Ht1, lookup_empty in H3. change (default 0 None) with 0 in H3. rewrite Z.add_0_l in H3.
  eapply chargeStorageGas_gas; [done|].
  eapply (vfor_inv _ (fun s => gas_inv Q (mux_fee m) (gasStatus s))) in H5; [done|..].
  - intros j x t t' Hx Ht Hv. pose (I := fun s => gas_inv Q (mux_fee m) (gasStatus s)). eapply (checkValidSrc_state I I); [|done..]. intros ref e t1 t2 (v & p & [= ->]) He. by apply (Hc ref v p).
  - eapply (vfor_inv _ (fun s => gas_inv Q (mux_fee m) (gasStatus s))) in H4; [done| |done].
    intros j x t t' _ Ht [-> _]%checkValidDest_ok. done.
Qed.

(** ** From the results to the mux *)

Context (txData : TxData) (muxID : Hash) (m : mux) (M : mapped txData tx (built txData) muxID m) (Wf : tx_wf tx).
Context (N : forall e1 e2 id, e1 ∈ built txData -> e2 ∈ built txData -> EntryID e1 = Some id -> EntryID e2 = Some id ->
  hashed e1 = hashed e2).

Context (Q_inputs : Q -> Forall (fun x => exists a, ti_TypedInput x = Some (TCoinbase a)) (Inputs txData)).

Lemma source_input ref v p e :
  mkValueSource (Some ref) v p ∈ mux_Sources m -> tx_Entries tx !! ref = Some e -> is_input e = true /\ (Q -> exists c, e = Coinbase c).
Proof.
  intros Hs He. destruct (mp_lookup _ _ _ _ _ M _ _ He) as [Hbe Hide].
  destruct (mp_inputs _ _ _ _ _ M) as [Li Ls At _]. apply list_elem_of_lookup in Hs as [i Hi].
  pose proof (lookup_lt_Some _ _ _ Hi) as Hlt. rewrite Ls in Hlt. destruct (lookup_lt_is_Some_2 _ _ Hlt) as [x Hx].
  destruct (At i x Hlt Hx) as (id & w & e0 & _ & _ & Hsrc & He0 & Hide0 & Hin). rewrite Hi in Hsrc. injection Hsrc as -> -> ->.
  pose proof (N e e0 id Hbe He0 Hide Hide0) as Hh. assert (is_input e = true) as Hie by (by destruct e, e0). split; [done|]. intros HQ.
  destruct (in_only _ _ _ _ _ (mp_inputs _ _ _ _ _ M) e Hbe Hie) as (k & y & ? & Hy & _ & _ & Hen).
  destruct (Forall_lookup_1 _ _ _ _ (Q_inputs HQ) Hy) as [a Ha]. unfold input_entry in Hen. rewrite Ha in Hen. destruct e; try done. by eexists.
Qed.
Lemma mux_entry e : tx_Entries tx !! muxID = Some e -> e = Mux m.
Proof.
  intros He. destruct (mp_lookup _ _ _ _ _ M _ _ He) as [Hbe Hide]. destruct (mp_mux _ _ _ _ _ M) as [Hbm Hidm].
  pose proof (N e _ _ Hbe Hbm Hide Hidm) as Hh. destruct e as [|m'| | | | | | |]; try done.
  by apply (mp_only_mux _ _ _ _ _ M) in Hbe as ->.
Qed.

Lemma source_gas fuel vs ref v p e s s' :
  mkValueSource (Some ref) v p ∈ mux_Sources m -> tx_Entries tx !! ref = Some e ->
  checkValid fuel vs (Some e) s = (VOk tt, s') -> gas_inv Q (mux_fee m) (gasStatus s) -> gas_inv Q (mux_fee m) (gasStatus s').
Proof.
  intros Hs He Hc. destruct (mp_lookup _ _ _ _ _ M _ _ He) as [_ Hide]. destruct (source_input _ _ _ _ Hs He). by eapply input_gas; [|eexists|..].
Qed.

(** Before the mux is checked, and after. *)
Definition stage (s : vstate) : Prop :=
  (no_gas (gasStatus s) /\ muxID ∉ cache s) \/ (gas_inv Q (mux_fee m) (gasStatus s) /\ muxID ∈ cache s).
Definition done_mux (s : vstate) : Prop := gas_inv Q (mux_fee m) (gasStatus s) /\ muxID ∈ cache s.

Lemma check_mux_stage fuel vs e s s' :
  tx_Entries tx !! muxID = Some e -> checkValid fuel vs (Some e) s = (VOk tt, s') -> stage s -> done_mux s'.
Proof.
  intros He H Hs. destruct (mp_lookup _ _ _ _ _ M _ _ He) as [_ Hide]. destruct (mp_mux _ _ _ _ _ M) as [_ Hidm].
  pose proof (mux_entry _ He) as ->.
  apply (checkValid_step _ _ _ muxID) in H as [[Hin ->]|(f & s1 & -> & Hni & H & ->)]; [|..|done].
  - by destruct Hs as [[_ []]|].
  - destruct Hs as [[Hg _]|[_ []%Hni]]. split; [|cbn; set_solver]. cbn. eapply mux_gas; [|..|done|done].
    + by eapply wf_amounts.
    + intros. by eapply source_gas.
Qed.

Lemma result_source_stage fuel vs v p s r s' :
  checkValidSrc tx (checkValid fuel) vs (Some (mkValueSource (Some muxID) v p)) s = (VOk r, s') -> stage s -> done_mux s'.
Proof.
  apply checkValidSrc_state. intros ref e t t' (v' & p' & [= <- _ _]) He. by apply check_mux_stage.
Qed.

Lemma check_result_stage fuel vs i x e rid s s' :
  EntryID e = Some rid -> hashed e = hashed (result_entry muxID i x) ->
  checkValid fuel vs (Some e) s = (VOk tt, s') -> stage s -> (rid ∈ cache s -> muxID ∈ cache s) -> done_mux s'.
Proof.
  intros Hid Hh H Hs Hc. eapply checkValid_step in H as [[Hin ->]|(f & s1 & -> & _ & H & ->)]; [| |exact Hid].
  { destruct Hs as [[_ []]|Hs]; [by apply Hc|done]. }
  enough (done_mux s1) as [Hg Hm] by (split; [done|cbn; set_solver]).
  unfold result_entry in Hh. destruct (IsUnspendable _); [|destruct (to_TypedOutput x)]; destruct e; try done;
    injection Hh; intros; simplify_eq; cbn [Validate.check_entry] in H.
  - by eapply result_source_stage.
  - destruct o as [src ? ? ?]. cbn in *. subst. by eapply result_source_stage.
  - apply b_require in H as [_ H]. apply V_bind_ok in H as ([] & s2 & Hcs & H). destruct o as [src ? ? ?]. cbn in *. subst.
    apply result_source_stage in Hcs; [|done]. do 2 (apply b_deref in H as (? & _ & H)). apply b_require in H as [_ H].
    apply b_deref in H as (a & _ & H). by apply require_ok in H as [_ ->].
Qed.

(** Every checked result has its mux checked. *)
Lemma closed_result C rid :
  closed converter checkOutput tx tx_ptr block vmfuel C -> rid ∈ hd_ResultIds (tx_Header tx) -> rid ∈ C -> muxID ∈ C.
Proof.
  intros HC Hr Hin. destruct (HC _ Hin) as (e & He & Hl). destruct (mp_lookup _ _ _ _ _ M _ _ He) as [Hbe Hide].
  destruct (result_at _ _ _ _ M rid Hr) as (i & x & _ & Hx & Hid).
  eapply result_source; [by eapply (N e)|done].
Qed.

Lemma results_stage fuel vs s s' :
  closed converter checkOutput tx tx_ptr block vmfuel (cache s) -> stage s -> hd_ResultIds (tx_Header tx) <> [] ->
  vfor (fun _ resID => checkValid fuel (mkPos resID (sourcePos vs) (destPos vs)) (tx_Entries tx !! resID)) 0 (hd_ResultIds (tx_Header tx)) s = (VOk tt, s') ->
  done_mux s'.
Proof.
  intros Hcl Hs Hne H.
  apply (vfor_ok _ (fun s => stage s /\ closed converter checkOutput tx tx_ptr block vmfuel (cache s)) (fun _ _ C => muxID ∈ C)) in H
    as ([Hst _] & _ & Hq); [|..|done].
  - destruct (hd_ResultIds (tx_Header tx)) as [|r l]; [done|]. specialize (Hq 0%nat r eq_refl). by destruct Hst as [[_ []]|].
  - intros j rid t t' [Ht Hct] Hr Hv. destruct (result_at _ _ _ _ M rid Hr) as (i & x & _ & Hx & Hid).
    destruct (wf_results _ Wf _ _ rid (wf_header _ Wf) Hr) as [e He]. rewrite He in Hv.
    destruct (mp_lookup _ _ _ _ _ M _ _ He) as [Hbe Hide].
    destruct (checkValid_sound _ _ _ _ _ _ fuel Wf (mkPos rid (sourcePos vs) (destPos vs)) _ _ _ He Hct Hv) as (Hc' & Hsub & _).
    assert (done_mux t') as Hd by (eapply check_result_stage; [exact Hide|by eapply (N e)|done..|]; intros; by eapply closed_result).
    split_and!; [by right|done..|apply Hd].
  - intros j x C C' HC. apply HC.
Qed.
End Walk.

(** ** The walk returns *)

Section Returns.
Context {R : MapRange} {RL : MapRangeLaws R} {U : Uint256} {Cr : Crypto}.
Variable converter : bytes -> option bytes.
Variable checkOutput : Entry -> gmap Hash Entry -> Z -> Z -> bytes -> Z -> bytes -> list bytes -> bool -> bool + error.
Variables (tx : Tx) (tx_ptr : nat) (block : Block) (vmfuel : nat).
#[local] Abbreviation checkValid := (checkValid converter checkOutput tx tx_ptr block vmfuel).

(** Some program of the transaction needs more iterations than [vmfuel]. *)
Definition vm_out_of_fuel : Prop := exists e prog st args s ctx,
  (NewTxVMContext converter checkOutput tx block e prog st args s).1 = VOk ctx
  /\ (Verify (S := ValueStore) vmfuel ctx (GasLeft (gasStatus s)) tt).1 = None.

(** [m] lacks fuel only if the virtual machine does. *)
Definition returns {A} (m : V A) : Prop := forall s s', m s = (VFuel, s') -> vm_out_of_fuel.

Lemma returns_bind {A B} (m : V A) (f : A -> V B) : returns m -> (forall a, returns (f a)) -> returns (m ≫= f).
Proof.
  intros Hm Hf s s'. unfold mbind, V_bind. destruct (m s) as [[a|e| |] s1] eqn:E; try done; [apply Hf|]. intros _. by eapply Hm.
Qed.
Lemma returns_ret {A} (a : A) : returns (mret a). Proof. by intros s s'. Qed.
Lemma returns_deref {A} (x : option A) : returns (deref x). Proof. intros s s'. by destruct x. Qed.
Lemma returns_orr {A} e (x : option A) : returns (orr e x). Proof. intros s s'. by destruct x. Qed.
Lemma returns_require b e : returns (require b e). Proof. intros s s'. by destruct b. Qed.
Lemma returns_verr {A} e : returns (verr (A := A) e). Proof. by intros s s'. Qed.
Lemma returns_get : returns get_gas. Proof. by intros s s'. Qed.
Lemma returns_put g : returns (put_gas g). Proof. by intros s s'. Qed.
#[local] Hint Resolve returns_ret returns_deref returns_orr returns_require returns_verr returns_get returns_put : core.

Ltac returns := repeat (first [apply returns_bind; [|intros ?]|progress cbn beta iota zeta|case_match]; eauto).

Lemma returns_orr_bind {A B} e (x : option A) (f : A -> V B) : (forall a, x = Some a -> returns (f a)) -> returns (orr e x ≫= f).
Proof. intros Hf. destruct x as [a|]; [|by intros s s']. intros s s'. by apply Hf. Qed.
Lemma returns_vfor {A} (f : nat -> A -> V unit) i l : (forall j x, x ∈ l -> returns (f j x)) -> returns (vfor f i l).
Proof.
  revert i. induction l as [|x l IH]; intros i Hf; cbn; [done|]. apply returns_bind; [apply Hf; left|].
  intros _. apply IH. intros j y Hy. apply Hf. by right.
Qed.
Lemma returns_vfold {A B} (f : B -> A -> V B) b l : (forall b x, returns (f b x)) -> returns (vfold f b l).
Proof. intros Hf. revert b. induction l as [|x l IH]; intros b; cbn; [done|]. by apply returns_bind. Qed.

Lemma returns_run_program e prog st args : returns (run_program converter checkOutput tx block vmfuel e prog st args).
Proof.
  intros s s' H. unfold run_program in H. unfold mbind at 1, V_bind at 1 in H.
  destruct (NewTxVMContext converter checkOutput tx block e prog st args s) as [[ctx|er| |] s1] eqn:Hc; try done.
  - pose proof (NewTxVMContext_pure _ _ _ _ _ _ _ _ _ _ _ Hc) as ->. apply (f_equal fst) in Hc.
    cbv beta iota delta [mbind V_bind get_gas] in H. destruct (Verify vmfuel ctx (GasLeft (gasStatus s)) tt).1 as [v|] eqn:Hv; [|by exists e, prog, st, args, s, ctx].
    destruct (verify_err v); [by unfold verr in H|]. revert H. assert (Hu : returns (updateUsage (gasLeft v))) by (unfold updateUsage; returns). apply Hu.
  - exfalso. assert (Hn : forall s s', NewTxVMContext converter checkOutput tx block e prog st args s <> (VFuel, s')); [|by eapply Hn].
    clear. intros s s'. unfold NewTxVMContext. unfold mbind, V_bind, deref, mret, V_ret.
    repeat (case_match; try done).
Qed.
#[local] Hint Resolve returns_run_program : core.

Lemma returns_link ref pos v id i w : returns (check_link ref pos v id i w).
Proof. unfold check_link. returns. Qed.
#[local] Hint Resolve returns_link : core.
Lemma returns_dest vs d : returns (checkValidDest tx vs d).
Proof. unfold checkValidDest. returns. Qed.
#[local] Hint Resolve returns_dest : core.

Lemma returns_src check vs x :
  (forall ref v p e vs, x = Some (mkValueSource (Some ref) v p) -> tx_Entries tx !! ref = Some e -> returns (check vs (Some e))) ->
  returns (checkValidSrc tx check vs x).
Proof.
  intros Hc. unfold checkValidSrc. apply returns_orr_bind. intros [ref v p] ->. apply returns_orr_bind. cbn. intros ref' ->.
  do 2 (apply returns_orr_bind; intros ? _). apply returns_orr_bind. intros e He.
  apply returns_bind; [by eapply Hc|]. intros _. returns.
Qed.

Lemma returns_check_spend vs e x prev : returns (check_spend converter checkOutput tx block vmfuel vs e x prev).
Proof. unfold check_spend. returns. Qed.
#[local] Hint Resolve returns_check_spend : core.

(** An entry returns if [check_entry] does, for an identifier that can be computed. *)
Lemma returns_checkValid fuel vs e :
  returns (check_entry converter checkOutput tx tx_ptr block vmfuel (checkValid fuel) vs e) -> returns (checkValid (S fuel) vs (Some e)).
Proof.
  intros He. cbn [Validate.checkValid]. apply returns_bind; [done|]. intros id. apply returns_bind; [by intros s s'|].
  intros [|]; [done|]. apply returns_bind; [done|]. intros _. by intros s s'.
Qed.

Lemma returns_input fuel vs e : is_input e = true -> returns (checkValid (S fuel) vs (Some e)).
Proof.
  intros Hin. apply returns_checkValid. destruct e; try done; cbn [Validate.check_entry]; unfold getOriginalOutput, getVoteOutput; returns.
Qed.

Lemma returns_mux fuel vs m :
  (forall ref v p e, mkValueSource (Some ref) v p ∈ mux_Sources m -> tx_Entries tx !! ref = Some e -> is_input e = true) ->
  returns (checkValid (S (S fuel)) vs (Some (Mux m))).
Proof.
  intros Hs. apply returns_checkValid. cbn [Validate.check_entry]. unfold check_mux.
  apply returns_bind; [apply returns_vfold; intros ? ?; unfold parity_source; returns|]. intros p1.
  apply returns_bind; [apply returns_vfold; intros ? ?; unfold parity_dest; returns|]. intros p2.
  apply returns_bind; [apply returns_vfor; intros j [a n] _; cbn; unfold setGas; returns|]. intros _.
  apply returns_bind; [by apply returns_vfor; auto|]. intros _.
  apply returns_bind; [|intros _; unfold chargeStorageGas; returns].
  apply returns_vfor. intros j x Hx. apply returns_src. intros ref v p e vs' Hxe He. injection Hxe as ->. by eapply returns_input, Hs.
Qed.

Context (txData : TxData) (muxID : Hash) (m : mux) (M : mapped txData tx (built txData) muxID m).
Context (N : forall e1 e2 id, e1 ∈ built txData -> e2 ∈ built txData -> EntryID e1 = Some id -> EntryID e2 = Some id ->
  hashed e1 = hashed e2).

Lemma returns_mux_entry fuel vs e : tx_Entries tx !! muxID = Some e -> returns (checkValid (S (S fuel)) vs (Some e)).
Proof.
  intros He. rewrite (mux_entry _ _ _ _ M N _ He). apply returns_mux. intros ref v p e' Hs He'. by eapply source_input.
Qed.

Lemma returns_result fuel vs rid :
  rid ∈ hd_ResultIds (tx_Header tx) -> returns (checkValid (S (S (S fuel))) vs (tx_Entries tx !! rid)).
Proof.
  intros Hr. destruct (tx_Entries tx !! rid) as [e|] eqn:He; [|cbn [Validate.checkValid]; returns; by intros s s'].
  destruct (mp_lookup _ _ _ _ _ M _ _ He) as [Hbe Hide]. destruct (result_at _ _ _ _ M rid Hr) as (i & x & _ & Hx & Hid).
  pose proof (N e _ rid Hbe Hx Hide Hid) as Hh. apply returns_checkValid.
  assert (Hsrc : forall vs v p, returns (checkValidSrc tx (checkValid (S (S fuel))) vs (Some (mkValueSource (Some muxID) v p)))).
  { intros vs' v p. apply returns_src. intros ref v' p' e' vs'' [= <- _ _]. apply returns_mux_entry. }
  unfold result_entry in Hh. destruct (IsUnspendable _); [|destruct (to_TypedOutput x)]; destruct e; try done;
    injection Hh; intros; simplify_eq; cbn [Validate.check_entry].
  - apply Hsrc.
  - destruct o as [src ? ? ?]. cbn in *. subst. apply Hsrc.
  - destruct o as [src ? ? ?]. cbn in *. subst. apply returns_bind; [done|]. intros _. apply returns_bind; [apply Hsrc|]. intros _. returns.
Qed.
End Returns.

Section Fees.
Context {R : MapRange} {RL : MapRangeLaws R} {U : Uint256} {Cr : Crypto}.
Variable converter : bytes -> option bytes.
Variable checkOutput : Entry -> gmap Hash Entry -> Z -> Z -> bytes -> Z -> bytes -> list bytes -> bool -> bool + error.

Lemma accepted_gas (Q : Prop) txData tx tx_ptr block vmfuel fuel g :
  MapTx txData = Some tx -> typed txData -> Version txData = 1 ->
  (Q -> Forall (fun x => exists a, ti_TypedInput x = Some (TCoinbase a)) (Inputs txData) /\ 0 <= SerializedSize txData <= MaxInt64) ->
  ValidateTx converter checkOutput tx tx_ptr block vmfuel fuel = VOk g ->
  clash (built txData) \/ gas_inv Q (input_total txData BTMAssetID - output_total txData BTMAssetID) g.
Proof.
  intros Hm Ht Hv HQ HV. apply MapTx_mapped in Hm as (muxID & m & M). pose proof (mapped_wf _ _ _ _ M Ht) as Wf.
  destruct (clash_or_not (built txData)) as [|N]; [by left|right]. pose proof (ValidateTx_accepted _ _ _ _ _ _ _ _ Wf HV) as At.
  unfold ValidateTx in HV.
  destruct (ValidateTx_body converter checkOutput tx tx_ptr block vmfuel fuel (mkV (mkGas 0 0 0 0) ∅)) as [[[]| | |] s] eqn:Hb; try done.
  injection HV as <-. unfold ValidateTx_body in Hb. do 2 apply b_require in Hb as [_ Hb].
  apply V_bind_ok in Hb as ([] & s1 & Htime & Hb). apply V_bind_ok in Hb as ([] & s2 & Hd & Hb). apply require_ok in Hd as [_ ->].
  assert (s1 = mkV (mkGas 0 0 0 0) ∅) as ->.
  { unfold checkTimeRange in Htime. destruct (_ =? 0); [by apply mret_ok in Htime as [_ ->]|by apply require_ok in Htime as [_ ->]]. }
  pose proof (wf_id _ Wf _ _ (wf_header _ Wf)) as Hid.
  eapply checkValid_step in Hb as [[Hin _]|(f & s1 & -> & _ & H & ->)]; [by apply elem_of_empty in Hin| |exact Hid].
  cbn [check_entry] in H. apply V_bind_ok in H as ([] & s2 & H1 & H). apply require_ok in H as [_ ->].
  eapply results_stage in H1 as [Hg _]; [| |exact M|exact Wf|exact N|..].
  - cbn [gasStatus]. unfold input_total, output_total. by rewrite <- (mux_sources _ _ _ _ M), <- (mux_destinations _ _ _ _ M).
  - intros H. rewrite (mp_size _ _ _ _ _ M). destruct (HQ H) as [_ ?]. rewrite i64_id; unfold int64; words; lia.
  - apply HQ.
  - by intros ? ?%elem_of_empty.
  - left. split; [done|]. apply not_elem_of_empty.
  - apply (at_results _ _ _ _ _ _ At). by rewrite (mp_version _ _ _ _ _ M).
Qed.



End Fees.

(** ** A transaction that is accepted *)

(** Spends 1000000 of BTM behind OP_TRUE, pays 900000 on. *)
Definition ex_spent : SpendCommitment :=
  mkSpendCommitment (mkAssetAmount (Some BTMAssetID) 1000000) (replicate 32 x01) 0 1 [z2b OP_TRUE] [].
Definition ex_output : TxOutput :=
  mkTxOutput 1 (mkOutputCommitment (mkAssetAmount (Some BTMAssetID) 900000) 1 [z2b OP_TRUE] []) [] originalTxOutput.
Definition ex_txdata : TxData :=
  mkTxData 1 200 0 [mkTxInput 1 (Some (TSpend [] [] ex_spent)) [] []] [ex_output].
Definition ex_converter : bytes -> option bytes := fun _ => None.
Definition ex_checkOutput : Entry -> gmap Hash Entry -> Z -> Z -> bytes -> Z -> bytes -> list bytes -> bool -> bool + error :=
  fun _ _ _ _ _ _ _ _ _ => inl false.
Definition ex_block : Block := mkBcBlock 1 100 [0%nat].
Definition ex_tx : Tx := default (mkTx (mkTxHeader 0 0 0 []) [] ∅ [] []) (MapTx (Cr := StubCrypto) ex_txdata).

#[local] Existing Instance ZUint256.
#[local] Existing Instance StubCrypto.

Lemma ex_typed : typed ex_txdata.
Proof. split; constructor; cbn; unfold u64_ok, MaxUint64; try lia; constructor. Qed.
Lemma ex_mapped : MapTx ex_txdata = Some ex_tx.
Proof. vm_compute. reflexivity. Qed.
Lemma ex_wf : tx_wf ex_tx.
Proof. destruct (MapTx_mapped ex_txdata ex_tx ex_mapped) as (muxID & m & M). exact (mapped_wf _ _ _ _ M ex_typed). Qed.

Lemma ValidateTx_sound_witness : accepted_tx ex_converter ex_checkOutput ex_tx 1 ex_block 10.
Proof.
  apply (ValidateTx_sound ex_converter ex_checkOutput ex_tx 1 ex_block 10 10 (mkGas 100000 290 210 200)).
  - exact ex_wf.
  - vm_compute. reflexivity.
Defined.




(** No two entries of the example share an identifier. *)
Lemma ex_no_clash : ~ clash (built ex_txdata).
Proof.
  intros (e1 & e2 & id & H1 & H2 & E1 & E2 & Hne). vm_compute in H1, H2.
  repeat (apply elem_of_cons in H1 as [->|H1]); try by apply elem_of_nil in H1.
  all: repeat (apply elem_of_cons in H2 as [->|H2]); try by apply elem_of_nil in H2.
  all: try by destruct Hne.
  all: vm_compute in E1, E2; rewrite <- E1 in E2; discriminate E2.
Qed.

