(* ===== verification/MapTxTyped.v ===== *)
(** * The entries of a mapped transaction are well typed

    Where the code looks up an entry by an identifier of the transaction, it
    asserts its type: inputs, results, and the outputs an input spends.  The
    theorem says that in the map [MapTx] builds these entries are there with a
    type the code expects, and that every output has a source with a value. *)

From S2P Require Import Prelude Encoding GoSlice VMTypes Opcode Script Entries TxData MapTx ValidateSpec Ledger Fees.
From Stdlib Require Import Strings.Byte.
#[local] Open Scope Z_scope.

Definition is_output (e : Entry) : bool := match e with OriginalOutput _ | VoteOutput _ _ => true | _ => false end.
(** An output has a source, and the source a value. *)
Definition sourced (e : Entry) : Prop :=
  match e with
  | OriginalOutput o | VoteOutput o _ => exists s v, o_Source o = Some s /\ src_Value s = Some v
  | _ => True
  end.

Section Typed.
Context {Cr : Crypto}.
Implicit Types (h : mapHelper).

Lemma hashed_kind e e' : hashed e = hashed e' -> is_output e = is_output e' /\ is_input e = is_input e' /\ is_result e = is_result e'.
Proof. by destruct e, e'. Qed.

Record good h : Prop := {
  gd_sourced e : e ∈ objs h -> sourced e;
  gd_spent id : id ∈ spentOutputIDs h -> exists e, e ∈ objs h /\ EntryID e = Some id /\ is_output e = true;
}.

(** Computations of the builder that keep it good. *)
Definition keeps {A} (m : H A) : Prop := forall h a h', m h = Some (a, h') -> good h -> good h'.

Lemma keeps_bind {A B} (m : H A) (f : A -> H B) : keeps m -> (forall a, keeps (f a)) -> keeps (m ≫= f).
Proof. intros Hm Hf h b h' (a & h1 & H1 & H2)%H_bind_ok Hg. eapply Hf; [done|]. by eapply Hm. Qed.
Lemma keeps_ret {A} (a : A) : keeps (mret a).
Proof. by intros h b h' [= _ <-]. Qed.
Lemma keeps_gets {A} (f : mapHelper -> A) : keeps (hgets f).
Proof. by intros h b h' [= _ <-]. Qed.
Lemma keeps_panics {A} (x : option A) : keeps (or_panics x).
Proof. intros h b h'. unfold or_panics. destruct x; [by intros [= _ <-]|done]. Qed.
(** A change elsewhere. *)
Lemma keeps_modify f :
  (forall h, objs (f h) = objs h /\ spentOutputIDs (f h) = spentOutputIDs h) -> keeps (hmodify f).
Proof. intros Hf h b h' [= _ <-] [Hs Hp]. destruct (Hf h) as [E1 E2]. split; [rewrite E1|rewrite E1, E2]; done. Qed.
Lemma keeps_for_each {A} (f : nat -> A -> H unit) i l : (forall i x, keeps (f i x)) -> keeps (for_each f i l).
Proof. intros Hf. revert i. induction l as [|x l IH]; intros i; [apply keeps_ret|]. by apply keeps_bind. Qed.

Lemma good_push e em h : sourced e -> good h -> good (set_entryMap em (set_objs (objs h ++ [e]) h)).
Proof.
  intros He [Hs Hp]. destruct h; cbn in *. split; cbn.
  - intros x [Hx| ->%list_elem_of_singleton]%elem_of_app; auto.
  - intros id Hid. destruct (Hp id Hid) as (x & ? & ?). exists x. split; [set_solver|done].
Qed.
Lemma keeps_addEntry e : sourced e -> keeps (addEntry e).
Proof. intros He h [p id] h' (id' & _ & _ & ->)%addEntry_ok. by apply good_push. Qed.
Lemma keeps_update p f : redirects f -> (forall e, is_output (f e) = is_output e) -> keeps (update p f).
Proof.
  intros Hf Ho h b h' [= _ <-] [Hs Hp]. destruct h; cbn in *.
  assert (Hout : forall e, is_output e = true -> f e = e) by (intros e He; apply Hf; by destruct e).
  split; cbn.
  - intros e' [He|(e & He & ->)]%elem_of_alter_inv; [by apply Hs|]. destruct (is_output e) eqn:E; [rewrite Hout by done; by apply Hs|].
    rewrite <- Ho in E. by destruct (f e).
  - intros id Hid. destruct (Hp id Hid) as (e & He & Hid' & Hk). exists e.
    destruct (elem_of_alter f p _ _ He) as [|Hi]; [done|]. by rewrite Hout in Hi.
Qed.

Create HintDb keeps.
#[local] Hint Resolve keeps_bind keeps_ret keeps_gets keeps_panics keeps_for_each keeps_addEntry keeps_update
  redirects_SetDestination redirects_add_destination : keeps.
#[local] Hint Extern 5 (keeps (hmodify _)) => apply keeps_modify; intros []; split; reflexivity : keeps.

Variable txData : TxData.

Lemma keeps_mapInput i x : keeps (mapInput txData i x).
Proof.
  unfold mapInput. destruct (ti_TypedInput x) as [[ii|suf args sc|arb|suf args vote sc]|]; [..|by intros].
  1,3: apply keeps_bind; [by apply keeps_addEntry|intros [p id]]; apply keeps_bind; [|intros _]; auto with keeps.
  all: intros h a h' H Hg; apply H_bind_ok in H as ((p & pid) & h1 & H1 & H); pose proof H1 as H0;
    apply keeps_addEntry in H1; [|by eexists _, _]; specialize (H1 Hg); apply addEntry_ok in H0 as (id' & Hid & [= -> ->] & ->);
    apply H_bind_ok in H as ((q & id) & h2 & H2 & H); pose proof H2 as H0; apply keeps_addEntry in H2; [|done]; specialize (H2 H1);
    apply addEntry_ok in H0 as (id'' & _ & [= -> ->] & ->); injection H as _ <-; destruct h, H2 as [Hs Hp]; cbn in *;
    split; cbn; [done|]; intros j [Hj| ->%list_elem_of_singleton]%elem_of_app; [by apply Hp|]; eexists; split_and!; [|exact Hid|done]; set_solver.
Qed.

Lemma keeps_connect vote muxID p : keeps (connect vote muxID p).
Proof.
  apply keeps_bind; [apply keeps_gets|intros e]. destruct e as [[]|]; try apply keeps_panics.
  1: apply keeps_update; [apply redirects_SetDestination|by intros []].
  all: apply keeps_bind; [apply keeps_gets|intros v]; apply keeps_bind; [apply keeps_panics|intros w];
    apply keeps_update; [apply redirects_SetDestination|by intros []].
Qed.

Lemma keeps_initMux : keeps initMux.
Proof.
  unfold initMux. apply keeps_bind; [apply keeps_gets|intros src]. apply keeps_bind; [by apply keeps_addEntry|intros [p id]].
  apply keeps_bind; [auto with keeps|intros _].
  do 3 (apply keeps_bind; [apply keeps_gets|intros ?]; apply keeps_bind; [apply keeps_for_each; intros; apply keeps_connect|intros _]).
  apply keeps_bind; [apply keeps_gets|intros [c|]]; [|apply keeps_ret]. apply keeps_bind; [apply keeps_panics|intros s].
  apply keeps_update; [apply redirects_SetDestination|by intros []].
Qed.

Lemma sourced_result muxID i x : sourced (result_entry muxID i x).
Proof. unfold result_entry. destruct (IsUnspendable _); [done|]. by destruct (to_TypedOutput x); eexists _, _. Qed.
Lemma keeps_mapOutputs : keeps (mapOutputs txData).
Proof.
  unfold mapOutputs. do 5 (apply keeps_bind; [first [apply keeps_gets|apply keeps_panics]|intros ?]).
  apply keeps_for_each. intros i x. apply keeps_bind; [apply keeps_addEntry, sourced_result|intros [p id]].
  apply keeps_bind; [auto with keeps|intros _]. apply keeps_update; [apply redirects_add_destination|by intros []].
Qed.

Lemma MapTx_good tx :
  MapTx txData = Some tx ->
  (forall e, e ∈ built txData -> sourced e)
  /\ forall id, id ∈ tx_SpentOutputIDs tx -> exists e, e ∈ built txData /\ EntryID e = Some id /\ is_output e = true.
Proof.
  unfold MapTx, built. intros ([tx' h'] & H & ->)%fmap_Some. rewrite H. cbn [fst].
  apply H_bind_ok in H as ([] & h1 & H1 & H). apply (keeps_for_each _ _ _ keeps_mapInput) in H1.
  apply H_bind_ok in H as ([] & h2 & H2 & H). apply keeps_initMux in H2.
  apply H_bind_ok in H as ([] & h3 & H3 & H). apply keeps_mapOutputs in H3.
  assert (Hg : good h3) by (apply H3, H2, H1; split; intros ? []%elem_of_nil). clear H1 H2 H3.
  unfold generateTx in H. apply H_bind_ok in H as (ids & h4 & H4 & H). injection H4 as <- <-.
  apply H_bind_ok in H as ((p & id) & h4 & H4 & H). apply keeps_addEntry in H4; [|done]. specialize (H4 Hg).
  apply H_bind_ok in H as (h5 & h6 & H5 & H). injection H5 as <- <-. injection H as <- <-. destruct H4 as [Hs Hp]. done.
Qed.

Lemma MapTx_types tx :
  MapTx txData = Some tx ->
  clash (built txData)
  \/ (forall id, id ∈ tx_InputIDs tx -> exists e, tx_Entries tx !! id = Some e /\ is_input e = true)
     /\ (forall id, id ∈ hd_ResultIds (tx_Header tx) -> exists e, tx_Entries tx !! id = Some e /\ is_result e = true)
     /\ (forall id, id ∈ tx_SpentOutputIDs tx -> exists e, tx_Entries tx !! id = Some e /\ is_output e = true)
     /\ (forall id e, tx_Entries tx !! id = Some e -> sourced e).
Proof.
  intros Hm. pose proof (MapTx_good tx Hm) as [Hs Hp]. apply MapTx_mapped in Hm as (muxID & m & [Hl Hd Hin Hout _ _ _ _ _]).
  destruct (clash_or_not (built txData)) as [|Hn]; [by left|right].
  assert (Hlook : forall e id, e ∈ built txData -> EntryID e = Some id -> exists e', tx_Entries tx !! id = Some e' /\ hashed e = hashed e').
  { intros e id He Hid. destruct (Hd e He) as (j & e' & Hj & He'). assert (j = id) as -> by congruence. exists e'. split; [done|].
    destruct (Hl _ _ He') as [Hb Hid']. by apply (Hn e e' id). }
  split_and!.
  - intros id (i & Hi)%list_elem_of_lookup. destruct Hin as [Li _ At _].
    destruct (lookup_lt_is_Some_2 (Inputs txData) i) as [x Hx]; [apply lookup_lt_Some in Hi; lia|].
    destruct (At i x) as (id' & v & e & H1 & _ & _ & He & Hid & Hk); [by eapply lookup_lt_Some|done|]. assert (id' = id) as -> by congruence.
    destruct (Hlook e id He Hid) as (e' & He' & Hh). exists e'. split; [done|]. apply hashed_kind in Hh. naive_solver congruence.
  - intros id (i & Hi)%list_elem_of_lookup. destruct Hout as [Lr _ At].
    destruct (lookup_lt_is_Some_2 (Outputs txData) i) as [x Hx]; [apply lookup_lt_Some in Hi; lia|].
    destruct (At i x) as (r & H1 & He & Hid & _); [by eapply lookup_lt_Some|done|]. assert (r = id) as -> by congruence.
    destruct (Hlook _ id He Hid) as (e' & He' & Hh). exists e'. split; [done|]. apply hashed_kind in Hh as (_ & _ & <-). apply result_kind.
  - intros id Hid. destruct (Hp id Hid) as (e & He & Hid' & Hk). destruct (Hlook e id He Hid') as (e' & He' & Hh).
    exists e'. split; [done|]. apply hashed_kind in Hh as [<- _]. done.
  - intros id e He. apply Hs. by apply Hl in He as [? _].
Qed.

(** C13.  The entries of a mapped transaction are well typed: under every input
    identifier the map of entries holds an input, under every result identifier an
    output or a retirement, under every identifier of a spent output an output,
    and every output has a source with a value; unless two of the entries clash.
    *)
Theorem MapTx_typed tx :
  MapTx txData = Some tx ->
  clash (built txData)
  \/ (forall id, id ∈ tx_InputIDs tx -> exists e, tx_Entries tx !! id = Some e /\ is_input e = true)
     /\ (forall id, id ∈ hd_ResultIds (tx_Header tx) -> exists e, tx_Entries tx !! id = Some e /\ is_result e = true)
     /\ (forall id, id ∈ tx_SpentOutputIDs tx -> exists e, tx_Entries tx !! id = Some e /\ is_output e = true)
     /\ (forall id e, tx_Entries tx !! id = Some e -> sourced e).
Proof. exact (MapTx_types tx). Qed.

End Typed.

(** The transaction of [Fees.v]. *)
Lemma MapTx_typed_witness :
  clash (Cr := StubCrypto) (built (Cr := StubCrypto) ex_txdata)
  \/ (forall id, id ∈ tx_InputIDs ex_tx -> exists e, tx_Entries ex_tx !! id = Some e /\ is_input e = true)
     /\ (forall id, id ∈ hd_ResultIds (tx_Header ex_tx) -> exists e, tx_Entries ex_tx !! id = Some e /\ is_result e = true)
     /\ (forall id, id ∈ tx_SpentOutputIDs ex_tx -> exists e, tx_Entries ex_tx !! id = Some e /\ is_output e = true)
     /\ (forall id e, tx_Entries ex_tx !! id = Some e -> sourced e).
Proof. apply (MapTx_typed (Cr := StubCrypto) ex_txdata ex_tx). exact ex_mapped. Defined.
