(* ===== verification/BlockData.v ===== *)
(** * Blocks, headers and their wire format: protocol/bc/types

    block.go, block_header.go, block_commitment.go, block_witness.go, the
    serialization of sup_link.go, and the block part of map.go.  A flag byte in
    front of the header tells whether the header, the transactions or both
    follow.  The commitment, the witness and the links are extensible strings
    whose unread suffixes are dropped.  A reader that fills its receiver is
    modelled on a fresh receiver, whose fields are zero.

    Theorems: what each of the three serializations of a block restores; a
    header reads back whatever follows it; the hash of a header binds the fields
    it covers, and with the Merkle root the transactions of the block. *)

From S2P Require Import Prelude Encoding VMTypes Orphans Checkpoint Entries TxData Merkle MapTx.
From Stdlib Require Import Strings.Byte.
From Stdlib Require Strings.String.
Import String.StringSyntax.
#[local] Open Scope string_scope.
#[local] Open Scope list_scope.
#[local] Open Scope Z_scope.

(** ** Data *)

(** [types.Tx]: the data, and its entries. *)
Record TypesTx := mkTypesTx { t_TxData : TxData; t_Tx : Tx }.

Record BlockHeader := mkBlockHeader {
  bh_Version : Z;
  bh_Height : Z;
  PreviousBlockHash : Hash;
  bh_Timestamp : Z;
  BlockWitness : bytes;
  bh_SupLinks : list SupLink;
  TransactionsMerkleRoot : Hash;
}.

Record Block := mkTypesBlock { bHeader : BlockHeader; Transactions : list TypesTx }.

#[export] Instance TypesTx_eq_dec : EqDecision TypesTx.
Proof. solve_decision. Defined.
#[export] Instance BlockHeader_eq_dec : EqDecision BlockHeader.
Proof. solve_decision. Defined.
#[export] Instance Block_eq_dec : EqDecision Block.
Proof. solve_decision. Defined.

Definition zeroHash : Hash := replicate 32 x00.
Definition zeroBlockHeader : BlockHeader := mkBlockHeader 0 0 zeroHash 0 [] [] zeroHash.

Definition SerBlockHeader : Z := 1.
Definition SerBlockTransactions : Z := 2.
Definition SerBlockFull : Z := 3.

Section Wire.
Context {Cr : Crypto}.

(** [None]: [MapTx] panics. *)
Definition NewTx (data : TxData) : option TypesTx := mkTypesTx data <$> MapTx data.

(** ** Writing *)

(** sup_link.go *)
Definition sl_writeTo (s : SupLink) : Wr :=
  WriteVarint63 (SourceHeight s) +++ Write (SourceHash s) +++ write_all WriteVarstr31 (Signatures s).
Definition sls_writeTo (s : list SupLink) : Wr := WriteVarint31 (zlen s) +++ write_all sl_writeTo s.

(** block_commitment.go and block_witness.go *)
Definition commitment_writeTo (root : Hash) : Wr := Write root.
Definition witness_writeTo (bw : bytes) : Wr := WriteVarstr31 bw.
(** [copy] into a fresh array of the size of a signature. *)
Definition SetWitness (data : bytes) : bytes := take 64 data ++ replicate (64 - length data) x00.

Definition bh_writeTo (serflags : Z) (bh : BlockHeader) : Wr :=
  Write [z2b serflags]
  +++ (if serflags =? SerBlockTransactions then wr_nil
       else WriteVarint63 (bh_Version bh) +++ WriteVarint63 (bh_Height bh) +++ Write (PreviousBlockHash bh)
            +++ WriteVarint63 (bh_Timestamp bh)
            +++ WriteExtensibleString [] (commitment_writeTo (TransactionsMerkleRoot bh))
            +++ WriteExtensibleString [] (witness_writeTo (BlockWitness bh))
            +++ WriteExtensibleString [] (sls_writeTo (bh_SupLinks bh))).

Definition b_writeTo (serflags : Z) (b : Block) : Wr :=
  bh_writeTo serflags (bHeader b)
  +++ (if serflags =? SerBlockHeader then wr_nil
       else WriteVarint31 (zlen (Transactions b)) +++ write_all (fun tx => tx_writeTo (t_TxData tx)) (Transactions b)).

Definition to_hex (w : Wr) : Wr := match w with inl e => inl e | inr b => inr (hex_encode b) end.
Definition bh_MarshalText (bh : BlockHeader) : Wr := to_hex (bh_writeTo SerBlockHeader bh).
Definition marshalText (serflags : Z) (b : Block) : Wr := to_hex (b_writeTo serflags b).
Definition b_MarshalText : Block -> Wr := marshalText SerBlockFull.
Definition MarshalTextForBlockHeader : Block -> Wr := marshalText SerBlockHeader.
Definition MarshalTextForTransactions : Block -> Wr := marshalText SerBlockTransactions.

(** ** Reading *)

Definition sl_readFrom : Rd SupLink :=
  height ← ReadVarint63;
  hash ← ReadFull 32;
  sigs ← read_n MaxNumOfValidators ReadVarstr31;
  mret (mkSup height hash sigs).
Definition sls_readFrom : Rd (list SupLink) := size ← ReadVarint31; read_n (Z.to_nat size) sl_readFrom.
Definition commitment_readFrom : Rd Hash := ReadFull 32.
Definition witness_readFrom : Rd bytes := ReadVarstr31.

Definition bh_readFrom : Rd (Z * BlockHeader) :=
  flags ← ReadFull 1;
  let serflag := b2z (default x00 (head flags)) in
  if serflag =? SerBlockTransactions then mret (serflag, zeroBlockHeader)
  else if (serflag =? SerBlockHeader) || (serflag =? SerBlockFull) then
    version ← ReadVarint63;
    height ← ReadVarint63;
    prev ← ReadFull 32;
    timestamp ← ReadVarint63;
    '(root, _) ← ReadExtensibleString commitment_readFrom;
    '(witness, _) ← ReadExtensibleString witness_readFrom;
    '(links, _) ← ReadExtensibleString sls_readFrom;
    mret (serflag, mkBlockHeader version height prev timestamp witness links root)
  else rd_fail ErrSerFlags.

(** A transaction with its entries. *)
Definition read_tx : Rd TypesTx :=
  data ← tx_readFrom;
  match NewTx data with None => rd_fail NilPointer | Some tx => mret tx end.

Definition b_readFrom : Rd Block :=
  '(serflag, bh) ← bh_readFrom;
  if serflag =? SerBlockHeader then mret (mkTypesBlock bh [])
  else
    n ← ReadVarint31;
    txs ← read_n (Z.to_nat n) read_tx;
    mret (mkTypesBlock bh txs).

(** What follows the header is not looked at. *)
Definition bh_UnmarshalText (text : bytes) : wire_error + BlockHeader :=
  match hex_decode text with
  | None => inl ErrHex
  | Some decoded =>
      match bh_readFrom decoded with
      | inl e => inl e
      | inr ((serflag, bh), _) => if serflag =? SerBlockTransactions then inl ErrSerFlags else inr bh
      end
  end.

Definition b_UnmarshalText (text : bytes) : wire_error + Block :=
  match hex_decode text with
  | None => inl ErrHex
  | Some decoded =>
      match b_readFrom decoded with
      | inl e => inl e
      | inr (b, r) => if zlen r >? 0 then inl ErrTrailing else inr b
      end
  end.

(** ** The hash of a header: bc/blockheader.go and map.go *)

Definition BlockHeader_writeForHash (bh : BlockHeader) : Wr :=
  write_uint64 (bh_Version bh) +++ write_uint64 (bh_Height bh) +++ write_hash (Some (PreviousBlockHash bh))
  +++ write_uint64 (bh_Timestamp bh) +++ write_hash (Some (TransactionsMerkleRoot bh)).
(** [mapBlockHeader], whose writer cannot fail. *)
Definition bh_Hash (bh : BlockHeader) : Hash := default [] (entry_id "blockheader" (BlockHeader_writeForHash bh)).

(** The ids of the transactions of a block. *)
Definition tx_ids (b : Block) : list Hash := (fun tx => tx_ID (t_Tx tx)) <$> Transactions b.
End Wire.

(** ** Round trips *)

Definition link_wf (s : SupLink) : Prop :=
  0 <= SourceHeight s /\ length (SourceHash s) = 32%nat /\ length (Signatures s) = MaxNumOfValidators.
Definition header_wf (bh : BlockHeader) : Prop :=
  0 <= bh_Version bh /\ 0 <= bh_Height bh /\ length (PreviousBlockHash bh) = 32%nat /\ 0 <= bh_Timestamp bh
  /\ Forall link_wf (bh_SupLinks bh) /\ length (TransactionsMerkleRoot bh) = 32%nat.

Section RoundTrip.
Context {Cr : Crypto}.

(** A transaction as it is read from its own bytes: without the suffixes that
    double, with its size and its entries. *)
Definition tx_canonical (tx : TypesTx) : Prop :=
  tx_wf (t_TxData tx) /\ NewTx (t_TxData tx) = Some tx
  /\ forall b, tx_writeTo (t_TxData tx) = inr b -> tx_back (zlen b) (t_TxData tx) = t_TxData tx.
Definition block_wf (b : Block) : Prop := header_wf (bHeader b) /\ Forall tx_canonical (Transactions b).

(** What the serialization with these flags shows of a block. *)
Definition shown_header (serflags : Z) (bh : BlockHeader) : BlockHeader :=
  if serflags =? SerBlockTransactions then zeroBlockHeader else bh.
Definition shown (serflags : Z) (b : Block) : Block :=
  mkTypesBlock (shown_header serflags (bHeader b)) (if serflags =? SerBlockHeader then [] else Transactions b).

Lemma rt_link s : link_wf s -> roundtrips (sl_writeTo s) sl_readFrom s.
Proof.
  destruct s as [h hash sigs]. intros (Hh & Hl & Hs). cbn in Hh, Hl, Hs. eapply rt_bind; [by apply rt_varint63|].
  eapply rt_bind; [by apply rt_full|]. cbn [Signatures]. rewrite <- Hs.
  by eapply (rt_last _ _ (mkSup h hash)); [apply rt_all, Forall_true; intros; apply rt_varstr|].
Qed.
Lemma rt_links l : Forall link_wf l -> roundtrips (sls_writeTo l) sls_readFrom l.
Proof. intros Hl. apply rt_list. eapply Forall_impl; [exact Hl|apply rt_link]. Qed.

Lemma rt_header serflags bh :
  serflags ∈ [SerBlockHeader; SerBlockTransactions; SerBlockFull] -> header_wf bh ->
  roundtrips (bh_writeTo serflags bh) bh_readFrom (serflags, shown_header serflags bh).
Proof.
  destruct bh as [v h prev t w ls root]. intros Hf (Hv & Hh & Hp & Ht & Hl & Hr). cbn in Hv, Hh, Hp, Ht, Hl, Hr.
  unfold bh_writeTo, bh_readFrom. eapply rt_bind; [by apply rt_full|].
  assert (Hs : b2z (default x00 (head [z2b serflags])) = serflags).
  { cbn. apply b2z_z2b_small. repeat (apply elem_of_cons in Hf as [->|Hf]; [done|]). by apply elem_of_nil in Hf. }
  cbn zeta. rewrite Hs. unfold shown_header. destruct (Z.eqb_spec serflags SerBlockTransactions) as [->|Hne]; [apply rt_ret|].
  replace ((serflags =? SerBlockHeader) || (serflags =? SerBlockFull)) with true.
  2:{ symmetry. apply orb_true_iff. rewrite !Z.eqb_eq. repeat (apply elem_of_cons in Hf as [->|Hf]; [tauto|]). by apply elem_of_nil in Hf. }
  do 2 (eapply rt_bind; [by apply rt_varint63|]). eapply rt_bind; [by apply rt_full|]. eapply rt_bind; [by apply rt_varint63|].
  eapply rt_bind; [by apply rt_ext, rt_full|]. eapply rt_bind; [by apply rt_ext, rt_varstr|].
  by eapply rt_end; [by apply rt_ext, rt_links|].
Qed.

Lemma rt_tx tx : tx_canonical tx -> roundtrips (tx_writeTo (t_TxData tx)) read_tx tx.
Proof.
  intros (Hw & Hn & Hb) b Hwr rest. unfold read_tx, mbind, Rd_bind.
  by rewrite (tx_readFrom_writeTo _ b rest Hw Hwr), (Hb b Hwr), Hn.
Qed.

Lemma rt_block serflags b :
  serflags ∈ [SerBlockHeader; SerBlockTransactions; SerBlockFull] -> block_wf b ->
  roundtrips (b_writeTo serflags b) b_readFrom (shown serflags b).
Proof.
  intros Hf [Hh Ht]. unfold b_writeTo, b_readFrom, shown. eapply rt_bind; [by apply rt_header|]. cbn beta iota.
  destruct (serflags =? SerBlockHeader); [apply rt_ret|].
  eapply rt_bind; [apply rt_varint31; auto with zlen|]. unfold zlen. rewrite Nat2Z.id.
  eapply (rt_last _ _ (mkTypesBlock _)); [|done]. clear Hh Hf.
  induction Ht as [|tx l Hx _ IH]; [apply rt_ret|]. cbn [write_all read_n length]. eapply rt_bind; [by apply rt_tx|].
  by apply (rt_last _ _ (fun l => tx :: l) l).
Qed.

Lemma marshal_rt serflags b p :
  serflags ∈ [SerBlockHeader; SerBlockTransactions; SerBlockFull] -> block_wf b ->
  marshalText serflags b = inr p -> b_UnmarshalText p = inr (shown serflags b).
Proof.
  intros Hf Hw. unfold marshalText, to_hex, b_UnmarshalText. destruct (b_writeTo serflags b) as [|d] eqn:Hb; [done|].
  intros Hp. assert (p = hex_encode d) as -> by congruence. rewrite hex_roundtrip. pose proof (rt_block serflags b Hf Hw d Hb []) as Hr.
  rewrite app_nil_r in Hr. by rewrite Hr.
Qed.
Lemma header_rt b p :
  header_wf (bHeader b) -> MarshalTextForBlockHeader b = inr p -> bh_UnmarshalText p = inr (bHeader b).
Proof.
  intros Hw. unfold MarshalTextForBlockHeader, marshalText, to_hex, b_writeTo, bh_UnmarshalText.
  change (SerBlockHeader =? SerBlockHeader) with true. cbn iota. destruct (bh_writeTo SerBlockHeader (bHeader b)) as [|d] eqn:Hb; [done|].
  cbn. rewrite app_nil_r. intros [= <-]. rewrite hex_roundtrip. pose proof (rt_header SerBlockHeader _ ltac:(left) Hw d Hb []) as Hr.
  rewrite app_nil_r in Hr. by rewrite Hr.
Qed.
(** C36.  Reading back a well-formed block from its text gives what the
    serialization shows of it: the block, its header alone, or its transactions
    behind a zero header, each transaction with its entries. *)
Theorem Block_roundtrip serflags b p :
  serflags ∈ [SerBlockHeader; SerBlockTransactions; SerBlockFull] -> block_wf b ->
  marshalText serflags b = inr p -> b_UnmarshalText p = inr (shown serflags b).
Proof. apply marshal_rt. Qed.

(** The text of a header reads back, whatever text follows it. *)
Theorem BlockHeader_trailing bh p junk :
  header_wf bh -> bh_MarshalText bh = inr p -> bh_UnmarshalText (p ++ hex_encode junk) = inr bh.
Proof.
  intros Hw. unfold bh_MarshalText, to_hex, bh_UnmarshalText. destruct (bh_writeTo SerBlockHeader bh) as [|d] eqn:Hb; [done|].
  intros Hp. assert (p = hex_encode d) as -> by congruence.
  assert (Happ : hex_encode d ++ hex_encode junk = hex_encode (d ++ junk)).
  { clear. induction d as [|x d IH]; [done|]. cbn [app]. change (hex_encode (x :: ?l)) with
      (hex_byte (b2z x / 16) :: hex_byte (b2z x mod 16) :: hex_encode l). cbn [app]. by rewrite <- IH. }
  rewrite Happ, hex_roundtrip. by rewrite (rt_header SerBlockHeader bh ltac:(left) Hw d Hb junk).
Qed.
End RoundTrip.

(** ** What the hash of a block fixes *)

Section Binding.
Context {Cr : Crypto} {CL : CryptoLaws Cr}.

(** The fields the hash covers: not the witness, not the links. *)
Definition covered (bh : BlockHeader) : Z * Z * Hash * Z * Hash :=
  (bh_Version bh, bh_Height bh, PreviousBlockHash bh, bh_Timestamp bh, TransactionsMerkleRoot bh).
Definition covered_ok (bh : BlockHeader) : Prop :=
  u64_ok (bh_Version bh) /\ u64_ok (bh_Height bh) /\ length (PreviousBlockHash bh) = 32%nat /\ u64_ok (bh_Timestamp bh)
  /\ length (TransactionsMerkleRoot bh) = 32%nat.

Definition header_inputs (bh : BlockHeader) : list bytes := hash_inputs "blockheader" (BlockHeader_writeForHash bh).
(** What is hashed for the header and the Merkle tree. *)
Definition block_inputs (b : Block) : list bytes := header_inputs (bHeader b) ++ tree_inputs (tx_ids b).

Lemma rt_covered bh :
  covered_ok bh ->
  roundtrips (BlockHeader_writeForHash bh)
    (v ← rd_uint64; h ← rd_uint64; p ← ReadFull 32; t ← rd_uint64; r ← ReadFull 32; mret (v, h, p, t, r)) (covered bh).
Proof.
  intros (Hv & Hh & Hp & Ht & Hr). do 2 (eapply rt_bind; [by apply rt_uint64|]). eapply rt_bind; [by apply rt_full|].
  eapply rt_bind; [by apply rt_uint64|]. by eapply (rt_last _ _ (fun r => (_, _, _, _, r))); [apply rt_full|].
Qed.

Lemma bh_Hash_binding bh1 bh2 :
  covered_ok bh1 -> covered_ok bh2 -> bh_Hash bh1 = bh_Hash bh2 ->
  covered bh1 = covered bh2 \/ collision (header_inputs bh1) (header_inputs bh2).
Proof.
  intros Ok1 Ok2 He. unfold bh_Hash, header_inputs in *.
  destruct (entry_id _ (BlockHeader_writeForHash bh1)) as [i1|] eqn:E1; [|done].
  destruct (entry_id _ (BlockHeader_writeForHash bh2)) as [i2|] eqn:E2; [|done]. cbn in He. subst i2.
  destruct (entry_id_binding _ _ _ _ E1 E2) as [Hw|]; [left|by right].
  destruct (BlockHeader_writeForHash bh1) as [|b] eqn:W; [done|].
  by destruct (roundtrips_inj _ _ _ _ _ _ _ [] [] (rt_covered _ Ok1) (rt_covered _ Ok2) W (eq_sym Hw) eq_refl).
Qed.

(** C15.  The hash of a block binds its header and its transactions: two blocks
    with the Merkle roots of their transactions and one hash have the same
    version, height, parent, time and transaction ids, or two different byte
    strings hashed for them collide. *)
Theorem block_hash_binding b1 b2 :
  covered_ok (bHeader b1) -> covered_ok (bHeader b2) ->
  TransactionsMerkleRoot (bHeader b1) = TxMerkleRoot (tx_ids b1) -> TransactionsMerkleRoot (bHeader b2) = TxMerkleRoot (tx_ids b2) ->
  bh_Hash (bHeader b1) = bh_Hash (bHeader b2) ->
  (covered (bHeader b1) = covered (bHeader b2) /\ tx_ids b1 = tx_ids b2) \/ collision (block_inputs b1) (block_inputs b2).
Proof.
  intros Ok1 Ok2 R1 R2 He. unfold block_inputs. destruct (bh_Hash_binding _ _ Ok1 Ok2 He) as [Hc|Hc].
  - assert (Hr : merkleRoot (tx_ids b1) = merkleRoot (tx_ids b2)).
    { unfold TxMerkleRoot in *. rewrite <- R1, <- R2. by injection Hc. }
    destruct (merkleRoot_binding _ _ Hr) as [|Ht]; [by left|right]. by apply collision_app_r.
  - right. by apply collision_app_l.
Qed.
End Binding.

(** ** Examples *)

(** A coinbase transaction, with its size. *)
Definition ex_coinbase (size : Z) : TxData :=
  mkTxData 1 size 0 [mkTxInput 1 (Some (TCoinbase [x00; x05])) [] [x0b]]
    [mkTxOutput 1 (mkOutputCommitment (mkAssetAmount (Some BTMAssetID) 0) 1 [x51] []) [] originalTxOutput].
Definition ex_coinbase_tx : TypesTx :=
  default (mkTypesTx (ex_coinbase 0) (mkTx (mkTxHeader 0 0 0 []) [] ∅ [] [])) (NewTx (Cr := StubCrypto) (ex_coinbase 54)).
Definition ex_link : SupLink := mkSup 100 (replicate 32 x01) ([[x01; x02]; []; [x03]] ++ replicate 7 []).
Definition ex_header : BlockHeader :=
  mkBlockHeader 1 101 (replicate 32 x01) 6000 (SetWitness [x09]) [ex_link]
    (TxMerkleRoot (Cr := StubCrypto) [tx_ID (t_Tx ex_coinbase_tx)]).
Definition ex_block : Block := mkTypesBlock ex_header [ex_coinbase_tx].

Lemma ex_coinbase_NewTx : NewTx (Cr := StubCrypto) (ex_coinbase 54) = Some ex_coinbase_tx.
Proof.
  unfold ex_coinbase_tx. assert (H : (if NewTx (Cr := StubCrypto) (ex_coinbase 54) is Some _ then true else false) = true) by (vm_compute; reflexivity).
  by destruct (NewTx (ex_coinbase 54)).
Qed.
Lemma NewTx_data {Cr : Crypto} d tx : NewTx d = Some tx -> t_TxData tx = d.
Proof. unfold NewTx. by intros (x & _ & ->)%fmap_Some. Qed.

Lemma ex_canonical : tx_canonical (Cr := StubCrypto) ex_coinbase_tx.
Proof.
  unfold tx_canonical. rewrite (NewTx_data _ _ ex_coinbase_NewTx). split; [|split; [apply ex_coinbase_NewTx|]].
  - split; [done|]. split; [done|].
    split; (apply Forall_cons; split; [|apply Forall_nil_2]); (split; [done|]); cbn; [done|].
    split; [split; [by exists BTMAssetID|done]|done].
  - intros b Hb. assert (Hz : zlen b = 54).
    { revert Hb. vm_compute. by intros [= <-]. }
    rewrite Hz. reflexivity.
Qed.
Lemma ex_header_wf : header_wf ex_header.
Proof.
  do 4 (split; [done|]). split; [|done]. apply Forall_cons. split; [|apply Forall_nil_2]. done.
Qed.

Lemma Block_roundtrip_witness :
  exists p, marshalText (Cr := StubCrypto) SerBlockFull ex_block = inr p /\ b_UnmarshalText (Cr := StubCrypto) p = inr ex_block.
Proof.
  set (p := match marshalText (Cr := StubCrypto) SerBlockFull ex_block with inr p => p | inl _ => [] end).
  assert (Hp : marshalText (Cr := StubCrypto) SerBlockFull ex_block = inr p) by (vm_compute; reflexivity).
  exists p. split; [exact Hp|]. apply (Block_roundtrip (Cr := StubCrypto) SerBlockFull ex_block p); [|split|exact Hp].
  - do 2 right. left.
  - exact ex_header_wf.
  - apply Forall_singleton, ex_canonical.
Defined.

Lemma block_hash_binding_witness :
  (covered ex_header = covered ex_header /\ tx_ids ex_block = tx_ids ex_block)
  \/ collision (Cr := StubCrypto) (block_inputs (Cr := StubCrypto) ex_block) (block_inputs (Cr := StubCrypto) ex_block).
Proof.
  assert (covered_ok ex_header) by (unfold covered_ok, u64_ok; done).
  by apply (block_hash_binding (Cr := StubCrypto) ex_block ex_block).
Defined.
