(* ===== verification/BlockValidation.v ===== *)
(** * Validation of blocks: protocol/validation/block.go

    A block is checked against the header of its parent and the checkpoint of
    its epoch.  [ValidateTxs] validates the transactions in worker goroutines,
    which share nothing that is written and whose results are put in order
    again: the model validates them one after the other.  A panic of a worker
    ends the process.  The clock, in milliseconds, is an argument. *)

From S2P Require Import Prelude Checked GoSlice VMTypes Opcode Machine Interp Orphans Checkpoint Encoding Entries TxData Merkle MapTx Validate ValidateSpec Ledger BlockData.
From Stdlib Require Import Strings.Byte.
#[local] Open Scope Z_scope.

Inductive block_error :=
  | errBadTimestamp
  | errMismatchedBlock
  | errMismatchedMerkleRoot
  | errMisorderedBlockHeight
  | errOverBlockLimit
  | errVersionRegression
  | ErrWrongCoinbase          (* ErrWrongCoinbaseTransaction *)
  | errHexKey                 (* of hex.DecodeString *)
  | errBlockSignature         (* fail to verify block header signature *)
  | errTx (i : nat) (e : tx_error).

(** The results, with panics and exhausted fuel. *)
Inductive bres (A : Type) := BOk (a : A) | BErr (e : block_error) | BPanic | BFuel.
Arguments BOk {A} a.
Arguments BErr {A} e.
Arguments BPanic {A}.
Arguments BFuel {A}.

#[export] Instance bres_ret : MRet bres := fun A a => BOk a.
#[export] Instance bres_bind : MBind bres := fun A B f m =>
  match m with BOk a => f a | BErr e => BErr e | BPanic => BPanic | BFuel => BFuel end.

Definition check (b : bool) (e : block_error) : bres unit := if b then BOk tt else BErr e.
(** A nil pointer, or an index out of range. *)
Definition bderef {A} (x : option A) : bres A := match x with Some a => BOk a | None => BPanic end.

Section Block.
Context {R : MapRange} {U : Uint256} {Cr : Crypto}.
Context (net : NetParams) (MaxTimeOffsetMs : Z).
Variable converter : bytes -> option bytes.
Variable checkOutput : Entry -> gmap Hash Entry -> Z -> Z -> bytes -> Z -> bytes -> list bytes -> bool -> bool + error.
(** Fuel of the interpreter and of the walk over the entries; the clock. *)
Variables (vmfuel fuel : nat) (now : Z).

(** ** The header *)

Definition checkBlockTime (b parent : BlockHeader) : bres unit :=
  check (negb (bh_Timestamp b <? u64 (bh_Timestamp parent + BlockTimeInterval net))) errBadTimestamp ;;
  check (negb (bh_Timestamp b >? u64 (now + MaxTimeOffsetMs))) errBadTimestamp.

Definition verifyBlockSignature (blockHeader : BlockHeader) (checkpoint : Checkpoint) : bres unit :=
  validator ← bderef (GetValidator net (bh_Timestamp blockHeader) checkpoint);
  validator ← bderef validator;
  match hex_decode (PubKey validator) with
  | None => BErr errHexKey
  | Some pubKey => check (xpub_verify pubKey (bh_Hash blockHeader) (BlockWitness blockHeader)) errBlockSignature
  end.

Definition ValidateBlockHeader (b parent : BlockHeader) (checkpoint : Checkpoint) : bres unit :=
  check (bh_Version b =? 1) errVersionRegression ;;
  check (bh_Height b =? u64 (bh_Height parent + 1)) errMisorderedBlockHeight ;;
  check (bool_decide (bh_Hash parent = PreviousBlockHash b)) errMismatchedBlock ;;
  checkBlockTime b parent ;;
  verifyBlockSignature b checkpoint.

(** ** The coinbase *)

(** The first output is skipped when it is empty. *)
Definition add_coinbase_output (outputMap : gmap bytes Z) (p : nat * TxOutput) : gmap bytes Z :=
  let '(i, output) := p in
  let amount := aa_Amount (output_value output) in
  if (i =? 0)%nat && (amount =? 0) then outputMap
  else
    let cp := hex_encode (oc_ControlProgram (to_Commitment output)) in
    <[cp := u64 (default 0 (outputMap !! cp) + amount)]> outputMap.
Definition coinbase_outputs (outputs : list TxOutput) : gmap bytes Z := foldl add_coinbase_output ∅ (imap pair outputs).

Definition checkoutRewardCoinbase (tx : TypesTx) (checkpoint : Checkpoint) : bres unit :=
  let outputMap := coinbase_outputs (TxData.Outputs (t_TxData tx)) in
  check (size outputMap =? size (Rewards checkpoint))%nat ErrWrongCoinbase ;;
  check (forallb (fun '(cp, amount) => default 0 (outputMap !! cp) =? amount) (map_range (Rewards checkpoint))) ErrWrongCoinbase.

(** An output of the coinbase transaction. *)
Definition check_coinbase_output (output : TxOutput) : bres unit :=
  check (OutputType (to_TypedOutput output) =? OutputType originalTxOutput) ErrWrongCoinbase ;;
  id ← bderef (aa_AssetId (output_value output));
  check (bool_decide (id = BTMAssetID)) ErrWrongCoinbase.

Fixpoint bfor {A} (f : A -> bres unit) (l : list A) : bres unit :=
  match l with [] => BOk tt | x :: l' => f x ;; bfor f l' end.

Definition checkCoinbaseAmount (b : Block) (checkpoint : Checkpoint) : bres unit :=
  match Transactions b with
  | [] => BErr ErrWrongCoinbase
  | tx :: _ =>
      bfor check_coinbase_output (TxData.Outputs (t_TxData tx)) ;;
      if negb (bh_Height (bHeader b) mod BlocksOfEpoch net =? 1) then
        match TxData.Outputs (t_TxData tx) with
        | [output] => check (aa_Amount (output_value output) =? 0) ErrWrongCoinbase
        | _ => BErr ErrWrongCoinbase
        end
      else checkoutRewardCoinbase tx checkpoint
  end.

(** ** The block *)

(** Pointers to transactions are their positions: a block that was read has a
    new object for each. *)
Definition MapBlock (b : Block) : Validate.Block :=
  mkBcBlock (bh_Version (bHeader b)) (bh_Height (bHeader b)) (seq 0 (length (Transactions b))).

(** tx.go: the results of [validateTxWorker], in order. *)
Definition validateTxWorker (block : Validate.Block) (i : nat) (tx : TypesTx) : vres GasState :=
  ValidateTx converter checkOutput (t_Tx tx) i block vmfuel fuel.
Definition collect_results (rs : list (vres GasState)) : bres (list (tx_error + GasState)) :=
  if existsb (fun r => if r is VPanic then true else false) rs then BPanic
  else if existsb (fun r => if r is VFuel then true else false) rs then BFuel
  else BOk (omap (fun r => match r with VOk g => Some (inr g) | VErr e => Some (inl e) | _ => None end) rs).
Definition ValidateTxs (txs : list TypesTx) (block : Validate.Block) : bres (list (tx_error + GasState)) :=
  collect_results (imap (validateTxWorker block) txs).

(** The loop over the results, with the gas so far. *)
Fixpoint sum_gas (i : nat) (blockGasSum : Z) (results : list (tx_error + GasState)) : bres unit :=
  match results with
  | [] => BOk tt
  | inl e :: _ => BErr (errTx i e)
  | inr g :: results =>
      let blockGasSum := u64 (blockGasSum + u64 (GasUsed g)) in
      if blockGasSum >? MaxBlockGas then BErr errOverBlockLimit else sum_gas (S i) blockGasSum results
  end.

Definition ValidateBlock (b : Block) (parent : BlockHeader) (checkpoint : Checkpoint) : bres unit :=
  ValidateBlockHeader (bHeader b) parent checkpoint ;;
  validateResults ← ValidateTxs (Transactions b) (MapBlock b);
  sum_gas 0 0 validateResults ;;
  checkCoinbaseAmount b checkpoint ;;
  check (bool_decide (TxMerkleRoot (tx_ids b) = TransactionsMerkleRoot (bHeader b))) errMismatchedMerkleRoot.
End Block.

(** ** What is accepted *)

Lemma bind_ok {A B} (m : bres A) (f : A -> bres B) b : m ≫= f = BOk b <-> exists a, m = BOk a /\ f a = BOk b.
Proof. destruct m; cbn; split; try done; [eauto|intros (? & [= <-] & ?); done|by intros (? & ? & ?)..]. Qed.
Lemma check_ok b e u : check b e = BOk u <-> b = true.
Proof. unfold check. destruct b, u; split; done. Qed.
Lemma bderef_ok {A} (x : option A) a : bderef x = BOk a <-> x = Some a.
Proof. destruct x; cbn; split; congruence. Qed.
Lemma bfor_ok {A} (f : A -> bres unit) l : bfor f l = BOk tt <-> Forall (fun x => f x = BOk tt) l.
Proof.
  induction l as [|x l IH]; cbn; [split; [by constructor|done]|]. rewrite bind_ok, Forall_cons, <- IH. split.
  - by intros ([] & ? & ?).
  - intros [? ?]. by exists tt.
Qed.

Definition gas_total (gs : list GasState) : Z := foldr (fun g n => GasUsed g + n) 0 gs.

Lemma sum_gas_ok i acc rs :
  u64 acc <= MaxBlockGas ->
  sum_gas i (u64 acc) rs = BOk tt <->
  exists gs, rs = inr <$> gs /\ forall k, u64 (acc + gas_total (take k gs)) <= MaxBlockGas.
Proof.
  revert i acc. induction rs as [|[e|g] rs IH]; intros i acc Ha; cbn [sum_gas].
  - split; [|done]. intros _. exists []. split; [done|]. intros k. rewrite take_nil. cbn. by rewrite Z.add_0_r.
  - split; [done|]. intros (gs & He & _). by destruct gs.
  - assert (Hs : u64 (u64 acc + u64 (GasUsed g)) = u64 (acc + GasUsed g)) by (unfold u64; by rewrite <- Z.add_mod by lia).
    rewrite Hs. destruct (Z.gtb_spec (u64 (acc + GasUsed g)) MaxBlockGas) as [Hg|Hg].
    + split; [done|]. intros (gs & He & Hk). destruct gs as [|g' gs]; [done|]. injection He as <- ->.
      specialize (Hk 1%nat). cbn in Hk. rewrite take_0 in Hk. cbn in Hk. rewrite Z.add_0_r in Hk. lia.
    + rewrite IH by done. split.
      * intros (gs & -> & Hk). exists (g :: gs). split; [done|]. intros [|k]; cbn; [by rewrite Z.add_0_r|]. by rewrite Z.add_assoc.
      * intros (gs & He & Hk). destruct gs as [|g' gs]; [done|]. injection He as <- ->. exists gs. split; [done|].
        intros k. specialize (Hk (S k)). cbn in Hk. by rewrite Z.add_assoc in Hk.
Qed.

(** Without a negative usage the gas of a block is the plain sum. *)
Lemma gas_within gs :
  Forall (fun g => 0 <= GasUsed g <= MaxInt64) gs -> (forall k, u64 (gas_total (take k gs)) <= MaxBlockGas) -> gas_total gs <= MaxBlockGas.
Proof.
  intros Hg Hk. rewrite <- (firstn_all gs). generalize (length gs) as n. intros n.
  assert (Hstep : forall n, 0 <= gas_total (take n gs) <= MaxBlockGas); [|apply Hstep]. clear n. induction n as [|n IH]; [cbn; done|].
  destruct (gs !! n) as [g|] eqn:E; [|rewrite take_ge in *; [apply IH|apply lookup_ge_None in E; lia|apply lookup_ge_None in E; lia]].
  assert (Hsplit : forall l, gas_total (l ++ [g]) = gas_total l + GasUsed g).
  { intros l. unfold gas_total. induction l as [|x l IHl]; cbn [foldr app]; lia. }
  assert (Hgn : 0 <= GasUsed g <= MaxInt64) by by eapply (Forall_lookup_1 _ _ _ _ Hg).
  specialize (Hk (S n)). rewrite (take_S_r _ _ _ E), Hsplit in Hk |- *. rewrite u64_id in Hk; [lia|]. unfold MaxBlockGas in *. words. lia.
Qed.

Lemma collect_ok rs gs : collect_results rs = BOk (inr <$> gs) <-> rs = VOk <$> gs.
Proof.
  unfold collect_results. split.
  - destruct (existsb _ rs) eqn:E1; [done|]. destruct (existsb (fun r => if r is VFuel then true else false) rs) eqn:E2; [done|].
    intros [= H]. revert gs H E1 E2. induction rs as [|r rs IH]; intros gs H E1 E2; [by destruct gs|].
    destruct r as [g|e| |]; cbn in H, E1, E2; try done; destruct gs as [|g' gs]; try done.
    injection H as -> H. cbn. f_equal. by apply IH.
  - intros ->. assert (E : forall p : vres GasState -> bool, (forall g, p (VOk g) = false) -> existsb p (VOk <$> gs) = false).
    { intros p Hp. induction gs as [|g gs IH]; [done|]. cbn. by rewrite Hp. }
    rewrite !E by done. f_equal. clear E. induction gs as [|g gs IH]; [done|]. cbn. by f_equal.
Qed.

Section Accepted.
Context {R : MapRange} {RL : MapRangeLaws R} {U : Uint256} {Cr : Crypto}.
Context (net : NetParams) (MaxTimeOffsetMs : Z).
Variable converter : bytes -> option bytes.
Variable checkOutput : Entry -> gmap Hash Entry -> Z -> Z -> bytes -> Z -> bytes -> list bytes -> bool -> bool + error.
Variables (vmfuel fuel : nat) (now : Z).

(** The validator in charge has signed the hash of the header. *)
Definition signed_by_producer (bh : BlockHeader) (checkpoint : Checkpoint) : Prop :=
  exists v key, GetValidator net (bh_Timestamp bh) checkpoint = Some (Some v) /\ hex_decode (PubKey v) = Some key
    /\ xpub_verify key (bh_Hash bh) (BlockWitness bh) = true.

(** The amounts paid to each program are the rewards. *)
Definition pays (outputs : list TxOutput) (rewards : gmap bytes Z) : Prop :=
  size (coinbase_outputs outputs) = size rewards
  /\ forall cp amount, rewards !! cp = Some amount -> default 0 (coinbase_outputs outputs !! cp) = amount.

Definition plain_btm (output : TxOutput) : Prop :=
  to_TypedOutput output = originalTxOutput /\ aa_AssetId (output_value output) = Some BTMAssetID.

Definition coinbase_ok (b : Block) (checkpoint : Checkpoint) : Prop :=
  exists tx, head (Transactions b) = Some tx
    /\ let outputs := TxData.Outputs (t_TxData tx) in
       Forall plain_btm outputs
       /\ if bh_Height (bHeader b) mod BlocksOfEpoch net =? 1 then pays outputs (Rewards checkpoint)
          else exists output, outputs = [output] /\ aa_Amount (output_value output) = 0.

(** What makes a block valid on top of its parent, with the gas of its transactions. *)
Record valid_block (b : Block) (parent : BlockHeader) (checkpoint : Checkpoint) (gs : list GasState) : Prop := {
  vb_version : bh_Version (bHeader b) = 1;
  vb_height : bh_Height (bHeader b) = u64 (bh_Height parent + 1);
  vb_parent : PreviousBlockHash (bHeader b) = bh_Hash parent;
  vb_time : u64 (bh_Timestamp parent + BlockTimeInterval net) <= bh_Timestamp (bHeader b) <= u64 (now + MaxTimeOffsetMs);
  vb_signature : signed_by_producer (bHeader b) checkpoint;
  vb_txs : forall i tx, Transactions b !! i = Some tx -> exists g, gs !! i = Some g
           /\ ValidateTx converter checkOutput (t_Tx tx) i (MapBlock b) vmfuel fuel = VOk g;
  vb_gas_length : length gs = length (Transactions b);
  vb_gas : forall k, u64 (gas_total (take k gs)) <= MaxBlockGas;
  vb_coinbase : coinbase_ok b checkpoint;
  vb_root : TransactionsMerkleRoot (bHeader b) = TxMerkleRoot (tx_ids b);
}.

Lemma signature_ok bh cp : verifyBlockSignature net bh cp = BOk tt <-> signed_by_producer bh cp.
Proof.
  unfold verifyBlockSignature, signed_by_producer. rewrite bind_ok. split.
  - intros (v & Hv%bderef_ok & H). apply bind_ok in H as (v' & Hv'%bderef_ok & H). subst v.
    destruct (hex_decode (PubKey v')) as [key|] eqn:E; [|done]. apply check_ok in H. by exists v', key.
  - intros (v & key & Hv & Hk & Hs). exists (Some v). split; [by apply bderef_ok|]. cbn [mbind bres_bind bderef]. rewrite Hk. by apply check_ok.
Qed.

Lemma coinbase_output_ok o : check_coinbase_output o = BOk tt <-> plain_btm o.
Proof.
  unfold check_coinbase_output, plain_btm. rewrite bind_ok. split.
  - intros ([] & Ht%check_ok & H). apply bind_ok in H as (id & Hid%bderef_ok & Hb%check_ok).
    apply bool_decide_eq_true in Hb as ->. split; [|done]. by destruct (to_TypedOutput o).
  - intros [Ht Hid]. exists tt. rewrite Ht. split; [done|]. by rewrite Hid.
Qed.

Lemma reward_ok tx cp : checkoutRewardCoinbase tx cp = BOk tt <-> pays (TxData.Outputs (t_TxData tx)) (Rewards cp).
Proof.
  unfold checkoutRewardCoinbase, pays. rewrite bind_ok. set (m := coinbase_outputs _).
  assert (Hall : forallb (fun '(k, amount) => default 0 (m !! k) =? amount) (map_range (Rewards cp)) = true
                 <-> forall k amount, Rewards cp !! k = Some amount -> default 0 (m !! k) = amount).
  { rewrite forallb_forall. split.
    - intros H k n Hk. apply Z.eqb_eq. apply (H (k, n)). apply list_elem_of_In. rewrite map_range_perm. by apply elem_of_map_to_list.
    - intros H [k n] Hin. apply Z.eqb_eq, H. apply elem_of_map_to_list. rewrite <- map_range_perm. by apply list_elem_of_In. }
  split.
  - intros ([] & Hs%check_ok & H%check_ok). by rewrite Nat.eqb_eq in Hs; rewrite Hall in H.
  - intros [Hs H]. exists tt. rewrite !check_ok, Nat.eqb_eq. split; [done|]. by apply Hall.
Qed.

Lemma coinbase_amount_ok b cp : checkCoinbaseAmount net b cp = BOk tt <-> coinbase_ok b cp.
Proof.
  unfold checkCoinbaseAmount, coinbase_ok. destruct (Transactions b) as [|tx txs]; [split; [done|by intros (? & ? & _)]|].
  cbn [head]. rewrite bind_ok.
  assert (Hall : forall l, bfor check_coinbase_output l = BOk tt <-> Forall plain_btm l).
  { intros l. rewrite bfor_ok. split; intros Hl; (eapply Forall_impl; [exact Hl|]); intros o; apply coinbase_output_ok. }
  split.
  - intros ([] & Ho%Hall & H). exists tx. split; [done|]. cbn zeta. split; [done|].
    destruct (_ =? 1); cbn [negb] in H; [by apply reward_ok in H|].
    destruct (TxData.Outputs (t_TxData tx)) as [|o [|? ?]]; [done| |done]. apply check_ok, Z.eqb_eq in H. by exists o.
  - intros (? & [= <-] & Ho & H). exists tt. split; [by apply Hall|]. destruct (_ =? 1); cbn [negb]; [by apply reward_ok|].
    destruct H as (o & -> & Hz). by apply check_ok, Z.eqb_eq.
Qed.

Lemma header_ok bh parent cp :
  ValidateBlockHeader net MaxTimeOffsetMs now bh parent cp = BOk tt <->
  bh_Version bh = 1 /\ bh_Height bh = u64 (bh_Height parent + 1) /\ PreviousBlockHash bh = bh_Hash parent
  /\ u64 (bh_Timestamp parent + BlockTimeInterval net) <= bh_Timestamp bh <= u64 (now + MaxTimeOffsetMs)
  /\ signed_by_producer bh cp.
Proof.
  unfold ValidateBlockHeader, checkBlockTime. split.
  - intros ([] & Hv%check_ok & H)%bind_ok. apply bind_ok in H as ([] & Hh%check_ok & H). apply bind_ok in H as ([] & Hp%check_ok & H).
    apply bind_ok in H as ([] & Ht & H%signature_ok). apply bind_ok in Ht as ([] & Hl%check_ok & Hu%check_ok).
    apply bool_decide_eq_true in Hp. zbool. split_and!; try done; lia.
  - intros (Hv & Hh & Hp & Ht & Hs). apply bind_ok. exists tt. split; [by apply check_ok, Z.eqb_eq|].
    apply bind_ok. exists tt. split; [by apply check_ok, Z.eqb_eq|].
    apply bind_ok. exists tt. split; [by apply check_ok, bool_decide_eq_true|].
    apply bind_ok. exists tt. split; [|by apply signature_ok].
    apply bind_ok. exists tt. split; apply check_ok; lia.
Qed.

Lemma txs_ok b gs :
  ValidateTxs converter checkOutput vmfuel fuel (Transactions b) (MapBlock b) = BOk (inr <$> gs) <->
  length gs = length (Transactions b) /\ forall i tx, Transactions b !! i = Some tx -> exists g, gs !! i = Some g
    /\ ValidateTx converter checkOutput (t_Tx tx) i (MapBlock b) vmfuel fuel = VOk g.
Proof.
  unfold ValidateTxs. rewrite collect_ok. split.
  - intros H. split; [by rewrite <- (length_imap (validateTxWorker converter checkOutput vmfuel fuel (MapBlock b)) (Transactions b)), H, length_fmap|].
    intros i tx Hi. assert (Hl : (VOk <$> gs) !! i = Some (validateTxWorker converter checkOutput vmfuel fuel (MapBlock b) i tx))
      by (rewrite <- H, list_lookup_imap, Hi; done).
    rewrite list_lookup_fmap in Hl. destruct (gs !! i) as [g|]; [|done]. exists g. split; [done|]. injection Hl as Hl. exact (eq_sym Hl).
  - intros [Hlen H]. apply list_eq. intros i. rewrite list_lookup_imap, list_lookup_fmap.
    destruct (Transactions b !! i) as [tx|] eqn:Hi.
    + destruct (H i tx Hi) as (g & -> & Hg). cbn. by f_equal.
    + apply lookup_ge_None in Hi. by rewrite (lookup_ge_None_2 gs) by lia.
Qed.

Lemma ValidateBlock_valid b parent checkpoint :
  ValidateBlock net MaxTimeOffsetMs converter checkOutput vmfuel fuel now b parent checkpoint = BOk tt
  <-> exists gs, valid_block b parent checkpoint gs.
Proof.
  unfold ValidateBlock. split.
  - intros ([] & (Hv & Hh & Hp & Ht & Hs)%header_ok & H)%bind_ok. apply bind_ok in H as (rs & Hrs & H).
    apply bind_ok in H as ([] & Hg & H). change 0 with (u64 0) in Hg at 1. apply sum_gas_ok in Hg as (gs & -> & Hg); [|done].
    apply txs_ok in Hrs as [Hlen Htx]. apply bind_ok in H as ([] & Hc%coinbase_amount_ok & Hr%check_ok).
    apply bool_decide_eq_true in Hr. by exists gs.
  - intros (gs & [Hv Hh Hp Ht Hs Htx Hlen Hg Hc Hr]). apply bind_ok. exists tt. split; [by apply header_ok|].
    apply bind_ok. exists (inr <$> gs). split; [by apply txs_ok|].
    apply bind_ok. exists tt. split; [change 0 with (u64 0) at 1; apply sum_gas_ok; [done|by exists gs]|].
    apply bind_ok. exists tt. split; [by apply coinbase_amount_ok|]. by apply check_ok, bool_decide_eq_true.
Qed.

(** C7.  [ValidateBlock] accepts exactly the valid blocks: version, height, parent
    hash and timestamp fit the parent, the validator in charge has signed the
    header, every transaction is valid in the block, no prefix of them uses more
    than the gas limit (as a 64-bit sum), the coinbase pays what is due, and the
    Merkle root is that of the transactions. *)
Theorem ValidateBlock_iff b parent checkpoint :
  ValidateBlock net MaxTimeOffsetMs converter checkOutput vmfuel fuel now b parent checkpoint = BOk tt
  <-> exists gs, valid_block b parent checkpoint gs.
Proof. apply ValidateBlock_valid. Qed.
End Accepted.
