(* ===== verification/Supply.v ===== *)
(** * What a valid block does to the supply

    The conservation of value over the transactions of a block, put together
    with the check of the coinbase: of every asset but BTM the block creates and
    destroys nothing, and of BTM it creates at most the rewards of the checkpoint,
    and those only in the first block of an epoch. *)

From S2P Require Import Prelude Checked GoSlice VMTypes Opcode Machine Interp Orphans Checkpoint Encoding Entries TxData Merkle MapTx Validate ValidateSpec Ledger Fees BlockData BlockValidation.
From Stdlib Require Import Strings.Byte.
#[local] Open Scope Z_scope.

(** ** Sums over maps *)

Definition map_sum {K} `{Countable K} (m : gmap K Z) : Z := map_fold (fun _ x n => x + n) 0 m.

Section Sums.
Context {K : Type} `{Countable K}.
Implicit Types (m : gmap K Z).

Lemma map_sum_fresh m k x : m !! k = None -> map_sum (<[k := x]> m) = x + map_sum m.
Proof. intros Hk. unfold map_sum. rewrite map_fold_insert_L; [done| |done]. intros. lia. Qed.
Lemma map_sum_insert m k x : map_sum (<[k := x]> m) = x - default 0 (m !! k) + map_sum m.
Proof.
  destruct (m !! k) as [v|] eqn:E; cbn; [|rewrite map_sum_fresh by done; lia].
  rewrite <- (insert_delete_id m k v E) at 2. rewrite <- (insert_delete_eq m k x).
  rewrite !map_sum_fresh by apply lookup_delete_eq. lia.
Qed.
Lemma map_sum_nonneg m : map_Forall (fun _ x => 0 <= x) m -> 0 <= map_sum m.
Proof.
  induction m as [|i x m Hi IH] using map_ind; [done|]. rewrite map_Forall_insert by done. intros [Hx Hm].
  rewrite map_sum_fresh by done. specialize (IH Hm). lia.
Qed.
Lemma map_sum_lookup m k v : map_Forall (fun _ x => 0 <= x) m -> m !! k = Some v -> 0 <= v <= map_sum m.
Proof.
  intros Hm Hk. split; [by eapply Hm|]. rewrite <- (insert_delete_id m k v Hk), map_sum_fresh by apply lookup_delete_eq.
  enough (0 <= map_sum (delete k m)) by lia. assert (Hd : map_Forall (fun _ x => 0 <= x) (delete k m)) by by apply map_Forall_delete.
  by apply map_sum_nonneg.
Qed.
End Sums.

Lemma list_or {A} (P : A -> Prop) (Q : nat -> A -> Prop) (l : list A) :
  (forall i x, l !! i = Some x -> P x \/ Q i x) -> (exists x, x ∈ l /\ P x) \/ forall i x, l !! i = Some x -> Q i x.
Proof.
  revert Q. induction l as [|x l IH]; intros Q H; [by right|]. destruct (H 0%nat x eq_refl) as [Hp|Hq]; [left; exists x; by split; [left|]|].
  destruct (IH (fun i => Q (S i)) (fun i => H (S i))) as [(y & Hy & Hp)|Hr]; [left; exists y; by split; [right|]|].
  right. intros [|i] y; cbn; [by intros [= <-]|apply Hr].
Qed.

(** ** The coinbase *)

Definition amount_sum (outputs : list TxOutput) : Z := foldr (fun o n => aa_Amount (output_value o) + n) 0 outputs.

Lemma plain_totals outputs a :
  Forall plain_btm outputs ->
  total a ((Some ∘ output_value) <$> outputs) = if bool_decide (a = BTMAssetID) then amount_sum outputs else 0.
Proof.
  unfold total, amount_sum. induction 1 as [|o l [_ Hid] _ IH]; cbn -[BTMAssetID]; [by case_bool_decide|]. rewrite IH, Hid.
  repeat case_bool_decide; congruence || lia.
Qed.

(** No program's amount wraps around, as long as the sum does not. *)
Lemma add_coinbase_sum m i o :
  0 <= aa_Amount (output_value o) -> map_Forall (fun _ x => 0 <= x) m -> map_sum m + aa_Amount (output_value o) <= MaxUint64 ->
  map_sum (add_coinbase_output m (i, o)) = map_sum m + aa_Amount (output_value o)
  /\ map_Forall (fun _ x => 0 <= x) (add_coinbase_output m (i, o)).
Proof.
  intros Ho Hm Hmax. unfold add_coinbase_output. cbn beta iota zeta. destruct (_ && _) eqn:E; [zbool; split; [lia|done]|].
  set (cp := hex_encode _). assert (Hv : 0 <= default 0 (m !! cp) <= map_sum m).
  { destruct (m !! cp) as [v|] eqn:Hv; cbn; [by eapply map_sum_lookup|]. split; [done|by apply map_sum_nonneg]. }
  rewrite u64_id by (words; lia). split; [rewrite map_sum_insert; lia|]. apply map_Forall_insert_2; [lia|done].
Qed.
Lemma coinbase_sum_go l m :
  Forall (fun p : nat * TxOutput => 0 <= aa_Amount (output_value p.2)) l -> map_Forall (fun _ x => 0 <= x) m ->
  map_sum m + amount_sum l.*2 <= MaxUint64 -> map_sum (foldl add_coinbase_output m l) = map_sum m + amount_sum l.*2.
Proof.
  intros Hl. revert m. induction Hl as [|[i o] l Ho Hl IH]; intros m Hm Hmax; cbn [foldl]; [cbn; lia|]. cbn in Ho.
  change (amount_sum ((i, o) :: l).*2) with (aa_Amount (output_value o) + amount_sum l.*2) in *.
  assert (Hls : 0 <= amount_sum l.*2) by (clear -Hl; unfold amount_sum; induction Hl; cbn in *; lia).
  destruct (add_coinbase_sum m i o) as [Hs Hn]; [done|done|lia|]. rewrite IH by (done || lia). lia.
Qed.
Lemma coinbase_sum (outputs : list TxOutput) :
  Forall (fun o => 0 <= aa_Amount (output_value o)) outputs -> amount_sum outputs <= MaxUint64 ->
  map_sum (coinbase_outputs outputs) = amount_sum outputs.
Proof.
  intros Hp Hmax. assert (Hsnd : (imap pair outputs).*2 = outputs).
  { apply list_eq. intros i. rewrite list_lookup_fmap, list_lookup_imap. by destruct (outputs !! i). }
  unfold coinbase_outputs. rewrite coinbase_sum_go; rewrite ?Hsnd; try done.
  assert (Hp2 : Forall (fun o => 0 <= aa_Amount (output_value o)) (imap pair outputs).*2) by by rewrite Hsnd.
  by apply (Forall_fmap snd (fun o => 0 <= aa_Amount (output_value o))) in Hp2.
Qed.

(** The programs that are paid are those with a reward, and are paid just that. *)
Lemma pays_rewards outputs rewards :
  map_Forall (fun _ n => n <> 0) rewards -> pays outputs rewards -> coinbase_outputs outputs = rewards.
Proof.
  intros Hr [Hs Hp]. symmetry. apply map_subseteq_size_eq; [|lia]. apply map_subseteq_spec. intros cp n Hn.
  specialize (Hp cp n Hn). destruct (coinbase_outputs outputs !! cp) as [x|]; cbn in Hp; [by subst|].
  exfalso. by apply (Hr cp n Hn).
Qed.

(** ** The transactions *)

Definition is_coinbase_input (x : TxInput) : bool := match ti_TypedInput x with Some (TCoinbase _) => true | _ => false end.

Section Supply.
Context {R : MapRange} {RL : MapRangeLaws R} {U : Uint256} {Cr : Crypto}.
Context (net : NetParams) (MaxTimeOffsetMs : Z).
Variable converter : bytes -> option bytes.
Variable checkOutput : Entry -> gmap Hash Entry -> Z -> Z -> bytes -> Z -> bytes -> list bytes -> bool -> bool + error.
Variables (vmfuel fuel : nat) (now : Z).

(** What an input spends or issues; the coinbase brings nothing of its own. *)
Definition spent (data : TxData) (x : TxInput) : option AssetAmount :=
  match ti_TypedInput x with Some (TCoinbase _) => None | _ => input_value data x end.
Definition spent_total (data : TxData) (a : AssetID) : Z := total a (spent data <$> TxData.Inputs data).

(** Sums over the transactions of a block. *)
Definition over_txs (f : TxData -> Z) (b : Block) : Z := foldr (fun tx n => f (t_TxData tx) + n) 0 (Transactions b).
Definition block_spent (b : Block) (a : AssetID) : Z := over_txs (fun data => spent_total data a) b.
Definition block_outputs (b : Block) (a : AssetID) : Z := over_txs (fun data => output_total data a) b.
(** The rewards that are due. *)
Definition block_reward (b : Block) (checkpoint : Checkpoint) : Z :=
  if bh_Height (bHeader b) mod BlocksOfEpoch net =? 1 then map_sum (Rewards checkpoint) else 0.

Lemma spent_nonneg data a : typed data -> 0 <= spent_total data a.
Proof.
  intros [Ti _]. unfold spent_total, total. induction Ti as [|x l Hx _ IH]; cbn; [done|].
  enough (0 <= value_of a (spent data x)) by lia. unfold spent, value_of.
  destruct (ti_TypedInput x) as [[]|]; try done; destruct (input_value data x); try done; case_bool_decide; try done; apply Hx.
Qed.

(** Without a coinbase, and for other assets, the inputs bring what they spend. *)
Lemma spent_input data a :
  a <> BTMAssetID \/ Forall (fun x => is_coinbase_input x = false) (TxData.Inputs data) -> spent_total data a = input_total data a.
Proof.
  intros Ha. unfold spent_total, input_total, total.
  assert (H : Forall (fun x => value_of a (spent data x) = value_of a (input_value data x)) (TxData.Inputs data)).
  { apply Forall_forall. intros x Hx. unfold spent. destruct (ti_TypedInput x) as [[ii|s args sc|arb|s args v sc]|] eqn:E; try done.
    destruct Ha as [Ha|Ha]; [|rewrite Forall_forall in Ha; specialize (Ha x Hx); unfold is_coinbase_input in Ha; by rewrite E in Ha].
    unfold input_value. rewrite E. cbn -[BTMAssetID]. rewrite bool_decide_eq_false_2; [done|congruence]. }
  clear Ha. induction H as [|x l Hx _ IH]; [done|]. rewrite !fmap_cons. cbn [foldr]. by rewrite Hx, IH.
Qed.

Section Valid.
Context (b : Block) (parent : BlockHeader) (checkpoint : Checkpoint) (gs : list GasState).
Context (V : valid_block net MaxTimeOffsetMs converter checkOutput vmfuel fuel now b parent checkpoint gs).
Context (N : map_Forall (fun _ n => n <> 0) (Rewards checkpoint)).

Lemma accepted_tx_of i tx :
  Transactions b !! i = Some tx -> NewTx (t_TxData tx) = Some tx -> typed (t_TxData tx) ->
  MapTx (t_TxData tx) = Some (t_Tx tx) /\ TxData.Version (t_TxData tx) = 1
  /\ exists g, ValidateTx converter checkOutput (t_Tx tx) i (MapBlock b) vmfuel fuel = VOk g.
Proof.
  intros Hi Hn Ht. assert (Hm : MapTx (t_TxData tx) = Some (t_Tx tx)).
  { unfold NewTx in Hn. apply fmap_Some in Hn as (x & Hx & E). rewrite Hx. f_equal. by rewrite E. }
  destruct (vb_txs _ _ _ _ _ _ _ _ _ _ _ V i tx Hi) as (g & _ & Hg). split; [done|]. split; [|by exists g].
  apply MapTx_mapped in Hm as (muxID & m & M). pose proof (mapped_wf _ _ _ _ M Ht) as Wf.
  apply ValidateTx_accepted in Hg; [|done]. rewrite <- (mp_version _ _ _ _ _ M). apply Hg. apply (vb_version _ _ _ _ _ _ _ _ _ _ _ V).
Qed.

(** The first transaction takes the rewards out, and no more of BTM. *)
Lemma coinbase_outputs_total tx :
  head (Transactions b) = Some tx -> typed (t_TxData tx) -> output_total (t_TxData tx) BTMAssetID <= MaxInt64 ->
  output_total (t_TxData tx) BTMAssetID = block_reward b checkpoint.
Proof.
  intros Hh [_ To] Hmax. destruct (vb_coinbase _ _ _ _ _ _ _ _ _ _ _ V) as (tx' & Htx & Hp & Hc).
  assert (tx' = tx) as -> by congruence. unfold output_total in *. rewrite (plain_totals _ _ Hp), bool_decide_eq_true_2 in * by done.
  unfold block_reward. destruct (_ =? 1).
  - rewrite <- (pays_rewards _ _ N Hc). symmetry. apply coinbase_sum; [|words; lia].
    eapply Forall_impl; [exact To|]. intros o [Ho _]. exact Ho.
  - destruct Hc as (o & -> & Ho). cbn. lia.
Qed.

(** One transaction, the [i]-th. *)
Definition conserved (i : nat) (tx : TypesTx) : Prop := forall a,
  if bool_decide (a = BTMAssetID)
  then output_total (t_TxData tx) a <= spent_total (t_TxData tx) a + (if (i =? 0)%nat then block_reward b checkpoint else 0)
  else output_total (t_TxData tx) a = spent_total (t_TxData tx) a.

Lemma tx_supply i tx :
  Transactions b !! i = Some tx -> NewTx (t_TxData tx) = Some tx -> typed (t_TxData tx) ->
  clash (built (t_TxData tx)) \/ conserved i tx.
Proof.
  intros Hi Hn Ht. destruct (accepted_tx_of i tx Hi Hn Ht) as (Hm & Hv & g & Hg).
  destruct (ValidateTx_totals _ converter checkOutput _ i (MapBlock b) vmfuel fuel g Hm Ht Hv Hg) as [|Htot]; [by left|].
  destruct (clash_or_not (built (t_TxData tx))) as [|Nc]; [by left|right].
  intros a. specialize (Htot a) as [Hmax Ha]. case_bool_decide as E; [|rewrite spent_input; [done|by left]]. subst a.
  destruct i as [|i]; cbn [Nat.eqb].
  - pose proof (spent_nonneg (t_TxData tx) BTMAssetID Ht). rewrite <- (coinbase_outputs_total tx); [lia| |done|lia].
    by destruct (Transactions b).
  - rewrite spent_input; [lia|right]. apply Forall_lookup_2. intros j x Hx.
    destruct (ValidateTx_inputs _ converter checkOutput _ _ (MapBlock b) vmfuel fuel g j x Hm Ht Hv Hg Hx) as [(e1 & e2 & id & H1 & H2 & H3 & H4 & H5)|Hau].
    { by destruct H5; apply (Nc e1 e2 id). }
    unfold is_coinbase_input. destruct Hau as (id & e & _ & _ & Hau). destruct (ti_TypedInput x) as [[]|]; try done.
    unfold MapBlock in Hau. cbn in Hau. by destruct (Transactions b).
Qed.
End Valid.

Lemma over_txs_mono f g bh txs :
  (forall i tx, txs !! i = Some tx -> f (t_TxData tx) <= g (t_TxData tx)) ->
  over_txs f (mkTypesBlock bh txs) <= over_txs g (mkTypesBlock bh txs).
Proof.
  unfold over_txs. cbn [Transactions]. induction txs as [|tx txs IH]; intros H; cbn; [done|].
  pose proof (H 0%nat tx eq_refl). specialize (IH (fun i => H (S i))). lia.
Qed.

Lemma block_conserved b checkpoint :
  (forall i tx, Transactions b !! i = Some tx -> conserved b checkpoint i tx) -> Transactions b <> [] ->
  forall a, if bool_decide (a = BTMAssetID) then block_outputs b a <= block_spent b a + block_reward b checkpoint
            else block_outputs b a = block_spent b a.
Proof.
  destruct b as [bh [|t0 txs]]; intros H Hne a; [done|]. clear Hne. unfold block_outputs, block_spent. case_bool_decide as E.
  - pose proof (H 0%nat t0 eq_refl a) as H0. rewrite bool_decide_eq_true_2 in H0 by done. cbn [Nat.eqb] in H0.
    pose proof (over_txs_mono (fun d => output_total d a) (fun d => spent_total d a) bh txs) as Hr.
    assert (over_txs (fun d => output_total d a) (mkTypesBlock bh txs) <= over_txs (fun d => spent_total d a) (mkTypesBlock bh txs)) as Hle.
    { apply Hr. intros i tx Hi. specialize (H (S i) tx Hi a). rewrite bool_decide_eq_true_2 in H by done. cbn [Nat.eqb] in H. lia. }
    unfold over_txs in *. cbn [Transactions foldr] in *. lia.
  - assert (Hall : forall i tx, (t0 :: txs) !! i = Some tx -> output_total (t_TxData tx) a = spent_total (t_TxData tx) a).
    { intros i tx Hi. specialize (H i tx Hi a). by rewrite bool_decide_eq_false_2 in H. }
    apply Z.le_antisymm; apply over_txs_mono; intros i tx Hi; rewrite (Hall i tx Hi); lia.
Qed.

End Supply.

(** ** A block that is accepted *)

#[local] Existing Instance ZUint256.
#[local] Existing Instance StubCrypto.

Definition ex_key : bytes := replicate 64 x07.
Definition ex_net : NetParams := mkNet 6000 100 100000000000000 [hex_encode ex_key].
Definition ex_parent : BlockHeader := mkBlockHeader 1 100 zeroHash 0 [] [] zeroHash.
(** The program [x51] is due a reward of 500. *)
Definition ex_checkpoint : Checkpoint := mkCheckpoint 100 zeroHash zeroHash 0 Growing {[hex_encode [x51] := 500]} ∅ [].

Definition ex_reward_data : TxData :=
  mkTxData 1 55 0 [mkTxInput 1 (Some (TCoinbase [x00; x05])) [] []]
    [mkTxOutput 1 (mkOutputCommitment (mkAssetAmount (Some BTMAssetID) 500) 1 [x51] []) [] originalTxOutput].
Definition as_tx (data : TxData) : TypesTx :=
  default (mkTypesTx data (mkTx (mkTxHeader 0 0 0 []) [] ∅ [] [])) (NewTx data).
Definition ex_txs : list TypesTx := [as_tx ex_reward_data; as_tx ex_txdata].
Definition ex_unsigned (w : bytes) : BlockHeader :=
  mkBlockHeader 1 101 (bh_Hash ex_parent) 6000 w [] (TxMerkleRoot ((fun tx => tx_ID (t_Tx tx)) <$> ex_txs)).
Definition ex_full_block : Block :=
  mkTypesBlock (ex_unsigned (take 32 ex_key ++ bh_Hash (ex_unsigned []))) ex_txs.

Lemma as_tx_ok data : is_Some (NewTx data) -> NewTx (t_TxData (as_tx data)) = Some (as_tx data).
Proof. intros [tx Htx]. unfold as_tx. rewrite Htx. cbn. by rewrite (NewTx_data _ _ Htx). Qed.
Lemma ex_txs_wf : Forall (fun tx => NewTx (t_TxData tx) = Some tx /\ typed (t_TxData tx)) ex_txs.
Proof.
  assert (Hs : forall data, (if NewTx data is Some _ then true else false) = true -> is_Some (NewTx data))
    by (intros data; by destruct (NewTx data)).
  assert (Hd : forall data, is_Some (NewTx data) -> t_TxData (as_tx data) = data).
  { intros data [tx Htx]. unfold as_tx. rewrite Htx. cbn. by rewrite (NewTx_data _ _ Htx). }
  assert (H1 : is_Some (NewTx ex_reward_data)) by (apply Hs; vm_compute; reflexivity).
  assert (H2 : is_Some (NewTx ex_txdata)) by (apply Hs; vm_compute; reflexivity).
  apply Forall_cons_2; [|apply Forall_cons_2; [|apply Forall_nil_2]]; (split; [by apply as_tx_ok|]); rewrite Hd by done; [|exact ex_typed].
  split; (apply Forall_cons_2; [vm_compute; split; congruence|apply Forall_nil_2]).
Qed.

Lemma ex_accepted :
  ValidateBlock ex_net 3000 ex_converter ex_checkOutput 10 10 6000 ex_full_block ex_parent ex_checkpoint = BOk tt.
Proof. vm_compute. reflexivity. Qed.


Lemma ValidateBlock_iff_witness :
  exists gs, valid_block ex_net 3000 ex_converter ex_checkOutput 10 10 6000 ex_full_block ex_parent ex_checkpoint gs.
Proof.
  apply (ValidateBlock_iff ex_net 3000 ex_converter ex_checkOutput 10 10 6000 ex_full_block ex_parent ex_checkpoint), ex_accepted.
Defined.
