(* ===== verification/TxPool.v ===== *)
(** * The pool of unconfirmed transactions: protocol/txpool.go and protocol/tx.go

    [TxPool] holds the transactions that wait for a block, the outputs they
    create, and the orphans, transactions that spend outputs nobody has seen,
    with an index from outputs to the orphans that wait for them.  The methods
    run under the pool's mutex, one at a time; the clock and the database are
    arguments.

    Two things of Go are part of the model because the pool depends on them.
    [checkOrphanUtxos] collects the addresses of its loop variable, which is one
    variable for the whole loop (go 1.16): when the list is read they all point
    to the last spent output.  And the cache of errors has pointers as keys: a
    pointer is its address, next to the hash it points to. *)

From S2P Require Import Prelude Checked GoSlice VMTypes Opcode Machine Interp Script Utxo Encoding Entries TxData Merkle MapTx Validate Orphans Checkpoint Tree CasperState BlockData BlockValidation.
From Stdlib Require Import Strings.Byte.
#[local] Open Scope Z_scope.

Inductive pool_error :=
  | ErrTransactionNotExist
  | ErrPoolIsFull
  | ErrDustTx
  | ErrUnmarshal             (* of a stored output *)
  | ErrBadTx (e : tx_error).

(** A [*bc.Hash]. *)
Record hash_ptr := mkPtr { p_addr : bytes; p_hash : Hash }.

Record TxDesc := mkTxDesc { d_Tx : TypesTx; d_Added : Z; d_Height : Z; d_Weight : Z; d_Fee : Z }.
Record orphanTx := mkOrphanTx { ot_TxDesc : TxDesc; ot_expiration : Z }.

Inductive TxMsg := MsgNewTx (d : TxDesc) | MsgRemoveTx (d : TxDesc).

Record TxPool (L : LRU) := mkPool {
  lastUpdated : Z;
  pool : gmap Hash TxDesc;
  utxo : gmap Hash TypesTx;
  orphans : gmap Hash orphanTx;
  orphansByPrev : gmap Hash (gmap Hash orphanTx);
  errCache : cache pool_error;
  events : list TxMsg;           (* posted to the dispatcher *)
}.
Arguments mkPool {L}.
Arguments lastUpdated {L}.
Arguments pool {L}.
Arguments utxo {L}.
Arguments orphans {L}.
Arguments orphansByPrev {L}.
Arguments errCache {L}.
Arguments events {L}.

Definition maxNewTxNum : Z := 10000.
Definition maxOrphanNum : Z := 2000.
Definition orphanTTL : Z := 10 * 60 * 10 ^ 9.

Definition tx_id (tx : TypesTx) : Hash := tx_ID (t_Tx tx).
Definition tx_results (tx : TypesTx) : list Hash := hd_ResultIds (tx_Header (t_Tx tx)).
Definition tx_spends (tx : TypesTx) : list Hash := tx_SpentOutputIDs (t_Tx tx).

Abbreviation utxo_db := (utxo_db (Hash := Hash)).
Abbreviation view := (gmap Hash UtxoEntry).

Section Pool.
Context {R : MapRange} {L : LRU} {Cr : Crypto}.
Implicit Types (tp : TxPool L).

Definition NewTxPool (now : Z) : TxPool L := mkPool now ∅ ∅ ∅ ∅ cache_New [].

Definition set_orphans (o : gmap Hash orphanTx) (ix : gmap Hash (gmap Hash orphanTx)) tp : TxPool L :=
  mkPool (lastUpdated tp) (pool tp) (utxo tp) o ix (errCache tp) (events tp).
Definition set_errCache (c : cache pool_error) tp : TxPool L :=
  mkPool (lastUpdated tp) (pool tp) (utxo tp) (orphans tp) (orphansByPrev tp) c (events tp).

(** ** The cache of errors, and queries *)

Definition AddErrCache (txHash : hash_ptr) (err : pool_error) tp : TxPool L :=
  set_errCache (cache_Add (p_addr txHash) err (errCache tp)) tp.
Definition GetErrCache (txHash : hash_ptr) tp : option pool_error * TxPool L :=
  let '(v, c) := cache_Get (p_addr txHash) (errCache tp) in (v, set_errCache c tp).
Definition IsTransactionInErrCache (txHash : hash_ptr) tp : bool * TxPool L :=
  let '(v, c) := cache_Get (p_addr txHash) (errCache tp) in (bool_decide (is_Some v), set_errCache c tp).
Definition IsTransactionInPool (txHash : hash_ptr) tp : bool := bool_decide (is_Some (pool tp !! p_hash txHash)).
Definition HaveTransaction (txHash : hash_ptr) tp : bool * TxPool L :=
  if IsTransactionInPool txHash tp then (true, tp) else IsTransactionInErrCache txHash tp.
Definition GetTransaction (txHash : hash_ptr) tp : pool_error + TxDesc :=
  match pool tp !! p_hash txHash with Some txD => inr txD | None => inl ErrTransactionNotExist end.
Definition GetTransactions tp : list TxDesc := (map_range (pool tp)).*2.

(** ** Dust *)

(** [None]: a nil pointer. *)
Definition input_AssetID (input : TxInput) : option AssetID :=
  match ti_TypedInput input with
  | Some (TIssuance ii) => Some (issuance_AssetID ii)
  | Some (TSpend _ _ sc) | Some (TVeto _ _ _ sc) => aa_AssetId (sc_AssetAmount sc)
  | Some (TCoinbase _) => Some zeroHash
  | None => None
  end.
Fixpoint no_btm (inputs : list TxInput) : option bool :=
  match inputs with
  | [] => Some true
  | input :: inputs => id ← input_AssetID input; if bool_decide (id = BTMAssetID) then Some false else no_btm inputs
  end.
Definition isTransactionNoBtmInput (tx : TypesTx) : option bool := no_btm (TxData.Inputs (t_TxData tx)).
Definition isTransactionZeroOutput (tx : TypesTx) : bool :=
  existsb (fun output => aa_Amount (oc_AssetAmount (to_Commitment output)) =? 0) (TxData.Outputs (t_TxData tx)).
Definition isInvalidBCRPTx (tx : TypesTx) : bool :=
  existsb (fun output => IsBCRPScript (oc_ControlProgram (to_Commitment output))) (TxData.Outputs (t_TxData tx)).
Definition IsDust (tx : TypesTx) : option bool :=
  no ← isTransactionNoBtmInput tx; Some (no || isTransactionZeroOutput tx || isInvalidBCRPTx tx).

(** ** Orphans *)

Definition removeOrphan_index (hash : Hash) (ix : gmap Hash (gmap Hash orphanTx)) (spend : Hash) : gmap Hash (gmap Hash orphanTx) :=
  match ix !! spend with
  | None => ix
  | Some os => let os := delete hash os in if (size os =? 0)%nat then delete spend ix else <[spend := os]> ix
  end.
Definition removeOrphan (hash : Hash) tp : TxPool L :=
  match orphans tp !! hash with
  | None => tp
  | Some orphan =>
      set_orphans (delete hash (orphans tp))
        (foldl (removeOrphan_index hash) (orphansByPrev tp) (tx_spends (d_Tx (ot_TxDesc orphan)))) tp
  end.

Definition ExpireOrphan (now : Z) tp : TxPool L :=
  foldl (fun tp '(hash, orphan) => if ot_expiration orphan <? now then removeOrphan hash tp else tp) tp (map_range (orphans tp)).

Definition addOrphan_index (id : Hash) (orphan : orphanTx) (ix : gmap Hash (gmap Hash orphanTx)) (hash : Hash)
  : gmap Hash (gmap Hash orphanTx) := <[hash := <[id := orphan]> (default ∅ (ix !! hash))]> ix.
Definition addOrphan (now : Z) (txD : TxDesc) (requireParents : list Hash) tp : option pool_error * TxPool L :=
  if Z.of_nat (size (orphans tp)) >=? maxOrphanNum then (Some ErrPoolIsFull, tp)
  else
    let orphan := mkOrphanTx txD (now + orphanTTL) in
    let id := tx_id (d_Tx txD) in
    (None, set_orphans (<[id := orphan]> (orphans tp)) (foldl (addOrphan_index id orphan) (orphansByPrev tp) requireParents) tp).

(** ** The pool *)

Definition is_original (tx : TypesTx) (id : Hash) : bool :=
  match tx_Entries (t_Tx tx) !! id with Some (Entries.OriginalOutput _) => true | _ => false end.

Definition addTransaction (now : Z) (txD : TxDesc) tp : option pool_error * TxPool L :=
  if Z.of_nat (size (pool tp)) >=? maxNewTxNum then (Some ErrPoolIsFull, tp)
  else
    let tx := d_Tx txD in
    let txD := mkTxDesc tx now (d_Height txD) (d_Weight txD) (d_Fee txD) in
    (None, mkPool now (<[tx_id tx := txD]> (pool tp))
             (foldl (fun u id => if is_original tx id then <[id := tx]> u else u) (utxo tp) (tx_results tx))
             (orphans tp) (orphansByPrev tp) (errCache tp) (events tp ++ [MsgNewTx txD])).

Definition RemoveTransaction (now : Z) (txHash : hash_ptr) tp : TxPool L :=
  match pool tp !! p_hash txHash with
  | None => tp
  | Some txD =>
      mkPool now (delete (p_hash txHash) (pool tp))
        (foldl (fun u output => delete output u) (utxo tp) (tx_results (d_Tx txD)))
        (orphans tp) (orphansByPrev tp) (errCache tp) (events tp ++ [MsgRemoveTx txD])
  end.

(** The spent outputs nobody has seen. *)
Definition missing (v : view) (u : gmap Hash TypesTx) (tx : TypesTx) : list Hash :=
  filter (fun hash => ~ CanSpend hash v /\ u !! hash = None) (tx_spends tx).
(** One address for each of them: that of the loop variable, which is left with
    the last spent output. *)
Definition checkOrphanUtxos (db : utxo_db) (tx : TypesTx) tp : pool_error + list Hash :=
  match getTransactionsUtxo db [tx_spends tx] NewUtxoViewpoint with
  | None => inl ErrUnmarshal
  | Some v => inr ((fun _ => default zeroHash (last (tx_spends tx))) <$> missing v (utxo tp) tx)
  end.

(** The closure [addRely]: the queue, and the index without the outputs. *)
Definition rely_output (st : list orphanTx * gmap Hash (gmap Hash orphanTx)) (outHash : Hash)
  : list orphanTx * gmap Hash (gmap Hash orphanTx) :=
  let '(queue, ix) := st in
  match ix !! outHash with
  | None => (queue, ix)
  | Some os => (queue ++ (map_range os).*2, delete outHash ix)
  end.
Definition addRely (tx : TypesTx) (st : list orphanTx * gmap Hash (gmap Hash orphanTx)) : list orphanTx * gmap Hash (gmap Hash orphanTx) :=
  foldl rely_output st (tx_results tx).

(** The loop over the queue; [None] is exhausted fuel. *)
Fixpoint processOrphans_loop (fuel : nat) (db : utxo_db) (now : Z) (queue : list orphanTx) tp : option (TxPool L) :=
  match queue with
  | [] => Some tp
  | processOrphan :: queue =>
      match fuel with
      | O => None
      | S fuel =>
          let txD := ot_TxDesc processOrphan in
          match checkOrphanUtxos db (d_Tx txD) tp with
          | inl _ => processOrphans_loop fuel db now queue tp
          | inr [] =>
              let '(queue, ix) := addRely (d_Tx txD) (queue, orphansByPrev tp) in
              let tp := removeOrphan (tx_id (d_Tx txD)) (set_orphans (orphans tp) ix tp) in
              processOrphans_loop fuel db now queue (addTransaction now txD tp).2
          | inr _ => processOrphans_loop fuel db now queue tp
          end
      end
  end.
Definition processOrphans (fuel : nat) (db : utxo_db) (now : Z) (txD : TxDesc) tp : option (TxPool L) :=
  let '(queue, ix) := addRely (d_Tx txD) ([], orphansByPrev tp) in
  processOrphans_loop fuel db now queue (set_orphans (orphans tp) ix tp).

(** Whether the transaction is an orphan, or the error. *)
Definition processTransaction (fuel : nat) (db : utxo_db) (now : Z) (tx : TypesTx) (height fee : Z) tp
  : option ((bool * option pool_error) * TxPool L) :=
  let txD := mkTxDesc tx 0 height (TxData.SerializedSize (t_TxData tx)) fee in
  match checkOrphanUtxos db tx tp with
  | inl err => Some ((false, Some err), tp)
  | inr [] =>
      match addTransaction now txD tp with
      | (Some err, tp) => Some ((false, Some err), tp)
      | (None, tp) => tp ← processOrphans fuel db now txD tp; Some ((false, None), tp)
      end
  | inr requireParents => let '(err, tp) := addOrphan now txD requireParents tp in Some ((true, err), tp)
  end.

(** [None]: fuel, or a panic. *)
Definition ProcessTransaction (fuel : nat) (db : utxo_db) (now : Z) (tx : TypesTx) (height fee : Z) tp
  : option ((bool * option pool_error) * TxPool L) :=
  dust ← IsDust tx;
  if dust : bool then Some ((false, None), tp) else processTransaction fuel db now tx height fee tp.
(** ** tx.go *)

Context {U : Uint256}.
(** The contracts of the database, by hash; [checkOutput] as in [Validate.v]. *)
Variable GetContract : bytes -> option bytes.
Variable checkOutput : Entry -> gmap Hash Entry -> Z -> Z -> bytes -> Z -> bytes -> list bytes -> bool -> bool + error.

Definition ProgramConverter (prog : bytes) : option bytes :=
  match ParseContractHash prog with Done hash => GetContract hash | _ => None end.

(** [Chain.ValidateTx]; [id] is the address of the hash of the transaction. *)
Definition Chain_ValidateTx (vmfuel vfuel fuel : nat) (db : utxo_db) (now : Z) (bestBlockHeader : BlockHeader) (id : bytes) (tx : TypesTx) tp
  : option ((bool * option pool_error) * TxPool L) :=
  let txHash := mkPtr id (tx_id tx) in
  let '(have, tp) := HaveTransaction txHash tp in
  if have : bool then let '(err, tp) := GetErrCache txHash tp in Some ((false, err), tp)
  else
    dust ← IsDust tx;
    if dust : bool then Some ((false, Some ErrDustTx), AddErrCache txHash ErrDustTx tp)
    else
      let block := MapBlock (mkTypesBlock bestBlockHeader []) in
      match ValidateTx ProgramConverter checkOutput (t_Tx tx) 0 block vmfuel vfuel with
      | VErr e => Some ((false, Some (ErrBadTx e)), AddErrCache txHash (ErrBadTx e) tp)
      | VOk gasStatus => ProcessTransaction fuel db now tx (bh_Height bestBlockHeader) (BTMValue gasStatus) tp
      | VPanic | VFuel => None
      end.
End Pool.
