(* ===== verification/TxPoolSpec.v ===== *)
(** * What the transaction pool keeps

    The invariant of the reachable pools, the termination of [processOrphans],
    which orphans it adopts, what expires; and two ways in which the pool fails:
    orphans filed under the wrong output, and errors that are never found again. *)

From S2P Require Import Prelude Utxo Encoding Entries TxData Merkle MapTx Validate Orphans Checkpoint Tree CasperState VMTypes BlockData TxPool.
From Stdlib Require Import Strings.Byte.
#[local] Open Scope Z_scope.

Abbreviation index := (gmap Hash (gmap Hash orphanTx)).

(** ** Sizes of the index *)

Definition index_total (ix : index) : nat := map_fold (fun _ os n => (size os + n)%nat) 0%nat ix.

Lemma index_total_fresh ix k os : ix !! k = None -> index_total (<[k := os]> ix) = (size os + index_total ix)%nat.
Proof. intros Hk. unfold index_total. rewrite map_fold_insert_L; [done| |done]. intros. lia. Qed.
Lemma index_total_delete ix k os : ix !! k = Some os -> index_total ix = (size os + index_total (delete k ix))%nat.
Proof. intros Hk. rewrite <- (insert_delete_id ix k os Hk) at 1. by rewrite index_total_fresh by apply lookup_delete_eq. Qed.
Lemma index_total_insert ix k os' os :
  ix !! k = Some os -> (size os' <= size os)%nat -> (index_total (<[k := os']> ix) <= index_total ix)%nat.
Proof.
  intros Hk Hs. rewrite <- insert_delete_eq, index_total_fresh by apply lookup_delete_eq. rewrite (index_total_delete ix k os Hk). lia.
Qed.

Section Spec.
Context {R : MapRange} {RL : MapRangeLaws R} {L : LRU} {LL : LRULaws L} {Cr : Crypto}.
Implicit Types (tp : TxPool L).

Lemma length_range {K A} `{Countable K} (m : gmap K A) : length (map_range m).*2 = size m.
Proof. by rewrite length_fmap, map_range_perm, length_map_to_list. Qed.

Lemma addRely_total tx queue ix queue' ix' :
  addRely tx (queue, ix) = (queue', ix') -> (length queue' + index_total ix' = length queue + index_total ix)%nat.
Proof.
  unfold addRely. revert queue ix. induction (tx_results tx) as [|out outs IH]; intros queue ix; cbn; [by intros [= <- <-]|].
  destruct (ix !! out) as [os|] eqn:E; intros H; apply IH in H; [|done].
  rewrite H, length_app, length_range, (index_total_delete ix out os E). lia.
Qed.

Lemma removeOrphan_index_total hash ix spend : (index_total (removeOrphan_index hash ix spend) <= index_total ix)%nat.
Proof.
  unfold removeOrphan_index. destruct (ix !! spend) as [os|] eqn:E; [|done]. cbn zeta.
  assert (Hs : (size (delete hash os) <= size os)%nat) by (rewrite map_size_delete; destruct (os !! hash); cbn; lia).
  destruct (_ =? 0)%nat; [rewrite (index_total_delete ix spend os E); lia|by eapply index_total_insert].
Qed.
Lemma removeOrphan_total hash tp : (index_total (orphansByPrev (removeOrphan hash tp)) <= index_total (orphansByPrev tp))%nat.
Proof.
  unfold removeOrphan. destruct (orphans tp !! hash) as [o|]; [|done]. cbn.
  generalize (orphansByPrev tp). induction (tx_spends (d_Tx (ot_TxDesc o))) as [|s l IH]; intros ix; cbn; [done|].
  etrans; [apply IH|apply removeOrphan_index_total].
Qed.

Lemma addTransaction_index now txD tp :
  orphansByPrev (addTransaction now txD tp).2 = orphansByPrev tp /\ orphans (addTransaction now txD tp).2 = orphans tp.
Proof. unfold addTransaction. by destruct (_ >=? _). Qed.

(** The queue shrinks, and what joins it leaves the index. *)
Lemma loop_returns fuel db now queue tp :
  (length queue + index_total (orphansByPrev tp) <= fuel)%nat -> is_Some (processOrphans_loop fuel db now queue tp).
Proof.
  revert queue tp. induction fuel as [|fuel IH]; intros [|o queue] tp Hf; cbn [processOrphans_loop]; try (by eexists); [cbn in Hf; lia|].
  cbn [length] in Hf. destruct (checkOrphanUtxos db (d_Tx (ot_TxDesc o)) tp) as [e|[|h hs]]; [apply IH; lia| |apply IH; lia].
  destruct (addRely _ (queue, orphansByPrev tp)) as [queue' ix'] eqn:Ea. apply addRely_total in Ea. apply IH.
  rewrite (proj1 (addTransaction_index _ _ _)).
  pose proof (removeOrphan_total (tx_id (d_Tx (ot_TxDesc o))) (set_orphans (orphans tp) ix' tp)) as Hr. cbn in Hr. lia.
Qed.

(** Processing a transaction returns: the queue of orphans only takes what leaves
    the index. *)
Theorem processTransaction_returns fuel db now tx height fee tp :
  (index_total (orphansByPrev tp) <= fuel)%nat -> is_Some (processTransaction fuel db now tx height fee tp).
Proof.
  intros Hf. unfold processTransaction. destruct (checkOrphanUtxos db tx tp) as [e|[|h hs]]; [by eexists| |].
  - destruct (addTransaction now _ tp) as [[e|] tp'] eqn:Ea; [by eexists|].
    assert (Hix : orphansByPrev tp' = orphansByPrev tp).
    { pose proof (addTransaction_index now (mkTxDesc tx 0 height (TxData.SerializedSize (t_TxData tx)) fee) tp) as [H _]. by rewrite Ea in H. }
    unfold processOrphans. cbn [d_Tx]. destruct (addRely tx ([], orphansByPrev tp')) as [queue ix] eqn:Er.
    apply addRely_total in Er. cbn in Er. destruct (loop_returns fuel db now queue (set_orphans (orphans tp') ix tp')) as [tp'' ->];
      [cbn; rewrite Hix in Er; lia|by eexists].
  - destruct (addOrphan now _ _ tp). by eexists.
Qed.

(** ** The invariant *)

(** The transactions that are ever submitted: an identifier determines what its
    transaction spends and creates. *)
Context (known : TypesTx -> Prop).
Context (ids : forall a b, known a -> known b -> tx_id a = tx_id b -> tx_spends a = tx_spends b /\ tx_results a = tx_results b).

(** Every list of the index is non-empty and holds orphans; each orphan is in the
    list of its last spent output only. *)
Definition index_ok (os : gmap Hash orphanTx) (ix : index) : Prop := forall p l, ix !! p = Some l ->
  l <> ∅ /\ forall id o, l !! id = Some o -> os !! id = Some o /\ last (tx_spends (d_Tx (ot_TxDesc o))) = Some p.

Record pool_ok tp : Prop := {
  pk_pool_size : Z.of_nat (size (pool tp)) <= maxNewTxNum;
  pk_orphan_size : Z.of_nat (size (orphans tp)) <= maxOrphanNum;
  pk_pool h d : pool tp !! h = Some d -> tx_id (d_Tx d) = h /\ known (d_Tx d);
  pk_orphans h o : orphans tp !! h = Some o -> tx_id (d_Tx (ot_TxDesc o)) = h /\ known (d_Tx (ot_TxDesc o));
  pk_utxo h tx : utxo tp !! h = Some tx -> h ∈ tx_results tx /\ is_original tx h = true /\ known tx /\ is_Some (pool tp !! tx_id tx);
  pk_index : index_ok (orphans tp) (orphansByPrev tp);
}.

Lemma index_ok_delete os ix p : index_ok os ix -> index_ok os (delete p ix).
Proof. intros H q l [_ Hq]%lookup_delete_Some. by apply H. Qed.

Lemma addRely_ok os tx queue ix queue' ix' :
  addRely tx (queue, ix) = (queue', ix') -> index_ok os ix ->
  index_ok os ix' /\ forall o, o ∈ queue' -> o ∈ queue \/ exists id, os !! id = Some o.
Proof.
  unfold addRely. revert queue ix. induction (tx_results tx) as [|out outs IH]; intros queue ix; cbn.
  { intros [= <- <-] Hix. split; [done|]. by left. }
  destruct (ix !! out) as [l|] eqn:E; intros H Hix; [|by apply IH in H].
  apply IH in H as [Hix' Hq]; [|by apply index_ok_delete]. split; [done|]. intros o Ho.
  destruct (Hq o Ho) as [[Hin|Hin]%elem_of_app|]; [by left| |by right]. right.
  apply list_elem_of_fmap in Hin as ([id o'] & -> & Hin). rewrite map_range_perm in Hin. apply elem_of_map_to_list in Hin.
  exists id. by apply (Hix out l E).
Qed.

(** The queue only grows. *)
Lemma addRely_queue outs queue ix queue' ix' o :
  foldl rely_output (queue, ix) outs = (queue', ix') -> o ∈ queue -> o ∈ queue'.
Proof.
  revert queue ix. induction outs as [|out outs IH]; intros queue ix; cbn; [by intros [= <- _]|].
  destruct (ix !! out) as [l|]; intros H Ho; apply IH in H; try done. apply elem_of_app. by left.
Qed.
Lemma addRely_keeps tx queue ix queue' ix' o : addRely tx (queue, ix) = (queue', ix') -> o ∈ queue -> o ∈ queue'.
Proof. apply addRely_queue. Qed.
Lemma addRely_takes tx queue ix queue' ix' out l id o :
  addRely tx (queue, ix) = (queue', ix') -> out ∈ tx_results tx -> ix !! out = Some l -> l !! id = Some o -> o ∈ queue'.
Proof.
  unfold addRely. revert queue ix. induction (tx_results tx) as [|x outs IH]; intros queue ix; cbn; [by intros _ ?%elem_of_nil|].
  intros H Hin Hl Ho. destruct (decide (x = out)) as [->|Hne].
  - rewrite Hl in H. eapply (addRely_queue outs); [exact H|]. apply elem_of_app. right. apply list_elem_of_fmap. exists (id, o).
    split; [done|]. rewrite map_range_perm. by apply elem_of_map_to_list.
  - apply elem_of_cons in Hin as [->|Hin]; [done|]. destruct (ix !! x); eapply IH; try done. by rewrite lookup_delete_ne.
Qed.

Lemma remove_index_lookup hash spends ix p l :
  foldl (removeOrphan_index hash) ix spends !! p = Some l ->
  exists l0, ix !! p = Some l0 /\ l ⊆ l0 /\ (l0 <> ∅ -> l <> ∅) /\ (p ∈ spends -> l !! hash = None).
Proof.
  revert ix. induction spends as [|s spends IH]; intros ix; cbn [foldl].
  { intros H. exists l. split_and!; try done. by intros ?%elem_of_nil. }
  intros (l1 & H1 & Hsub & Hne & Hp)%IH.
  assert (Hstep : exists l0, ix !! p = Some l0 /\ l1 ⊆ l0 /\ (l0 <> ∅ -> l1 <> ∅) /\ (p = s -> l1 !! hash = None)).
  { unfold removeOrphan_index in H1. destruct (ix !! s) as [os|] eqn:E; [|exists l1; split_and!; try done; intros ->; congruence].
    cbn zeta in H1. destruct (Nat.eqb_spec (size (delete hash os)) 0) as [Hz|Hz].
    - apply lookup_delete_Some in H1 as [Hsp H1]. by exists l1.
    - apply lookup_insert_Some in H1 as [[<- <-]|[Hsp H1]]; [|by exists l1]. exists os. split_and!; [done|apply delete_subseteq| |].
      + intros _ Hd. apply Hz. by rewrite Hd.
      + intros _. apply lookup_delete_eq. }
  destruct Hstep as (l0 & H0 & Hsub0 & Hne0 & Hp0). exists l0. split_and!; [done|by etrans|auto|].
  intros [->|Hin]%elem_of_cons; [|by apply Hp].
  destruct (l !! hash) as [o|] eqn:El; [|done]. eapply lookup_weaken in Hsub; [|exact El]. by rewrite Hp0 in Hsub.
Qed.

Lemma removeOrphan_ok hash tp : pool_ok tp -> pool_ok (removeOrphan hash tp).
Proof.
  intros [Hps Hos Hp Ho Hu Hix]. unfold removeOrphan. destruct (orphans tp !! hash) as [o|] eqn:E; [|done].
  constructor; cbn; try done.
  - rewrite map_size_delete, E. cbn. lia.
  - intros h o' [_ H]%lookup_delete_Some. by apply Ho.
  - intros p l (l0 & H0 & Hsub & Hne & Hp0)%remove_index_lookup. destruct (Hix p l0 H0) as [Hne0 Hl0].
    split; [auto|]. intros id o' Hl. destruct (Hl0 id o') as [Hido Hlast]; [by eapply lookup_weaken|]. split; [|done].
    rewrite lookup_delete_ne; [done|]. intros <-. assert (o' = o) as -> by congruence.
    rewrite Hp0 in Hl; [done|]. apply last_Some in Hlast as [l' ->]. apply elem_of_app. right. by left.
Qed.

Lemma addTransaction_ok now txD tp : known (d_Tx txD) -> pool_ok tp -> pool_ok (addTransaction now txD tp).2.
Proof.
  intros Hk [Hps Hos Hp Ho Hu Hix]. unfold addTransaction. destruct (Z.geb_spec (Z.of_nat (size (pool tp))) maxNewTxNum) as [|Hlt]; [done|].
  constructor; cbn [snd pool utxo orphans orphansByPrev]; try done.
  - rewrite map_size_insert. destruct (pool tp !! _); cbn; lia.
  - intros h d [[<- <-]|[_ Hd]]%lookup_insert_Some; [done|by apply Hp].
  - assert (Hin : forall (u : gmap Hash TypesTx) outs, outs ⊆ tx_results (d_Tx txD) -> (forall h tx, u !! h = Some tx -> h ∈ tx_results tx /\ is_original tx h = true
        /\ known tx /\ (tx_id tx = tx_id (d_Tx txD) \/ is_Some (pool tp !! tx_id tx))) ->
      forall h tx, foldl (fun u id => if is_original (d_Tx txD) id then <[id := d_Tx txD]> u else u) u outs !! h = Some tx ->
        h ∈ tx_results tx /\ is_original tx h = true /\ known tx /\ (tx_id tx = tx_id (d_Tx txD) \/ is_Some (pool tp !! tx_id tx))).
    { intros u outs. revert u. induction outs as [|out outs IH]; intros u Hsub Hgu; [done|]. cbn [foldl]. apply IH; [set_solver|].
      destruct (is_original (d_Tx txD) out) eqn:E; [|done]. intros h tx [[<- <-]|[_ H]]%lookup_insert_Some; [|by apply Hgu].
      split_and!; [apply Hsub; left|done|done|by left]. }
    intros h tx H. apply Hin in H as (H1 & H2 & H3 & H4); [|done|].
    + split_and!; try done. destruct (decide (tx_id tx = tx_id (d_Tx txD))) as [->|Hne]; [rewrite lookup_insert_eq; by eexists|].
      destruct H4 as [|H4]; [done|]. by rewrite lookup_insert_ne.
    + intros h' tx' H'. destruct (Hu h' tx' H') as (? & ? & ? & ?). split_and!; auto.
Qed.

Lemma set_index_ok ix tp : pool_ok tp -> index_ok (orphans tp) ix -> pool_ok (set_orphans (orphans tp) ix tp).
Proof. by intros [Hps Hos Hp Ho Hu _] Hix. Qed.

Lemma loop_ok fuel db now queue tp tp' :
  pool_ok tp -> (forall o, o ∈ queue -> known (d_Tx (ot_TxDesc o))) ->
  processOrphans_loop fuel db now queue tp = Some tp' -> pool_ok tp'.
Proof.
  revert queue tp. induction fuel as [|fuel IH]; intros [|o queue] tp Hok Hq; cbn [processOrphans_loop]; try (by intros [= <-]).
  assert (Hq' : forall o', o' ∈ queue -> known (d_Tx (ot_TxDesc o'))) by (intros o' ?; apply Hq; by right).
  destruct (checkOrphanUtxos db (d_Tx (ot_TxDesc o)) tp) as [e|[|h hs]]; [by apply IH| |by apply IH].
  destruct (addRely _ (queue, orphansByPrev tp)) as [queue' ix'] eqn:Ea. apply (addRely_ok (orphans tp)) in Ea as [Hix' Hqs]; [|apply Hok].
  apply IH.
  - apply addTransaction_ok; [apply Hq; left|]. by apply removeOrphan_ok, set_index_ok.
  - intros o' [?|[id Hid]]%Hqs; [by apply Hq'|]. by apply (pk_orphans _ Hok) in Hid as [_ ?].
Qed.

Lemma addOrphan_index_again id o ix p : addOrphan_index id o (addOrphan_index id o ix p) p = addOrphan_index id o ix p.
Proof. unfold addOrphan_index. by rewrite lookup_insert_eq; cbn; rewrite !insert_insert_eq. Qed.
Lemma addOrphan_index_repeat id o ix p n :
  foldl (addOrphan_index id o) (addOrphan_index id o ix p) (replicate n p) = addOrphan_index id o ix p.
Proof. induction n as [|n IH]; cbn [replicate foldl]; [done|]. by rewrite addOrphan_index_again. Qed.

Lemma addOrphan_ok now txD p n tp :
  known (d_Tx txD) -> last (tx_spends (d_Tx txD)) = Some p -> pool_ok tp -> pool_ok (addOrphan now txD (replicate (S n) p) tp).2.
Proof.
  intros Hk Hlast Hok. pose proof Hok as [Hps Hos Hp Ho Hu Hix]. unfold addOrphan.
  destruct (Z.geb_spec (Z.of_nat (size (orphans tp))) maxOrphanNum) as [|Hlt]; [done|]. cbn zeta.
  set (o := mkOrphanTx _ _). set (id := tx_id (d_Tx txD)). cbn [snd replicate foldl]. rewrite addOrphan_index_repeat.
  constructor; cbn [pool utxo orphans orphansByPrev set_orphans]; try done.
  - rewrite map_size_insert. destruct (orphans tp !! id); cbn; lia.
  - intros h d [[<- <-]|[_ Hd]]%lookup_insert_Some; [done|by apply Ho].
  - assert (Hold : forall q l, orphansByPrev tp !! q = Some l -> forall id' o', l !! id' = Some o' -> (id' = id -> q = p) /\
      orphans tp !! id' = Some o' /\ last (tx_spends (d_Tx (ot_TxDesc o'))) = Some q).
    { intros q l Hl id' o' Ho'. destruct (Hix q l Hl) as [_ H]. destruct (H id' o' Ho') as [Hin Hlq]. split_and!; try done. intros ->.
      destruct (Ho id o' Hin) as [Hid Hkn]. destruct (ids _ _ Hkn Hk Hid) as [Hsp _]. rewrite Hsp, Hlast in Hlq. congruence. }
    unfold addOrphan_index. intros q l [[<- <-]|[Hne Hl]]%lookup_insert_Some.
    + split; [apply insert_non_empty|]. intros id' o' [[<- <-]|[Hne Hl]]%lookup_insert_Some; [by rewrite lookup_insert_eq|].
      rewrite lookup_insert_ne by done. destruct (orphansByPrev tp !! p) as [l|] eqn:E; [|done]. cbn in Hl.
      destruct (Hold p l E id' o' Hl) as (_ & ? & ?). done.
    + split; [by apply (Hix q l Hl)|]. intros id' o' Ho'. destruct (Hold q l Hl id' o' Ho') as (Hid & ? & ?).
      rewrite lookup_insert_ne; [done|]. intros <-. by apply Hne, eq_sym, Hid.
Qed.

(** The addresses [checkOrphanUtxos] returns are one and the same. *)
Lemma checkOrphan_last db tx tp h hs :
  checkOrphanUtxos db tx tp = inr (h :: hs) -> last (tx_spends tx) = Some h /\ h :: hs = replicate (S (length hs)) h.
Proof.
  unfold checkOrphanUtxos. destruct (getTransactionsUtxo _ _ _) as [v|]; [|done].
  destruct (missing v (utxo tp) tx) as [|m ms] eqn:Em; [done|]. intros [= Hh Hs].
  assert (Hne : tx_spends tx <> []) by (intros E; unfold missing in Em; by rewrite E in Em).
  destruct (last (tx_spends tx)) as [p|] eqn:El; [|by apply last_None in El]. cbn in Hh, Hs. subst p. split; [done|].
  cbn. f_equal. rewrite <- Hs, length_fmap. clear. induction ms as [|m ms IH]; cbn; [done|]. by f_equal.
Qed.

Lemma processTransaction_ok fuel db now tx height fee tp r tp' :
  known tx -> pool_ok tp -> processTransaction fuel db now tx height fee tp = Some (r, tp') -> pool_ok tp'.
Proof.
  intros Hk Hok. unfold processTransaction. set (txD := mkTxDesc _ _ _ _ _).
  destruct (checkOrphanUtxos db tx tp) as [e|[|h hs]] eqn:Ec; [by intros [= _ <-]| |].
  - pose proof (addTransaction_ok now txD tp Hk Hok) as Ha. destruct (addTransaction now txD tp) as [[e|] tp1]; [by intros [= _ <-]|].
    unfold processOrphans. destruct (addRely (d_Tx txD) ([], orphansByPrev tp1)) as [queue ix] eqn:Er. cbn [snd] in Ha.
    apply (addRely_ok (orphans tp1)) in Er as [Hix Hq]; [|apply Ha].
    destruct (processOrphans_loop _ _ _ _ _) as [tp2|] eqn:El; [|done]. intros [= _ <-].
    apply loop_ok in El; [done|by apply set_index_ok|]. intros o [[]%elem_of_nil|[id Hid]]%Hq. by apply (pk_orphans _ Ha) in Hid as [_ ?].
  - apply checkOrphan_last in Ec as [Hlast ->]. pose proof (addOrphan_ok now txD h (length hs) tp Hk Hlast Hok) as Ha.
    destruct (addOrphan _ _ _ _) as [e tp1]. by intros [= _ <-].
Qed.

Lemma RemoveTransaction_ok now p tp : pool_ok tp -> pool_ok (RemoveTransaction now p tp).
Proof.
  intros [Hps Hos Hp Ho Hu Hix]. unfold RemoveTransaction. destruct (pool tp !! p_hash p) as [txD|] eqn:E; [|done].
  destruct (Hp _ _ E) as [Hid Hk]. constructor; cbn [pool utxo orphans orphansByPrev]; try done.
  - rewrite map_size_delete, E. cbn. lia.
  - intros h d [_ Hd]%lookup_delete_Some. by apply Hp.
  - assert (Hdel : forall outs (u : gmap Hash TypesTx) h tx, foldl (fun u output => delete output u) u outs !! h = Some tx ->
      u !! h = Some tx /\ h ∉ outs).
    { induction outs as [|out outs IH]; intros u h tx; cbn; [intros H; split; [done|by apply not_elem_of_nil]|].
      intros [[Hne H]%lookup_delete_Some Hn]%IH. split; [done|]. by apply not_elem_of_cons. }
    intros h tx [H Hn]%Hdel. destruct (Hu h tx H) as (H1 & H2 & H3 & H4). split_and!; try done.
    rewrite lookup_delete_ne; [done|]. intros Heq. apply Hn. destruct (ids tx (d_Tx txD) H3 Hk) as [_ <-]; [congruence|done].
Qed.

Lemma ExpireOrphan_ok now tp : pool_ok tp -> pool_ok (ExpireOrphan now tp).
Proof.
  unfold ExpireOrphan. generalize (map_range (orphans tp)). intros l. revert tp. induction l as [|[h o] l IH]; intros tp Hok; cbn [foldl]; [done|].
  apply IH. destruct (_ <? _); [by apply removeOrphan_ok|done].
Qed.

(** One call of a method. *)
Inductive pool_step : TxPool L -> TxPool L -> Prop :=
  | step_process fuel db now tx height fee tp r tp' :
      known tx -> ProcessTransaction fuel db now tx height fee tp = Some (r, tp') -> pool_step tp tp'
  | step_remove now p tp : pool_step tp (RemoveTransaction now p tp)
  | step_expire now tp : pool_step tp (ExpireOrphan now tp)
  | step_add_err p e tp : pool_step tp (AddErrCache p e tp)
  | step_get_err p tp : pool_step tp (GetErrCache p tp).2
  | step_have p tp : pool_step tp (HaveTransaction p tp).2.

(** C38.  The reachable transaction pools: at most 10000 transactions and 2000
    orphans, filed under their ids; every output on offer belongs to a transaction
    of the pool; every list of the orphan index is non-empty and holds orphans,
    each under its last spent output only. *)
Theorem pool_invariant now tp : rtc pool_step (NewTxPool now) tp -> pool_ok tp.
Proof.
  apply (rtc_ind_r (fun tp => pool_ok tp)); [by constructor|].
  intros tp1 tp2 _ Hstep Hok. destruct Hstep as [fuel db now' tx height fee tp0 r tp' Hk H|now' p tp0|now' tp0|p e tp0|p tp0|p tp0].
  - unfold ProcessTransaction in H. destruct (IsDust tx) as [[]|]; [by injection H as _ <-| |done]. by eapply processTransaction_ok.
  - by apply RemoveTransaction_ok.
  - by apply ExpireOrphan_ok.
  - by destruct Hok.
  - unfold GetErrCache. destruct (cache_Get _ _). by destruct Hok.
  - unfold HaveTransaction, IsTransactionInErrCache. destruct (IsTransactionInPool p tp0); [done|]. destruct (cache_Get _ _). by destruct Hok.
Qed.

End Spec.

(** ** Adoption *)

Section Adoption.
Context {R : MapRange} {RL : MapRangeLaws R} {L : LRU} {LL : LRULaws L} {Cr : Crypto}.
Implicit Types (tp : TxPool L).

(** What the processing of orphans only adds to, or takes from. *)
Record grows tp tp' : Prop := {
  gr_pool h : is_Some (pool tp !! h) -> is_Some (pool tp' !! h);
  gr_utxo h : is_Some (utxo tp !! h) -> is_Some (utxo tp' !! h);
  gr_orphans h : orphans tp !! h = None -> orphans tp' !! h = None;
  gr_size : (size (pool tp) <= size (pool tp'))%nat;
}.
#[local] Instance grows_refl : Reflexive grows.
Proof. by constructor. Qed.
#[local] Instance grows_trans : Transitive grows.
Proof. intros x y z [] []. constructor; auto with lia. Qed.

Lemma removeOrphan_orphans hash tp :
  orphans (removeOrphan hash tp) = delete hash (orphans tp) /\ pool (removeOrphan hash tp) = pool tp /\ utxo (removeOrphan hash tp) = utxo tp.
Proof. unfold removeOrphan. destruct (orphans tp !! hash) eqn:E; cbn; [done|]. by rewrite delete_id. Qed.
Lemma removeOrphan_grows hash tp : grows tp (removeOrphan hash tp).
Proof.
  destruct (removeOrphan_orphans hash tp) as (Ho & Hp & Hu). constructor; rewrite ?Ho, ?Hp, ?Hu; try done.
  intros h Hh. by apply lookup_delete_None; right.
Qed.

Lemma addTransaction_grows now txD tp : grows tp (addTransaction now txD tp).2.
Proof.
  unfold addTransaction. destruct (_ >=? _); [reflexivity|]. constructor; cbn [snd pool utxo orphans]; try done.
  - intros h [d Hd]. apply lookup_insert_is_Some'. right. by eexists.
  - generalize (utxo tp). induction (tx_results (d_Tx txD)) as [|out outs IH]; intros u h Hh; cbn [foldl]; [done|].
    apply IH. destruct (is_original _ out); [|done]. apply lookup_insert_is_Some'. by right.
  - rewrite map_size_insert. destruct (pool tp !! _); cbn; lia.
Qed.
Lemma addTransaction_in now txD tp :
  Z.of_nat (size (pool tp)) < maxNewTxNum -> is_Some (pool (addTransaction now txD tp).2 !! tx_id (d_Tx txD)).
Proof.
  intros Hs. unfold addTransaction. destruct (Z.geb_spec (Z.of_nat (size (pool tp))) maxNewTxNum); [lia|].
  cbn [snd pool]. rewrite lookup_insert_eq. by eexists.
Qed.

Lemma loop_grows fuel db now queue tp tp' : processOrphans_loop fuel db now queue tp = Some tp' -> grows tp tp'.
Proof.
  revert queue tp. induction fuel as [|fuel IH]; intros [|o queue] tp; cbn [processOrphans_loop]; try (intros [= <-]; reflexivity).
  destruct (checkOrphanUtxos _ _ _) as [e|[|h hs]]; [apply IH| |apply IH].
  destruct (addRely _ _) as [queue' ix']. intros H%IH. etrans; [|exact H]. etrans; [|apply addTransaction_grows].
  etrans; [|apply removeOrphan_grows]. by constructor.
Qed.

Lemma check_mono db tx tp tp' :
  (forall h, is_Some (utxo tp !! h) -> is_Some (utxo tp' !! h)) -> checkOrphanUtxos db tx tp = inr [] -> checkOrphanUtxos db tx tp' = inr [].
Proof.
  unfold checkOrphanUtxos. intros Hu. destruct (getTransactionsUtxo _ _ _) as [v|]; [|done]. intros [= Hm%fmap_nil_inv].
  enough (missing v (utxo tp') tx = []) as -> by done. apply elem_of_nil_inv. intros h [[Hc Hn] Hin]%list_elem_of_filter.
  assert (Hh : h ∈ missing v (utxo tp) tx); [|by rewrite Hm in Hh; apply elem_of_nil in Hh].
  apply list_elem_of_filter. split; [split; [done|]|done].
  destruct (utxo tp !! h) as [x|] eqn:E; [|done]. destruct (Hu h) as [y Hy]; [by eexists|]. congruence.
Qed.

Lemma loop_adopts fuel db now queue tp tp' o :
  o ∈ queue -> checkOrphanUtxos db (d_Tx (ot_TxDesc o)) tp = inr [] -> Z.of_nat (size (pool tp')) < maxNewTxNum ->
  processOrphans_loop fuel db now queue tp = Some tp' ->
  is_Some (pool tp' !! tx_id (d_Tx (ot_TxDesc o))) /\ orphans tp' !! tx_id (d_Tx (ot_TxDesc o)) = None.
Proof.
  revert queue tp. induction fuel as [|fuel IH]; intros [|o' queue] tp Hin Hc Hs; cbn [processOrphans_loop]; try done; try (by apply elem_of_nil in Hin).
  apply elem_of_cons in Hin as [<-|Hin].
  - rewrite Hc. destruct (addRely _ _) as [queue' ix']. intros H%loop_grows. set (tp1 := removeOrphan _ _) in H.
    assert (Hsz : Z.of_nat (size (pool tp1)) < maxNewTxNum).
    { pose proof (addTransaction_grows now (ot_TxDesc o) tp1). destruct H, H0. lia. }
    destruct H as [Hp _ Ho _]. split; [by apply Hp, addTransaction_in|]. apply Ho. rewrite (proj2 (addTransaction_index _ _ _)).
    unfold tp1. rewrite (proj1 (removeOrphan_orphans _ _)). apply lookup_delete_eq.
  - destruct (checkOrphanUtxos db (d_Tx (ot_TxDesc o')) tp) as [e|[|h hs]]; [by apply IH| |by apply IH].
    destruct (addRely _ _) as [queue' ix'] eqn:Ea. apply IH; [|eapply check_mono; [|exact Hc]|done].
    + eapply addRely_keeps; [exact Ea|done].
    + intros h Hh. apply (gr_utxo _ _ (addTransaction_grows _ _ _)). by rewrite (proj2 (proj2 (removeOrphan_orphans _ _))).
Qed.

(** When a transaction enters the pool, every orphan filed under one of its
    outputs whose inputs are all known then leaves the orphans and enters the pool
    too, as long as the pool does not fill up. *)
Theorem orphan_adopted fuel db now tx height fee tp tp' out l id o :
  let txD := mkTxDesc tx 0 height (TxData.SerializedSize (t_TxData tx)) fee in
  processTransaction fuel db now tx height fee tp = Some ((false, None), tp') ->
  out ∈ tx_results tx -> orphansByPrev tp !! out = Some l -> l !! id = Some o ->
  checkOrphanUtxos db (d_Tx (ot_TxDesc o)) (addTransaction now txD tp).2 = inr [] ->
  Z.of_nat (size (pool tp')) < maxNewTxNum ->
  is_Some (pool tp' !! tx_id (d_Tx (ot_TxDesc o))) /\ orphans tp' !! tx_id (d_Tx (ot_TxDesc o)) = None.
Proof.
  intros txD. unfold processTransaction. fold txD. intros H Hout Hl Ho Hc Hs.
  destruct (checkOrphanUtxos db tx tp) as [e|[|h hs]]; [done| |by destruct (addOrphan _ _ _ _)].
  pose proof (addTransaction_index now txD tp) as [Hix _]. destruct (addTransaction now txD tp) as [[e|] tp1]; [done|]. cbn in Hix, Hc.
  destruct (processOrphans fuel db now txD tp1) as [tp2|] eqn:Hp; [|done]. injection H as <-. unfold processOrphans in Hp.
  destruct (addRely (d_Tx txD) ([], orphansByPrev tp1)) as [queue ix] eqn:Ea. rewrite Hix in Ea.
  eapply (loop_adopts fuel db now queue (set_orphans (orphans tp1) ix tp1)); [by eapply addRely_takes|exact Hc|exact Hs|exact Hp].
Qed.

(** ** Expiry *)

Lemma expire_fold now l tp :
  orphans (foldl (fun tp '(hash, orphan) => if ot_expiration orphan <? now then removeOrphan hash tp else tp) tp l)
  = foldl (fun (os : gmap Hash orphanTx) '(hash, orphan) => if ot_expiration orphan <? now then delete hash os else os) (orphans tp) l.
Proof.
  revert tp. induction l as [|[h o] l IH]; intros tp; cbn; [done|]. rewrite IH. destruct (_ <? _); [|done].
  by rewrite (proj1 (removeOrphan_orphans h tp)).
Qed.

Lemma expired_lookup (now : Z) (l : list (Hash * orphanTx)) (os : gmap Hash orphanTx) (h : Hash) :
  foldl (fun (os : gmap Hash orphanTx) '(hash, orphan) => if ot_expiration orphan <? now then delete hash os else os) os l !! h
  = if decide (Exists (fun p => p.1 = h /\ ot_expiration p.2 < now) l) then None else os !! h.
Proof.
  revert os. induction l as [|[k o] l IH]; intros os; cbn [foldl].
  { rewrite decide_False; [done|]. by intros ?%Exists_nil. }
  rewrite IH. destruct (Z.ltb_spec (ot_expiration o) now) as [Hlt|Hge].
  - destruct (decide (k = h)) as [->|Hne].
    + rewrite lookup_delete_eq, (decide_True (P := Exists _ (_ :: _))) by (left; done). by destruct (decide _).
    + rewrite lookup_delete_ne by done. apply decide_ext. rewrite Exists_cons. cbn. naive_solver.
  - apply decide_ext. rewrite Exists_cons. cbn. naive_solver lia.
Qed.

(** What expires, in any order of the map: the orphans behind their time. *)
Theorem ExpireOrphan_spec now tp :
  orphans (ExpireOrphan now tp) = filter (fun '(_, o) => now <= ot_expiration o) (orphans tp)
  /\ pool (ExpireOrphan now tp) = pool tp /\ utxo (ExpireOrphan now tp) = utxo tp.
Proof.
  split.
  - unfold ExpireOrphan. rewrite expire_fold. apply map_eq. intros h. rewrite expired_lookup.
    assert (Hex : Exists (fun p => p.1 = h /\ ot_expiration p.2 < now) (map_range (orphans tp))
                  <-> exists o, orphans tp !! h = Some o /\ ot_expiration o < now).
    { rewrite Exists_exists. split.
      - intros ([k o] & Hin & Hk & Hlt). cbn in Hk, Hlt. subst k. rewrite map_range_perm in Hin. exists o. split; [|done]. by apply elem_of_map_to_list.
      - intros (o & Ho & Hlt). exists (h, o). rewrite map_range_perm. split; [by apply elem_of_map_to_list|done]. }
    destruct (decide _) as [Hd|Hd]; symmetry.
    + apply Hex in Hd as (o & Ho & Hlt). apply map_lookup_filter_None. right. intros o' Ho'. simplify_eq. lia.
    + destruct (orphans tp !! h) as [o|] eqn:Ho; [|apply map_lookup_filter_None; by left].
      apply map_lookup_filter_Some. split; [done|]. apply Z.nlt_ge. intros Hlt. apply Hd, Hex. by exists o.
  - unfold ExpireOrphan. generalize (map_range (orphans tp)). intros l. revert tp. induction l as [|[h o] l IH]; intros tp; cbn; [done|].
    destruct (IH (if ot_expiration o <? now then removeOrphan h tp else tp)) as [-> ->]. destruct (_ <? _); [|done].
    by destruct (removeOrphan_orphans h tp) as (_ & -> & ->).
Qed.

(** ** Errors that are not found again *)

(** An error recorded under one pointer is not found under another pointer to the
    same hash. *)
Theorem error_forgotten p q e tp :
  p_hash p = p_hash q -> p_addr p <> p_addr q -> pool tp !! p_hash q = None -> entries (errCache tp) !! p_addr q = None ->
  (HaveTransaction q (AddErrCache p e tp)).1 = false /\ (GetErrCache q (AddErrCache p e tp)).1 = None.
Proof.
  intros _ Hne Hp He. assert (Hget : (cache_Get (p_addr q) (cache_Add (p_addr p) e (errCache tp))).1 = None).
  { rewrite (proj1 (entries_Get _ _)). apply eq_None_not_Some. intros [x E].
    eapply lookup_weaken in E; [|apply entries_Add]. rewrite lookup_insert_ne in E by done. by rewrite He in E. }
  unfold HaveTransaction, GetErrCache, IsTransactionInPool, IsTransactionInErrCache. cbn [AddErrCache set_errCache pool errCache].
  rewrite Hp. cbn. destruct (cache_Get _ _) as [v c]. cbn in Hget |- *. by subst v.
Qed.
End Adoption.

(** ** Runs *)

#[local] Existing Instance SomeRange.
#[local] Existing Instance MapLRU.
#[local] Existing Instance StubCrypto.

Definition ex_id (b : byte) : Hash := replicate 32 b.
(** A transaction with these spent and created outputs, that is not dust. *)
Definition ex_pool_data : TxData := mkTxData 1 100 0
  [mkTxInput 1 (Some (TSpend [] [] (mkSpendCommitment (mkAssetAmount (Some BTMAssetID) 5) (ex_id x00) 0 1 [] []))) [] []]
  [mkTxOutput 1 (mkOutputCommitment (mkAssetAmount (Some BTMAssetID) 4) 1 [x51] []) [] originalTxOutput].
Definition ex_entry : Entry := Entries.OriginalOutput (Entries.mkOutput None (mkProgram 1 []) 0 []).
Definition ex_tx (id : Hash) (spends results : list Hash) : TypesTx :=
  mkTypesTx ex_pool_data (mkTx (mkTxHeader 1 100 0 results) id (list_to_map ((fun r => (r, ex_entry)) <$> results)) [] spends).

(** The database has [x] and [o2]; [o1] is created by [parent]. *)
Definition o1 : Hash := ex_id x01.
Definition o2 : Hash := ex_id x02.
Definition ex_db : utxo_db := fun h =>
  if bool_decide (h ∈ [ex_id x0f; o2]) then Some (Some (NewUtxoEntry NormalUTXOType 7 false)) else None.
Definition parent : TypesTx := ex_tx (ex_id x0a) [ex_id x0f] [o1].
Definition child : TypesTx := ex_tx (ex_id x0b) [o1; o2] [ex_id x03].
Definition child' : TypesTx := ex_tx (ex_id x0c) [o2; o1] [ex_id x03].

Definition submit (tx : TypesTx) (tp : TxPool MapLRU) : TxPool MapLRU :=
  match ProcessTransaction 5 ex_db 0 tx 10 1 tp with Some (_, tp) => tp | None => tp end.

Lemma is_Some_test {A} (x : option A) : (if x is Some _ then true else false) = true -> is_Some x.
Proof. by destruct x. Qed.

(** An orphan is filed under its last spent output, whichever is missing:
    one whose first input was missing stays an orphan when that input arrives,
    although it could be spent, while the same transaction with its inputs swapped
    enters the pool. *)
Theorem orphan_misfiled :
  let waiting := submit child (NewTxPool 0) in
  let final := submit parent waiting in
  let final' := submit parent (submit child' (NewTxPool 0)) in
  orphansByPrev waiting !! o1 = None /\ is_Some (orphansByPrev waiting !! o2)
  /\ checkOrphanUtxos ex_db child final = inr [] /\ is_Some (orphans final !! tx_id child) /\ pool final !! tx_id child = None
  /\ is_Some (pool final !! tx_id parent)
  /\ is_Some (pool final' !! tx_id child') /\ orphans final' !! tx_id child' = None.
Proof. cbn zeta. split_and!; try apply is_Some_test; vm_compute; reflexivity. Qed.

Definition ex_known (tx : TypesTx) : Prop := tx = parent \/ tx = child.
Lemma ex_ids a b : ex_known a -> ex_known b -> tx_id a = tx_id b -> tx_spends a = tx_spends b /\ tx_results a = tx_results b.
Proof. by intros [->| ->] [->| ->]. Qed.

Lemma submit_step tx tp :
  ex_known tx -> (if ProcessTransaction 5 ex_db 0 tx 10 1 tp is Some _ then true else false) = true -> pool_step ex_known tp (submit tx tp).
Proof.
  intros Hk H. unfold submit. destruct (ProcessTransaction 5 ex_db 0 tx 10 1 tp) as [[r tp']|] eqn:E; [|done].
  by eapply (step_process _ 5 ex_db 0 tx 10 1).
Qed.

Lemma processTransaction_returns_witness :
  is_Some (processTransaction 5 ex_db 0 parent 10 1 (submit child (NewTxPool 0))).
Proof. apply (processTransaction_returns 5 ex_db 0 parent 10 1 (submit child (NewTxPool 0))). apply Nat.leb_le. vm_compute. reflexivity. Defined.

Lemma pool_invariant_witness : pool_ok ex_known (submit parent (submit child (NewTxPool 0))).
Proof.
  apply (pool_invariant ex_known ex_ids 0 (submit parent (submit child (NewTxPool 0)))).
  eapply rtc_l; [apply submit_step; [by right|vm_compute; reflexivity]|].
  eapply rtc_l; [apply submit_step; [by left|vm_compute; reflexivity]|]. apply rtc_refl.
Defined.

Definition ex_waiting : TxPool MapLRU := submit child' (NewTxPool 0).
Definition ex_result : option ((bool * option pool_error) * TxPool MapLRU) := processTransaction 5 ex_db 0 parent 10 1 ex_waiting.
Definition ex_after : TxPool MapLRU := match ex_result with Some (_, tp) => tp | None => ex_waiting end.
Lemma Some_default {A} (d : A) x : (if x is Some _ then true else false) = true -> x = Some (default d x).
Proof. by destruct x. Qed.
Lemma ex_result_after : ex_result = Some ((false, None), ex_after).
Proof.
  assert (H : (if ex_result is Some ((false, None), _) then true else false) = true) by (vm_compute; reflexivity).
  unfold ex_after. by destruct ex_result as [[[[] [e|]] tp]|].
Qed.

Definition ex_orphan : orphanTx :=
  default (mkOrphanTx (mkTxDesc parent 0 0 0 0) 0) (default ∅ (orphansByPrev ex_waiting !! o1) !! tx_id child').
Lemma ex_orphan_id : tx_id (d_Tx (ot_TxDesc ex_orphan)) = tx_id child'.
Proof. vm_compute. reflexivity. Qed.

Lemma orphan_adopted_witness :
  is_Some (pool ex_after !! tx_id child') /\ orphans ex_after !! tx_id child' = None.
Proof.
  rewrite <- ex_orphan_id.
  apply (orphan_adopted 5 ex_db 0 parent 10 1 ex_waiting ex_after o1 (default ∅ (orphansByPrev ex_waiting !! o1)) (tx_id child') ex_orphan).
  - exact ex_result_after.
  - left.
  - apply Some_default. vm_compute. reflexivity.
  - apply Some_default. vm_compute. reflexivity.
  - vm_compute. reflexivity.
  - vm_compute. reflexivity.
Defined.

Lemma ExpireOrphan_spec_witness :
  orphans (ExpireOrphan (orphanTTL + 1) ex_waiting) = filter (fun '(_, o) => orphanTTL + 1 <= ot_expiration o) (orphans ex_waiting).
Proof. apply (ExpireOrphan_spec (orphanTTL + 1) ex_waiting). Defined.

Lemma error_forgotten_witness :
  let p := mkPtr [x01] (ex_id x07) in
  let q := mkPtr [x02] (ex_id x07) in
  (HaveTransaction q (AddErrCache p ErrDustTx (NewTxPool (L := MapLRU) 0))).1 = false
  /\ (GetErrCache q (AddErrCache p ErrDustTx (NewTxPool (L := MapLRU) 0))).1 = None.
Proof.
  intros p q. apply (error_forgotten p q ErrDustTx (NewTxPool (L := MapLRU) 0)); [reflexivity|discriminate|reflexivity|reflexivity].
Defined.
