(* ===== verification/ContractView.v ===== *)
(** * Registered contracts: protocol/state/contract_view.go and database/contract_view.go

    A contract is registered by an output of a transaction, under the hash of
    its code; the value is the id of the transaction followed by the code.  A
    view collects what a reorganisation detaches and attaches; the database is
    then changed by one batch, computed from what is stored before it.  The
    theorem: the stored contracts are the first registrations of the main chain,
    and a reorganisation keeps them so. *)

From S2P Require Import Prelude VMTypes Opcode Script Orphans Encoding Entries TxData MapTx BlockData.
From Stdlib Require Import Strings.Byte.
#[local] Open Scope Z_scope.

Record ContractViewpoint := mkContractView {
  AttachEntries : gmap bytes bytes;
  DetachEntries : gmap bytes bytes;
}.
Definition NewContractViewpoint : ContractViewpoint := mkContractView ∅ ∅.

(** A fold whose steps may fail. *)
Fixpoint ofold {A S} (f : S -> A -> outcome S) (s : S) (l : list A) : outcome S :=
  match l with [] => Done s | x :: l => s ← f s x; ofold f s l end.

Section View.
Context {Cr : Crypto} {R : MapRange}.
Implicit Types (view : ContractViewpoint).

Definition out_program (output : TxOutput) : bytes := oc_ControlProgram (to_Commitment output).
(** [append(tx.ID.Bytes(), contract...)] *)
Definition contract_value (tx : TypesTx) (contract : bytes) : bytes := tx_ID (t_Tx tx) ++ contract.

Definition attach_output (tx : TypesTx) view (output : TxOutput) : outcome ContractViewpoint :=
  let program := out_program output in
  if IsBCRPScript program then
    contract ← ParseContract program;
    let hash := sha3_256 contract in
    match AttachEntries view !! hash with
    | Some _ => Done view
    | None => Done (mkContractView (<[hash := contract_value tx contract]> (AttachEntries view)) (DetachEntries view))
    end
  else Done view.
Definition attach_tx view (tx : TypesTx) : outcome ContractViewpoint :=
  ofold (attach_output tx) view (TxData.Outputs (t_TxData tx)).
Definition ApplyBlock (block : Block) view : outcome ContractViewpoint := ofold attach_tx view (Transactions block).

Definition detach_output (tx : TypesTx) view (output : TxOutput) : outcome ContractViewpoint :=
  let program := out_program output in
  if IsBCRPScript program then
    contract ← ParseContract program;
    Done (mkContractView (AttachEntries view) (<[sha3_256 contract := contract_value tx contract]> (DetachEntries view)))
  else Done view.
Definition detach_tx view (tx : TypesTx) : outcome ContractViewpoint :=
  ofold (detach_output tx) view (TxData.Outputs (t_TxData tx)).
(** From the last transaction to the first. *)
Definition DetachBlock (block : Block) view : outcome ContractViewpoint :=
  ofold detach_tx view (reverse (Transactions block)).

(** ** database/contract_view.go *)

Inductive batch_op := BSet (k v : bytes) | BDelete (k : bytes).
Definition exec (db : gmap bytes bytes) (op : batch_op) : gmap bytes bytes :=
  match op with BSet k v => <[k := v]> db | BDelete k => delete k db end.
(** [batch.Write]. *)
Definition batch_Write (batch : list batch_op) (db : gmap bytes bytes) : gmap bytes bytes := foldl exec db batch.

(** [db.Get] returns nil for no data, which [bytes.Equal] does not tell from empty data. *)
Definition db_equal (db : gmap bytes bytes) (k value : bytes) : bool := bool_decide (default [] (db !! k) = value).

Definition delete_contract (db : gmap bytes bytes) (p : bytes * bytes) : list batch_op :=
  let '(hash, value) := p in if db_equal db hash value then [BDelete hash] else [].
Definition deleteContractView (db : gmap bytes bytes) view : list batch_op :=
  concat (delete_contract db <$> map_range (DetachEntries view)).

Definition save_contract (db : gmap bytes bytes) view (p : bytes * bytes) : list batch_op :=
  let '(hash, value) := p in
  (match db !! hash with None => [BSet hash value] | Some _ => [] end)
  ++ match DetachEntries view !! hash with
     | Some v => if db_equal db hash v then [BSet hash value] else []
     | None => []
     end.
Definition saveContractView (db : gmap bytes bytes) view : list batch_op :=
  concat (save_contract db view <$> map_range (AttachEntries view)).

(** The code of a contract; [None] is an error. *)
Definition getContract (db : gmap bytes bytes) (hash : bytes) : option bytes :=
  data ← db !! hash;
  if zlen data <=? 32 then None else Some (drop 32 data).

(** ** What a block registers *)

Definition contract_of (output : TxOutput) : option bytes :=
  if IsBCRPScript (out_program output) then
    match ParseContract (out_program output) with Done contract => Some contract | _ => None end
  else None.
Definition tx_contracts (tx : TypesTx) : list bytes := omap contract_of (TxData.Outputs (t_TxData tx)).
Definition tx_regs (tx : TypesTx) : list (bytes * bytes) := (fun c => (sha3_256 c, contract_value tx c)) <$> tx_contracts tx.
Definition regs (txs : list TypesTx) : list (bytes * bytes) := txs ≫= tx_regs.
(** All contracts of some transactions. *)
Definition contracts (txs : list TypesTx) : list bytes := txs ≫= tx_contracts.
(** The first registration under each hash. *)
Definition registry (txs : list TypesTx) : gmap bytes bytes := list_to_map (regs txs).
End View.

(** ** The view computes registries *)

Lemma IsBCRPScript_contract p : IsBCRPScript p = true -> exists c, ParseContract p = Done c.
Proof.
  unfold IsBCRPScript, ParseContract, parse. destruct (ParseProgram p) as [insts| | |]; try done.
  destruct insts as [|i0 [|i1 [|i2 [|i3 [|]]]]]; try done. intros _. by exists (inst_Data i3).
Qed.

Lemma ofold_additive {A S W} (f : S -> A -> outcome S) (act : S -> list W -> S) (w : A -> list W) :
  (forall s, act s [] = s) -> (forall s a b, act s (a ++ b) = act (act s a) b) ->
  (forall s x, f s x = Done (act s (w x))) ->
  forall l s, ofold f s l = Done (act s (l ≫= w)).
Proof.
  intros Hn Ha Hf. induction l as [|x l IH]; intros s; cbn [ofold]; [by rewrite Hn|].
  rewrite Hf. unfold mbind at 1, outcome_bind. by rewrite IH, bind_cons, Ha.
Qed.

Section Spec.
Context {Cr : Crypto} {R : MapRange} {RL : MapRangeLaws R}.
Implicit Types (view : ContractViewpoint).

(** Entries of which the first, or the last, counts. *)
Definition attached view (l : list (bytes * bytes)) : ContractViewpoint :=
  mkContractView (AttachEntries view ∪ list_to_map l) (DetachEntries view).
Definition detached view (l : list (bytes * bytes)) : ContractViewpoint :=
  mkContractView (AttachEntries view) (list_to_map (reverse l) ∪ DetachEntries view).

Lemma attached_nil view : attached view [] = view.
Proof. destruct view as [a d]. unfold attached. f_equal. apply map_union_empty. Qed.
Lemma attached_app view a b : attached view (a ++ b) = attached (attached view a) b.
Proof. unfold attached. cbn [AttachEntries DetachEntries]. by rewrite list_to_map_app, map_union_assoc. Qed.
Lemma detached_nil view : detached view [] = view.
Proof. destruct view as [a d]. unfold detached. f_equal. apply map_empty_union. Qed.
Lemma detached_app view a b : detached view (a ++ b) = detached (detached view a) b.
Proof. unfold detached. cbn [AttachEntries DetachEntries]. by rewrite reverse_app, list_to_map_app, map_union_assoc. Qed.

(** What one output registers. *)
Definition out_regs (tx : TypesTx) (output : TxOutput) : list (bytes * bytes) :=
  match contract_of output with Some c => [(sha3_256 c, contract_value tx c)] | None => [] end.
Lemma tx_regs_out tx : tx_regs tx = TxData.Outputs (t_TxData tx) ≫= out_regs tx.
Proof.
  unfold tx_regs, tx_contracts. induction (TxData.Outputs (t_TxData tx)) as [|o l IH]; [done|].
  rewrite bind_cons, <- IH. unfold out_regs. cbn [omap list_omap]. by destruct (contract_of o).
Qed.

(** One new entry, unless there is one under its key. *)
Lemma union_singleton_l (m : gmap bytes bytes) k v :
  m ∪ list_to_map [(k, v)] = match m !! k with Some _ => m | None => <[k := v]> m end.
Proof.
  change (list_to_map [(k, v)]) with ({[k := v]} : gmap bytes bytes). destruct (m !! k) as [x|] eqn:E.
  - apply map_eq. intros i. rewrite lookup_union, lookup_singleton. case_decide as Hi; [subst i; by rewrite E|].
    by destruct (m !! i).
  - rewrite insert_union_singleton_l. by apply map_union_comm, map_disjoint_singleton_r.
Qed.

Lemma attach_output_spec tx view o : attach_output tx view o = Done (attached view (out_regs tx o)).
Proof.
  unfold attach_output, out_regs, contract_of. cbn zeta. destruct (IsBCRPScript (out_program o)) eqn:Hb; [|by rewrite attached_nil].
  destruct (IsBCRPScript_contract _ Hb) as [c ->]. unfold mbind, outcome_bind, attached. destruct view as [a d].
  cbn [AttachEntries DetachEntries]. rewrite union_singleton_l. by destruct (a !! sha3_256 c).
Qed.
Lemma detach_output_spec tx view o : detach_output tx view o = Done (detached view (out_regs tx o)).
Proof.
  unfold detach_output, out_regs, contract_of. cbn zeta. destruct (IsBCRPScript (out_program o)) eqn:Hb; [|by rewrite detached_nil].
  destruct (IsBCRPScript_contract _ Hb) as [c ->]. unfold mbind, outcome_bind, detached. do 2 f_equal. apply insert_union_singleton_l.
Qed.

Lemma attach_block_spec b view : ApplyBlock b view = Done (attached view (regs (Transactions b))).
Proof.
  apply ofold_additive; [apply attached_nil|apply attached_app|]. intros v tx. rewrite tx_regs_out.
  apply ofold_additive; [apply attached_nil|apply attached_app|]. apply attach_output_spec.
Qed.
Lemma detach_block_spec b view : DetachBlock b view = Done (detached view (regs (reverse (Transactions b)))).
Proof.
  apply ofold_additive; [apply detached_nil|apply detached_app|]. intros v tx. rewrite tx_regs_out.
  apply ofold_additive; [apply detached_nil|apply detached_app|]. apply detach_output_spec.
Qed.

Definition blocks_txs (l : list Block) : list TypesTx := l ≫= Transactions.
Lemma regs_app a b : regs (a ++ b) = regs a ++ regs b.
Proof. apply bind_app. Qed.
Lemma blocks_txs_app a b : blocks_txs (a ++ b) = blocks_txs a ++ blocks_txs b.
Proof. apply bind_app. Qed.
Lemma bind_reverse {A B} (f : A -> list B) l : reverse l ≫= f = reverse (l ≫= (fun x => reverse (f x))).
Proof.
  induction l as [|x l IH]; [done|]. rewrite reverse_cons, bind_app, IH, !bind_cons. cbn [mbind list_bind].
  by rewrite reverse_app, reverse_involutive, app_nil_r.
Qed.

Lemma attach_blocks l view :
  ofold (fun v b => ApplyBlock b v) view l = Done (attached view (regs (blocks_txs l))).
Proof.
  erewrite ofold_additive; [|apply attached_nil|apply attached_app|intros; apply attach_block_spec].
  do 2 f_equal. induction l as [|b l IH]; [done|]. unfold blocks_txs. by rewrite !bind_cons, regs_app, IH.
Qed.
Lemma detach_blocks l view :
  ofold (fun v b => DetachBlock b v) view (reverse l) = Done (detached view (regs (reverse (blocks_txs l)))).
Proof.
  erewrite ofold_additive; [|apply detached_nil|apply detached_app|intros; apply detach_block_spec].
  do 2 f_equal. induction l as [|b l IH]; [done|]. rewrite reverse_cons, bind_app, IH.
  change (blocks_txs (b :: l)) with (Transactions b ++ blocks_txs l). rewrite reverse_app, regs_app. f_equal. apply app_nil_r.
Qed.

(** ** The batch *)

(** The operations of one key. *)
Definition touches (k : bytes) (ops : list batch_op) : Prop := Forall (fun op => match op with BSet k' _ | BDelete k' => k' = k end) ops.

Lemma write_other ops db k k' : touches k ops -> k' <> k -> batch_Write ops db !! k' = db !! k'.
Proof.
  intros Ht Hk. revert db. unfold batch_Write. induction Ht as [|op ops Ho _ IH]; intros db; cbn; [done|]. rewrite IH.
  destruct op; cbn in *; subst; [by apply lookup_insert_ne|by apply lookup_delete_ne].
Qed.
Lemma write_local ops db db' k : touches k ops -> db !! k = db' !! k -> batch_Write ops db !! k = batch_Write ops db' !! k.
Proof.
  intros Ht. revert db db'. unfold batch_Write. induction Ht as [|op ops Ho _ IH]; intros db db' He; cbn; [done|]. apply IH.
  destruct op; cbn in *; subst; [by rewrite !lookup_insert_eq|by rewrite !lookup_delete_eq].
Qed.
Lemma write_app a b db : batch_Write (a ++ b) db = batch_Write b (batch_Write a db).
Proof. apply foldl_app. Qed.

(** Ranging over a map, each key with its own operations: the order is irrelevant. *)
Lemma write_range (m : gmap bytes bytes) (f : bytes * bytes -> list batch_op) db k :
  (forall k v, touches k (f (k, v))) ->
  batch_Write (concat (f <$> map_range m)) db !! k
  = match m !! k with Some v => batch_Write (f (k, v)) db !! k | None => db !! k end.
Proof.
  intros Hf. assert (Hl : forall v, m !! k = Some v <-> (k, v) ∈ map_range m).
  { intros v. rewrite (map_range_perm (A := bytes) m). by rewrite elem_of_map_to_list. }
  assert (Hnd : NoDup (map_range m).*1) by (rewrite (map_range_perm (A := bytes) m); apply NoDup_fst_map_to_list).
  revert Hl Hnd db. generalize (m !! k) (map_range m). intros x l Hl Hnd.
  assert (Hout : forall l : list (bytes * bytes), k ∉ l.*1 -> forall db, batch_Write (concat (f <$> l)) db !! k = db !! k).
  { clear - Hf. induction l as [|[k' v'] l IH]; intros Hk db; [done|]. cbn in Hk. apply not_elem_of_cons in Hk as [Hk Hk'].
    rewrite fmap_cons. cbn [concat]. rewrite write_app, IH by done. by eapply write_other. }
  induction l as [|[k' v'] l IH]; intros db.
  - destruct x as [v|]; [|done]. by pose proof (proj1 (Hl v) eq_refl) as Hv%not_elem_of_nil.
  - rewrite fmap_cons. cbn [concat]. rewrite write_app. cbn in Hnd. apply NoDup_cons in Hnd as [Hk' Hnd].
    destruct (decide (k' = k)) as [->|Hne].
    + rewrite Hout by done. rewrite (proj2 (Hl v')) by left. done.
    + rewrite IH; [|intros v; rewrite Hl, elem_of_cons; naive_solver|done].
      destruct x as [v|]; [apply write_local; [done|]|]; by eapply write_other.
Qed.

(** ** Reorganisation *)

Lemma registry_app a b : registry (a ++ b) = registry a ∪ registry b.
Proof. unfold registry. by rewrite regs_app, list_to_map_app. Qed.

Lemma regs_inv txs h v : (h, v) ∈ regs txs -> exists tx c, tx ∈ txs /\ c ∈ tx_contracts tx /\ h = sha3_256 c /\ v = contract_value tx c.
Proof.
  unfold regs, tx_regs. intros (tx & (c & [= -> ->] & Hc)%list_elem_of_fmap & Ht)%list_elem_of_bind. by exists tx, c.
Qed.
Lemma registry_inv txs h v :
  registry txs !! h = Some v -> exists tx c, tx ∈ txs /\ c ∈ tx_contracts tx /\ h = sha3_256 c /\ v = contract_value tx c.
Proof. intros Hv. by apply regs_inv, elem_of_list_to_map_2. Qed.
Lemma elem_of_contracts tx c txs : tx ∈ txs -> c ∈ tx_contracts tx -> c ∈ contracts txs.
Proof. intros Ht Hc. unfold contracts. apply list_elem_of_bind. eauto. Qed.

(** In a transaction the last registration is the first. *)
Lemma tx_registry_reverse tx :
  (forall c c', c ∈ tx_contracts tx -> c' ∈ tx_contracts tx -> sha3_256 c = sha3_256 c' -> c = c') ->
  list_to_map (M := gmap bytes bytes) (reverse (tx_regs tx)) = list_to_map (tx_regs tx).
Proof.
  intros Hinj. assert (Hf : forall h v v', (h, v) ∈ tx_regs tx -> (h, v') ∈ tx_regs tx -> v = v').
  { unfold tx_regs. intros h v v' (c & [= -> ->] & Hc)%list_elem_of_fmap (c' & [= He ->] & Hc')%list_elem_of_fmap. by rewrite (Hinj c c'). }
  apply map_eq. intros h. destruct (list_to_map (tx_regs tx) !! h) as [v|] eqn:E.
  - apply elem_of_list_to_map_2 in E. apply elem_of_list_to_map_1'.
    + intros v' Hv'. rewrite elem_of_reverse in Hv'. by eapply Hf.
    + by rewrite elem_of_reverse.
  - apply not_elem_of_list_to_map in E. apply not_elem_of_list_to_map. by rewrite fmap_reverse, elem_of_reverse.
Qed.

Lemma detached_registry txs :
  (forall c c', c ∈ contracts txs -> c' ∈ contracts txs -> sha3_256 c = sha3_256 c' -> c = c') ->
  list_to_map (reverse (regs (reverse txs))) = registry txs.
Proof.
  intros Hinj. unfold regs, registry. rewrite bind_reverse, reverse_involutive. induction txs as [|tx txs IH]; [done|].
  unfold regs. rewrite !bind_cons, !list_to_map_app. unfold contracts in Hinj. rewrite bind_cons in Hinj. rewrite tx_registry_reverse.
  - f_equal. apply IH. intros c c' Hc Hc'. apply Hinj; apply elem_of_app; by right.
  - intros c c' Hc Hc'. apply Hinj; apply elem_of_app; by left.
Qed.

(** The batch of a reorganisation from [P ++ A] to [P ++ B]. *)
Lemma batch_registry P A B view :
  (forall c c', c ∈ contracts (P ++ A) -> c' ∈ contracts (P ++ A) -> sha3_256 c = sha3_256 c' -> c = c') ->
  (forall t t', t ∈ P -> t' ∈ A -> tx_ID (t_Tx t) <> tx_ID (t_Tx t')) ->
  DetachEntries view = registry A -> AttachEntries view = registry B ->
  let db := registry (P ++ A) in
  batch_Write (deleteContractView db view ++ saveContractView db view) db = registry (P ++ B).
Proof.
  intros Hinj Hid HD HA db. apply map_eq. intros h. rewrite write_app. unfold deleteContractView, saveContractView.
  assert (Td : forall k v, touches k (delete_contract db (k, v))) by (intros k v; unfold delete_contract, touches; case_match; by repeat constructor).
  assert (Ts : forall k v, touches k (save_contract db view (k, v))).
  { intros k v. unfold save_contract, touches. apply Forall_app. split; repeat case_match; by repeat constructor. }
  rewrite write_range by exact Ts. rewrite HA.
  set (db1 := batch_Write _ db). assert (E1 : db1 !! h = match registry A !! h with
    | Some v => batch_Write (delete_contract db (h, v)) db !! h | None => db !! h end) by (unfold db1; by rewrite write_range, HD).
  clearbody db1. unfold delete_contract, save_contract, db_equal in *. rewrite HD in *.
  assert (Edb : db !! h = union_with (fun x _ => Some x) (registry P !! h) (registry A !! h)) by (unfold db; rewrite registry_app; apply lookup_union).
  rewrite registry_app, lookup_union. clearbody db.
  destruct (registry P !! h) as [p|] eqn:EP; destruct (registry A !! h) as [a|] eqn:EA; cbn [union_with option_union_with] in Edb; rewrite Edb in *; cbn [default] in *.
  - assert (p <> a).
    { apply registry_inv in EP as (t & c & Ht & Hc & -> & ->). apply registry_inv in EA as (t' & c' & Ht' & Hc' & He & ->).
      assert (Hc1 : c ∈ contracts (P ++ A)) by (apply (elem_of_contracts t); [apply elem_of_app; by left|done]).
      assert (Hc2 : c' ∈ contracts (P ++ A)) by (apply (elem_of_contracts t'); [apply elem_of_app; by right|done]).
      pose proof (Hinj _ _ Hc1 Hc2 He) as <-.
      unfold contract_value. intros Hv%app_inv_tail. by apply (Hid t t' Ht Ht'). }
    rewrite bool_decide_eq_false_2 in * by done. cbn in E1. destruct (registry B !! h); cbn; congruence.
  - destruct (registry B !! h); cbn; congruence.
  - rewrite bool_decide_eq_true_2 in * by done. cbn in E1. rewrite lookup_delete_eq in E1.
    destruct (registry B !! h); cbn; [apply lookup_insert_eq|done].
  - destruct (registry B !! h); cbn; [apply lookup_insert_eq|congruence].
Qed.

Lemma collision_dec (l : list bytes) :
  collision l l \/ forall c c', c ∈ l -> c' ∈ l -> sha3_256 c = sha3_256 c' -> c = c'.
Proof.
  destruct (decide (Exists (fun a => Exists (fun b => a <> b /\ sha3_256 a = sha3_256 b) l) l)) as [He|Hn].
  - left. apply Exists_exists in He as (a & Ha & (b & Hb & Hab & Heq)%Exists_exists). by exists a, b.
  - right. intros c c' Hc Hc' Heq. destruct (decide (c = c')) as [|Hne]; [done|]. exfalso. apply Hn, Exists_exists.
    exists c. split; [done|]. apply Exists_exists. by exists c'.
Qed.

(** Detaching the blocks [A], last first, and attaching [B] leaves a view whose
    batch takes the registry of [P ++ A] to that of [P ++ B]. *)
Lemma contracts_reorganised P A B :
  (forall t t', t ∈ blocks_txs P -> t' ∈ blocks_txs A -> tx_ID (t_Tx t) <> tx_ID (t_Tx t')) ->
  let db := registry (blocks_txs (P ++ A)) in
  exists v1 v2,
    ofold (fun v b => DetachBlock b v) NewContractViewpoint (reverse A) = Done v1
    /\ ofold (fun v b => ApplyBlock b v) v1 B = Done v2
    /\ (batch_Write (deleteContractView db v2 ++ saveContractView db v2) db = registry (blocks_txs (P ++ B))
        \/ collision (contracts (blocks_txs (P ++ A))) (contracts (blocks_txs (P ++ A)))).
Proof.
  intros Hid. rewrite detach_blocks. cbn zeta. eexists _, _. split; [done|]. rewrite attach_blocks. split; [done|].
  destruct (collision_dec (contracts (blocks_txs (P ++ A)))) as [Hc|Hinj]; [by right|left]. rewrite !blocks_txs_app in *.
  apply batch_registry; [done..| |].
  - cbn. rewrite map_union_empty. apply detached_registry. intros c c' Hc Hc'. unfold contracts in *. rewrite bind_app in Hinj.
    apply Hinj; apply elem_of_app; by right.
  - cbn. apply map_empty_union.
Qed.
End Spec.
