(* ===== verification/UtxoStore.v ===== *)
(** * The view over the stored outputs

    The chain does not load the set of unspent outputs: a view holds the outputs
    of the blocks at hand, loaded before each block ([getTransactionsUtxo]) and
    written back at the end ([saveUtxoView]).  The lemmas: the operations on such
    a view are the operations on the view laid over the database, errors
    included, and what is written back has the unspent outputs of the overlay. *)

From S2P Require Import Prelude Utxo.
#[local] Open Scope Z_scope.

Section Overlay.
Context {Hash : Type} {Hash_eq : EqDecision Hash} {Hash_countable : Countable Hash}.
Abbreviation view := (gmap Hash UtxoEntry).
Implicit Types (v db : view).

(** The database as it is read: every output unmarshals. *)
Definition db_reads (db : view) : utxo_db (Hash := Hash) := fun hash => Some <$> db !! hash.

(** Whatever of [ids] is stored is in the view. *)
Definition loaded v db (ids : list Hash) : Prop := forall id, id ∈ ids -> v !! id = None -> db !! id = None.

Lemma loaded_lookup v db ids id : loaded v db ids -> id ∈ ids -> (v ∪ db) !! id = v !! id.
Proof. intros Hl Hid. rewrite lookup_union. destruct (v !! id) eqn:E; [by destruct (db !! id)|]. by rewrite (Hl id). Qed.
Lemma loaded_insert v db ids id e : loaded v db ids -> loaded (<[id := e]> v) db ids.
Proof. intros Hl i Hi. destruct (decide (i = id)) as [->|]; [by rewrite lookup_insert_eq|]. rewrite lookup_insert_ne by done. by apply Hl. Qed.
Lemma loaded_cons v db id ids : loaded v db (id :: ids) <-> (v !! id = None -> db !! id = None) /\ loaded v db ids.
Proof. unfold loaded. setoid_rewrite elem_of_cons. naive_solver. Qed.
Lemma loaded_app v db a b : loaded v db (a ++ b) <-> loaded v db a /\ loaded v db b.
Proof. unfold loaded. setoid_rewrite elem_of_app. naive_solver. Qed.

(** ** Loading *)

Lemma get_utxos_spec db ids v :
  exists v', get_utxos (db_reads db) ids v = Some v' /\ v' ∪ db = v ∪ db /\ v ⊆ v' /\ loaded v' db ids.
Proof.
  revert v. induction ids as [|id ids IH]; intros v; cbn [get_utxos].
  - exists v. split_and!; [done..|]. by intros id Hid%not_elem_of_nil.
  - change (db_reads db id) with (Some <$> db !! id). unfold HasUtxo. case_bool_decide as Hv; [|destruct (db !! id) as [u|] eqn:Hdb; cbn].
    + destruct (IH v) as (v' & -> & He & Hs & Hl). exists v'. split_and!; [done..|]. apply loaded_cons. split; [|done].
      destruct Hv as [e Hv]. by rewrite (lookup_weaken _ _ _ _ Hv Hs).
    + destruct (IH (<[id := u]> v)) as (v' & -> & He & Hs & Hl). exists v'. split_and!; [done| | |].
      * rewrite He. rewrite <- insert_union_l. apply insert_id. rewrite lookup_union, Hdb. apply eq_None_not_Some in Hv. by rewrite Hv.
      * etrans; [|exact Hs]. apply insert_subseteq. by apply eq_None_not_Some.
      * apply loaded_cons. split; [|done]. rewrite (lookup_weaken _ _ id u (lookup_insert_eq _ _ _) Hs). done.
    + destruct (IH v) as (v' & -> & He & Hs & Hl). exists v'. split_and!; [done..|]. by apply loaded_cons.
Qed.

Lemma loaded_mono v v' db ids : v ⊆ v' -> loaded v db ids -> loaded v' db ids.
Proof.
  intros Hs Hl id Hid Hn. apply Hl; [done|]. destruct (v !! id) eqn:E; [|done]. by rewrite (lookup_weaken _ _ _ _ E Hs) in Hn.
Qed.
Lemma getTransactionsUtxo_spec db txs v :
  exists v', getTransactionsUtxo (db_reads db) txs v = Some v' /\ v' ∪ db = v ∪ db /\ v ⊆ v' /\ loaded v' db (concat txs).
Proof.
  revert v. induction txs as [|ids txs IH]; intros v; cbn [getTransactionsUtxo concat].
  - exists v. split_and!; [done..|]. by intros id Hid%not_elem_of_nil.
  - destruct (get_utxos_spec db ids v) as (v1 & -> & He1 & Hs1 & Hl1). cbn.
    destruct (IH v1) as (v2 & -> & He2 & Hs2 & Hl2). exists v2.
    split_and!; [done|congruence|by etrans|]. apply loaded_app. split; [by eapply loaded_mono|done].
Qed.

(** ** Operations on the overlay *)

(** The result [r] on the view, laid over [db], is the result [r'] on the overlay,
    and the view still holds [ids]. *)
Definition over db (ids : list Hash) (r r' : view * option utxo_error) : Prop :=
  r'.1 = r.1 ∪ db /\ r'.2 = r.2 /\ loaded r.1 db ids.

Section Blocks.
Context (pending : list VotePendingBlockNum).
Implicit Types (tx : bc_tx (Hash := Hash)) (block : bc_block (Hash := Hash)).

Lemma spend_over block ids l v db :
  loaded v db ids -> loaded v db l ->
  over db l (applySpendUtxo_loop pending block ids v) (applySpendUtxo_loop pending block ids (v ∪ db)).
Proof.
  unfold over. revert v. induction ids as [|id ids IH]; intros v Hids Hl; cbn [applySpendUtxo_loop]; [done|].
  rewrite (loaded_lookup v db (id :: ids)) by (done || left). apply loaded_cons in Hids as [_ Hids].
  destruct (v !! id) as [e|]; [|done]. destruct (utxo_Spent e); [done|]. destruct (maturity pending block e); [done|].
  rewrite insert_union_l. apply IH; by apply loaded_insert.
Qed.
Lemma output_over block tx ids l v db :
  loaded v db l ->
  applyOutputUtxo_loop block tx ids (v ∪ db) = applyOutputUtxo_loop block tx ids v ∪ db
  /\ loaded (applyOutputUtxo_loop block tx ids v) db l.
Proof.
  revert v. induction ids as [|id ids IH]; intros v Hl; cbn [applyOutputUtxo_loop]; [done|].
  destruct (tx_Entries tx !! id) as [e|]; [|by apply IH]. destruct (output_type e) as [[t a]|]; [|by apply IH].
  destruct (a =? 0); [by apply IH|]. cbn zeta. rewrite insert_union_l. by apply IH, loaded_insert.
Qed.
Lemma unspend_over tx ids l v db :
  loaded v db ids -> loaded v db l ->
  over db l (detachSpendUtxo_loop tx ids v) (detachSpendUtxo_loop tx ids (v ∪ db)).
Proof.
  unfold over. revert v. induction ids as [|id ids IH]; intros v Hids Hl; cbn [detachSpendUtxo_loop]; [done|].
  destruct (tx_Entries tx !! id) as [eo|]; [|done]. destruct (output_type eo) as [[t a]|]; [|done].
  rewrite (loaded_lookup v db (id :: ids)) by (done || left). apply loaded_cons in Hids as [_ Hids].
  destruct (v !! id) as [e|]; [destruct (negb (utxo_Spent e)); [done|]|]; rewrite insert_union_l; apply IH; by apply loaded_insert.
Qed.
Lemma unoutput_over tx ids l v db :
  loaded v db l ->
  detachOutputUtxo_loop tx ids (v ∪ db) = detachOutputUtxo_loop tx ids v ∪ db
  /\ loaded (detachOutputUtxo_loop tx ids v) db l.
Proof.
  revert v. induction ids as [|id ids IH]; intros v Hl; cbn [detachOutputUtxo_loop]; [done|].
  destruct (tx_Entries tx !! id) as [e|]; [|by apply IH]. destruct (output_type e) as [[t a]|]; [|by apply IH].
  destruct (a =? 0); [by apply IH|]. rewrite insert_union_l. by apply IH, loaded_insert.
Qed.

Lemma apply_tx_over block tx l v db :
  loaded v db (SpentOutputIDs tx) -> loaded v db l ->
  over db l (ApplyTransaction pending block tx v) (ApplyTransaction pending block tx (v ∪ db)).
Proof.
  intros Hs Hl. unfold ApplyTransaction, applySpendUtxo, applyOutputUtxo.
  destruct (spend_over block _ l v db Hs Hl) as (E1 & E2 & Hl1).
  destruct (applySpendUtxo_loop _ _ _ v) as [v1 r1], (applySpendUtxo_loop _ _ _ (v ∪ db)) as [v2 r2]. cbn in *. subst.
  destruct r1; [done|]. destruct (output_over block tx (ResultIds tx) l v1 db Hl1) as [E Hl2]. by rewrite E.
Qed.
Lemma detach_tx_over tx l v db :
  loaded v db (SpentOutputIDs tx) -> loaded v db l ->
  over db l (DetachTransaction tx v) (DetachTransaction tx (v ∪ db)).
Proof.
  intros Hs Hl. unfold DetachTransaction, detachSpendUtxo, detachOutputUtxo.
  destruct (unspend_over tx _ l v db Hs Hl) as (E1 & E2 & Hl1).
  destruct (detachSpendUtxo_loop _ _ v) as [v1 r1], (detachSpendUtxo_loop _ _ (v ∪ db)) as [v2 r2]. cbn in *. subst.
  destruct r1; [done|]. destruct (unoutput_over tx (ResultIds tx) l v1 db Hl1) as [E Hl2]. by rewrite E.
Qed.

Lemma apply_txs_over block txs v db :
  loaded v db (all_spent txs) -> over db [] (apply_txs pending block txs v) (apply_txs pending block txs (v ∪ db)).
Proof.
  revert v. induction txs as [|tx txs IH]; intros v; cbn [apply_txs].
  - intros _. split_and!; [done..|]. by intros id Hid%not_elem_of_nil.
  - unfold all_spent. rewrite fmap_cons. cbn [concat]. intros [Hs Hl]%loaded_app.
    destruct (apply_tx_over block tx _ v db Hs Hl) as (E1 & E2 & Hl1).
    destruct (ApplyTransaction _ _ _ v) as [v1 r1], (ApplyTransaction _ _ _ (v ∪ db)) as [v2 r2]. cbn in *. subst.
    destruct r1; [|by apply IH]. split_and!; [done..|]. by intros id Hid%not_elem_of_nil.
Qed.
Lemma detach_txs_over txs v db :
  loaded v db (all_spent txs) -> over db [] (detach_txs txs v) (detach_txs txs (v ∪ db)).
Proof.
  revert v. induction txs as [|tx txs IH]; intros v; cbn [detach_txs].
  - intros _. split_and!; [done..|]. by intros id Hid%not_elem_of_nil.
  - unfold all_spent. rewrite fmap_cons. cbn [concat]. intros [Hs Hl]%loaded_app.
    destruct (detach_tx_over tx _ v db Hs Hl) as (E1 & E2 & Hl1).
    destruct (DetachTransaction _ v) as [v1 r1], (DetachTransaction _ (v ∪ db)) as [v2 r2]. cbn in *. subst.
    destruct r1; [|by apply IH]. split_and!; [done..|]. by intros id Hid%not_elem_of_nil.
Qed.
End Blocks.

(** ** Writing back *)

Lemma save_unspent v db : unspent (saveUtxoView v db) = unspent (v ∪ db).
Proof.
  apply set_eq. intros id. rewrite !elem_of_unspent. rewrite lookup_union.
  assert (E : saveUtxoView v db !! id = match v !! id with Some e => save_entry e | None => db !! id end)
    by (unfold saveUtxoView; rewrite lookup_merge; by destruct (v !! id), (db !! id)).
  rewrite E. clear E.
  destruct (v !! id) as [e|] eqn:Ev, (db !! id) as [d|] eqn:Ed; cbn; unfold save_entry; [..|done];
    try (destruct (utxo_Spent e) eqn:Es; cbn; [destruct (negb _)|]); naive_solver congruence.
Qed.
End Overlay.
