(* ===== verification/Store.v ===== *)
(** * The block store: database/store.go and database/store_geter.go

    Headers and transactions are stored as the texts of [BlockData.v]; hashes,
    unspent outputs and the status, which pass through JSON and protobuf, as
    values.  Each kind of key has its prefix, hence a map of its own.  The caches
    in front of the database ([cache.go]) are dropped from where the store
    writes: a lookup is one of the database.  A batch is written at once.

    Theorem: a saved block is read back, and the others are untouched. *)

From S2P Require Import Prelude VMTypes Utxo Orphans Checkpoint Encoding Entries TxData Merkle MapTx BlockData ContractView.
From Stdlib Require Import Strings.Byte.
#[local] Open Scope Z_scope.

(** state/store.go *)
Record BlockStoreState := mkStatus { ss_Height : Z; ss_Hash : Hash; ss_FinalizedHeight : Z; ss_FinalizedHash : Hash }.
#[export] Instance BlockStoreState_eq_dec : EqDecision BlockStoreState.
Proof. solve_decision. Defined.

Record Store := mkStore {
  db_headers : gmap Hash bytes;
  db_txs : gmap Hash bytes;
  db_hashes : gmap Z (list Hash);
  db_main : gmap Z Hash;
  db_utxos : gmap Hash UtxoEntry;
  db_contracts : gmap bytes bytes;
  db_status : option BlockStoreState;
}.

Definition NewStore : Store := mkStore ∅ ∅ ∅ ∅ ∅ ∅ None.

Definition of_inr {A B} (x : A + B) : option B := match x with inr b => Some b | inl _ => None end.

Section Store.
Context {Cr : Crypto} {R : MapRange}.
Implicit Types (st : Store).

(** [None] is an error: no such key, or a text that does not parse. *)
Definition GetBlockHeader (hash : Hash) st : option BlockHeader :=
  binaryBlockHeader ← db_headers st !! hash; of_inr (bh_UnmarshalText binaryBlockHeader).
Definition GetBlockTransactions (hash : Hash) st : option (list TypesTx) :=
  binaryBlockTxs ← db_txs st !! hash;
  block ← of_inr (b_UnmarshalText binaryBlockTxs);
  Some (Transactions block).
Definition GetBlockHashesByHeight (height : Z) st : list Hash := default [] (db_hashes st !! height).
Definition GetMainChainHash (height : Z) st : option Hash := db_main st !! height.
Definition GetBlock (hash : Hash) st : option Block :=
  blockHeader ← GetBlockHeader hash st;
  txs ← GetBlockTransactions hash st;
  Some (mkTypesBlock blockHeader txs).
Definition BlockExist (hash : Hash) st : bool := bool_decide (is_Some (GetBlockHeader hash st)).
Definition GetStoreStatus st : option BlockStoreState := db_status st.
Definition GetContract (hash : bytes) st : option bytes := getContract (db_contracts st) hash.

(** The outputs as [database/utxo_view.go] reads them. *)
Definition st_utxos st : utxo_db (Hash := Hash) := fun hash => Some <$> db_utxos st !! hash.
Definition GetUtxo (hash : Hash) st : option UtxoEntry := db_utxos st !! hash.

(** [None] is a failure of the serialization. *)
Definition SaveBlockHeader (blockHeader : BlockHeader) st : option Store :=
  binaryBlockHeader ← of_inr (bh_MarshalText blockHeader);
  Some (mkStore (<[bh_Hash blockHeader := binaryBlockHeader]> (db_headers st)) (db_txs st) (db_hashes st)
          (db_main st) (db_utxos st) (db_contracts st) (db_status st)).

Definition SaveBlock (block : Block) st : option Store :=
  binaryBlockHeader ← of_inr (MarshalTextForBlockHeader block);
  binaryBlockTxs ← of_inr (MarshalTextForTransactions block);
  let height := bh_Height (bHeader block) in
  let blockHash := bh_Hash (bHeader block) in
  let blockHashes := GetBlockHashesByHeight height st ++ [blockHash] in
  Some (mkStore (<[blockHash := binaryBlockHeader]> (db_headers st)) (<[blockHash := binaryBlockTxs]> (db_txs st))
          (<[height := blockHashes]> (db_hashes st)) (db_main st) (db_utxos st) (db_contracts st) (db_status st)).

Definition index_header (m : gmap Z Hash) (bh : BlockHeader) : gmap Z Hash := <[bh_Height bh := bh_Hash bh]> m.

Definition SaveChainStatus (blockHeader : BlockHeader) (mainBlockHeaders : list BlockHeader) (view : gmap Hash UtxoEntry)
    (contractView : ContractViewpoint) (finalizedHeight : Z) (finalizedHash : Hash) st : Store :=
  mkStore (db_headers st) (db_txs st) (db_hashes st)
    (foldl index_header (db_main st) mainBlockHeaders)
    (saveUtxoView view (db_utxos st))
    (batch_Write (deleteContractView (db_contracts st) contractView ++ saveContractView (db_contracts st) contractView) (db_contracts st))
    (Some (mkStatus (bh_Height blockHeader) (bh_Hash blockHeader) finalizedHeight finalizedHash)).
End Store.

(** ** Reading back *)

Section RoundTrip.
Context {Cr : Crypto}.
Implicit Types (st : Store).

Lemma SaveBlock_spec b st st' :
  SaveBlock b st = Some st' ->
  (block_wf b -> GetBlock (bh_Hash (bHeader b)) st' = Some b)
  /\ (forall h, h <> bh_Hash (bHeader b) -> GetBlock h st' = GetBlock h st)
  /\ db_main st' = db_main st /\ db_utxos st' = db_utxos st /\ db_contracts st' = db_contracts st /\ db_status st' = db_status st.
Proof.
  unfold SaveBlock. destruct (MarshalTextForBlockHeader b) as [|p] eqn:Hp; [done|].
  destruct (MarshalTextForTransactions b) as [|q] eqn:Hq; [done|]. cbn. intros [= <-]. split_and!.
  - intros Hw. unfold GetBlock, GetBlockHeader, GetBlockTransactions. cbn. rewrite !lookup_insert_eq. cbn.
    rewrite (header_rt b p (proj1 Hw) Hp). cbn. erewrite marshal_rt; [|right; left|exact Hw|exact Hq]. cbn. by destruct b.
  - intros h Hh. unfold GetBlock, GetBlockHeader, GetBlockTransactions. cbn. by rewrite !lookup_insert_ne by done.
  - done.
  - done.
  - done.
  - done.
Qed.
End RoundTrip.
