(* ===== verification/Chain.v ===== *)
(** * The chain: protocol/block.go and protocol/protocol.go

    [Chain] joins the parts: the store, the consensus, the pool of transactions
    and the pool of orphans, and the header of the best block.  Its operations
    run in one goroutine ([blockProcessor], see [Rollback.v]) and are
    computations on its state, with errors and panics.

    The database of the consensus is the same database: a saved block is put
    into the store and among the [db_blocks] of [CasperState.v].  The orphan
    pool holds pointers to blocks; [ch_bodies] is what they point to. *)

From S2P Require Import Prelude Checked GoSlice VMTypes Opcode Machine Interp Script Utxo Encoding Entries TxData Merkle MapTx Validate Orphans Checkpoint Tree CasperState Casper Restart BlockData BlockValidation TxPool ContractView Store.
From Stdlib Require Import Strings.Byte.
#[local] Open Scope Z_scope.

Inductive chain_error :=
  | ErrGetHeader                   (* of the store: no header under the hash *)
  | ErrGetBlock
  | ErrMainChainHash
  | ErrUnmarshalUtxo
  | ErrUtxo (e : utxo_error)
  | ErrContract (e : script_error)
  | ErrBadBlock (e : block_error)
  | ErrConsensus (e : cerror)
  | ErrSaveBlock.

(** A result; [CHalt] is a panic, exhausted fuel, or a call that never comes back. *)
Inductive cres (A : Type) := COk (a : A) | CErr (e : chain_error) | CHalt.
Arguments COk {A} a.
Arguments CErr {A} e.
Arguments CHalt {A}.

#[export] Instance cres_ret : MRet cres := fun A a => COk a.
#[export] Instance cres_bind : MBind cres := fun A B f m =>
  match m with COk a => f a | CErr e => CErr e | CHalt => CHalt end.

Definition or_err {A} (e : chain_error) (x : option A) : cres A := match x with Some a => COk a | None => CErr e end.
Definition or_halt {A} (x : option A) : cres A := match x with Some a => COk a | None => CHalt end.
(** The results of the other packages. *)
Definition of_utxo {A} (r : A * option utxo_error) : cres A := match r with (a, None) => COk a | (_, Some e) => CErr (ErrUtxo e) end.
Definition of_script {A} (r : Script.outcome A) : cres A :=
  match r with Done a => COk a | Failed e => CErr (ErrContract e) | IndexPanic => CHalt end.
Definition of_bres {A} (r : bres A) : cres A :=
  match r with BOk a => COk a | BErr e => CErr (ErrBadBlock e) | BPanic | BFuel => CHalt end.

Fixpoint cfold {A S} (f : S -> A -> cres S) (s : S) (l : list A) : cres S :=
  match l with [] => COk s | x :: l => s ← f s x; cfold f s l end.

(** ** What the parts see of a block *)

(** The amount of the source; [MapTx] sets the source and its value. *)
Definition source_amount (o : output) : Z :=
  match o_Source o with
  | Some s => match src_Value s with Some v => aa_Amount v | None => 0 end
  | None => 0
  end.
Definition utxo_entry (e : Entry) : bc_entry :=
  match e with
  | OriginalOutput o => Utxo.OriginalOutput (source_amount o)
  | VoteOutput o _ => Utxo.VoteOutput (source_amount o)
  | _ => OtherEntry
  end.
Definition utxo_tx (tx : Tx) : bc_tx (Hash := Hash) :=
  Utxo.mkTx (MapTx.tx_ID tx) (MapTx.tx_SpentOutputIDs tx) (hd_ResultIds (tx_Header tx)) (utxo_entry <$> MapTx.tx_Entries tx).
Definition utxo_block (b : Block) : bc_block (Hash := Hash) :=
  mkBlock (bh_Height (bHeader b)) ((fun tx => utxo_tx (t_Tx tx)) <$> Transactions b).

Definition input_Amount (input : TxInput) : Z :=
  match ti_TypedInput input with
  | Some (TIssuance ii) => ii_Amount ii
  | Some (TSpend _ _ sc) | Some (TVeto _ _ _ sc) => aa_Amount (sc_AssetAmount sc)
  | _ => 0
  end.

(** The consensus sees a block's votes, vetoes and fees.  [None]: a nil pointer. *)
Section Project.
Context {Cr : Crypto}.

Definition cp_input (input : TxInput) : option typed_input :=
  id ← input_AssetID input;
  Some (mkInput id (input_Amount input) (if ti_TypedInput input is Some (TVeto _ _ vote _) then Some vote else None)).
Definition cp_output (output : TxOutput) : option tx_output :=
  let value := oc_AssetAmount (to_Commitment output) in
  id ← aa_AssetId value;
  Some (mkOutput id (aa_Amount value) (oc_ControlProgram (to_Commitment output))
          (if to_TypedOutput output is TVoteOutput vote then Some vote else None)).
Definition cp_tx_of (tx : TypesTx) : option cp_tx :=
  ins ← mapM cp_input (TxData.Inputs (t_TxData tx));
  outs ← mapM cp_output (TxData.Outputs (t_TxData tx));
  Some (mkCpTx ins outs).
Definition cp_of (b : Block) : option cp_block :=
  txs ← mapM cp_tx_of (Transactions b);
  let bh := bHeader b in
  Some (mkCpBlock (bh_Height bh) (bh_Hash bh) (PreviousBlockHash bh) (bh_Timestamp bh) txs).
End Project.

Section Chain.
Context {R : MapRange} {U : Uint256} {Cr : Crypto} {L : LRU} {N : Node_} {GR : GoRuntime}.
Context (MaxTimeOffsetMs : Z) (pending : list VotePendingBlockNum).
Variable checkOutput : Entry -> gmap Hash Entry -> Z -> Z -> bytes -> Z -> bytes -> list bytes -> bool -> bool + error.
(** Fuel of the interpreter, of the walk over the entries of a transaction, of
    the queue of adopted orphan transactions; the clock; the addresses of the
    ids of transactions. *)
Variables (vmfuel vfuel pfuel : nat) (now : Z) (addr : TypesTx -> bytes).

(** ** State *)

Record Chain := mkChain {
  ch_store : Store;
  ch_casper : Casper L;
  ch_pool : TxPool L;
  ch_orphans : OrphanManage (Hash := Hash);
  ch_bodies : gmap Hash Block;
  ch_best : BlockHeader;           (* bestBlockHeader *)
}.

Definition set_store (x : Store) (c : Chain) : Chain := let 'mkChain _ k p o b h := c in mkChain x k p o b h.
Definition set_casper (x : Casper L) (c : Chain) : Chain := let 'mkChain s _ p o b h := c in mkChain s x p o b h.
Definition set_pool (x : TxPool L) (c : Chain) : Chain := let 'mkChain s k _ o b h := c in mkChain s k x o b h.
Definition set_orphanManage (x : OrphanManage (Hash := Hash)) (c : Chain) : Chain :=
  let 'mkChain s k p _ b h := c in mkChain s k p x b h.
Definition set_bodies (x : gmap Hash Block) (c : Chain) : Chain := let 'mkChain s k p o _ h := c in mkChain s k p o x h.
Definition set_best (x : BlockHeader) (c : Chain) : Chain := let 'mkChain s k p o b _ := c in mkChain s k p o b x.

Definition M (A : Type) : Type := Chain -> cres A * Chain.
#[global] Instance M_ret : MRet M := fun A a c => (COk a, c).
#[global] Instance M_bind : MBind M := fun A B f m c =>
  match m c with
  | (COk a, c') => f a c'
  | (CErr e, c') => (CErr e, c')
  | (CHalt, c') => (CHalt, c')
  end.
Definition lift {A} (f : Chain -> cres A) : M A := fun c => (f c, c).
Definition update (f : Chain -> Chain) : M unit := fun c => (COk tt, f c).
(** A method of the consensus. *)
Definition consensus {A} (m : C (L := L) A) : M A := fun c =>
  let '(r, s) := m (ch_casper c) in
  (match r with Ret a => COk a | Fail e => CErr (ErrConsensus e) | Panics | NoFuel | Blocks => CHalt end, set_casper s c).

(** ** Queries *)

Definition header_of (hash : Hash) (st : Store) : cres BlockHeader := or_err ErrGetHeader (GetBlockHeader hash st).

Definition Chain_BlockExist (hash : Hash) (c : Chain) : bool :=
  if GetBlockHeader hash (ch_store c) is Some _ then true else Orphans.BlockExist hash (ch_orphans c).
Definition GetBlockByHash (hash : Hash) (c : Chain) : cres Block := or_err ErrGetBlock (GetBlock hash (ch_store c)).
Definition GetBlockByHeight (height : Z) (c : Chain) : cres Block :=
  hash ← or_err ErrMainChainHash (GetMainChainHash height (ch_store c));
  or_err ErrGetBlock (GetBlock hash (ch_store c)).
Definition GetHeaderByHash (hash : Hash) (c : Chain) : cres BlockHeader := header_of hash (ch_store c).
Definition GetHeaderByHeight (height : Z) (c : Chain) : cres BlockHeader :=
  hash ← or_err ErrMainChainHash (GetMainChainHash height (ch_store c));
  header_of hash (ch_store c).
Definition BestBlockHeight (c : Chain) : Z := bh_Height (ch_best c).
Definition BestBlockHash (c : Chain) : Hash := bh_Hash (ch_best c).
Definition InMainChain (hash : Hash) (c : Chain) : bool :=
  match GetBlockHeader hash (ch_store c) with
  | None => false
  | Some blockHeader =>
      match GetMainChainHash (bh_Height blockHeader) (ch_store c) with
      | None => false
      | Some blockHash => bool_decide (blockHash = hash)
      end
  end.
Definition FinalizedHeight (c : Chain) : Z := (LastFinalized (ch_casper c)).1.
Definition LastFinalizedHeader (c : Chain) : cres BlockHeader := header_of (LastFinalized (ch_casper c)).2 (ch_store c).
Definition LastJustifiedHeader : M BlockHeader :=
  '(_, hash) ← consensus LastJustified;
  lift (fun c => header_of hash (ch_store c)).

(** ** Reorganisation *)

(** The loop of [calcReorganizeChain]. *)
Fixpoint calc_loop (fuel : nat) (st : Store) (attachHeader detachHeader : BlockHeader) (attach detach : list BlockHeader)
  : cres (list BlockHeader * list BlockHeader) :=
  if bool_decide (bh_Hash detachHeader = bh_Hash attachHeader) then COk (attach, detach)
  else
    match fuel with
    | O => CHalt
    | S fuel =>
        let attachRollback := bh_Height attachHeader >=? bh_Height detachHeader in
        let attach := if attachRollback then attachHeader :: attach else attach in
        let detachRollback := bh_Height attachHeader <=? bh_Height detachHeader in
        let detach := if detachRollback then detach ++ [detachHeader] else detach in
        attachHeader ← (if attachRollback then header_of (PreviousBlockHash attachHeader) st else COk attachHeader);
        detachHeader ← (if detachRollback then header_of (PreviousBlockHash detachHeader) st else COk detachHeader);
        calc_loop fuel st attachHeader detachHeader attach detach
    end.
Definition calcReorganizeChain (fuel : nat) (st : Store) (beginAttach beginDetach : BlockHeader)
  : cres (list BlockHeader * list BlockHeader) := calc_loop fuel st beginAttach beginDetach [] [].

(** The variables of [reorganizeChain]. *)
Record reorg := mkReorg {
  utxoView : gmap Hash UtxoEntry;
  contractView : ContractViewpoint;
  txsToRestore : gmap Hash TypesTx;
  txsToRemove : gmap Hash TypesTx;
}.
Definition newReorg : reorg := mkReorg NewUtxoViewpoint NewContractViewpoint ∅ ∅.

(** [b.Transactions[1:]]. *)
Definition after_coinbase (b : Block) : cres (list TypesTx) :=
  match Transactions b with [] => CHalt | _ :: txs => COk txs end.
Definition load_utxos (st : Store) (block : bc_block (Hash := Hash)) (v : gmap Hash UtxoEntry) : cres (gmap Hash UtxoEntry) :=
  or_err ErrUnmarshalUtxo (getTransactionsUtxo (st_utxos st) (SpentOutputIDs <$> Utxo.Transactions block) v).

Definition restore_tx (r : reorg) (tx : TypesTx) : reorg :=
  mkReorg (utxoView r) (contractView r) (<[tx_id tx := tx]> (txsToRestore r)) (txsToRemove r).
Definition detach_node (st : Store) (r : reorg) (node : BlockHeader) : cres reorg :=
  b ← or_err ErrGetBlock (GetBlock (bh_Hash node) st);
  let detachBlock := utxo_block b in
  v ← load_utxos st detachBlock (utxoView r);
  v ← of_utxo (Utxo.DetachBlock detachBlock v);
  cv ← of_script (ContractView.DetachBlock b (contractView r));
  txs ← after_coinbase b;
  COk (foldl restore_tx (mkReorg v cv (txsToRestore r) (txsToRemove r)) txs).

Definition remove_tx (r : reorg) (tx : TypesTx) : reorg :=
  match txsToRestore r !! tx_id tx with
  | None => mkReorg (utxoView r) (contractView r) (txsToRestore r) (<[tx_id tx := tx]> (txsToRemove r))
  | Some _ => mkReorg (utxoView r) (contractView r) (delete (tx_id tx) (txsToRestore r)) (txsToRemove r)
  end.
Definition attach_node (st : Store) (r : reorg) (node : BlockHeader) : cres reorg :=
  b ← or_err ErrGetBlock (GetBlock (bh_Hash node) st);
  let attachBlock := utxo_block b in
  v ← load_utxos st attachBlock (utxoView r);
  v ← of_utxo (Utxo.ApplyBlock pending attachBlock v);
  cv ← of_script (ContractView.ApplyBlock b (contractView r));
  txs ← after_coinbase b;
  COk (foldl remove_tx (mkReorg v cv (txsToRestore r) (txsToRemove r)) txs).

(** All that precedes the first write. *)
Definition prepare (fuel : nat) (st : Store) (blockHeader best : BlockHeader) : cres (list BlockHeader * reorg) :=
  '(attachNodes, detachNodes) ← calcReorganizeChain fuel st blockHeader best;
  r ← cfold (detach_node st) newReorg detachNodes;
  r ← cfold (attach_node st) r attachNodes;
  COk (attachNodes, r).

Definition setState (blockHeader : BlockHeader) (mainBlockHeaders : list BlockHeader) (r : reorg) : M unit :=
  update (fun c =>
    let '(finalizedHeight, finalizedHash) := LastFinalized (ch_casper c) in
    set_best blockHeader
      (set_store (SaveChainStatus blockHeader mainBlockHeaders (utxoView r) (contractView r) finalizedHeight finalizedHash (ch_store c)) c)).

Definition removeTransactions (r : reorg) : M unit :=
  update (fun c => set_pool (foldl (fun tp '(txHash, _) => RemoveTransaction now (mkPtr [] txHash) tp) (ch_pool c) (map_range (txsToRemove r))) c).
(** [c.ValidateTx]: the result is ignored. *)
Definition restoreTransaction (p : Hash * TypesTx) : M unit := fun c =>
  let '(_, tx) := p in
  match Chain_ValidateTx (fun hash => GetContract hash (ch_store c)) checkOutput vmfuel vfuel pfuel
          (st_utxos (ch_store c)) now (ch_best c) (addr tx) tx (ch_pool c) with
  | None => (CHalt, c)
  | Some (_, tp) => (COk tt, set_pool tp c)
  end.
Fixpoint for_each {A} (f : A -> M unit) (l : list A) : M unit :=
  match l with [] => mret tt | x :: l => f x ;; for_each f l end.

Definition reorganizeChain (fuel : nat) (blockHeader : BlockHeader) : M unit :=
  '(attachNodes, r) ← lift (fun c => prepare fuel (ch_store c) blockHeader (ch_best c));
  setState blockHeader attachNodes r ;;
  removeTransactions r ;;
  for_each restoreTransaction (map_range (txsToRestore r)).

Definition tryReorganize (fuel : nat) (bestHash : Hash) : M unit :=
  best ← lift (fun c => COk (bh_Hash (ch_best c)));
  if bool_decide (best = bestHash) then mret tt
  else
    blockHeader ← lift (GetHeaderByHash bestHash);
    reorganizeChain fuel blockHeader.

(** ** Blocks *)

(** [ApplyBlock] of the consensus adds the node's own signature to the links. *)
Definition with_links (links : list SupLink) (bh : BlockHeader) : BlockHeader :=
  let 'mkBlockHeader v h p t w _ r := bh in mkBlockHeader v h p t w links r.
Definition set_links (links : list SupLink) (b : Block) : Block := mkTypesBlock (with_links links (bHeader b)) (Transactions b).

(** The pointer of the orphan pool to a block is lost with the entry. *)
Definition om_Delete (hash : Hash) (c : Chain) : Chain := set_orphanManage (Orphans.Delete hash (ch_orphans c)) c.
Definition as_orphan (b : Block) : Orphans.Block (Hash := Hash) :=
  mkOBlock (bh_Hash (bHeader b)) (PreviousBlockHash (bHeader b)) (bh_Height (bHeader b)).
Definition om_Add (b : Block) (c : Chain) : Chain :=
  let h := bh_Hash (bHeader b) in
  let c := if Orphans.BlockExist h (ch_orphans c) then c else set_bodies (<[h := b]> (ch_bodies c)) c in
  set_orphanManage (Orphans.Add now (as_orphan b) (ch_orphans c)) c.

Definition saveBlock (fuel : nat) (block : Block) : M unit :=
  let prev := PreviousBlockHash (bHeader block) in
  parent ← lift (fun c => header_of prev (ch_store c));
  p ← consensus (ParentCheckpointByPrevHash fuel prev);
  checkpoint ← consensus (read p);
  lift (fun c => of_bres (ValidateBlock net MaxTimeOffsetMs (ProgramConverter (fun hash => GetContract hash (ch_store c)))
                            checkOutput vmfuel vfuel now block parent checkpoint)) ;;
  cb ← lift (fun _ => or_halt (cp_of block));
  '(_, links) ← consensus (Casper.ApplyBlock fuel cb (bh_SupLinks (bHeader block)));
  let block := set_links links block in
  st ← lift (fun c => or_err ErrSaveBlock (SaveBlock block (ch_store c)));
  update (set_store st) ;;
  consensus (CasperState.SaveBlock cb links) ;;
  update (om_Delete (bh_Hash (bHeader block))).

(** [if err := ...; err != nil { continue }]: whether there was no error. *)
Definition succeeds (m : M unit) : M bool := fun c =>
  match m c with
  | (COk _, c') => (COk true, c')
  | (CErr _, c') => (COk false, c')
  | (CHalt, c') => (CHalt, c')
  end.

(** The loop of [saveSubBlock] over the slice [s]: element [i] is read when
    iteration [i] starts.  [Get] of a missing orphan dereferences nil. *)
Fixpoint saveSub_loop (cfuel : nat) (sub : Block -> M unit) (s : hslice) (i todo : nat) : M unit :=
  match todo with
  | O => mret tt
  | S todo =>
      prevOrphan ← lift (fun c => or_halt ((om_arrays (ch_orphans c) !!! sl_arr s) !! i));
      lift (fun c => or_halt (Orphans.Get prevOrphan (ch_orphans c))) ;;
      orphanBlock ← lift (fun c => or_halt (ch_bodies c !! prevOrphan));
      saved ← succeeds (saveBlock cfuel orphanBlock);
      (if saved : bool then sub orphanBlock else mret tt) ;;
      saveSub_loop cfuel sub s (i + 1) todo
  end.
Fixpoint saveSubBlock (fuel cfuel : nat) (block : Block) : M unit :=
  match fuel with
  | O => lift (fun _ => CHalt)
  | S fuel =>
      prevOrphans ← lift (fun c => COk (GetPrevOrphans (bh_Hash (bHeader block)) (ch_orphans c)));
      match prevOrphans with
      | None => mret tt
      | Some s => saveSub_loop cfuel (saveSubBlock fuel cfuel) s 0 (sl_len s)
      end
  end.

(** Whether the block is an orphan. *)
Definition processBlock (fuel cfuel rfuel : nat) (block : Block) : M bool :=
  let blockHash := bh_Hash (bHeader block) in
  known ← lift (fun c => COk (Chain_BlockExist blockHash c && (bh_Height (ch_best c) >=? bh_Height (bHeader block))));
  if known : bool then lift (fun c => COk (Orphans.BlockExist blockHash (ch_orphans c)))
  else
    orphan ← lift (fun c => COk (if GetBlockHeader (PreviousBlockHash (bHeader block)) (ch_store c) is None then true else false));
    if orphan : bool then update (om_Add block) ;; mret true
    else
      saveBlock cfuel block ;;
      saveSubBlock fuel cfuel block ;;
      bestHash ← lift (fun c => COk (bestChain (ch_casper c)));
      tryReorganize rfuel bestHash ;;
      mret false.

(** [saveVerificationToHeader] of the consensus writes to the same database: the
    links of a stored header are those of [db_blocks]. *)
Definition sync_header (hash : Hash) (c : Chain) : Chain :=
  match GetBlockHeader hash (ch_store c), db_blocks (ch_casper c) !! hash with
  | Some blockHeader, Some sb =>
      match SaveBlockHeader (with_links (sb_SupLinks sb) blockHeader) (ch_store c) with
      | Some st => set_store st c
      | None => c
      end
  | _, _ => c
  end.
Definition synced {A} (hash : Hash) (m : M A) : M A := fun c => let '(r, c') := m c in (r, sync_header hash c').

(** [ProcessBlockVerification]; the rollback it may request is a message of its
    own, answered by [tryReorganize] ([Rollback.v]). *)
Definition ProcessBlockVerification (v : ValidCasperSignMsg) : M unit :=
  synced (m_TargetHash v) (consensus (AuthVerification v)).
(** A round of [authVerificationLoop]; the cached votes have this target. *)
Definition authenticateCached (fuel : nat) (blockHash : Hash) : M unit :=
  synced blockHash (consensus (authVerificationRound fuel blockHash)).

(** ** protocol.go: the genesis block *)

Definition genesisCheckpoint (genesisBlock : Block) : Checkpoint :=
  mkCheckpoint 0 (bh_Hash (bHeader genesisBlock)) zeroHash (bh_Timestamp (bHeader genesisBlock)) Justified ∅ ∅ [].
(** The store, and the checkpoint that is saved. *)
Definition initChainStatus (genesisBlock : Block) (st : Store) : cres (Store * Checkpoint) :=
  st ← or_err ErrSaveBlock (SaveBlock genesisBlock st);
  let checkpoint := genesisCheckpoint genesisBlock in
  v ← of_utxo (Utxo.ApplyBlock pending (utxo_block genesisBlock) NewUtxoViewpoint);
  let genesisBlockHeader := bHeader genesisBlock in
  COk (SaveChainStatus genesisBlockHeader [genesisBlockHeader] v NewContractViewpoint 0 (cp_Hash checkpoint) st, checkpoint).

(** The same for the consensus: [SaveBlock], and [SaveCheckpoints], which leaves out the links. *)
Definition init_database (genesisBlock : Block) (checkpoint : Checkpoint) (db : Casper L) : cres (Casper L) :=
  cb ← or_halt (cp_of genesisBlock);
  COk (database (<[blk_Hash cb := mkStored cb (bh_SupLinks (bHeader genesisBlock))]> (db_blocks db))
         (<[calcCheckpointKey (Height checkpoint) (Some (cp_Hash checkpoint)) := checkpoint]> (db_checkpoints db))).

(** [NewChain] on the database [st], of which the consensus reads [db]; the
    status of a new one is that of the genesis block. *)
Definition NewChain (fuel : nat) (genesisBlock : Block) (txPool : TxPool L) (st : Store) (db : Casper L) : cres Chain :=
  '(st, db) ← match GetStoreStatus st with
              | Some _ => COk (st, db)
              | None =>
                  '(st, checkpoint) ← initChainStatus genesisBlock st;
                  db ← init_database genesisBlock checkpoint db;
                  COk (st, db)
              end;
  storeStatus ← or_halt (GetStoreStatus st);
  bestBlockHeader ← header_of (ss_Hash storeStatus) st;
  match newCasper fuel (ss_FinalizedHeight storeStatus) (ss_FinalizedHash storeStatus) (reopen db) with
  | (Ret _, casper) => COk (mkChain st casper txPool NewOrphanManage ∅ bestBlockHeader)
  | (Fail e, _) => CErr (ErrConsensus e)
  | _ => CHalt
  end.
End Chain.
