(* ===== verification/ChainSpec.v ===== *)
(** * What a reorganisation does

    The chain represents a list of blocks, from the genesis block to the best
    one: it stores them, their unspent outputs, their contracts and their index
    by height.  A reorganisation to another list represents that list, or fails
    and changes nothing.  The index keeps what is above a lower best block. *)

From S2P Require Import Prelude Checked GoSlice VMTypes Opcode Machine Interp Script Encoding Entries TxData Merkle MapTx Validate ValidateSpec Ledger MapTxTyped Utxo UtxoStore Orphans Checkpoint Tree CasperState Casper BlockData BlockValidation TxPool ContractView Store Chain.
From Stdlib Require Import Strings.Byte.
#[local] Open Scope Z_scope.

Section Spec.
Context {R : MapRange} {RL : MapRangeLaws R} {U : Uint256} {Cr : Crypto} {L : LRU} {N : Node_} {GR : GoRuntime}.
Context (pending : list VotePendingBlockNum).

Definition block_hash (b : Block) : Hash := bh_Hash (bHeader b).

(** A header without its links, which later votes add to. *)
Definition bare (bh : BlockHeader) : BlockHeader := with_links [] bh.
Lemma Hash_with_links links bh : bh_Hash (with_links links bh) = bh_Hash bh.
Proof. by destruct bh. Qed.
Lemma bare_fields bh bh' :
  bare bh = bare bh' -> bh_Hash bh = bh_Hash bh' /\ bh_Height bh = bh_Height bh' /\ PreviousBlockHash bh = PreviousBlockHash bh'.
Proof. destruct bh, bh'. unfold bare. cbn [with_links]. intros [= <- <- <- <- <- <-]. done. Qed.

(** Blocks from the genesis block on, stored and linked. *)
Record main_chain (st : Store) (l : list Block) : Prop := {
  mc_stored i b : l !! i = Some b -> GetBlock (block_hash b) st = Some b;
  mc_height i b : l !! i = Some b -> bh_Height (bHeader b) = Z.of_nat i;
  mc_linked i b b' : l !! i = Some b -> l !! S i = Some b' -> PreviousBlockHash (bHeader b') = block_hash b;
  mc_coinbase i b : l !! i = Some b -> Transactions b <> [];
}.

Lemma GetBlock_header h st b : GetBlock h st = Some b -> GetBlockHeader h st = Some (bHeader b).
Proof.
  unfold GetBlock. destruct (GetBlockHeader h st) as [bh|]; [|done]. cbn. by destruct (GetBlockTransactions h st); cbn; intros [= <-].
Qed.
Lemma mc_header st l i b : main_chain st l -> l !! i = Some b -> header_of (block_hash b) st = COk (bHeader b).
Proof. intros Hm Hb. unfold header_of. by rewrite (GetBlock_header _ _ _ (mc_stored _ _ Hm _ _ Hb)). Qed.

(** ** The branches *)

Lemma chains_agree st l l' k b :
  main_chain st l -> main_chain st l' -> l !! k = Some b -> l' !! k = Some b -> take (S k) l = take (S k) l'.
Proof.
  intros Hm Hm'. revert b. induction k as [|k IH]; intros b Hb Hb'.
  - destruct l, l'; try done. cbn in *. rewrite !take_0. congruence.
  - rewrite (take_S_r _ _ _ Hb), (take_S_r _ _ _ Hb'). f_equal.
    destruct (lookup_lt_is_Some_2 l k) as [p Hp]; [apply lookup_lt_Some in Hb; lia|].
    destruct (lookup_lt_is_Some_2 l' k) as [p' Hp']; [apply lookup_lt_Some in Hb'; lia|].
    apply (IH p); [done|]. rewrite Hp'. f_equal. pose proof (mc_stored _ _ Hm _ _ Hp) as Hs. pose proof (mc_stored _ _ Hm' _ _ Hp') as Hs'.
    rewrite <- (mc_linked _ _ Hm _ _ _ Hp Hb) in Hs. rewrite <- (mc_linked _ _ Hm' _ _ _ Hp' Hb') in Hs'. congruence.
Qed.

Lemma calc_loop_spec fuel st l l' i j b b' :
  main_chain st l -> main_chain st l' -> l !! 0%nat = l' !! 0%nat ->
  l' !! i = Some b' -> l !! j = Some b -> (i + j <= fuel)%nat ->
  exists k, calc_loop fuel st (bHeader b') (bHeader b) (bHeader <$> drop (S i) l') (reverse (bHeader <$> drop (S j) l))
            = COk (bHeader <$> drop (S k) l', reverse (bHeader <$> drop (S k) l))
            /\ take (S k) l = take (S k) l'.
Proof.
  intros Hm Hm' H0. revert i j b b'. induction fuel as [fuel IH] using lt_wf_ind. intros i j b b' Hb' Hb Hf.
  destruct fuel as [|fuel]; cbn [calc_loop]; (case_bool_decide as Hh; [|]).
  1,3: assert (b' = b) as -> by (pose proof (mc_stored _ _ Hm _ _ Hb) as E; pose proof (mc_stored _ _ Hm' _ _ Hb') as E';
         unfold block_hash in *; rewrite Hh in E; congruence);
       assert (i = j) as -> by (pose proof (mc_height _ _ Hm _ _ Hb); pose proof (mc_height _ _ Hm' _ _ Hb'); lia);
       exists j; split; [done|]; by eapply chains_agree.
  { assert (i = 0%nat) as -> by lia. assert (j = 0%nat) as -> by lia. congruence. }
  cbn zeta. rewrite (mc_height _ _ Hm _ _ Hb), (mc_height _ _ Hm' _ _ Hb').
  assert (Hij : ~ (i = 0%nat /\ j = 0%nat)) by (intros [-> ->]; congruence).
  (* one step back on a branch *)
  assert (Hback : forall l k c, main_chain st l -> l !! S k = Some c -> exists p, l !! k = Some p
    /\ header_of (PreviousBlockHash (bHeader c)) st = COk (bHeader p) /\ drop (S k) l = c :: drop (S (S k)) l).
  { intros m k c Hc Hl. destruct (lookup_lt_is_Some_2 m k) as [p Hp]; [apply lookup_lt_Some in Hl; lia|]. exists p.
    split; [done|]. rewrite (mc_linked _ _ Hc _ _ _ Hp Hl). split; [by eapply mc_header|]. by apply drop_S. }
  destruct (Z.geb_spec (Z.of_nat i) (Z.of_nat j)) as [Hge|Hlt], (Z.leb_spec (Z.of_nat i) (Z.of_nat j)) as [Hle|Hgt]; try lia.
  - destruct i as [|i], j as [|j]; try lia. destruct (Hback l' i b') as (p' & Hp' & -> & Hd'); [done..|].
    destruct (Hback l j b) as (p & Hp & -> & Hd); [done..|]. unfold mbind, cres_bind.
    destruct (IH fuel ltac:(lia) i j p p') as (k & Hk & Ht); [done..|lia|]. exists k. split; [|done].
    rewrite <- Hk, Hd, Hd', !fmap_cons, reverse_cons. done.
  - destruct i as [|i]; [lia|]. destruct (Hback l' i b') as (p' & Hp' & -> & Hd'); [done..|]. unfold mbind, cres_bind.
    destruct (IH fuel ltac:(lia) i j b p') as (k & Hk & Ht); [done..|lia|]. exists k. split; [|done].
    rewrite <- Hk, Hd', fmap_cons. done.
  - destruct j as [|j]; [lia|]. destruct (Hback l j b) as (p & Hp & -> & Hd); [done..|]. unfold mbind, cres_bind.
    destruct (IH fuel ltac:(lia) i j p b') as (k & Hk & Ht); [done..|lia|]. exists k. split; [|done].
    rewrite <- Hk, Hd, fmap_cons, reverse_cons. done.
Qed.

(** The links of the headers do not matter. *)
Lemma calc_loop_bare fuel st a d d' A D D' :
  bare d = bare d' -> bare <$> D = bare <$> D' ->
  match calc_loop fuel st a d A D, calc_loop fuel st a d' A D' with
  | COk (A1, D1), COk (A2, D2) => A1 = A2 /\ bare <$> D1 = bare <$> D2
  | CErr e, CErr e' => e = e'
  | CHalt, CHalt => True
  | _, _ => False
  end.
Proof.
  revert a d d' A D D'. induction fuel as [|fuel IH]; intros a d d' A D D' Hd HD; destruct (bare_fields _ _ Hd) as (Eh & Ez & Ep); cbn [calc_loop]; rewrite <- Eh.
  - by case_bool_decide.
  - case_bool_decide; [done|]. cbn zeta. rewrite <- Ez, <- Ep. destruct (if bh_Height a >=? bh_Height d then header_of (PreviousBlockHash a) st else COk a) as [a'|e|]; cbn [mbind cres_bind]; [|done..]. destruct (_ <=? _).
    + destruct (header_of _ _) as [d1|e|]; cbn [mbind cres_bind]; [|done..]. apply IH; [done|]. rewrite !fmap_app, HD. cbn. by rewrite Hd.
    + cbn [mbind cres_bind]. by apply IH.
Qed.
Lemma detach_bare st r D D' : bare <$> D = bare <$> D' -> cfold (detach_node st) r D = cfold (detach_node st) r D'.
Proof.
  revert r D'. induction D as [|d D IH]; intros r [|d' D'] HD; [done..|]. cbn in HD. injection HD as Hd HD.
  apply bare_fields in Hd as [Eh _]. cbn [cfold]. replace (detach_node st r d) with (detach_node st r d') by (unfold detach_node; by rewrite Eh).
  destruct (detach_node st r d') as [r'|e|]; cbn [mbind cres_bind]; [by apply IH|done..].
Qed.
Lemma prepare_bare fuel st bh best best' : bare best = bare best' -> prepare pending fuel st bh best = prepare pending fuel st bh best'.
Proof.
  intros Hb. unfold prepare, calcReorganizeChain. pose proof (calc_loop_bare fuel st bh best best' [] [] [] Hb eq_refl) as Hc.
  destruct (calc_loop _ _ _ best _ _) as [[A D]|e|], (calc_loop _ _ _ best' _ _) as [[A' D']|e'|]; try done; [|by subst].
  destruct Hc as [-> HD]. cbn [mbind cres_bind]. by rewrite (detach_bare _ _ _ _ HD).
Qed.

(** ** The views *)

(** The transactions of blocks as the unspent outputs see them, and those after
    the coinbase. *)
Definition utxo_txs (l : list Block) : list (bc_tx (Hash := Hash)) := l ≫= (fun b => Utxo.Transactions (utxo_block b)).
Definition pool_txs (l : list Block) : list TypesTx := l ≫= (fun b => tail (Transactions b)).

Lemma foldl_restore r txs :
  foldl restore_tx r txs = mkReorg (utxoView r) (contractView r) (foldl (fun m tx => <[tx_id tx := tx]> m) (txsToRestore r) txs) (txsToRemove r).
Proof. revert r. induction txs as [|tx txs IH]; intros r; cbn; [by destruct r|]. by rewrite IH. Qed.
Lemma foldl_remove r txs :
  utxoView (foldl remove_tx r txs) = utxoView r /\ contractView (foldl remove_tx r txs) = contractView r.
Proof.
  revert r. induction txs as [|tx txs IH]; intros r; cbn; [done|]. destruct (IH (remove_tx r tx)) as [-> ->].
  unfold remove_tx. by destruct (txsToRestore r !! tx_id tx).
Qed.

Lemma load_utxos_spec st b v :
  exists v', load_utxos st (utxo_block b) v = COk v' /\ v' ∪ db_utxos st = v ∪ db_utxos st
             /\ loaded v' (db_utxos st) (all_spent (Utxo.Transactions (utxo_block b))).
Proof.
  unfold load_utxos. destruct (getTransactionsUtxo_spec (db_utxos st) (SpentOutputIDs <$> Utxo.Transactions (utxo_block b)) v) as (v' & E & He & _ & Hl).
  change (st_utxos st) with (db_reads (db_utxos st)). rewrite E. by exists v'.
Qed.
Lemma loaded_reverse v db txs : loaded v db (all_spent txs) -> loaded (Hash := Hash) v db (all_spent (reverse txs)).
Proof.
  unfold all_spent, loaded. intros Hl id Hid. apply Hl. revert Hid. rewrite !list_elem_of_In, !in_concat.
  intros (ids & Hi & Hid). exists ids. split; [|done]. revert Hi. by rewrite <- !list_elem_of_In, fmap_reverse, elem_of_reverse.
Qed.

(** Detaching blocks, given in the order of the loop. *)
Lemma detach_nodes_spec st l r full cv :
  (forall b, b ∈ l -> GetBlock (block_hash b) st = Some b /\ Transactions b <> []) ->
  detach_txs (l ≫= (fun b => reverse (Utxo.Transactions (utxo_block b)))) (utxoView r ∪ db_utxos st) = (full, None) ->
  ofold (fun v b => ContractView.DetachBlock b v) (contractView r) l = Done cv ->
  exists v', cfold (detach_node st) r (bHeader <$> l)
             = COk (mkReorg v' cv (foldl (fun m tx => <[tx_id tx := tx]> m) (txsToRestore r) (pool_txs l)) (txsToRemove r))
             /\ v' ∪ db_utxos st = full.
Proof.
  revert r. induction l as [|b l IH]; intros r Hs Hd Hc.
  - cbn in *. exists (utxoView r). destruct r. cbn in *. by split; congruence.
  - destruct (Hs b) as [Hb Hne]; [left|]. cbn [ofold] in Hc. destruct (ContractView.DetachBlock b (contractView r)) as [cv1| |] eqn:Ec; try done.
    rewrite bind_cons, detach_txs_app in Hd. rewrite fmap_cons. cbn [cfold]. unfold detach_node at 2. unfold block_hash in Hb. rewrite Hb.
    destruct (load_utxos_spec st b (utxoView r)) as (v1 & E1 & Hv1 & Hl1). cbn [or_err mbind cres_bind]. rewrite E1. cbn [mbind cres_bind]. unfold Utxo.DetachBlock.
    destruct (detach_txs_over _ v1 (db_utxos st) (loaded_reverse _ _ _ Hl1)) as (E2 & E3 & _). rewrite Hv1 in E2, E3.
    destruct (detach_txs _ (utxoView r ∪ _)) as [f1 [e|]]; [done|].
    destruct (detach_txs (reverse _) v1) as [v2 e2]. cbn in E2, E3. subst f1 e2. cbn [of_utxo mbind cres_bind]. rewrite Ec. cbn [of_script mbind cres_bind].
    unfold after_coinbase. destruct (Transactions b) as [|t0 txs] eqn:Ht; [done|]. cbn [mbind cres_bind]. rewrite foldl_restore.
    cbn [utxoView contractView txsToRestore txsToRemove].
    destruct (IH (mkReorg v2 cv1 (foldl (fun m tx => <[tx_id tx := tx]> m) (txsToRestore r) txs) (txsToRemove r))) as (v' & E & Hf).
    + intros b' Hb'. apply Hs. by right.
    + done.
    + done.
    + exists v'. split; [|done]. rewrite E. unfold pool_txs. rewrite bind_cons, Ht. cbn. by rewrite foldl_app.
Qed.

Lemma ledger_steps_app (X Y Z : gset Hash) a b : ledger_steps X a Y -> ledger_steps Y b Z -> ledger_steps X (a ++ b) Z.
Proof. intros H. revert b. induction H; intros b Hb; cbn; [done|]. constructor; auto. Qed.
Lemma ledger_steps_app_inv (X Z : gset Hash) a b : ledger_steps X (a ++ b) Z -> exists Y, ledger_steps X a Y /\ ledger_steps Y b Z.
Proof.
  revert X. induction a as [|tx a IH]; intros X H; cbn in H; [exists X; by split; [constructor|]|].
  inversion H as [|? ? ? ? Hn Hs Hr]; subst. apply IH in Hr as (Y & H1 & H2). exists Y. by split; [constructor|].
Qed.

(** Attaching blocks: an error, or the ledger of the blocks. *)
Lemma attach_nodes_spec st l r :
  (forall b, b ∈ l -> GetBlock (block_hash b) st = Some b /\ Transactions b <> []) ->
  match cfold (attach_node pending st) r (bHeader <$> l) with
  | COk r' =>
      ledger_steps (unspent (utxoView r ∪ db_utxos st)) (utxo_txs l) (unspent (utxoView r' ∪ db_utxos st))
      /\ ofold (fun v b => ContractView.ApplyBlock b v) (contractView r) l = Done (contractView r')
  | CErr e => exists e', e = ErrUtxo e'
  | CHalt => False
  end.
Proof.
  revert r. induction l as [|b l IH]; intros r Hs.
  - cbn. by split; [constructor|].
  - destruct (Hs b) as [Hb Hne]; [left|]. rewrite fmap_cons. cbn [cfold ofold]. unfold attach_node at 2. unfold block_hash in Hb. rewrite Hb.
    destruct (load_utxos_spec st b (utxoView r)) as (v1 & E1 & Hv1 & Hl1). cbn [or_err mbind cres_bind]. rewrite E1. cbn [mbind cres_bind]. unfold Utxo.ApplyBlock.
    destruct (apply_txs_over pending (utxo_block b) _ v1 (db_utxos st) Hl1) as (E2 & E3 & _). rewrite Hv1 in E2, E3.
    destruct (apply_txs pending _ _ v1) as [v2 [e|]]; [by exists e|]. cbn [of_utxo mbind cres_bind].
    destruct (apply_txs pending _ _ (utxoView r ∪ _)) as [f1 e1] eqn:Ef. cbn in E2, E3. subst f1 e1. apply apply_txs_ledger in Ef.
    rewrite attach_block_spec. cbn [of_script mbind cres_bind outcome_bind]. unfold after_coinbase.
    destruct (Transactions b) as [|t0 txs] eqn:Ht; [done|]. cbn [mbind cres_bind].
    set (r1 := foldl remove_tx _ _). assert (Hr1 : utxoView r1 = v2 /\ contractView r1 = attached (contractView r) (regs (t0 :: txs)))
      by (unfold r1; destruct (foldl_remove (mkReorg v2 (attached (contractView r) (regs (t0 :: txs))) (txsToRestore r) (txsToRemove r)) txs); done).
    clearbody r1. destruct Hr1 as [Hr1 Hr2]. specialize (IH r1). rewrite Hr1, Hr2 in IH.
    destruct (cfold _ _ _) as [r'|e|]; try (apply IH; intros; apply Hs; by right).
    destruct IH as [Hl Hc]; [intros; apply Hs; by right|]. split; [|done]. unfold utxo_txs. rewrite bind_cons. by eapply ledger_steps_app.
Qed.

(** ** The main chain *)

Record represents (c : Chain) (l : list Block) : Prop := {
  rp_chain : main_chain (ch_store c) l;
  rp_best : bare ∘ bHeader <$> last l = Some (bare (ch_best c));
  rp_utxos : ledger_steps ∅ (utxo_txs l) (unspent (db_utxos (ch_store c)));
  rp_contracts : db_contracts (ch_store c) = registry (blocks_txs l);
  rp_index i b : l !! i = Some b -> GetMainChainHash (Z.of_nat i) (ch_store c) = Some (block_hash b);
  rp_status : exists fh fhash,
    GetStoreStatus (ch_store c) = Some (mkStatus (bh_Height (ch_best c)) (bh_Hash (ch_best c)) fh fhash);
}.

(** Transactions carry the entries of the outputs they spend, create outputs
    once, and have ids of their own. *)
Record distinct_txs (l : list Block) : Prop := {
  dt_typed tx id : tx ∈ utxo_txs l -> id ∈ SpentOutputIDs tx -> typed tx id;
  dt_fresh : fresh ∅ (utxo_txs l);
  dt_ids : NoDup ((fun tx => MapTx.tx_ID (t_Tx tx)) <$> blocks_txs l);
}.

(** The first holds of the transactions [MapTx] builds. *)
Lemma MapTx_utxo_typed txData tx id :
  MapTx txData = Some tx -> id ∈ SpentOutputIDs (utxo_tx tx) -> clash (built txData) \/ typed (utxo_tx tx) id.
Proof.
  intros Hm Hid. destruct (MapTx_types txData tx Hm) as [|(_ & _ & Hs & _)]; [by left|right].
  destruct (Hs id Hid) as (e & He & Hk). exists (utxo_entry e). unfold utxo_tx. cbn [Utxo.tx_Entries]. rewrite lookup_fmap, He. split; [done|].
  by destruct e.
Qed.

Lemma fresh_app_inv (X Y : gset Hash) a b : ledger_steps X a Y -> fresh X (a ++ b) -> fresh Y b.
Proof. intros H. revert b. induction H; intros b Hf; cbn in Hf; [done|]. inversion Hf; subst. auto. Qed.
Lemma utxo_txs_app a b : utxo_txs (a ++ b) = utxo_txs a ++ utxo_txs b.
Proof. apply bind_app. Qed.

Lemma detach_order l : reverse l ≫= (fun b => reverse (Utxo.Transactions (utxo_block b))) = reverse (utxo_txs l).
Proof.
  rewrite bind_reverse. f_equal. unfold utxo_txs. induction l as [|b l IH]; [done|]. by rewrite !bind_cons, IH, reverse_involutive.
Qed.

Lemma distinct_branch P A tx tx' :
  distinct_txs (P ++ A) -> tx ∈ blocks_txs P -> tx' ∈ blocks_txs A -> MapTx.tx_ID (t_Tx tx) <> MapTx.tx_ID (t_Tx tx').
Proof.
  intros Hd Ht Ht' He. pose proof (dt_ids _ Hd) as Hn. rewrite blocks_txs_app, fmap_app in Hn. apply NoDup_app in Hn as (_ & Hn & _).
  apply (Hn (MapTx.tx_ID (t_Tx tx))); apply list_elem_of_fmap; [by exists tx|]. by exists tx'.
Qed.

Lemma index_above hs m i :
  (forall bh, bh ∈ hs -> bh_Height bh <> i) -> foldl index_header m hs !! i = m !! i.
Proof.
  revert m. induction hs as [|bh hs IH]; intros m Hi; cbn; [done|]. rewrite IH by (intros; apply Hi; by right).
  apply lookup_insert_ne. apply Hi. left.
Qed.
Lemma index_blocks bs m n i b :
  (forall j b, bs !! j = Some b -> bh_Height (bHeader b) = Z.of_nat (n + j)) -> bs !! i = Some b ->
  foldl index_header m (bHeader <$> bs) !! Z.of_nat (n + i) = Some (block_hash b).
Proof.
  revert m n i. induction bs as [|b0 bs IH]; intros m n i Hh Hb; [done|]. cbn [fmap list_fmap foldl].
  destruct i as [|i]; cbn in Hb.
  - injection Hb as ->. rewrite index_above.
    + unfold index_header. rewrite (Hh 0%nat b eq_refl). apply lookup_insert_eq.
    + intros bh (x & -> & (j & Hj)%list_elem_of_lookup)%list_elem_of_fmap. rewrite (Hh (S j) x Hj). lia.
  - replace (n + S i)%nat with (S n + i)%nat by lia. apply IH; [|done]. intros j x Hj. rewrite (Hh (S j) x Hj). lia.
Qed.

Lemma branch_stored st l k b :
  main_chain st l -> b ∈ drop k l -> GetBlock (block_hash b) st = Some b /\ Transactions b <> [].
Proof.
  intros Hm (i & Hi)%list_elem_of_lookup. rewrite lookup_drop in Hi. split; [by eapply mc_stored|by eapply mc_coinbase].
Qed.

(** What the new blocks have to meet: the batch gives their registry. *)
Definition registers (c : Chain) (l l' : list Block) (cv : ContractViewpoint) : Prop :=
  batch_Write (deleteContractView (db_contracts (ch_store c)) cv ++ saveContractView (db_contracts (ch_store c)) cv)
    (db_contracts (ch_store c)) = registry (blocks_txs l')
  \/ collision (contracts (blocks_txs l)) (contracts (blocks_txs l)).

(** [prepare] finds the branches and detaches the old one. *)
Lemma prepare_detached fuel c l l' bh :
  represents c l -> distinct_txs l -> main_chain (ch_store c) l' -> head l = head l' -> bHeader <$> last l' = Some bh ->
  (length l + length l' <= fuel)%nat ->
  exists k v cv cv', take (S k) l = take (S k) l'
    /\ prepare pending fuel (ch_store c) bh (ch_best c)
       = (r ← cfold (attach_node pending (ch_store c))
                (mkReorg v cv (foldl (fun m tx => <[tx_id tx := tx]> m) ∅ (pool_txs (reverse (drop (S k) l)))) ∅)
                (bHeader <$> drop (S k) l');
          COk (bHeader <$> drop (S k) l', r))
    /\ ledger_steps ∅ (utxo_txs (take (S k) l)) (unspent (v ∪ db_utxos (ch_store c)))
    /\ ofold (fun v b => ContractView.ApplyBlock b v) cv (drop (S k) l') = Done cv' /\ registers c l l' cv'.
Proof.
  intros Hr Hd Hm' H0 Hb' Hf. pose proof (rp_chain _ _ Hr) as Hm. destruct Hr as [_ Hb Hu Hc _ _].
  rewrite last_lookup in Hb, Hb'. apply fmap_Some in Hb as (b & Hb & Hbest), Hb' as (b' & Hb' & ->).
  rewrite (prepare_bare _ _ _ _ _ Hbest). clear Hbest.
  assert (Hdrop : forall (m : list Block), drop (S (pred (length m))) m = []) by (intros; apply drop_ge; lia).
  destruct (calc_loop_spec fuel (ch_store c) l l' (pred (length l')) (pred (length l)) b b') as (k & Hk & Hp);
    [done..|by destruct l, l'|done|done|lia|]. rewrite !Hdrop in Hk. cbn in Hk.
  unfold prepare, calcReorganizeChain. rewrite Hk. cbn [mbind cres_bind]. exists k.
  set (P := take (S k) l) in *. set (A := drop (S k) l) in *. set (B := drop (S k) l') in *.
  assert (El : l = P ++ A) by (symmetry; apply take_drop).
  assert (El' : l' = P ++ B) by (rewrite Hp; symmetry; apply take_drop).
  assert (Hd' : distinct_txs (P ++ A)) by (by rewrite <- El).
  rewrite El, utxo_txs_app in Hu. apply ledger_steps_app_inv in Hu as (LP & HP & HA).
  pose proof (dt_fresh _ Hd') as Hfr. rewrite utxo_txs_app in Hfr. eapply fresh_app_inv in Hfr; [|exact HP].
  edestruct (detach_ledger _ _ _ (NewUtxoViewpoint ∪ db_utxos (ch_store c)) HA Hfr) as (full & Hdet & Hfull).
  { intros tx id Ht. apply (dt_typed _ Hd'). rewrite utxo_txs_app. apply elem_of_app. by right. }
  { unfold NewUtxoViewpoint. by rewrite map_empty_union. }
  destruct (contracts_reorganised P A B) as (cv1 & cv2 & Hcv1 & Hcv2 & Hreg); [intros; by eapply distinct_branch|].
  destruct (detach_nodes_spec (ch_store c) (reverse A) newReorg full cv1) as (v1 & Hv1 & Hfull1).
  { intros x Hx. rewrite elem_of_reverse in Hx. by eapply branch_stored. }
  { by rewrite detach_order. }
  { exact Hcv1. }
  exists v1, cv1, cv2. rewrite fmap_reverse in Hv1. split_and!; [done| | |done|].
  - by rewrite Hv1.
  - by rewrite Hfull1, Hfull.
  - unfold registers. by rewrite Hc, El, El'.
Qed.

(** The branches, and the views of the new one. *)
Lemma prepare_spec fuel c l l' bh :
  represents c l -> distinct_txs l -> main_chain (ch_store c) l' -> head l = head l' -> bHeader <$> last l' = Some bh ->
  (length l + length l' <= fuel)%nat ->
  match prepare pending fuel (ch_store c) bh (ch_best c) with
  | COk (attachNodes, r) =>
      exists k, take (S k) l = take (S k) l' /\ attachNodes = bHeader <$> drop (S k) l'
      /\ ledger_steps ∅ (utxo_txs l') (unspent (utxoView r ∪ db_utxos (ch_store c)))
      /\ registers c l l' (contractView r)
  | CErr e => exists e', e = ErrUtxo e'
  | CHalt => False
  end.
Proof.
  intros Hr Hd Hm' H0 Hb' Hf. destruct (prepare_detached fuel c l l' bh) as (k & v & cv & cv' & Hp & -> & Hl & Hcv & Hreg); [done..|].
  set (r1 := mkReorg _ _ _ _). pose proof (attach_nodes_spec (ch_store c) (drop (S k) l') r1 (fun b => branch_stored _ _ (S k) b Hm')) as Hat.
  destruct (cfold (attach_node pending (ch_store c)) r1 _) as [r'|e|]; cbn [mbind cres_bind]; [|done..].
  destruct Hat as [Hs Hc]. exists k. split_and!; [done..| |].
  - rewrite <- (take_drop (S k) l'), utxo_txs_app, <- Hp. by eapply ledger_steps_app.
  - cbn [contractView r1] in Hc. rewrite Hcv in Hc. by injection Hc as <-.
Qed.

(** ** The transactions that come back to the pool *)

Definition tx_id_set (txs : list TypesTx) : gset Hash := list_to_set (tx_id <$> txs).

Lemma restored_ids (m : gmap Hash TypesTx) txs : dom (foldl (fun m tx => <[tx_id tx := tx]> m) m txs) = dom m ∪ tx_id_set txs.
Proof.
  unfold tx_id_set. revert m. induction txs as [|tx txs IH]; intros m; cbn [foldl fmap list_fmap list_to_set]; [set_solver|].
  rewrite IH, dom_insert_L. set_solver.
Qed.
Lemma ids_removed (T D X : gset Hash) x :
  x ∈ T -> x ∉ X -> T ∖ {[x]} ∖ X = T ∖ ({[x]} ∪ X) /\ D ∪ X ∖ (T ∖ {[x]}) = D ∪ ({[x]} ∪ X) ∖ T.
Proof.
  intros HT HX. split; apply set_eq; intros y;
    rewrite ?elem_of_union, !elem_of_difference, ?elem_of_union, ?elem_of_difference, !elem_of_singleton;
    destruct (decide (y = x)) as [->|]; tauto.
Qed.

Lemma removed_ids r txs :
  NoDup (tx_id <$> txs) -> dom (txsToRemove r) ## tx_id_set txs ->
  dom (txsToRestore (foldl remove_tx r txs)) = dom (txsToRestore r) ∖ tx_id_set txs
  /\ dom (txsToRemove (foldl remove_tx r txs)) = dom (txsToRemove r) ∪ (tx_id_set txs ∖ dom (txsToRestore r)).
Proof.
  unfold tx_id_set. revert r. induction txs as [|tx txs IH]; intros r; cbn [foldl fmap list_fmap list_to_set]; [set_solver|].
  intros [Hn Hnd]%NoDup_cons Hdis. assert (Hnot : tx_id tx ∉ (list_to_set (tx_id <$> txs) : gset Hash)) by (by rewrite elem_of_list_to_set).
  unfold remove_tx at 2 4. destruct (txsToRestore r !! tx_id tx) as [t|] eqn:E.
  - apply elem_of_dom_2 in E. edestruct IH as [-> ->]; [done|cbn; set_solver|]. cbn [txsToRestore txsToRemove]. rewrite dom_delete_L.
    clear IH Hn Hnd. generalize dependent (list_to_set (tx_id <$> txs) : gset Hash). generalize dependent (dom (txsToRestore r)). intros T HT X _ HX.
    by apply ids_removed.
  - apply not_elem_of_dom_2 in E. edestruct IH as [-> ->]; [done|cbn; rewrite dom_insert_L; set_solver|].
    cbn [txsToRestore txsToRemove]. rewrite dom_insert_L. clear IH Hn Hnd Hdis Hnot. set_solver.
Qed.

Lemma ids_step (T D X Y : gset Hash) : X ## Y -> T ∖ X ∖ Y = T ∖ (X ∪ Y) /\ D ∪ X ∖ T ∪ Y ∖ (T ∖ X) = D ∪ (X ∪ Y) ∖ T.
Proof.
  intros Hd. split; apply set_eq; intros x; specialize (Hd x); rewrite ?elem_of_union, !elem_of_difference, ?elem_of_union, ?elem_of_difference;
    destruct (decide (x ∈ X)); tauto.
Qed.

Lemma attach_nodes_txs st l r r' :
  (forall b, b ∈ l -> GetBlock (block_hash b) st = Some b) ->
  cfold (attach_node pending st) r (bHeader <$> l) = COk r' ->
  NoDup (tx_id <$> pool_txs l) -> dom (txsToRemove r) ## tx_id_set (pool_txs l) ->
  dom (txsToRestore r') = dom (txsToRestore r) ∖ tx_id_set (pool_txs l)
  /\ dom (txsToRemove r') = dom (txsToRemove r) ∪ (tx_id_set (pool_txs l) ∖ dom (txsToRestore r)).
Proof.
  revert r. induction l as [|b l IH]; intros r Hs; [cbn; intros [= <-]; set_solver|]. rewrite fmap_cons. cbn [cfold].
  unfold attach_node at 2. pose proof (Hs b ltac:(left)) as Hb. unfold block_hash in Hb. rewrite Hb. cbn [or_err mbind cres_bind].
  destruct (load_utxos _ _ _) as [v| |]; [|done..]. cbn [mbind cres_bind]. destruct (of_utxo _) as [v'| |]; [|done..].
  cbn [mbind cres_bind]. destruct (of_script _) as [cv| |]; [|done..]. cbn [mbind cres_bind]. unfold after_coinbase.
  change (pool_txs (b :: l)) with (tail (Transactions b) ++ pool_txs l). destruct (Transactions b) as [|t0 txs]; [done|].
  cbn [mbind cres_bind tail]. set (r0 := mkReorg v' cv (txsToRestore r) (txsToRemove r)).
  unfold tx_id_set. rewrite fmap_app, list_to_set_app_L. intros He (Hn1 & Hn12 & Hn2)%NoDup_app Hdis.
  assert (Hd12 : (list_to_set (tx_id <$> txs) : gset Hash) ## list_to_set (tx_id <$> pool_txs l)).
  { intros x Hx Hy. rewrite elem_of_list_to_set in Hx, Hy. by eapply Hn12. }
  destruct (removed_ids r0 txs Hn1) as [E1 E2]; [cbn; unfold tx_id_set; set_solver|].
  apply IH in He as [E3 E4]; [|intros; apply Hs; by right|done|].
  - rewrite E3, E4, E1, E2. unfold tx_id_set in *. cbn [txsToRestore txsToRemove r0]. by apply ids_step.
  - rewrite E2. cbn [txsToRestore txsToRemove r0]. unfold tx_id_set in *. clear - Hd12 Hdis. set_solver.
Qed.

(** ** Where it starts, and what more blocks do *)

Lemma no_regs txs : contracts txs = [] -> regs txs = [].
Proof.
  induction txs as [|t txs IH]; [done|]. change (contracts (t :: txs)) with (tx_contracts t ++ contracts txs).
  change (regs (t :: txs)) with (tx_regs t ++ regs txs). unfold tx_regs. by intros [-> ->%IH]%app_eq_nil.
Qed.
Lemma map_range_empty {K A} `{Countable K} : map_range (∅ : gmap K A) = [].
Proof. apply Permutation_nil. by rewrite map_range_perm, map_to_list_empty. Qed.

Lemma initChainStatus_represents g st c k :
  initChainStatus pending g NewStore = COk (st, k) -> block_wf g -> bh_Height (bHeader g) = 0 -> Transactions g <> [] ->
  contracts (Transactions g) = [] -> ch_store c = st -> ch_best c = bHeader g -> represents c [g].
Proof.
  unfold initChainStatus. destruct (SaveBlock g NewStore) as [st1|] eqn:Es; [|done]. cbn [or_err mbind cres_bind].
  destruct (SaveBlock_spec _ _ _ Es) as (Hg & _ & _ & Hu & Hc & _). unfold Utxo.ApplyBlock, NewUtxoViewpoint.
  destruct (apply_txs pending _ _ ∅) as [v [e|]] eqn:Ev; [done|]. cbn [of_utxo mbind cres_bind]. intros [= <- <-] Hw Hh Hne Hcs Hst Hb.
  split; rewrite ?Hst.
  - split; intros i b; (destruct i; cbn; [|by destruct i || done]).
    + intros [= <-]. by apply Hg.
    + intros [= <-]. by rewrite Hh.
    + done.
    + by intros [= <-].
  - cbn. by rewrite Hb.
  - unfold utxo_txs. rewrite bind_cons. cbn [mbind list_bind]. rewrite app_nil_r. apply apply_txs_ledger in Ev.
    unfold SaveChainStatus. cbn [db_utxos]. rewrite Hu, save_unspent. cbn [NewStore db_utxos]. by rewrite map_union_empty.
  - unfold SaveChainStatus. cbn [db_contracts]. rewrite Hc. unfold registry, blocks_txs. cbn [mbind list_bind].
    rewrite app_nil_r, no_regs by done. unfold deleteContractView, saveContractView, NewContractViewpoint. cbn [AttachEntries DetachEntries]. by rewrite !map_range_empty.
  - intros i b Hi. destruct i; [|by destruct i]. cbn in Hi. injection Hi as <-. unfold GetMainChainHash, SaveChainStatus, index_header. cbn [db_main foldl].
    rewrite Hh. apply lookup_insert_eq.
  - rewrite Hb. by eexists _, _.
Qed.

(** Saving another block. *)
Lemma represents_SaveBlock c c' l b :
  represents c l -> SaveBlock b (ch_store c) = Some (ch_store c') -> ch_best c' = ch_best c ->
  (forall x, x ∈ l -> block_hash x <> block_hash b) -> represents c' l.
Proof.
  intros [Hm Hb Hu Hc Hi Hs] Hsv Hb' Hne. destruct (SaveBlock_spec _ _ _ Hsv) as (_ & Hg & E1 & E2 & E3 & E4).
  split; rewrite ?Hb', ?E2, ?E3; [|done..| |by unfold GetStoreStatus; rewrite E4].
  - destruct Hm as [H1 H2 H3 H4]. split; [|done..]. intros i x Hx. rewrite Hg; [by apply (H1 i)|]. apply Hne. by eapply list_elem_of_lookup_2.
  - intros i x Hx. unfold GetMainChainHash. rewrite E1. by apply Hi.
Qed.

(** ** The reorganisation *)

Context (checkOutput : Entry -> gmap Hash Entry -> Z -> Z -> bytes -> Z -> bytes -> list bytes -> bool -> bool + error).
Context (vmfuel vfuel pfuel : nat) (now : Z) (addr : TypesTx -> bytes).
#[local] Abbreviation reorganizeChain := (reorganizeChain pending checkOutput vmfuel vfuel pfuel now addr).

Lemma restore_only_pool l c :
  let '(r, c') := for_each (restoreTransaction checkOutput vmfuel vfuel pfuel now addr) l c in
  ch_store c' = ch_store c /\ ch_best c' = ch_best c /\ forall e, r <> CErr e.
Proof.
  revert c. induction l as [|[h tx] l IH]; intros c; cbn [for_each]; [done|]. unfold mbind, M_bind, restoreTransaction at 1.
  destruct (Chain_ValidateTx _ _ _ _ _ _ _ _ _ _ _) as [[res tp]|]; [|done]. destruct c. cbn. apply IH.
Qed.

Lemma GetBlock_saved h st bh hs v cv fh fhash : GetBlock h (SaveChainStatus bh hs v cv fh fhash st) = GetBlock h st.
Proof. done. Qed.

(** The chain after [setState]. *)
Lemma represents_saved c c' l l' bh k r :
  represents c l -> main_chain (ch_store c) l' -> bHeader <$> last l' = Some bh ->
  take (S k) l = take (S k) l' ->
  ledger_steps ∅ (utxo_txs l') (unspent (utxoView r ∪ db_utxos (ch_store c))) ->
  batch_Write (deleteContractView (db_contracts (ch_store c)) (contractView r)
              ++ saveContractView (db_contracts (ch_store c)) (contractView r)) (db_contracts (ch_store c)) = registry (blocks_txs l') ->
  ch_best c' = bh ->
  ch_store c' = SaveChainStatus bh (bHeader <$> drop (S k) l') (utxoView r) (contractView r)
    (LastFinalized (ch_casper c)).1 (LastFinalized (ch_casper c)).2 (ch_store c) ->
  represents c' l'.
Proof.
  intros Hr Hm' Hl' Hp Hu Hc Hb Hs. split; rewrite ?Hs.
  - destruct Hm' as [H1 H2 H3 H4]. split; [|exact H2|exact H3|exact H4]. intros i b Hi. by rewrite GetBlock_saved, (H1 i).
  - rewrite Hb. by apply fmap_Some in Hl' as (b & -> & ->).
  - cbn. by rewrite save_unspent.
  - done.
  - intros i b Hi. unfold GetMainChainHash, SaveChainStatus. cbn [db_main]. destruct (decide (i < S k)%nat) as [Hlt|Hge].
    + rewrite index_above.
      * apply (rp_index _ _ Hr). rewrite <- (lookup_take_lt _ (S k)), Hp, lookup_take_lt by done. done.
      * intros h (x & -> & (j & Hj)%list_elem_of_lookup)%list_elem_of_fmap. rewrite lookup_drop in Hj.
        rewrite (mc_height _ _ Hm' _ _ Hj). lia.
    + replace i with (S k + (i - S k))%nat by lia. apply index_blocks.
      * intros j x Hj. rewrite lookup_drop in Hj. by rewrite (mc_height _ _ Hm' _ _ Hj).
      * rewrite lookup_drop. by replace (S k + (i - S k))%nat with i by lia.
  - rewrite Hb. by eexists _, _.
Qed.

(** What [setState] is called with. *)
Definition saved_as (c c' : Chain) (l l' : list Block) (bh : BlockHeader) : Prop :=
  exists k r,
    take (S k) l = take (S k) l'
    /\ ledger_steps ∅ (utxo_txs l') (unspent (utxoView r ∪ db_utxos (ch_store c)))
    /\ registers c l l' (contractView r)
    /\ ch_best c' = bh
    /\ ch_store c' = SaveChainStatus bh (bHeader <$> drop (S k) l') (utxoView r) (contractView r)
         (LastFinalized (ch_casper c)).1 (LastFinalized (ch_casper c)).2 (ch_store c).

Lemma reorganize_saved fuel c l l' bh :
  represents c l -> distinct_txs l -> main_chain (ch_store c) l' -> head l = head l' -> bHeader <$> last l' = Some bh ->
  (length l + length l' <= fuel)%nat ->
  match reorganizeChain fuel bh c with
  | (CErr e, c') => c' = c /\ exists e', e = ErrUtxo e'
  | (_, c') => saved_as c c' l l' bh
  end.
Proof.
  intros Hr Hd Hm' H0 Hl' Hf. pose proof (prepare_spec fuel c l l' bh Hr Hd Hm' H0 Hl' Hf) as Hp.
  unfold Chain.reorganizeChain. unfold mbind at 1, M_bind at 1, lift. destruct (prepare _ _ _ _ _) as [[nodes r]|e|]; [|by split|done].
  destruct Hp as (k & Hk & -> & Hu & Hc). unfold mbind, M_bind, setState, removeTransactions, update.
  destruct (LastFinalized (ch_casper c)) as [fh fhash] eqn:Ef.
  set (c1 := set_pool _ _). assert (Hc1 : ch_best c1 = bh /\ ch_store c1 = SaveChainStatus bh (bHeader <$> drop (S k) l') (utxoView r) (contractView r) fh fhash (ch_store c))
    by (unfold c1; by destruct c). clearbody c1.
  pose proof (restore_only_pool (map_range (txsToRestore r)) c1) as Hpool. destruct (for_each _ _ c1) as [res c'].
  destruct Hpool as (Hs & Hb & He). destruct Hc1 as [Hb1 Hs1].
  assert (saved_as c c' l l' bh) by (exists k, r; split_and!; [done..|congruence|by rewrite Hs, Hs1, Ef]).
  destruct res as [| e |]; [done|by destruct (He e)|done].
Qed.

Lemma reorganize_spec fuel c l l' bh :
  represents c l -> distinct_txs l -> main_chain (ch_store c) l' -> head l = head l' -> bHeader <$> last l' = Some bh ->
  (length l + length l' <= fuel)%nat ->
  match reorganizeChain fuel bh c with
  | (CErr e, c') => c' = c /\ exists e', e = ErrUtxo e'
  | (_, c') => represents c' l' \/ collision (contracts (blocks_txs l)) (contracts (blocks_txs l))
  end.
Proof.
  intros Hr Hd Hm' H0 Hl' Hf. pose proof (reorganize_saved fuel c l l' bh Hr Hd Hm' H0 Hl' Hf) as Hs.
  assert (Hrep : forall c', saved_as c c' l l' bh -> represents c' l' \/ collision (contracts (blocks_txs l)) (contracts (blocks_txs l))).
  { intros c' (k & r & Hk & Hu & [Hc|] & Hb & Hst); [left|by right]. by eapply represents_saved. }
  destruct (reorganizeChain fuel bh c) as [[|e|] c']; auto.
Qed.

Lemma reorganize_done fuel c l l' bh :
  represents c l -> distinct_txs l -> main_chain (ch_store c) l' -> head l = head l' -> bHeader <$> last l' = Some bh ->
  (length l + length l' <= fuel)%nat -> (reorganizeChain fuel bh c).1 = COk tt ->
  ~ collision (contracts (blocks_txs l)) (contracts (blocks_txs l)) ->
  represents (reorganizeChain fuel bh c).2 l'.
Proof.
  intros Hr Hd Hm' H0 Hl' Hf Hok Hc. pose proof (reorganize_spec fuel c l l' bh Hr Hd Hm' H0 Hl' Hf) as Hs.
  destruct (reorganizeChain fuel bh c) as [res c']. cbn [fst snd] in *. subst res. by destruct Hs.
Qed.

(** C11.  A reorganisation carries the chain over to the new branch: if the chain
    represents a list of blocks, that is, stores them linked from the genesis
    block on, with their unspent outputs, registered contracts and index by
    height, then after [reorganizeChain] to the last of another stored and linked
    list from the same genesis block it represents that list, whatever the two
    have in common; or an output cannot be spent, and nothing at all has changed;
    or two contracts of the old list collide. Neither the walk to the common block
    nor a detached block fails. The hypotheses on the old list ([distinct_txs]):
    its transactions have different ids, none creates an output that is unspent at
    that point, and each carries entries for the outputs it spends; without them
    detaching a repeated coinbase deletes an output that stays
    ([repeated_coinbase_is_lost]). The fuel covers both lists. *)
Theorem reorganizeChain_represents fuel c l l' bh :
  represents c l -> distinct_txs l -> main_chain (ch_store c) l' -> head l = head l' -> bHeader <$> last l' = Some bh ->
  (length l + length l' <= fuel)%nat ->
  match reorganizeChain fuel bh c with
  | (CErr e, c') => c' = c /\ exists e', e = ErrUtxo e'
  | (_, c') => represents c' l' \/ collision (contracts (blocks_txs l)) (contracts (blocks_txs l))
  end.
Proof. apply reorganize_spec. Qed.

(** What [prepare] wants to put back are detached transactions, under their ids. *)
Definition restores (A : list Block) (m : gmap Hash TypesTx) : Prop := forall h tx, m !! h = Some tx -> tx ∈ pool_txs A /\ tx_id tx = h.

Lemma restores_detached A txs m :
  restores A m -> (forall tx, tx ∈ txs -> tx ∈ pool_txs A) -> restores A (foldl (fun m tx => <[tx_id tx := tx]> m) m txs).
Proof.
  revert m. induction txs as [|tx txs IH]; intros m Hm Ht; cbn [foldl]; [done|]. apply IH; [|intros; apply Ht; by right].
  intros h tx' [[<- <-]|[_ Hl]]%lookup_insert_Some; [split; [apply Ht; left|done]|by apply Hm].
Qed.
Lemma restores_removed A txs r : restores A (txsToRestore r) -> restores A (txsToRestore (foldl remove_tx r txs)).
Proof.
  revert r. induction txs as [|tx txs IH]; intros r Hm; cbn [foldl]; [done|]. apply IH. unfold remove_tx.
  destruct (txsToRestore r !! tx_id tx); [|done]. cbn [txsToRestore]. intros h tx' [_ Hl]%lookup_delete_Some. by apply Hm.
Qed.
Lemma restores_attached A st nodes r r' : cfold (attach_node pending st) r nodes = COk r' -> restores A (txsToRestore r) -> restores A (txsToRestore r').
Proof.
  revert r. induction nodes as [|n nodes IH]; intros r; cbn [cfold]; [by intros [= <-]|]. unfold attach_node at 2.
  destruct (or_err _ _) as [b| |]; [|done..]. cbn [mbind cres_bind]. destruct (load_utxos _ _ _) as [v| |]; [|done..]. cbn [mbind cres_bind].
  destruct (of_utxo _) as [v'| |]; [|done..]. cbn [mbind cres_bind]. destruct (of_script _) as [cv| |]; [|done..]. cbn [mbind cres_bind].
  destruct (after_coinbase b) as [txs| |]; [|done..]. cbn [mbind cres_bind]. intros He Hm. eapply IH; [exact He|]. by apply restores_removed.
Qed.

Lemma prepare_txs fuel c l l' bh nodes r :
  represents c l -> distinct_txs l -> main_chain (ch_store c) l' -> NoDup (tx_id <$> pool_txs l') ->
  head l = head l' -> bHeader <$> last l' = Some bh -> (length l + length l' <= fuel)%nat ->
  prepare pending fuel (ch_store c) bh (ch_best c) = COk (nodes, r) ->
  exists P A B, l = P ++ A /\ l' = P ++ B
    /\ dom (txsToRestore r) = tx_id_set (pool_txs A) ∖ tx_id_set (pool_txs B)
    /\ dom (txsToRemove r) = tx_id_set (pool_txs B) ∖ tx_id_set (pool_txs A)
    /\ restores A (txsToRestore r).
Proof.
  intros Hr Hd Hm' Hn H0 Hb' Hf. destruct (prepare_detached fuel c l l' bh) as (k & v & cv & cv' & Hp & -> & _); [done..|].
  set (r1 := mkReorg _ _ _ _). destruct (cfold _ r1 _) as [r'|e|] eqn:Ef; cbn [mbind cres_bind]; [intros [= _ <-]|done..].
  assert (Hn2 : NoDup (tx_id <$> pool_txs (drop (S k) l'))).
  { rewrite <- (take_drop (S k) l') in Hn. unfold pool_txs in Hn |- *. rewrite bind_app, fmap_app in Hn. by apply NoDup_app in Hn as (_ & _ & ?). }
  destruct (attach_nodes_txs _ _ _ _ (fun b Hb => proj1 (branch_stored _ _ (S k) b Hm' Hb)) Ef Hn2) as [E1 E2]; [by cbn; set_solver|].
  cbn [txsToRestore txsToRemove r1] in E1, E2. assert (Hl : forall X : gset Hash, ∅ ∪ X = X) by set_solver.
  rewrite restored_ids, !dom_empty_L in E1, E2.
  assert (Ho : tx_id_set (pool_txs (reverse (drop (S k) l))) = tx_id_set (pool_txs (drop (S k) l))).
  { apply set_eq. intros x. unfold tx_id_set, pool_txs. rewrite !elem_of_list_to_set, !list_elem_of_fmap.
    setoid_rewrite list_elem_of_bind. by setoid_rewrite elem_of_reverse. }
  rewrite Hl, Ho in E1. rewrite !Hl, Ho in E2. exists (take (S k) l), (drop (S k) l), (drop (S k) l').
  split_and!; [by rewrite take_drop|by rewrite Hp, take_drop|done|done|]. eapply restores_attached; [exact Ef|].
  apply restores_detached; [intros h tx; by rewrite lookup_empty|]. intros tx. unfold pool_txs. rewrite !list_elem_of_bind. by setoid_rewrite elem_of_reverse.
Qed.

Lemma removed_from_pool (m : list (Hash * TypesTx)) tp h :
  pool (foldl (fun tp '(txHash, _) => RemoveTransaction now (mkPtr [] txHash) tp) tp m) !! h
  = if decide (h ∈ m.*1) then None else pool tp !! h.
Proof.
  revert tp. induction m as [|[h' tx] m IH]; intros tp; cbn [foldl fmap list_fmap fst]; [done|]. rewrite IH.
  assert (E : pool (RemoveTransaction now (mkPtr [] h') tp) = delete h' (pool tp)).
  { unfold RemoveTransaction. cbn [p_hash]. destruct (pool tp !! h') eqn:E; [done|]. by rewrite delete_id. }
  rewrite E. destruct (decide (h ∈ m.*1)) as [Hin|Hin]; [by rewrite decide_True by by right|].
  destruct (decide (h = h')) as [->|Hne].
  - rewrite decide_True by left. apply lookup_delete_eq.
  - rewrite decide_False by (rewrite elem_of_cons; naive_solver). by apply lookup_delete_ne.
Qed.

Lemma range_keys (m : gmap Hash TypesTx) : (map_range m).*1 ≡ₚ elements (dom m).
Proof.
  rewrite map_range_perm. apply NoDup_Permutation; [apply NoDup_fst_map_to_list|apply NoDup_elements|]. intros h.
  rewrite elem_of_elements, elem_of_dom, list_elem_of_fmap. split.
  - intros ([h' tx] & -> & Hin%elem_of_map_to_list). by exists tx.
  - intros [tx Hl]. exists (h, tx). split; [done|by apply elem_of_map_to_list].
Qed.

(** What follows [prepare]. *)
Lemma reorganize_eq fuel bh c :
  reorganizeChain fuel bh c =
  match prepare pending fuel (ch_store c) bh (ch_best c) with
  | COk (nodes, r) =>
      for_each (restoreTransaction checkOutput vmfuel vfuel pfuel now addr) (map_range (txsToRestore r))
        (removeTransactions now r (setState bh nodes r c).2).2
  | CErr e => (CErr e, c)
  | CHalt => (CHalt, c)
  end.
Proof. unfold Chain.reorganizeChain, mbind, M_bind, lift. by destruct (prepare _ _ _ _ _) as [[nodes r]|e|]. Qed.

(** C30.  What a reorganisation does to the pool of transactions, coinbases aside:
    it fails and changes nothing; or, at the new best block, it first takes the
    transactions of the attached blocks that no detached block contains out of the
    pool, after which none of them is in it, and then validates those of the
    detached blocks that no attached block contains again, one after the other, in
    the order of the map. Under the hypotheses of [reorganizeChain_represents],
    and if the new list has no two transactions, coinbases aside, with one id. *)
Theorem reorganisation_pool fuel c l l' bh :
  represents c l -> distinct_txs l -> main_chain (ch_store c) l' -> NoDup (tx_id <$> pool_txs l') ->
  head l = head l' -> bHeader <$> last l' = Some bh -> (length l + length l' <= fuel)%nat ->
  (exists e, reorganizeChain fuel bh c = (CErr e, c))
  \/ exists P A B (removed restored : list (Hash * TypesTx)) c1,
    l = P ++ A /\ l' = P ++ B
    /\ removed.*1 ≡ₚ elements (tx_id_set (pool_txs B) ∖ tx_id_set (pool_txs A))
    /\ restored.*1 ≡ₚ elements (tx_id_set (pool_txs A) ∖ tx_id_set (pool_txs B))
    /\ (forall h tx, (h, tx) ∈ restored -> tx ∈ pool_txs A /\ tx_id tx = h)
    /\ ch_best c1 = bh
    /\ ch_pool c1 = foldl (fun tp '(h, _) => RemoveTransaction now (mkPtr [] h) tp) (ch_pool c) removed
    /\ (forall h, h ∈ removed.*1 -> pool (ch_pool c1) !! h = None)
    /\ reorganizeChain fuel bh c = for_each (restoreTransaction checkOutput vmfuel vfuel pfuel now addr) restored c1.
Proof.
  intros Hr Hd Hm' Hn H0 Hb' Hf. pose proof (prepare_spec fuel c l l' bh Hr Hd Hm' H0 Hb' Hf) as Hp.
  pose proof (fun nodes r => prepare_txs fuel c l l' bh nodes r Hr Hd Hm' Hn H0 Hb' Hf) as Ht.
  rewrite !reorganize_eq. destruct (prepare _ _ _ _ _) as [[nodes r]|e|]; [right|left; by exists e|done].
  destruct (Ht nodes r eq_refl) as (P & A & B & El & El' & E1 & E2 & E3).
  unfold setState, removeTransactions, update. destruct (LastFinalized (ch_casper c)) as [fh fhash].
  exists P, A, B, (map_range (txsToRemove r)), (map_range (txsToRestore r)). eexists. split_and!; [done|done| | | | | | |reflexivity].
  - by rewrite range_keys, E2.
  - by rewrite range_keys, E1.
  - intros h tx Hin. rewrite map_range_perm, elem_of_map_to_list in Hin. by apply E3.
  - by destruct c.
  - by destruct c.
  - intros h Hh. pose proof (removed_from_pool (map_range (txsToRemove r)) (ch_pool c) h) as E. rewrite decide_True in E by done. by destruct c.
Qed.

(** ** The index by height *)

Lemma InMainChain_header h c b :
  GetBlock h (ch_store c) = Some b ->
  InMainChain h c = bool_decide (GetMainChainHash (bh_Height (bHeader b)) (ch_store c) = Some h).
Proof.
  intros Hb. unfold InMainChain. rewrite (GetBlock_header _ _ _ Hb). destruct (GetMainChainHash _ _) as [h'|]; [|done].
  apply bool_decide_ext. split; [by intros ->|by intros [= ->]].
Qed.

(** Up to the height of the best block the index tells the main chain from the other stored blocks. *)
Theorem InMainChain_iff c l h b :
  represents c l -> GetBlock h (ch_store c) = Some b -> block_hash b = h -> 0 <= bh_Height (bHeader b) < Z.of_nat (length l) ->
  InMainChain h c = true <-> b ∈ l.
Proof.
  intros Hr Hb Hh Hl. rewrite (InMainChain_header _ _ _ Hb), bool_decide_eq_true.
  destruct (lookup_lt_is_Some_2 l (Z.to_nat (bh_Height (bHeader b)))) as [x Hx]; [lia|].
  pose proof (rp_index _ _ Hr _ _ Hx) as Hi. rewrite Z2Nat.id in Hi by lia. rewrite Hi. split.
  - intros [= He]. pose proof (mc_stored _ _ (rp_chain _ _ Hr) _ _ Hx) as Hs. rewrite He, Hb in Hs. injection Hs as ->.
    by eapply list_elem_of_lookup_2.
  - intros (i & Hb')%list_elem_of_lookup. pose proof (mc_height _ _ (rp_chain _ _ Hr) _ _ Hb') as Hi'.
    rewrite Hi', Nat2Z.id in Hx. congruence.
Qed.

(** The index by height is not cut: after a reorganisation to a branch with
    fewer blocks, every detached block above the new best one still passes for a
    block of the main chain. *)
Theorem InMainChain_stale fuel c l l' bh i b :
  represents c l -> distinct_txs l -> main_chain (ch_store c) l' -> head l = head l' -> bHeader <$> last l' = Some bh ->
  (length l + length l' <= fuel)%nat ->
  (forall e, (reorganizeChain fuel bh c).1 <> CErr e) ->
  l !! i = Some b -> (length l' <= i)%nat ->
  InMainChain (block_hash b) (reorganizeChain fuel bh c).2 = true.
Proof.
  intros Hr Hd Hm' H0 Hl' Hf Hok Hb Hi. pose proof (reorganize_saved fuel c l l' bh Hr Hd Hm' H0 Hl' Hf) as Hs.
  destruct (reorganizeChain fuel bh c) as [res c']. cbn [fst snd] in *. assert (saved_as c c' l l' bh) as (k & r & _ & _ & _ & _ & Hst)
    by (destruct res as [|e|]; [done|by destruct (Hok e)|done]).
  rewrite (InMainChain_header _ _ b); rewrite Hst; [|rewrite GetBlock_saved; by apply (mc_stored _ _ (rp_chain _ _ Hr) i)].
  apply bool_decide_eq_true. unfold GetMainChainHash, SaveChainStatus. cbn [db_main]. rewrite (mc_height _ _ (rp_chain _ _ Hr) _ _ Hb).
  rewrite index_above; [by apply (rp_index _ _ Hr)|].
  intros h (x & -> & (j & Hj)%list_elem_of_lookup)%list_elem_of_fmap. rewrite lookup_drop in Hj.
  rewrite (mc_height _ _ Hm' _ _ Hj). apply lookup_lt_Some in Hj. lia.
Qed.
End Spec.
