(* ===== verification/CasperLinks.v ===== *)
(** * The links the consensus writes are well formed

    Headers are stored with the links of the consensus: those of the block, the
    node's own vote, and the votes of others.  They read back because every
    checkpoint, hence the source of every link, has a height and a hash of 32
    bytes.  [keeps] is the Hoare triple of the operations of [Casper.v] for this
    invariant; it says nothing about errors and panics. *)

From S2P Require Import Prelude Encoding VMTypes MapTx BlockData Orphans Checkpoint Tree CasperState Casper CasperInv Restart.
From Stdlib Require Import Strings.Byte.
#[local] Open Scope Z_scope.

Create HintDb keeps.

(** Values of Go types. *)
Definition blk_wf (b : cp_block) : Prop := 0 <= blk_Height b /\ length (blk_Hash b) = 32%nat.
Definition cp_wf (c : Checkpoint) : Prop := 0 <= Height c /\ length (cp_Hash c) = 32%nat.
Definition stored_wf (sb : stored) : Prop := blk_wf (sb_block sb) /\ Forall link_wf (sb_SupLinks sb).
Definition vote_wf (v : verification) : Prop := 0 <= v_SourceHeight v /\ length (v_SourceHash v) = 32%nat.

Lemma AddSupLink_wf height hash sig order ls ls' l :
  AddSupLink height hash sig order ls = Some (ls', l) -> 0 <= height -> length hash = 32%nat ->
  Forall link_wf ls -> Forall link_wf ls'.
Proof.
  intros Ha Hh Hl Hls. destruct (AddSupLink_elem _ _ _ _ _ _ _ Ha) as (l0 & Hs & _ & H0 & _ & He & _).
  rewrite Forall_forall in *. intros x Hx. destruct (He x Hx) as [->|]; [|auto].
  apply set_signature_inv in Hs as [_ ->]. assert (link_wf l0) as (H1 & H2 & H3).
  { destruct H0 as [| ->]; [auto|]. split_and!; [done|done|]. done. }
  split_and!; [done|done|]. cbn [Signatures]. by rewrite length_insert.
Qed.

Lemma Increase_wf {R : MapRange} net b c c' : Increase net b c = Some (inr c') -> blk_wf b -> cp_wf c'.
Proof.
  unfold Increase, applyValidatorReward, applyVotes. case_bool_decide; [|done]. cbn [negb].
  destruct (head (blk_Txs b)) as [t|]; [|done]. cbn [mbind option_bind]. destruct (head (Outputs t)) as [o|]; [|done].
  cbn [mbind option_bind]. intros [= <-] Hb. repeat case_match; exact Hb.
Qed.

Section Links.
Context {R : MapRange} {L : LRU} {Cr : Crypto} {N : Node_}.
Implicit Types s : Casper L.

Record links_inv s : Prop := {
  li_objs p : cp_wf (get s p);
  li_db k c : db_checkpoints s !! k = Some c -> cp_wf c;
  li_blocks h sb : db_blocks s !! h = Some sb -> stored_wf sb;
}.

Definition keeps {A} (Q : A -> Prop) (m : C (L := L) A) : Prop :=
  forall s, links_inv s -> links_inv (m s).2 /\ forall a, (m s).1 = Ret a -> Q a.
#[local] Abbreviation kept := (keeps (fun _ => True)).

(** ** Rules *)

Lemma keeps_mono {A} (P Q : A -> Prop) m : keeps P m -> (forall a, P a -> Q a) -> keeps Q m.
Proof. intros Hm HQ s Hs. destruct (Hm s Hs) as [? ?]. split; auto. Qed.
Lemma keeps_then {A B} (P : A -> Prop) (Q : B -> Prop) m f : keeps P m -> (forall a, P a -> keeps Q (f a)) -> keeps Q (m ≫= f).
Proof.
  intros Hm Hf s Hs. destruct (Hm s Hs) as [H1 H2]. unfold mbind, C_bind. destruct (m s) as [[a|e| | |] s1]; cbn in *; [|done..].
  by apply Hf; [apply H2|].
Qed.
Lemma keeps_pure {A} (Q : A -> Prop) a : Q a -> keeps Q (mret a).
Proof. intros HQ s Hs. split; [done|]. by intros ? [= <-]. Qed.
Lemma keeps_stop {A} (Q : A -> Prop) r : (forall a, r <> Ret a) -> keeps Q (fun s => (r, s)).
Proof. intros Hr s Hs. split; [done|]. intros a Ha. by destruct (Hr a). Qed.
Lemma keeps_reads {A} (Q : A -> Prop) f : (forall s, links_inv s -> Q (f s)) -> keeps Q (gets f).
Proof. intros Hf s Hs. split; [done|]. intros ? [= <-]. auto. Qed.
Lemma keeps_writes f : (forall s, links_inv s -> links_inv (f s)) -> kept (modify f).
Proof. intros Hf s Hs. split; [by apply Hf|done]. Qed.
Lemma keeps_or_fail {A} (Q : A -> Prop) e x : (forall a, x = Some a -> Q a) -> keeps Q (or_fail e x).
Proof. intros HQ. destruct x; [by apply keeps_pure, HQ|by apply keeps_stop]. Qed.
Lemma keeps_or_panic {A} (Q : A -> Prop) x : (forall a, x = Some a -> Q a) -> keeps Q (or_panic x).
Proof. intros HQ. destruct x; [by apply keeps_pure, HQ|by apply keeps_stop]. Qed.
Lemma keeps_try {A} (Q : A -> Prop) m : keeps Q m -> keeps (fun r => match r with inr a => Q a | inl _ => True end) (try m).
Proof.
  intros Hm s Hs. destruct (Hm s Hs) as [H1 H2]. unfold try. destruct (m s) as [[a|e| | |] s1]; cbn in *; (split; [done|]);
    intros ? [= <-]; [by apply H2|done].
Qed.
Lemma keeps_mapM {A} (f : A -> C unit) l : (forall x, x ∈ l -> kept (f x)) -> kept (mapM_ f l).
Proof.
  induction l as [|x l IH]; intros Hf; cbn [mapM_]; [by apply keeps_pure|].
  eapply keeps_then; [apply Hf; left|]. intros _ _. apply IH. intros y Hy. apply Hf. by right.
Qed.
(** A step that touches none of the three. *)
Lemma links_inv_same s s' :
  objs s' = objs s -> db_checkpoints s' = db_checkpoints s -> db_blocks s' = db_blocks s -> links_inv s -> links_inv s'.
Proof. unfold get. intros Ho Hd Hb [H1 H2 H3]. split; unfold get; rewrite ?Ho, ?Hd, ?Hb; auto. Qed.
Lemma keeps_let {A V} (f : Casper L -> A * V) g :
  (forall v s, links_inv s -> links_inv (g v s)) -> kept (fun s => let '(x, v) := f s in (Ret x, g v s)).
Proof. intros Hg s Hs. specialize (Hg (f s).2 s Hs). by destruct (f s) as [x v]. Qed.

Lemma set_lru_links l s : links_inv s -> links_inv (set_lru l s).
Proof. by apply links_inv_same; destruct s. Qed.
Lemma set_prevCache_links l s : links_inv s -> links_inv (set_prevCache l s).
Proof. by apply links_inv_same; destruct s. Qed.
Lemma set_verCache_links l s : links_inv s -> links_inv (set_verCache l s).
Proof. by apply links_inv_same; destruct s. Qed.
Lemma set_tree_links t s : links_inv s -> links_inv (set_tree t s).
Proof. by apply links_inv_same; destruct s. Qed.
Lemma set_posted_links x s : links_inv s -> links_inv (set_posted x s).
Proof. by apply links_inv_same; destruct s. Qed.
Lemma set_newEpoch_links x s : links_inv s -> links_inv (set_newEpoch x s).
Proof. by apply links_inv_same; destruct s. Qed.
Lemma set_rollback_links x s : links_inv s -> links_inv (set_rollback x s).
Proof. by apply links_inv_same; destruct s. Qed.

(** ** Objects *)

Lemma get_alter f p q s :
  get (set_objs (alter f p (objs s)) s) q = if decide (p = q /\ (q < length (objs s))%nat) then o_cp (f (objs s !!! q)) else get s q.
Proof.
  unfold get. rewrite objs_set_objs, !list_lookup_total_alt. destruct (decide _) as [[<- Hq]|Hn].
  - rewrite list_lookup_alter_eq. by destruct (lookup_lt_is_Some_2 _ _ Hq) as [o ->].
  - destruct (decide (p = q)) as [<-|Hpq]; [|by rewrite list_lookup_alter_ne].
    rewrite list_lookup_alter_eq, lookup_ge_None_2; [done|]. apply not_lt. tauto.
Qed.
Lemma alter_links f p s : (cp_wf (get s p) -> cp_wf (o_cp (f (objs s !!! p)))) -> links_inv s -> links_inv (set_objs (alter f p (objs s)) s).
Proof.
  intros Hf [H1 H2 H3]. split.
  - intros q. rewrite get_alter. destruct (decide _) as [[<- _]|]; [|done]. by apply Hf, H1.
  - by destruct s.
  - by destruct s.
Qed.
Lemma kept_write p f : (forall c, cp_wf c -> cp_wf (f c)) -> kept (write p f).
Proof. intros Hf. apply keeps_writes. intros s. apply alter_links. cbn [o_cp]. apply Hf. Qed.
Lemma kept_set_Parent p q : kept (set_Parent p q).
Proof. apply keeps_writes. intros s. by apply alter_links. Qed.
Lemma keeps_read p : keeps cp_wf (read p).
Proof. apply keeps_reads. intros s Hs. apply Hs. Qed.
Lemma kept_new o : cp_wf (o_cp o) -> kept (new o).
Proof.
  intros Ho s [H1 H2 H3]. split; [|done]. cbn. split; [|by destruct s..]. intros q. unfold get. rewrite objs_set_objs, list_lookup_total_alt.
  destruct (decide (q < length (objs s))%nat) as [Hq|Hq].
  - rewrite lookup_app_l, <- list_lookup_total_alt by done. apply H1.
  - rewrite lookup_app_r by lia. specialize (H1 (length (objs s))). unfold get in H1. rewrite list_lookup_total_alt, lookup_ge_None_2 in H1 by lia.
    destruct (q - length (objs s))%nat as [|[|n]]; cbn; [done|exact H1..].
Qed.

(** ** The store *)

Lemma keeps_any {A} (f : Casper L -> A) : kept (gets f).
Proof. by apply keeps_reads. Qed.
Lemma keeps_GetBlockHeader h : keeps stored_wf (GetBlockHeader h).
Proof.
  unfold GetBlockHeader. eapply (keeps_then (fun x => forall sb, x = Some sb -> stored_wf sb)); [|intros x Hx; by apply keeps_or_fail].
  apply keeps_reads. intros s Hs sb. apply Hs.
Qed.
Lemma keeps_GetBlock h : keeps blk_wf (GetBlock h).
Proof. eapply keeps_then; [apply keeps_GetBlockHeader|]. intros sb [Hb _]. by apply keeps_pure. Qed.
Lemma kept_SaveBlock b ls : blk_wf b -> Forall link_wf ls -> kept (SaveBlock b ls).
Proof.
  intros Hb Hl. apply keeps_writes. intros s [H1 H2 H3]. split; [by destruct s..|]. intros h sb. destruct s. cbn.
  rewrite lookup_insert_Some. intros [[_ <-]|[_ Hh]]; [done|by apply (H3 h)].
Qed.
Lemma kept_lookupCheckPoint key : kept (lookupCheckPoint key).
Proof.
  eapply keeps_then; [apply (keeps_let (fun s => cache_Get key (lruCheckPoints s)) set_lru), set_lru_links|].
  intros [p|] _; [by apply keeps_pure|].
  eapply (keeps_then (fun x => forall c, x = Some c -> cp_wf c)); [apply keeps_reads; intros s Hs c; apply Hs|]. intros x Hx.
  eapply (keeps_then cp_wf); [by apply keeps_or_fail|]. intros c Hc. eapply keeps_then; [by apply kept_new|]. intros p _.
  eapply keeps_then; [apply keeps_writes; intros s; apply set_lru_links|]. intros _ _. by apply keeps_pure.
Qed.
Lemma kept_GetCheckpoint h : kept (GetCheckpoint h).
Proof.
  eapply keeps_then; [apply keeps_GetBlockHeader|]. intros sb _. eapply keeps_then; [apply kept_lookupCheckPoint|]. intros p _.
  eapply keeps_then; [by apply kept_write|]. intros _ _. by apply keeps_pure.
Qed.
Lemma kept_load l : kept (loadCheckpointsFromIter l).
Proof.
  induction l as [|c l IH]; cbn [loadCheckpointsFromIter]; [by apply keeps_pure|]. eapply keeps_then; [apply keeps_GetBlockHeader|].
  intros sb _. eapply keeps_then; [exact IH|]. intros cs _. by apply keeps_pure.
Qed.
Lemma kept_GetCheckpointsByHeight z : kept (GetCheckpointsByHeight z).
Proof. eapply keeps_then; [apply keeps_any|]. intros db _. apply kept_load. Qed.
Lemma kept_SaveCheckpoints ps : kept (SaveCheckpoints ps).
Proof.
  eapply keeps_then; [|intros _ _]; apply keeps_mapM; intros p _; (eapply keeps_then; [apply keeps_read|]); intros c Hc; apply keeps_writes.
  - intros s [H1 H2 H3]. split; [by destruct s| |by destruct s]. intros k c'. destruct s. cbn.
    rewrite lookup_insert_Some. intros [[_ <-]|[_ Hk]]; [exact Hc|by apply (H2 k)].
  - intros s. apply set_lru_links.
Qed.
Lemma kept_Post m : kept (Post m).
Proof.
  eapply keeps_then; [apply keeps_any|]. intros [|] _; [by apply keeps_stop|]. apply keeps_writes. intros s. apply set_posted_links.
Qed.
End Links.

#[export] Hint Resolve keeps_any keeps_read keeps_GetBlockHeader keeps_GetBlock kept_lookupCheckPoint kept_GetCheckpoint
  kept_GetCheckpointsByHeight kept_SaveCheckpoints kept_Post kept_write kept_set_Parent kept_new : keeps.

(** The next operation has a lemma. *)
Ltac kbind := eapply keeps_then; [solve [eauto with keeps]|].
Ltac kskip := kbind; intros ? _.

Section Votes.
Context {R : MapRange} {L : LRU} {Cr : Crypto} {N : Node_}.
#[local] Abbreviation kept := (keeps (fun _ => True)).
#[local] Abbreviation C := (C (L := L)).

(** ** Votes *)

Lemma kept_parentValidators t : kept (parentValidators (L := L) t).
Proof.
  kskip. eapply keeps_then; [by apply (keeps_or_panic (fun _ => True))|]. intros q _. kskip. by apply keeps_pure.
Qed.
#[local] Hint Resolve kept_parentValidators : keeps.
Lemma keeps_convertVerification src t msg : keeps vote_wf (convertVerification (L := L) src t msg).
Proof.
  kskip. eapply keeps_then; [by apply (keeps_or_fail (fun _ => True))|]. intros val _.
  kbind. intros c Hc. kskip. by apply keeps_pure.
Qed.
Lemma keeps_supLinkToVerifications src t l : keeps (Forall vote_wf) (supLinkToVerifications (L := L) src t l).
Proof.
  kskip. kbind. intros c Hc. kskip. apply keeps_pure, Forall_forall. intros v ([k x] & _ & Hv)%list_elem_of_omap.
  cbn zeta in Hv. case_match; [done|]. by injection Hv as <-.
Qed.
Lemma kept_verifyVerification v : kept (verifyVerification (L := L) v).
Proof.
  unfold verifyVerification. eapply keeps_then.
  { instantiate (1 := fun _ => True). unfold valid, verifySignature. repeat case_match; by first [apply keeps_pure|apply keeps_stop]. }
  intros _ _. eapply keeps_then; [|intros _ _].
  - instantiate (1 := fun _ => True). unfold verifySameHeight. kskip. case_match; by first [apply keeps_pure|apply keeps_stop].
  - unfold verifySpanHeight. kskip. case_match; by first [apply keeps_pure|apply keeps_stop].
Qed.
#[local] Hint Resolve keeps_convertVerification keeps_supLinkToVerifications kept_verifyVerification : keeps.

Lemma kept_setFinalized p : kept (setFinalized (L := L) p).
Proof.
  eapply keeps_then; [by apply kept_write|]. intros _ _. kskip. kskip. case_match; [|by apply keeps_pure].
  eapply keeps_then; [by apply kept_write|]. intros _ _. kskip. apply keeps_writes. intros s. apply set_tree_links.
Qed.
Lemma kept_setJustified p q : kept (setJustified (L := L) p q).
Proof.
  eapply keeps_then; [by apply kept_write|]. intros _ _. kskip. kskip. case_match; [apply kept_setFinalized|by apply keeps_pure].
Qed.
Lemma kept_addVerification n t v : kept (addVerification (L := L) n t v).
Proof.
  kskip. eapply keeps_then; [apply keeps_read|]. intros c Hc.
  eapply (keeps_then (fun r => cp_wf r.1)).
  { apply keeps_or_panic. intros [c' l]. unfold AddVerification. destruct (AddSupLink _ _ _ _ _) as [[ls l']|]; [|done]. by intros [= <- <-]. }
  intros [c' l] Hc'. eapply keeps_then; [by apply kept_write|]. intros _ _. kskip. case_match; [by apply keeps_pure|].
  eapply keeps_then; [apply kept_setJustified|]. intros _ _. by apply keeps_pure.
Qed.
Lemma kept_addVerifications n t vs : kept (addVerifications (L := L) n t vs).
Proof.
  induction vs as [|v vs IH]; cbn [addVerifications]; [by apply keeps_pure|]. eapply keeps_then; [apply kept_addVerification|]. intros a _.
  eapply keeps_then; [exact IH|]. intros b _. by apply keeps_pure.
Qed.
Lemma kept_addVerificationToCheckpoint t vs : kept (addVerificationToCheckpoint (L := L) t vs).
Proof. kskip. eapply keeps_then; [apply kept_addVerifications|]. intros b _. by apply keeps_pure. Qed.
Lemma kept_saveVerificationToHeader v : vote_wf v -> kept (saveVerificationToHeader (L := L) v).
Proof.
  intros [Hh Hl]. kbind. intros sb [Hb Hs].
  eapply (keeps_then (fun r => Forall link_wf r.1)); [apply keeps_or_panic; intros [ls l] Ha; by eapply AddSupLink_wf|].
  intros [ls l] Hls. by apply kept_SaveBlock.
Qed.
Lemma kept_authVerification v t : vote_wf v -> kept (authVerification (L := L) v t).
Proof.
  intros Hv. kskip. eapply keeps_then; [apply kept_addVerificationToCheckpoint|]. intros cs _. kskip. kskip.
  by apply kept_saveVerificationToHeader.
Qed.
Lemma kept_tryRollback h : kept (tryRollback (L := L) h).
Proof.
  kskip. case_match; [by apply keeps_pure|]. kskip. eapply keeps_then; [apply keeps_writes; intros s; apply set_rollback_links|]. intros _ _.
  repeat case_match; by first [apply keeps_pure|apply keeps_stop].
Qed.
Lemma kept_AuthVerification msg : kept (AuthVerification (L := L) msg).
Proof.
  kskip. case_match; [|apply keeps_writes; intros s; apply set_verCache_links].
  kskip. kbind. intros v Hv. kskip. case_match; [by apply keeps_pure|]. kskip.
  eapply keeps_then; [by apply kept_authVerification|]. intros _ _. apply kept_tryRollback.
Qed.
Lemma kept_authCachedMsg msg key : kept (authCachedMsg (L := L) msg key).
Proof.
  eapply keeps_then; [apply (keeps_try (fun _ => True))|].
  - kskip. kskip. eapply keeps_then; [by apply (keeps_or_fail (fun _ => True))|]. intros n _. kbind. intros v Hv.
    by apply kept_authVerification.
  - intros r _. eapply keeps_then; [apply keeps_writes; intros s; apply set_verCache_links|]. intros _ _.
    case_match; by first [apply keeps_pure|apply keeps_stop].
Qed.

(** ** Ancestors *)

Lemma kept_get_prev h : kept (fun s : Casper L => let '(x, c) := cache_Get h (prevCheckpointCache s) in (Ret x, set_prevCache c s)).
Proof. apply (keeps_let (fun s => cache_Get h (prevCheckpointCache s)) set_prevCache), set_prevCache_links. Qed.
Lemma kept_prev_loop fuel prev h : kept (prev_loop (L := L) fuel prev h).
Proof.
  revert h. induction fuel as [|fuel IH]; intros h; cbn [prev_loop]; [by apply keeps_stop|]. kskip.
  case_match; [by apply keeps_pure|]. case_match; [by apply keeps_pure|]. eapply keeps_then; [apply kept_get_prev|]. intros [x|] _; [|apply IH].
  eapply keeps_then; [apply keeps_writes; intros s; apply set_prevCache_links|]. intros _ _. by apply keeps_pure.
Qed.
Lemma kept_ParentCheckpointByPrevHash fuel h : kept (ParentCheckpointByPrevHash (L := L) fuel h).
Proof. eapply keeps_then; [apply kept_prev_loop|]. intros x _. apply kept_GetCheckpoint. Qed.
Lemma kept_validators fuel h : kept (validators (L := L) fuel h).
Proof.
  eapply keeps_then; [eapply keeps_then|].
  - instantiate (1 := fun _ => True). eapply keeps_then; [apply kept_get_prev|]. intros [x|] _; [by apply keeps_pure|]. kskip.
    eapply keeps_then; [apply kept_prev_loop|]. intros y _. eapply keeps_then; [apply keeps_writes; intros s; apply set_prevCache_links|].
    intros _ _. by apply keeps_pure.
  - intros x _. apply kept_GetCheckpoint.
  - intros p _. kskip. by apply keeps_pure.
Qed.
Lemma kept_authVerificationRound fuel h : kept (authVerificationRound (L := L) fuel h).
Proof.
  eapply keeps_then; [apply (keeps_try (fun _ => True)), kept_validators|]. intros [e|vs] _; [by apply keeps_pure|].
  apply keeps_mapM. intros [k val] _. eapply keeps_then.
  - apply (keeps_let (fun s => cache_Get (verificationCacheKey h (PubKey val)) (verificationCache s)) set_verCache), set_verCache_links.
  - intros [msg|] _; [|by apply keeps_pure]. eapply keeps_then; [apply (keeps_try (fun _ => True)), kept_authCachedMsg|].
    intros r _. by apply keeps_pure.
Qed.
End Votes.

#[export] Hint Resolve keeps_convertVerification keeps_supLinkToVerifications kept_verifyVerification kept_addVerificationToCheckpoint
  kept_ParentCheckpointByPrevHash : keeps.

Section Apply.
Context {R : MapRange} {L : LRU} {Cr : Crypto} {N : Node_}.
#[local] Abbreviation kept := (keeps (fun _ => True)).

(** ** Blocks *)

Lemma kept_newChild p : kept (newChild (L := L) p).
Proof.
  kbind. intros c Hc. eapply keeps_then; [by apply kept_new|]. intros q _.
  eapply keeps_then; [apply keeps_writes; intros s; apply set_tree_links|]. intros _ _. by apply keeps_pure.
Qed.
Lemma kept_increase p b : blk_wf b -> kept (increase (L := L) p b).
Proof.
  intros Hb. kskip. eapply (keeps_then (fun r => match r with inr c => cp_wf c | inl _ => True end)).
  - apply keeps_or_panic. intros [|c] Hi; [done|by eapply Increase_wf].
  - intros [|c] Hc; [by apply keeps_stop|by apply kept_write].
Qed.
Lemma kept_extend p b : blk_wf b -> kept (extend (L := L) p b).
Proof.
  intros Hb. eapply keeps_then.
  - instantiate (1 := fun _ => True). case_match; [apply kept_newChild|by apply keeps_pure].
  - intros q _. eapply keeps_then; [by apply kept_increase|]. intros _ _. by apply keeps_pure.
Qed.
Lemma kept_checkpointNodeByHash fuel h : kept (checkpointNodeByHash (L := L) fuel h).
Proof.
  revert h. induction fuel as [|fuel IH]; intros h; cbn [checkpointNodeByHash]; [by apply keeps_stop|]. kskip.
  case_match; [by apply keeps_pure|]. kbind. intros b Hb. case_match; [by apply keeps_stop|].
  eapply keeps_then; [apply IH|]. intros q _. by apply kept_extend.
Qed.
Lemma kept_lastJustified_loop fuel q : kept (lastJustified_loop (L := L) fuel q).
Proof.
  revert q. induction fuel as [|fuel IH]; intros [q|]; cbn [lastJustified_loop]; [by apply keeps_stop..| |by apply keeps_pure].
  kskip. case_match; [by apply keeps_pure|]. kskip. apply IH.
Qed.
Lemma keeps_myVerification t : keeps (fun v => forall x, v = Some x -> vote_wf x) (myVerification (L := L) t).
Proof.
  kskip. case_match; [by apply keeps_pure|]. eapply keeps_then.
  - instantiate (1 := fun _ => True). kskip. kskip. apply kept_lastJustified_loop.
  - intros [src|] _; [|by apply keeps_pure]. eapply keeps_then; [apply keeps_try, keeps_convertVerification|].
    intros [e|v] Hv; [by apply keeps_pure|]. case_match; [by apply keeps_pure|].
    eapply keeps_then; [apply (keeps_try (fun _ => True)), kept_verifyVerification|]. intros [e|u] _; apply keeps_pure; [done|].
    by intros x [= <-].
Qed.
Lemma keeps_applyMyVerification t ls : Forall link_wf ls -> keeps (Forall link_wf) (applyMyVerification (L := L) t ls).
Proof.
  intros Hls. eapply keeps_then; [apply keeps_myVerification|]. intros [v|] Hv; [|by apply keeps_pure]. kskip.
  destruct (Hv v eq_refl) as [Hh Hl].
  eapply (keeps_then (fun r => Forall link_wf r.1)); [apply keeps_or_panic; intros [ls' l] Ha; by eapply AddSupLink_wf|].
  intros [ls' l] Hls'. by apply keeps_pure.
Qed.
Lemma kept_filter_valid vs : kept (filter_valid (L := L) vs).
Proof.
  induction vs as [|v vs IH]; cbn [filter_valid]; [by apply keeps_pure|].
  eapply keeps_then; [apply (keeps_try (fun _ => True)), kept_verifyVerification|]. intros r _.
  eapply keeps_then; [exact IH|]. intros x _. by apply keeps_pure.
Qed.
Lemma kept_applySupLinks t ls : kept (applySupLinks (L := L) t ls).
Proof.
  kskip. case_match; [by apply keeps_pure|]. eapply keeps_then; [|intros x _; by apply keeps_pure].
  instantiate (1 := fun _ => True). clear. induction ls as [|l ls IH]; cbn [applySupLinks_loop]; [by apply keeps_pure|].
  eapply keeps_then; [instantiate (1 := fun _ => True)|intros vs _; kskip; eapply keeps_then; [exact IH|intros r _; by apply keeps_pure]].
  kskip. kskip. case_match; [by apply keeps_stop|]. eapply keeps_then; [apply keeps_supLinkToVerifications|]. intros vs _. apply kept_filter_valid.
Qed.

(** [ApplyBlock] gives back well-formed links. *)
Lemma keeps_ApplyBlock fuel b ls :
  blk_wf b -> Forall link_wf ls -> keeps (fun r => Forall link_wf r.2) (ApplyBlock (L := L) fuel b ls).
Proof.
  intros Hb Hls. eapply keeps_then.
  { instantiate (1 := fun _ => True). case_match; [apply keeps_writes; intros s; apply set_newEpoch_links|by apply keeps_pure]. }
  intros _ _. kskip. case_match; [kskip; by apply keeps_pure|].
  eapply keeps_then; [eapply keeps_then; [apply kept_checkpointNodeByHash|intros q _; by apply kept_extend]|]. intros t _.
  eapply keeps_then; [by apply keeps_applyMyVerification|]. intros ls' Hls'.
  eapply keeps_then; [apply kept_applySupLinks|]. intros cs _. kskip.
  eapply keeps_then; [|intros _ _; by apply keeps_pure]. kskip. apply kept_SaveCheckpoints.
Qed.
End Apply.

(** ** A restart *)

Section Reopen.
Context {R : MapRange} {L : LRU} {Cr : Crypto} {N : Node_}.
#[local] Abbreviation kept := (keeps (fun _ => True)).

Lemma reopen_links (s : Casper L) : links_inv s -> links_inv (reopen s).
Proof.
  intros [_ H2 H3]. split; [|exact H2|exact H3]. intros p. unfold get. cbn [reopen database objs]. rewrite list_lookup_total_alt, lookup_nil. by split.
Qed.
Lemma keeps_load l : Forall cp_wf l -> keeps (Forall cp_wf) (loadCheckpointsFromIter (L := L) l).
Proof.
  induction 1 as [|c l Hc _ IH]; cbn [loadCheckpointsFromIter]; [by apply keeps_pure|]. kbind. intros sb _.
  eapply keeps_then; [exact IH|]. intros cs Hcs. apply keeps_pure. by constructor.
Qed.
Lemma sort_keys_in {A} (l : list (bytes * A)) x : x ∈ sort_keys l -> x ∈ l.
Proof.
  assert (Hi : forall y (l : list (bytes * A)), x ∈ insert_key y l -> x = y \/ x ∈ l).
  { intros y l'. induction l' as [|z l' IH]; cbn [insert_key]; [by intros ->%list_elem_of_singleton; left|].
    destruct (bytes_ltb _ _); intros [->|Hx]%elem_of_cons; [by left|by right|right; left|]. destruct (IH Hx); [by left|right; by right]. }
  induction l as [|y l IH]; cbn; [done|]. intros [->|Hx]%Hi; [left|right; auto].
Qed.
Lemma keeps_CheckpointsFromNode z h : keeps (Forall cp_wf) (CheckpointsFromNode (L := L) z h).
Proof.
  eapply (keeps_then (fun db => forall k c, db !! k = Some c -> cp_wf c)); [apply keeps_reads; intros s Hs k c; apply Hs|].
  intros db Hdb. assert (Hall : Forall (fun x => cp_wf x.2) (IteratorPrefixWithStart checkpointKeyPrefix (calcCheckpointKey z (Some h)) db)).
  { apply Forall_forall. intros [k c] [_ Hin%sort_keys_in%elem_of_map_to_list]%list_elem_of_filter. by apply (Hdb k). }
  destruct Hall as [|[k c] l Hc Hl]; [by apply keeps_stop|]. eapply keeps_then; [by apply keeps_load, Forall_fmap|].
  intros cs Hcs. apply keeps_pure. by constructor.
Qed.
Lemma kept_load_objects cs : Forall cp_wf cs -> kept (load_objects (L := L) cs).
Proof.
  induction 1 as [|c cs Hc _ IH]; cbn [load_objects]; [by apply keeps_pure|]. eapply keeps_then; [by apply kept_new|]. intros p _.
  eapply keeps_then; [exact IH|]. intros ps _. by apply keeps_pure.
Qed.
Lemma kept_makeTree_loop fuel m q : kept (makeTree_loop (L := L) fuel m q).
Proof.
  revert q. induction fuel as [|fuel IH]; intros [|n q]; cbn [makeTree_loop]; [by apply keeps_pure|by apply keeps_stop|by apply keeps_pure|].
  kskip. eapply keeps_then; [|intros _ _; apply IH]. apply keeps_mapM. intros c _.
  eapply keeps_then; [apply kept_set_Parent|]. intros _ _. apply keeps_writes. intros s. apply set_tree_links.
Qed.
Lemma kept_newCasper fuel z h : kept (newCasper (L := L) fuel z h).
Proof.
  eapply keeps_then; [apply keeps_CheckpointsFromNode|]. intros cs Hcs. eapply keeps_then; [by apply kept_load_objects|].
  intros [|root successors] _; [by apply keeps_stop|]. kskip. case_match; [by apply keeps_stop|].
  kskip. eapply keeps_then; [apply keeps_writes; intros s; apply set_tree_links|]. intros _ _. apply kept_makeTree_loop.
Qed.
End Reopen.
