(* ===== verification/ChainInv.v ===== *)
(** * The chain after any messages

    [chain_inv] is what every message leaves true of a chain: each stored block
    hangs under the genesis block, the chain represents the list of blocks that
    leads to the best one ([ChainSpec.v]), orphans are not stored, and the
    consensus writes well-formed links.  [Received] stands for the blocks the
    node ever gets to see: Go values, with one height and one parent per hash.
    A reorganisation needs more of the list it leaves ([repeats_nothing]); the
    invariant is stated over what the represented list satisfies, and runs are
    those on which it repeats nothing ([proper_step]). *)

From S2P Require Import Prelude Checked GoSlice VMTypes Opcode Machine Interp Script Encoding Entries TxData Merkle MapTx Validate ValidateSpec Ledger MapTxTyped Utxo UtxoStore Orphans Checkpoint Tree CasperState Casper Restart BlockData BlockValidation TxPool ContractView Store Chain ChainSpec CasperLinks.
From Stdlib Require Import Strings.Byte.
#[local] Open Scope Z_scope.

(** Linked blocks, from height 0. *)
Record linked {Cr : Crypto} (l : list Block) : Prop := {
  ln_height i b : l !! i = Some b -> bh_Height (bHeader b) = Z.of_nat i;
  ln_linked i b b' : l !! i = Some b -> l !! S i = Some b' -> PreviousBlockHash (bHeader b') = block_hash b;
}.

Class Received {Cr : Crypto} {R : MapRange} := {
  received : Block -> Prop;
  rc_wf b : received b -> block_wf b /\ bh_Height (bHeader b) <= MaxInt64;
  rc_links b links : received b -> Forall link_wf links -> received (set_links links b);
  rc_hash b b' : received b -> received b' -> block_hash b = block_hash b' ->
    bh_Height (bHeader b) = bh_Height (bHeader b') /\ PreviousBlockHash (bHeader b) = PreviousBlockHash (bHeader b');
}.

(** No transaction occurs twice on the list, and no two contracts collide. *)
Definition repeats_nothing {Cr : Crypto} {R : MapRange} l : Prop :=
  distinct_txs l /\ ~ collision (contracts (blocks_txs l)) (contracts (blocks_txs l)).

(** Links aside. *)
Definition of_txs (Q : list Block -> Prop) : Prop := forall l l', Transactions <$> l = Transactions <$> l' -> Q l -> Q l'.

Lemma utxo_txs_ext l l' : Transactions <$> l = Transactions <$> l' -> utxo_txs l = utxo_txs l'.
Proof.
  revert l'. unfold utxo_txs. induction l as [|b l IH]; intros [|b' l'] He; [done..|]. injection He as Hb He.
  rewrite !bind_cons, (IH l' He). unfold utxo_block. cbn [Utxo.Transactions]. by rewrite Hb.
Qed.
Lemma blocks_txs_ext l l' : Transactions <$> l = Transactions <$> l' -> blocks_txs l = blocks_txs l'.
Proof.
  revert l'. unfold blocks_txs. induction l as [|b l IH]; intros [|b' l'] He; [done..|]. injection He as Hb He. by rewrite !bind_cons, (IH l' He), Hb.
Qed.
Lemma repeats_nothing_txs {Cr : Crypto} {R : MapRange} : of_txs repeats_nothing.
Proof.
  intros l l' He [[H1 H2 H3] H4]. rewrite (blocks_txs_ext _ _ He) in H3, H4. rewrite (utxo_txs_ext _ _ He) in H1, H2. by split.
Qed.

Section Inv.
Context {R : MapRange} {RL : MapRangeLaws R} {U : Uint256} {Cr : Crypto} {CL : CryptoLaws Cr} {L : LRU} {N : Node_} {GR : GoRuntime} {RC : Received}.
Context (pending : list VotePendingBlockNum) (gh : Hash).
Implicit Types (st : Store) (c : Chain (L := L)) (l : list Block).

(** ** The stored blocks *)

(** [gh] is the hash of the genesis block. *)
Definition store_ok st : Prop :=
  forall h bh, GetBlockHeader h st = Some bh ->
  exists b, GetBlock h st = Some b /\ bHeader b = bh /\ block_hash b = h /\ received b /\ Transactions b <> []
    /\ (h = gh /\ bh_Height bh = 0
        \/ exists p, GetBlock (PreviousBlockHash bh) st = Some p /\ bh_Height bh = bh_Height (bHeader p) + 1).

Lemma stored_block st h b : store_ok st -> GetBlock h st = Some b ->
  block_hash b = h /\ received b /\ Transactions b <> []
  /\ (h = gh /\ bh_Height (bHeader b) = 0
      \/ exists p, GetBlock (PreviousBlockHash (bHeader b)) st = Some p /\ bh_Height (bHeader b) = bh_Height (bHeader p) + 1).
Proof.
  intros Hok Hb. destruct (Hok h (bHeader b) (GetBlock_header _ _ _ Hb)) as (b' & Hb' & _ & Hh & Hr & Ht & Hp).
  rewrite Hb in Hb'. injection Hb' as <-. done.
Qed.
Lemma received_height b : received b -> 0 <= bh_Height (bHeader b) <= MaxInt64.
Proof. intros [[(_ & ? & _) _] ?]%rc_wf. done. Qed.

(** The branch that leads to a stored block. *)
Lemma branch_of st h b : store_ok st -> GetBlock h st = Some b ->
  exists l, main_chain st l /\ last l = Some b /\ head l = GetBlock gh st.
Proof.
  intros Hok. remember (Z.to_nat (bh_Height (bHeader b))) as n eqn:Hn. revert h b Hn.
  induction n as [n IH] using lt_wf_ind. intros h b Hn Hb. destruct (stored_block _ _ _ Hok Hb) as (Hh & Hr & Ht & Hp).
  destruct Hp as [[-> H0]|(p & Hp & Hz)].
  - exists [b]. split; [|split; [done|by rewrite Hb]].
    assert (H1 : forall i x, [b] !! i = Some x -> i = 0%nat /\ x = b) by (intros [|i] x; [by intros [= ->]|done]).
    split; [intros i x [-> ->]%H1..|intros i x y _ [? _]%H1|intros i x [-> ->]%H1]; [by rewrite Hh|done..].
  - destruct (stored_block _ _ _ Hok Hp) as (Hph & Hpr & _). pose proof (received_height _ Hpr).
    destruct (IH (Z.to_nat (bh_Height (bHeader p))) ltac:(lia) _ p eq_refl Hp) as (l & Hm & Hl & H0).
    assert (Hlen : length l = S (Z.to_nat (bh_Height (bHeader p)))).
    { rewrite last_lookup in Hl. pose proof (mc_height _ _ Hm _ _ Hl) as He. apply lookup_lt_Some in Hl. lia. }
    exists (l ++ [b]). split; [|split; [by rewrite last_snoc|by destruct l]].
    destruct Hm as [H1 H2 H3 H4].
    split; [intros i x|intros i x|intros i x y|intros i x]; rewrite !lookup_snoc_Some.
    + intros [[_ Hx]|[_ <-]]; [eauto|by rewrite Hh].
    + intros [[_ Hx]|[-> <-]]; [eauto|lia].
    + intros [[Hi Hx]|[Hi <-]] [[Hi' Hy]|[Hi' <-]]; [by eapply H3| |lia..]. rewrite last_lookup in Hl.
      assert (x = p) as -> by (replace i with (pred (length l)) in Hx by lia; congruence). by rewrite Hph.
    + intros [[_ Hx]|[_ <-]]; [eauto|done].
Qed.

Lemma chain_linked st l : store_ok st -> main_chain st l -> Forall received l /\ linked l.
Proof.
  intros Hok [H1 H2 H3 _]. split; [|by split].
  apply Forall_forall. intros b (i & Hi)%list_elem_of_lookup. by apply (stored_block _ _ _ Hok (H1 i b Hi)).
Qed.

Lemma header_stored st h bh : store_ok st -> GetBlockHeader h st = Some bh -> exists b, GetBlock h st = Some b /\ bHeader b = bh.
Proof. intros Hok Hb. destruct (Hok _ _ Hb) as (b & ? & ? & _). by exists b. Qed.

(** Blocks under other hashes stay, and the new one is under its own. *)
Lemma store_ok_insert st st' b :
  store_ok st -> (forall h, h <> block_hash b -> GetBlock h st' = GetBlock h st) ->
  (forall h, h <> block_hash b -> GetBlockHeader h st' = GetBlockHeader h st) ->
  GetBlock (block_hash b) st' = Some b -> received b -> Transactions b <> [] ->
  (block_hash b = gh /\ bh_Height (bHeader b) = 0
   \/ exists p, GetBlock (PreviousBlockHash (bHeader b)) st = Some p /\ bh_Height (bHeader b) = bh_Height (bHeader p) + 1) ->
  store_ok st'.
Proof.
  intros Hok Hg Hgh Hb Hr Ht Hp.
  (* a parent is stored, with the same height *)
  assert (Hold : forall h p, GetBlock h st = Some p -> exists p', GetBlock h st' = Some p' /\ bh_Height (bHeader p') = bh_Height (bHeader p)).
  { intros h p Hhp. destruct (decide (h = block_hash b)) as [->|Hne]; [|exists p; by rewrite Hg].
    exists b. split; [done|]. destruct (stored_block _ _ _ Hok Hhp) as (Hh & Hpr & _). by apply (rc_hash b p Hr Hpr). }
  intros h bh Hbh. destruct (decide (h = block_hash b)) as [->|Hne].
  - rewrite (GetBlock_header _ _ _ Hb) in Hbh. injection Hbh as <-. exists b. split_and!; try done.
    destruct Hp as [|(p & Hp & Hz)]; [by left|right]. destruct (Hold _ _ Hp) as (p' & ? & ?). exists p'. split; [done|lia].
  - rewrite Hgh in Hbh by done. destruct (Hok _ _ Hbh) as (x & Hx & Hxh & Hh & Hxr & Hxt & Hxp). exists x. rewrite Hg by done. split_and!; try done.
    destruct Hxp as [|(p & Hxp & Hz)]; [by left|right]. destruct (Hold _ _ Hxp) as (p' & ? & ?). exists p'. split; [done|lia].
Qed.

(** ** The invariant *)

(** The chain represents a list of blocks of which [Q] holds. *)
Record chain_inv (Q : list Block -> Prop) c : Prop := {
  ci_store : store_ok (ch_store c);
  ci_main : exists l, represents c l /\ head l = GetBlock gh (ch_store c) /\ Q l;
  ci_links : links_inv (ch_casper c);
  ci_orphans h ob : orphan (ch_orphans c) !! h = Some ob -> GetBlockHeader h (ch_store c) = None
    /\ exists b, ch_bodies c !! h = Some b /\ received b /\ block_hash b = h;
}.

Definition any l : Prop := True.
Context (OK : list Block -> Prop).
Hypothesis OK_txs : of_txs OK.

Lemma inv_any c : chain_inv OK c -> chain_inv any c.
Proof. intros [H1 (l & H2 & H3 & _) H4 H5]. split; [done| |done|done]. by exists l. Qed.

Lemma represents_frame c c' l : ch_store c' = ch_store c -> ch_best c' = ch_best c -> represents c l -> represents c' l.
Proof. intros Hs Hb [H1 H2 H3 H4 H5 H6]. split; rewrite ?Hs, ?Hb; done. Qed.

(** The blocks of a main chain are not above the best one. *)
Lemma represents_height c l b : represents c l -> b ∈ l -> bh_Height (bHeader b) <= bh_Height (ch_best c).
Proof.
  intros Hr (i & Hi)%list_elem_of_lookup. pose proof (rp_chain _ _ Hr) as Hm. pose proof (rp_best _ _ Hr) as Hb.
  rewrite last_lookup in Hb. apply fmap_Some in Hb as (x & Hx & He). apply bare_fields in He as (_ & -> & _).
  rewrite (mc_height _ _ Hm _ _ Hi), (mc_height _ _ Hm _ _ Hx). apply lookup_lt_Some in Hi. lia.
Qed.

(** *** A consensus step *)

Lemma consensus_casper {A} (Q : A -> Prop) m c :
  keeps Q m -> chain_inv OK c ->
  chain_inv OK (consensus m c).2 /\ (forall a, (consensus m c).1 = COk a -> Q a)
  /\ ch_store (consensus m c).2 = ch_store c /\ ch_best (consensus m c).2 = ch_best c
  /\ ch_orphans (consensus m c).2 = ch_orphans c /\ ch_bodies (consensus m c).2 = ch_bodies c.
Proof.
  intros Hm [H1 (l & H2 & H3 & H3q) H4 H5]. unfold consensus. destruct (Hm _ H4) as [Hi Hq]. destruct (m (ch_casper c)) as [r s].
  cbn [fst snd] in *. split_and!; [|intros a Ha; destruct r; try done; injection Ha as ->; auto|by destruct c..].
  split; [by destruct c| | |by destruct c].
  - exists l. split; [|by destruct c]. by apply (represents_frame c); destruct c.
  - by destruct c.
Qed.

(** *** Computations of the chain *)

(** [m] from [c] returns with [Q], or stops with [E]. *)
Definition mwp {A} (m : M A) (Q : A -> Chain (L := L) -> Prop) (E : Chain (L := L) -> Prop) c : Prop :=
  match m c with (COk a, c') => Q a c' | (_, c') => E c' end.
Lemma mwp_bind {A B} (m : M A) (f : A -> M B) Q E c : mwp m (fun a => mwp (f a) Q E) E c -> mwp (m ≫= f) Q E c.
Proof. unfold mwp, mbind, M_bind. by destruct (m c) as [[a|e|] c']. Qed.
Lemma mwp_lift {A} (f : Chain (L := L) -> cres A) (Q : A -> _ -> Prop) (E : _ -> Prop) c :
  (forall a, f c = COk a -> Q a c) -> E c -> mwp (lift f) Q E c.
Proof. unfold mwp, lift. intros HQ HE. destruct (f c); auto. Qed.
Lemma mwp_update (f : Chain (L := L) -> Chain (L := L)) (Q : unit -> _ -> Prop) E c : Q tt (f c) -> mwp (update f) Q E c.
Proof. done. Qed.
Lemma mwp_modify f (Q : unit -> _ -> Prop) E c : Q tt (set_casper (f (ch_casper c)) c) -> mwp (consensus (modify f)) Q E c.
Proof. done. Qed.
Lemma mwp_mono {A} (m : M A) (Q Q' : A -> _ -> Prop) (E E' : _ -> Prop) c :
  mwp m Q E c -> (forall a c', Q a c' -> Q' a c') -> (forall c', E c' -> E' c') -> mwp m Q' E' c.
Proof. unfold mwp. intros Hm HQ HE. destruct (m c) as [[a|e|] c']; auto. Qed.
Lemma mwp_end {A} (m : M A) (I : _ -> Prop) c : mwp m (fun _ => I) I c -> I (m c).2.
Proof. unfold mwp. by destruct (m c) as [[a|e|] c']. Qed.

(** The rest of the chain is as in [c]. *)
Definition beside_consensus c c' : Prop :=
  ch_store c' = ch_store c /\ ch_best c' = ch_best c /\ ch_orphans c' = ch_orphans c /\ ch_bodies c' = ch_bodies c.

Lemma mwp_consensus {A} (P : A -> Prop) m (Q : A -> _ -> Prop) (E : _ -> Prop) c :
  keeps P m -> chain_inv OK c ->
  (forall a c', P a -> chain_inv OK c' -> beside_consensus c c' -> Q a c') -> (forall c', chain_inv OK c' -> E c') ->
  mwp (consensus m) Q E c.
Proof.
  intros Hm Hc HQ HE. destruct (consensus_casper P m c Hm Hc) as (H1 & H2 & H3). unfold mwp.
  destruct (consensus m c) as [[a|e|] c']; cbn [fst snd] in *; [|by apply HE..]. apply HQ; [by apply H2|done|done].
Qed.

(** *** Saving a block *)

Lemma Hash_length bh : length (bh_Hash bh) = 32%nat.
Proof.
  unfold bh_Hash. destruct (BlockHeader_writeForHash bh) as [e|body] eqn:E; [done|]. unfold entry_id. cbn [default].
  apply Nat2Z.inj. apply sha3_256_len.
Qed.

Lemma cp_of_wf b cb : cp_of b = Some cb -> received b -> blk_wf cb.
Proof.
  unfold cp_of. destruct (mapM cp_tx_of (Transactions b)) as [txs|]; [|done]. cbn [mbind option_bind]. intros [= <-] Hr.
  split; [apply (received_height _ Hr)|apply Hash_length].
Qed.
Lemma SaveBlock_header b st st' h : SaveBlock b st = Some st' -> h <> bh_Hash (bHeader b) -> GetBlockHeader h st' = GetBlockHeader h st.
Proof.
  unfold SaveBlock. destruct (MarshalTextForBlockHeader b) as [|p]; [done|]. destruct (MarshalTextForTransactions b) as [|q]; [done|].
  cbn. intros [= <-] Hh. unfold GetBlockHeader. cbn. by rewrite lookup_insert_ne.
Qed.
Lemma orphan_Delete (h : Hash) c : orphan (ch_orphans (om_Delete h c)) = delete h (orphan (ch_orphans c)).
Proof. destruct c as [x1 x2 x3 o x4 x5]. apply orphan_delete. Qed.

Context (MaxTimeOffsetMs : Z).
Context (checkOutput : Entry -> gmap Hash Entry -> Z -> Z -> bytes -> Z -> bytes -> list bytes -> bool -> bool + error).
Context (vmfuel vfuel pfuel : nat) (now : Z) (addr : TypesTx -> bytes).
#[local] Abbreviation saveBlock := (saveBlock MaxTimeOffsetMs checkOutput vmfuel vfuel now).

(** The block is not on the main chain. *)
Definition not_main b c : Prop := forall l x, represents c l -> x ∈ l -> block_hash x <> block_hash b.

Lemma not_main_frame b c c' : beside_consensus c c' -> not_main b c -> not_main b c'.
Proof. intros (Hs & Hb & _) Hn l x Hr. apply Hn. by apply (represents_frame c'). Qed.

(** What the validation and the serialization of a block ensure. *)
Lemma saved_inv c c' b links st' parent checkpoint gs :
  chain_inv OK c -> received b -> not_main b c -> Forall link_wf links ->
  GetBlockHeader (PreviousBlockHash (bHeader b)) (ch_store c) = Some parent ->
  valid_block net MaxTimeOffsetMs (ProgramConverter (fun hash => GetContract hash (ch_store c))) checkOutput vmfuel vfuel now b parent checkpoint gs ->
  SaveBlock (set_links links b) (ch_store c) = Some st' ->
  ch_store c' = st' -> ch_best c' = ch_best c -> links_inv (ch_casper c') ->
  orphan (ch_orphans c') = delete (block_hash b) (orphan (ch_orphans c)) -> ch_bodies c' = ch_bodies c ->
  chain_inv OK c'.
Proof.
  intros [H1 (l & H2 & H0 & HQ) _ H4] Hr Hn Hl Hp Hv Hs <- Hb Hli Ho Hbo. set (b' := set_links links b).
  assert (Hh : block_hash b' = block_hash b) by (unfold b', block_hash, set_links; cbn [bHeader]; apply Hash_with_links).
  assert (Hr' : received b') by (by apply rc_links). destruct (rc_wf b' Hr') as [Hw _].
  assert (Hbh : bh_Height (bHeader b') = bh_Height (bHeader b) /\ PreviousBlockHash (bHeader b') = PreviousBlockHash (bHeader b))
    by (unfold b', set_links; cbn [bHeader]; by destruct (bHeader b)).
  destruct Hbh as [Hz Hpr]. destruct (header_stored _ _ _ H1 Hp) as (p & Hpb & Hpp).
  destruct (stored_block _ _ _ H1 Hpb) as (_ & Hrp & _). pose proof (received_height _ Hrp) as Hph.
  destruct (SaveBlock_spec _ _ _ Hs) as (Hg & Hg' & _). specialize (Hg Hw). fold (block_hash b') in Hg, Hg'.
  assert (Hne : Transactions b' <> []) by (unfold b'; destruct (vb_coinbase _ _ _ _ _ _ _ _ _ _ _ Hv) as (tx & Ht & _); destruct b as [bh txs]; cbn in *; by destruct txs).
  split; [| |done|].
  - apply (store_ok_insert (ch_store c) _ b'); [done|exact Hg'| |exact Hg|done|done|].
    { intros h Hh'. by eapply SaveBlock_header. }
    right. exists p. rewrite Hpr, Hz, Hpb, (vb_height _ _ _ _ _ _ _ _ _ _ _ Hv), <- Hpp. split; [done|]. apply u64_id. unfold MaxInt64, MaxUint64 in *. lia.
  - exists l. split; [|split; [|done]].
    + apply (represents_SaveBlock c c' l b'); [done|done|done|]. intros x Hx. rewrite Hh. by apply (Hn l).
    + rewrite H0. destruct (decide (gh = block_hash b')) as [Hgb|Hg0]; [|by rewrite Hg'].
      (* the genesis block is on the main chain *)
      destruct l as [|g l]; [|]; cbn in H0; [by destruct H2 as [_ [=]]|].
      destruct (stored_block _ _ _ H1 (eq_sym H0)) as (Hgh & _). destruct (Hn (g :: l) g H2 ltac:(left)). congruence.
  - intros h ob. rewrite Ho, Hbo, lookup_delete_Some. intros [Hne' Hob]. destruct (H4 h ob Hob) as [Hnone Hbody].
    split; [|done]. rewrite (SaveBlock_header _ _ _ _ Hs); [done|]. change (h <> block_hash b'). congruence.
Qed.

Lemma beside_trans c1 c2 c3 : beside_consensus c1 c2 -> beside_consensus c2 c3 -> beside_consensus c1 c3.
Proof. unfold beside_consensus. intros (-> & -> & -> & ->) (-> & -> & -> & ->). done. Qed.

Lemma mwp_saveBlock fuel b c :
  chain_inv OK c -> received b -> not_main b c -> mwp (saveBlock fuel b) (fun _ => chain_inv OK) (chain_inv OK) c.
Proof.
  intros Hc Hr Hn. unfold Chain.saveBlock. apply mwp_bind, mwp_lift; [|done]. intros parent Hp.
  apply mwp_bind. eapply mwp_consensus; [apply kept_ParentCheckpointByPrevHash|done| |done]. intros p c1 _ Hc1 B1.
  apply mwp_bind. eapply mwp_consensus; [apply keeps_read|done| |done]. intros checkpoint c2 _ Hc2 B2.
  pose proof (beside_trans _ _ _ B1 B2) as B. apply mwp_bind, mwp_lift; [|done]. intros [] Hv.
  apply mwp_bind, mwp_lift; [|done]. intros cb Hcb. destruct (rc_wf b Hr) as [[(_ & _ & _ & _ & Hls & _) _] _].
  apply mwp_bind. eapply mwp_consensus; [apply keeps_ApplyBlock; [|exact Hls]|done| |done].
  { destruct (cp_of b) eqn:E; [|done]. injection Hcb as ->. by eapply cp_of_wf. }
  intros [best links] c3 Hlinks Hc3 B3. cbn [snd] in Hlinks. pose proof (beside_trans _ _ _ B B3) as B'. cbn beta iota.
  apply mwp_bind, mwp_lift; [|done]. intros st' Hst.
  destruct (of_bres _) as [[]|e|] eqn:Ev in Hv; try done. destruct (ValidateBlock _ _ _ _ _ _ _ _ _ _) as [[]| | |] eqn:Ev' in Ev; try done.
  apply ValidateBlock_valid in Ev' as [gs Ev'].
  apply mwp_bind, mwp_update, mwp_bind, mwp_modify, mwp_update.
  apply (saved_inv c3 _ b links st' parent checkpoint gs).
  - done.
  - done.
  - by eapply not_main_frame.
  - done.
  - destruct B' as (-> & _). unfold header_of in Hp. destruct (GetBlockHeader _ _) eqn:E; [|done]. by injection Hp as ->.
  - destruct B' as (-> & _), B as (HB & _). by rewrite HB in Ev'.
  - destruct (Store.SaveBlock (set_links links b) (ch_store c3)) eqn:E; [|done]. by injection Hst as ->.
  - by destruct c3.
  - by destruct c3.
  - destruct c3 as [x1 s x3 x4 x5 x6]. unfold om_Delete. cbn [ch_casper set_orphanManage set_casper set_store ch_store] in *.
    assert (keeps (fun _ => True) (CasperState.SaveBlock cb links)) as Hk; [apply kept_SaveBlock; [|done]|].
    { destruct (cp_of b) eqn:E; [|done]. injection Hcb as ->. by eapply cp_of_wf. }
    destruct (Hk s) as [Hi _]; [apply Hc3|exact Hi].
  - rewrite orphan_Delete. unfold set_links. cbn [bHeader]. rewrite Hash_with_links. by destruct c3.
  - by destruct c3.
Qed.

(** *** Reorganising *)

Lemma calc_loop_fuel fuel fuel' st a d A D :
  (fuel <= fuel')%nat -> calc_loop fuel st a d A D = CHalt \/ calc_loop fuel' st a d A D = calc_loop fuel st a d A D.
Proof.
  revert fuel' a d A D. induction fuel as [|fuel IH]; intros [|fuel'] a d A D Hf; cbn [calc_loop]; try lia; [by right|..].
  - case_bool_decide; [by right|by left].
  - case_bool_decide; [by right|]. cbn zeta. destruct (if bh_Height a >=? bh_Height d then header_of (PreviousBlockHash a) st else COk a) as [a'|e|]; cbn [mbind cres_bind]; [|by right..].
    destruct (if bh_Height a <=? bh_Height d then header_of (PreviousBlockHash d) st else COk d) as [d'|e|]; cbn [mbind cres_bind]; [|by right..].
    apply IH. lia.
Qed.
Lemma prepare_fuel fuel fuel' st bh best :
  (fuel <= fuel')%nat -> prepare pending fuel st bh best = CHalt \/ prepare pending fuel' st bh best = prepare pending fuel st bh best.
Proof.
  intros Hf. unfold prepare, calcReorganizeChain. destruct (calc_loop_fuel fuel fuel' st bh best [] [] Hf) as [->| ->]; [by left|by right].
Qed.

#[local] Abbreviation reorganizeChain := (reorganizeChain pending checkOutput vmfuel vfuel pfuel now addr).
#[local] Abbreviation tryReorganize := (tryReorganize pending checkOutput vmfuel vfuel pfuel now addr).

(** A reorganisation leaves the consensus and the orphans alone. *)
Definition beside_reorganisation c c' : Prop :=
  ch_casper c' = ch_casper c /\ ch_orphans c' = ch_orphans c /\ ch_bodies c' = ch_bodies c.
Lemma restore_beside (txs : list (Hash * TypesTx)) c :
  beside_reorganisation c (for_each (restoreTransaction checkOutput vmfuel vfuel pfuel now addr) txs c).2.
Proof.
  revert c. induction txs as [|[h tx] txs IH]; intros c; cbn [for_each]; [done|]. unfold mbind, M_bind, restoreTransaction at 1.
  destruct (Chain_ValidateTx _ _ _ _ _ _ _ _ _ _ _) as [[res tp]|]; [|done]. destruct c. exact (IH _).
Qed.
Lemma reorganize_beside fuel bh c : beside_reorganisation c (reorganizeChain fuel bh c).2.
Proof.
  rewrite reorganize_eq. destruct (prepare _ _ _ _ _) as [[nodes r]|e|]; [|done..]. set (c1 := (removeTransactions _ _ _).2).
  assert (beside_reorganisation c c1) as (E1 & E2 & E3)
    by (unfold c1, removeTransactions, setState, update; cbn [snd]; by destruct (LastFinalized (ch_casper c)), c).
  destruct (restore_beside (map_range (txsToRestore r)) c1) as (F1 & F2 & F3). split_and!; congruence.
Qed.
Lemma reorganize_more_fuel fuel fuel' bh c :
  (fuel <= fuel')%nat -> (reorganizeChain fuel bh c) = (CHalt, c) \/ reorganizeChain fuel' bh c = reorganizeChain fuel bh c.
Proof.
  intros Hf. rewrite !reorganize_eq. destruct (prepare_fuel fuel fuel' (ch_store c) bh (ch_best c) Hf) as [->| ->]; [by left|by right].
Qed.

Hypothesis OK_repeats : forall l, OK l -> repeats_nothing l.

Lemma mwp_reorganize fuel h bh c :
  chain_inv OK c -> GetBlockHeader h (ch_store c) = Some bh -> mwp (reorganizeChain fuel bh) (fun _ => chain_inv any) (chain_inv any) c.
Proof.
  intros Hc Hbh. destruct (header_stored _ _ _ (ci_store _ _ Hc) Hbh) as (b & Hb & <-). destruct (ci_main _ _ Hc) as (l & Hr & H0 & HQ).
  destruct (branch_of _ _ _ (ci_store _ _ Hc) Hb) as (l' & Hm' & Hl' & H0').
  destruct (OK_repeats l HQ) as [Hd Hcol].
  destruct (reorganize_more_fuel fuel (fuel + (length l + length l')) (bHeader b) c ltac:(lia)) as [E|E]; unfold mwp; [rewrite E; by apply inv_any|]. rewrite <- E.
  set (F := (fuel + (length l + length l'))%nat) in *. assert (HF : (length l + length l' <= F)%nat) by lia. clearbody F.
  assert (Hlast : bHeader <$> last l' = Some (bHeader b)) by (by rewrite Hl').
  pose proof (reorganize_spec pending checkOutput vmfuel vfuel pfuel now addr F c l l' (bHeader b) Hr Hd Hm' ltac:(congruence) Hlast HF) as Hs.
  pose proof (reorganize_saved pending checkOutput vmfuel vfuel pfuel now addr F c l l' (bHeader b) Hr Hd Hm' ltac:(congruence) Hlast HF) as Hs'.
  pose proof (reorganize_beside F (bHeader b) c) as Hbs. destruct (reorganizeChain F (bHeader b) c) as [res c']. cbn [snd] in Hbs.
  assert (Hok : saved_as c c' l l' (bHeader b) -> represents c' l' -> chain_inv any c').
  { intros (k & r & _ & _ & _ & _ & Hst) Hr'. destruct Hc as [H1 _ H3 H4], Hbs as (B1 & B2 & B3). rewrite <- B1 in H3.
    split; [by rewrite Hst| |done|by rewrite B2, B3, Hst]. exists l'. split_and!; [done| |done]. rewrite H0', Hst. done. }
  destruct res as [u|e|]; [|destruct Hs as [-> _]; by apply inv_any|]; (destruct Hs as [Hs|]; [by apply Hok|done]).
Qed.
Lemma mwp_tryReorganize fuel h c : chain_inv OK c -> mwp (tryReorganize fuel h) (fun _ => chain_inv any) (chain_inv any) c.
Proof.
  intros Hc. pose proof (inv_any c Hc) as Ha. unfold Chain.tryReorganize. apply mwp_bind, mwp_lift; [|done]. intros best _. case_bool_decide; [done|].
  apply mwp_bind, mwp_lift; [|done]. intros bh Hbh. eapply mwp_reorganize; [done|]. unfold GetHeaderByHash, header_of in Hbh.
  destruct (GetBlockHeader h (ch_store c)) eqn:E; [|done]. injection Hbh as ->. exact E.
Qed.

Lemma restore_best (txs : list (Hash * TypesTx)) c :
  ch_best (for_each (restoreTransaction checkOutput vmfuel vfuel pfuel now addr) txs c).2 = ch_best c.
Proof.
  revert c. induction txs as [|[h tx] txs IH]; intros c; cbn [for_each]; [done|]. unfold mbind, M_bind, restoreTransaction at 1.
  destruct (Chain_ValidateTx _ _ _ _ _ _ _ _ _ _ _) as [[res tp]|]; [|done]. destruct c. exact (IH _).
Qed.
Lemma reorganize_best fuel bh c : (reorganizeChain fuel bh c).1 = COk tt -> ch_best (reorganizeChain fuel bh c).2 = bh.
Proof.
  rewrite !reorganize_eq. destruct (prepare _ _ _ _ _) as [[nodes r]|e|]; [|done..]. intros _. rewrite restore_best.
  unfold removeTransactions, setState, update. cbn [snd]. by destruct (LastFinalized (ch_casper c)), c.
Qed.
Lemma tryReorganize_best fuel h c c' :
  chain_inv OK c -> tryReorganize fuel h c = (COk tt, c') -> bh_Hash (ch_best c') = h /\ ch_casper c' = ch_casper c.
Proof.
  intros Hc. unfold Chain.tryReorganize, lift. unfold mbind at 1, M_bind at 1. case_bool_decide as Hb; [by intros [= <-]|].
  unfold mbind at 1, M_bind at 1, GetHeaderByHash, header_of. destruct (GetBlockHeader h (ch_store c)) as [bh|] eqn:E; [|done]. cbn [or_err].
  intros Ht. pose proof (reorganize_best fuel bh c) as H1. pose proof (reorganize_beside fuel bh c) as (H2 & _). rewrite Ht in H1, H2.
  cbn [fst snd] in H1, H2. rewrite (H1 eq_refl). split; [|done].
  destruct (header_stored _ _ _ (ci_store _ _ Hc) E) as (b & Hb' & <-). by destruct (stored_block _ _ _ (ci_store _ _ Hc) Hb').
Qed.

Lemma mwp_tryReorganize_best fuel h c :
  chain_inv OK c ->
  mwp (tryReorganize fuel h) (fun _ c' => chain_inv any c' /\ bh_Hash (ch_best c') = h /\ ch_casper c' = ch_casper c) (chain_inv any) c.
Proof.
  intros Hc. pose proof (mwp_tryReorganize fuel h c Hc) as Ht. unfold mwp in *. destruct (tryReorganize fuel h c) as [[[]|e|] c'] eqn:E; [|done..].
  split; [done|]. by eapply tryReorganize_best.
Qed.

(** *** Orphans and messages *)

(** An orphan is not stored, hence not on the main chain. *)
Lemma orphan_not_main c h ob b :
  chain_inv OK c -> orphan (ch_orphans c) !! h = Some ob -> ch_bodies c !! h = Some b -> received b /\ not_main b c.
Proof.
  intros Hc Hob Hb. destruct (ci_orphans _ _ Hc _ _ Hob) as (Hnone & b' & Hb' & Hr & Hh). rewrite Hb in Hb'. injection Hb' as <-.
  split; [done|]. intros l x Hl Hx He. apply list_elem_of_lookup in Hx as (i & Hi).
  pose proof (GetBlock_header _ _ _ (mc_stored _ _ (rp_chain _ _ Hl) _ _ Hi)) as Hst. congruence.
Qed.

#[local] Abbreviation saveSub_loop := (saveSub_loop MaxTimeOffsetMs checkOutput vmfuel vfuel now).
#[local] Abbreviation saveSubBlock := (saveSubBlock MaxTimeOffsetMs checkOutput vmfuel vfuel now).
#[local] Abbreviation processBlock := (processBlock MaxTimeOffsetMs pending checkOutput vmfuel vfuel pfuel now addr).

Lemma mwp_saveSub_loop cfuel sub s i todo c :
  (forall b c, chain_inv OK c -> mwp (sub b) (fun _ => chain_inv OK) (chain_inv OK) c) -> chain_inv OK c ->
  mwp (saveSub_loop cfuel sub s i todo) (fun _ => chain_inv OK) (chain_inv OK) c.
Proof.
  intros Hsub. revert i c. induction todo as [|todo IH]; intros i c Hc; cbn [Chain.saveSub_loop]; [done|].
  apply mwp_bind, mwp_lift; [|done]. intros h _. apply mwp_bind, mwp_lift; [|done]. intros x Hx.
  apply mwp_bind, mwp_lift; [|done]. intros b Hb.
  assert (received b /\ not_main b c) as [Hr Hn].
  { unfold Orphans.Get in Hx. destruct (orphan (ch_orphans c) !! h) as [ob|] eqn:E; [|done].
    destruct (ch_bodies c !! h) as [b'|] eqn:E'; [|done]. injection Hb as ->. by eapply orphan_not_main. }
  apply mwp_bind. unfold succeeds, mwp at 1. pose proof (mwp_saveBlock cfuel b c Hc Hr Hn) as Hs. unfold mwp in Hs.
  destruct (saveBlock cfuel b c) as [[u|e|] c']; [| |done].
  - apply mwp_bind. eapply mwp_mono; [by apply Hsub| |done]. intros u' c1 Hc1. by apply IH.
  - apply mwp_bind. by apply IH.
Qed.
Lemma mwp_saveSubBlock fuel cfuel b c : chain_inv OK c -> mwp (saveSubBlock fuel cfuel b) (fun _ => chain_inv OK) (chain_inv OK) c.
Proof.
  revert b c. induction fuel as [|fuel IH]; intros b c Hc; cbn [Chain.saveSubBlock]; [done|].
  apply mwp_bind, mwp_lift; [|done]. intros [s|] _; [|done]. by apply mwp_saveSub_loop.
Qed.

Lemma om_Add_inv b c :
  chain_inv OK c -> received b -> GetBlockHeader (block_hash b) (ch_store c) = None -> chain_inv OK (om_Add now b c).
Proof.
  intros [H1 (l & H2 & H0 & HQ) H3 H4] Hr Hn. set (c' := om_Add now b c).
  assert (ch_store c' = ch_store c /\ ch_best c' = ch_best c /\ ch_casper c' = ch_casper c) as (E1 & E2 & E3)
    by (unfold c', om_Add; destruct c; by case_match).
  split; rewrite ?E1, ?E3; [done| |done|].
  { exists l. split; [by apply (represents_frame c)|done]. }
  assert (Eo : ch_orphans c' = Orphans.Add now (as_orphan b) (ch_orphans c)) by (unfold c', om_Add; destruct c; by case_match).
  assert (Eb : ch_bodies c' = if Orphans.BlockExist (block_hash b) (ch_orphans c) then ch_bodies c else <[block_hash b := b]> (ch_bodies c))
    by (unfold c', om_Add, block_hash; destruct c as [x1 x2 x3 o x5 x6]; cbn [ch_orphans ch_bodies]; by destruct (Orphans.BlockExist _ o)).
  intros h ob. rewrite Eo, Eb. unfold Orphans.BlockExist. intros [->|Hob]%orphan_Add.
  - split; [done|]. change (b_Hash (as_orphan b)) with (block_hash b). case_bool_decide as Hex.
    + destruct Hex as [ob' Hob']. by destruct (H4 _ _ Hob').
    + exists b. by rewrite lookup_insert_eq.
  - destruct (H4 h ob Hob) as [Hnone (b' & Hb' & Hr' & Hh)]. split; [done|]. case_bool_decide; [by exists b'|].
    destruct (decide (block_hash b = h)) as [Eh|Ne].
    + exists b. by rewrite Eh, lookup_insert_eq.
    + exists b'. by rewrite lookup_insert_ne.
Qed.

(** The block is not looked at again. *)
Definition known b c : bool := Chain_BlockExist (block_hash b) c && (bh_Height (ch_best c) >=? bh_Height (bHeader b)).

(** Processing a block, whatever becomes of it; a stored block leaves the chain on the fork choice. *)
Lemma mwp_processBlock fuel cfuel rfuel b c :
  chain_inv OK c -> received b ->
  mwp (processBlock fuel cfuel rfuel b)
    (fun isOrphan c' => chain_inv any c' /\ (known b c = false -> isOrphan = false -> bh_Hash (ch_best c') = bestChain (ch_casper c')))
    (chain_inv any) c.
Proof.
  intros Hc Hr. pose proof (inv_any c Hc) as Ha. unfold Chain.processBlock. apply mwp_bind, mwp_lift; [|done]. intros known_b [= <-]. fold (block_hash b). fold (known b c).
  destruct (known b c) eqn:Ek; [by apply mwp_lift|]. unfold known in Ek.
  (* a stored block has the height of its hash *)
  assert (Hst : forall x, GetBlock (block_hash b) (ch_store c) = Some x -> bh_Height (ch_best c) < bh_Height (bHeader x)).
  { intros x Hx. destruct (stored_block _ _ _ (ci_store _ _ Hc) Hx) as (Hh & Hrx & _).
    destruct (rc_hash x b Hrx Hr Hh) as [-> _]. apply andb_false_iff in Ek as [Ek|Ek]; [|lia].
    unfold Chain_BlockExist in Ek. fold (block_hash b) in Ek. by rewrite (GetBlock_header _ _ _ Hx) in Ek. }
  apply mwp_bind, mwp_lift; [|done]. intros isOrphan [= <-].
  destruct (GetBlockHeader (PreviousBlockHash (bHeader b)) (ch_store c)) as [parent|] eqn:Ep.
  - assert (Hn : not_main b c).
    { intros l x Hl Hx He. pose proof (represents_height _ _ _ Hl Hx). apply list_elem_of_lookup in Hx as (i & Hi).
      pose proof (mc_stored _ _ (rp_chain _ _ Hl) _ _ Hi) as Hg. rewrite He in Hg. apply Hst in Hg. lia. }
    apply mwp_bind. eapply mwp_mono; [by apply mwp_saveBlock| |apply inv_any]. intros u1 c1 Hc1.
    apply mwp_bind. eapply mwp_mono; [by apply mwp_saveSubBlock| |apply inv_any]. intros u2 c2 Hc2.
    apply mwp_bind, mwp_lift; [|by apply inv_any]. intros best [= <-].
    apply mwp_bind. eapply mwp_mono; [by apply mwp_tryReorganize_best| |done]. intros u3 c3 (Hc3 & Hb3 & Hk3). split; [done|].
    intros _ _. by rewrite Hb3, Hk3.
  - apply mwp_bind, mwp_update. split; [|done]. apply inv_any, om_Add_inv; [done..|].
    destruct (GetBlockHeader (block_hash b) (ch_store c)) as [bh|] eqn:E; [|done]. exfalso.
    destruct (header_stored _ _ _ (ci_store _ _ Hc) E) as (x & Hx & _). pose proof (Hst x Hx) as Hlt.
    destruct (stored_block _ _ _ (ci_store _ _ Hc) Hx) as (Hh & Hrx & _ & Hp). destruct (rc_hash x b Hrx Hr Hh) as [_ Hpr].
    destruct Hp as [[_ Hz]|(p & Hp & _)].
    + pose proof (ci_main _ _ Hc) as (l & Hl & _). pose proof (rp_chain _ _ Hl) as Hm. pose proof (rp_best _ _ Hl) as Hb.
      destruct l as [|g l]; [discriminate Hb|]. pose proof (represents_height _ _ g Hl ltac:(left)) as Hg.
      pose proof (mc_height _ _ Hm 0%nat g eq_refl). lia.
    + apply GetBlock_header in Hp. congruence.
Qed.

(** *** Votes: links of a stored header *)

Lemma SaveBlockHeader_spec bh st st' :
  SaveBlockHeader bh st = Some st' -> header_wf bh ->
  GetBlockHeader (bh_Hash bh) st' = Some bh /\ (forall h, GetBlockTransactions h st' = GetBlockTransactions h st)
  /\ (forall h, h <> bh_Hash bh -> GetBlockHeader h st' = GetBlockHeader h st)
  /\ db_main st' = db_main st /\ db_utxos st' = db_utxos st /\ db_contracts st' = db_contracts st /\ db_status st' = db_status st.
Proof.
  unfold SaveBlockHeader. destruct (bh_MarshalText bh) as [|p] eqn:Hp; [done|]. cbn [of_inr mbind option_bind]. intros [= <-] Hw. split_and!; [|done| |done..].
  - unfold GetBlockHeader. cbn [db_headers]. rewrite lookup_insert_eq. cbn [mbind option_bind].
    pose proof (BlockHeader_trailing bh p [] Hw Hp) as Ht. cbn [hex_encode concat map app] in Ht. rewrite app_nil_r in Ht. by rewrite Ht.
  - intros h Hh. unfold GetBlockHeader. cbn [db_headers]. by rewrite lookup_insert_ne.
Qed.

(** [l] with the links of the block [h] replaced. *)
Definition relink (h : Hash) (links : list SupLink) (b : Block) : Block := if decide (block_hash b = h) then set_links links b else b.
Lemma relink_same h links b :
  bare (bHeader (relink h links b)) = bare (bHeader b) /\ Transactions (relink h links b) = Transactions b /\ block_hash (relink h links b) = block_hash b.
Proof.
  unfold relink, block_hash. destruct (decide _); [|done]. unfold set_links. cbn [bHeader Transactions]. rewrite Hash_with_links.
  split_and!; [|done..]. by destruct (bHeader b).
Qed.
Lemma relink_txs h links l : utxo_txs (relink h links <$> l) = utxo_txs l /\ blocks_txs (relink h links <$> l) = blocks_txs l.
Proof.
  unfold utxo_txs, blocks_txs. split; (induction l as [|b l IH]; [done|]); rewrite fmap_cons, !bind_cons, IH; f_equal;
    [unfold utxo_block; cbn [Utxo.Transactions]|]; by destruct (relink_same h links b) as (_ & -> & _).
Qed.

Lemma main_chain_relink st st' h links l :
  main_chain st l -> (forall b, GetBlock (block_hash b) st = Some b -> GetBlock (block_hash b) st' = Some (relink h links b)) ->
  main_chain st' (relink h links <$> l).
Proof.
  intros [H1 H2 H3 H4] Hs.
  assert (Hf : forall b, bh_Height (bHeader (relink h links b)) = bh_Height (bHeader b)
    /\ PreviousBlockHash (bHeader (relink h links b)) = PreviousBlockHash (bHeader b)).
  { intros b. destruct (relink_same h links b) as (Hb & _). by apply bare_fields in Hb as (_ & -> & ->). }
  split; [intros i b|intros i b|intros i b b'|intros i b]; rewrite !list_lookup_fmap, fmap_Some.
  - intros (x & Hx & ->). destruct (relink_same h links x) as (_ & _ & ->). apply Hs. eauto.
  - intros (x & Hx & ->). destruct (Hf x) as [-> _]. eauto.
  - rewrite fmap_Some. intros (x & Hx & ->) (y & Hy & ->). destruct (Hf y) as [_ ->], (relink_same h links x) as (_ & _ & ->). by eapply H3.
  - intros (x & Hx & ->). destruct (relink_same h links x) as (_ & -> & _). eauto.
Qed.

Lemma sync_inv h c : chain_inv OK c -> chain_inv OK (sync_header h c).
Proof.
  intros Hc. unfold sync_header. destruct (GetBlockHeader h (ch_store c)) as [bh|] eqn:Hbh; [|done].
  destruct (db_blocks (ch_casper c) !! h) as [sb|] eqn:Hsb; [|done]. destruct (SaveBlockHeader _ _) as [st'|] eqn:Hst; [|done].
  destruct Hc as [H1 (l & H2 & H0 & HQ) H3 H4]. destruct (header_stored _ _ _ H1 Hbh) as (b & Hb & <-).
  destruct (stored_block _ _ _ H1 Hb) as (Hh & Hr & Ht & Hp). destruct (li_blocks _ H3 _ _ Hsb) as [_ Hls].
  set (links := sb_SupLinks sb) in *. assert (Hr' : received (set_links links b)) by (by apply rc_links).
  destruct (rc_wf _ Hr') as [[Hw _] _]. unfold set_links in Hw. cbn [bHeader] in Hw.
  destruct (SaveBlockHeader_spec _ _ _ Hst Hw) as (G1 & G2 & G3 & G4 & G5 & G6 & G7). rewrite Hash_with_links in G1, G3. fold (block_hash b) in G1, G3. rewrite Hh in G1, G3.
  assert (Hget : GetBlock h st' = Some (set_links links b)).
  { unfold GetBlock in Hb |- *. rewrite G1, G2. destruct (GetBlockHeader h (ch_store c)); [|done]. cbn [mbind option_bind] in Hb |- *.
    destruct (GetBlockTransactions h (ch_store c)); [|done]. cbn [mbind option_bind] in Hb |- *. by injection Hb as <-. }
  assert (Hget' : forall h', h' <> h -> GetBlock h' st' = GetBlock h' (ch_store c)).
  { intros h' Hne. unfold GetBlock. by rewrite G2, G3. }
  assert (Hre : forall x, GetBlock (block_hash x) (ch_store c) = Some x -> GetBlock (block_hash x) st' = Some (relink h links x)).
  { intros x Hx. unfold relink. destruct (decide (block_hash x = h)) as [Hxh|Hne]; [|by rewrite Hget']. rewrite Hxh in Hx |- *. rewrite Hb in Hx. by injection Hx as <-. }
  assert (Hbf : bh_Height (bHeader (set_links links b)) = bh_Height (bHeader b)
    /\ PreviousBlockHash (bHeader (set_links links b)) = PreviousBlockHash (bHeader b) /\ block_hash (set_links links b) = h).
  { destruct (bare_fields (bHeader (set_links links b)) (bHeader b)) as (Hz1 & Hz2 & Hz3); [unfold set_links; cbn [bHeader]; by destruct (bHeader b)|].
    split_and!; [done|done|]. unfold block_hash in *. by rewrite Hz1. }
  destruct Hbf as (Hz & Hpr & Hhb). destruct c as [st k p o bo best]. cbn [ch_store ch_casper ch_orphans ch_bodies set_store ch_best] in *.
  split; cbn [ch_store ch_casper ch_orphans ch_bodies ch_best]; [| |done|].
  - apply (store_ok_insert st _ (set_links links b)); rewrite ?Hhb, ?Hz, ?Hpr; try done.
  - exists (relink h links <$> l). split; [|split; [|]].
    + destruct H2 as [M1 M2 M3 M4 M5 M6]. destruct (relink_txs h links l) as [Tu Tb]. cbn [ch_store ch_best] in *.
      split; cbn [ch_store ch_best]; rewrite ?Tu, ?Tb, ?G5, ?G6; [by apply (main_chain_relink st)| |done|done| |by unfold GetStoreStatus; rewrite G7].
      * rewrite <- M2, fmap_last. destruct (last l) as [x|]; [|done]. cbn. by destruct (relink_same h links x) as (-> & _).
      * intros i x. rewrite list_lookup_fmap, fmap_Some. intros (y & Hy & ->). destruct (relink_same h links y) as (_ & _ & ->).
        unfold GetMainChainHash. rewrite G4. eauto.
    + destruct l as [|g l]; [by destruct H2 as [_ [=]]|]. cbn in H0 |- *. symmetry in H0 |- *.
      destruct (stored_block _ _ _ H1 H0) as (Hgh & _). rewrite <- Hgh in H0 |- *. by apply Hre.
    + refine (OK_txs l _ _ HQ). clear. induction l as [|b' l IH]; [done|]. cbn. f_equal; [by destruct (relink_same h links b') as (_ & -> & _)|exact IH].
  - intros h' ob Hob. destruct (H4 h' ob Hob) as [Hnone Hbody]. split; [|done]. rewrite G3; [done|]. congruence.
Qed.

Lemma synced_inv {A} h (m : C (L := L) A) c : keeps (fun _ => True) m -> chain_inv OK c -> chain_inv OK (synced h (consensus m) c).2.
Proof.
  intros Hm Hc. unfold synced. destruct (consensus_casper _ m c Hm Hc) as [Hi _]. destruct (consensus m c) as [r c']. by apply sync_inv.
Qed.
Lemma fewer_orphans c o :
  chain_inv OK c -> (forall h ob, orphan o !! h = Some ob -> orphan (ch_orphans c) !! h = Some ob) -> chain_inv OK (set_orphanManage o c).
Proof.
  intros [H1 (l & H2 & H0 & HQ) H3 H4] Ho. destruct c as [st k p o' bo best]. split; [done| |done|].
  - exists l. split; [by apply (represents_frame (mkChain st k p o' bo best))|done].
  - intros h ob Hob. apply (H4 h ob). by apply Ho.
Qed.
End Inv.

(** ** Every state of a node *)

Section Reachable.
Context {R : MapRange} {RL : MapRangeLaws R} {U : Uint256} {Cr : Crypto} {CL : CryptoLaws Cr} {L : LRU} {N : Node_} {GR : GoRuntime} {RC : Received}.
Context (MaxTimeOffsetMs : Z) (pending : list VotePendingBlockNum).
Context (checkOutput : Entry -> gmap Hash Entry -> Z -> Z -> bytes -> Z -> bytes -> list bytes -> bool -> bool + error).

(** What happens to a node: a block from a peer, a vote, the cached votes of an
    epoch, a rollback the consensus has asked for, expired orphans, anything that
    happens to the pool of transactions, and a restart. *)
Inductive chain_step (g : Block) : Chain (L := L) -> Chain (L := L) -> Prop :=
  | step_block vmfuel vfuel pfuel now addr fuel cfuel rfuel b c :
      received b -> chain_step g c (processBlock MaxTimeOffsetMs pending checkOutput vmfuel vfuel pfuel now addr fuel cfuel rfuel b c).2
  | step_vote v c : chain_step g c (ProcessBlockVerification v c).2
  | step_cached fuel h c : chain_step g c (authenticateCached fuel h c).2
  | step_rollback vmfuel vfuel pfuel now addr rfuel h c :
      chain_step g c (tryReorganize pending checkOutput vmfuel vfuel pfuel now addr rfuel h c).2
  | step_expire now c : chain_step g c (set_orphanManage (orphanExpire now (ch_orphans c)) c)
  | step_pool tp c : chain_step g c (set_pool tp c)
  | step_restart fuel tp c c' : NewChain pending fuel g tp (ch_store c) (ch_casper c) = COk c' -> chain_step g c c'.

(** *** Starting *)

Lemma restart_inv gh fuel g tp st k c c' :
  chain_inv gh any c -> ch_store c = st -> links_inv k -> NewChain pending fuel g tp st k = COk c' -> chain_inv gh any c'.
Proof.
  intros [H1 (l & H2 & H0 & HQ) _ _] <- Hk. destruct H2 as [M1 M2 M3 M4 M5 (fh & fhash & M6)]. unfold NewChain. rewrite M6. cbn [or_halt mbind cres_bind]. rewrite M6.
  cbn [or_halt mbind cres_bind ss_Hash ss_FinalizedHeight ss_FinalizedHash].
  pose proof M2 as Hbest. rewrite last_lookup in Hbest. apply fmap_Some in Hbest as (x & Hx & He). destruct (bare_fields _ _ He) as (Eh & Ez & _).
  rewrite Eh. rewrite (mc_header _ l _ x M1 Hx : header_of (bh_Hash (bHeader x)) (ch_store c) = _). cbn [mbind cres_bind].
  destruct (kept_newCasper fuel fh fhash (reopen k) (reopen_links _ Hk)) as [Hk' _].
  destruct (newCasper fuel fh fhash (reopen k)) as [[u|e| | |] k']; [|done..]. intros [= <-]. cbn [snd] in Hk'. split; [done| |done|].
  - exists l. split; [|done]. split; cbn [ch_store ch_best]; [done| |done..|].
    + by rewrite last_lookup, Hx.
    + exists fh, fhash. rewrite M6. by rewrite Ez, Eh.
  - intros h ob. cbn. by rewrite lookup_empty.
Qed.

Lemma repeats_nothing_inv gh c : chain_inv gh any c -> (forall l, represents c l -> repeats_nothing l) -> chain_inv gh repeats_nothing c.
Proof. intros [H1 (l & H2 & H3 & _) H4 H5] Hl. split; [done| |done|done]. exists l. auto. Qed.

Lemma chain_step_inv gh g c c' :
  chain_inv gh any c -> (forall l, represents c l -> repeats_nothing l) -> chain_step g c c' -> chain_inv gh any c'.
Proof.
  intros Hc Hl Hs. pose proof (repeats_nothing_inv gh c Hc Hl) as Hn. destruct Hs.
  - eapply mwp_end, mwp_mono; [by apply (mwp_processBlock pending gh repeats_nothing)|by intros a c1 []|done].
  - apply synced_inv; [done|apply kept_AuthVerification|done].
  - apply synced_inv; [done|apply kept_authVerificationRound|done].
  - eapply mwp_end, (mwp_tryReorganize pending gh repeats_nothing); done.
  - apply fewer_orphans; [done|]. intros h ob. apply orphan_expired.
  - destruct Hc as [H1 (l & H2 & H0 & _) H3 H4]. destruct c as [st k p o bo best]. split; [done| |done|done]. exists l.
    split; [by apply (represents_frame (mkChain st k p o bo best))|done].
  - eapply restart_inv; [exact Hc|done| |done]. apply Hc.
Qed.

(** A node that starts from the genesis block [g], with an empty database. *)
Definition starts (g : Block) (c : Chain (L := L)) : Prop :=
  exists fuel tp, NewChain pending fuel g tp NewStore (database ∅ ∅) = COk c.

Lemma SaveBlock_store_ok b st' :
  Store.SaveBlock b NewStore = Some st' -> received b -> Transactions b <> [] -> bh_Height (bHeader b) = 0 -> store_ok (block_hash b) st'.
Proof.
  intros Hs Hr Ht Hz. destruct (SaveBlock_spec _ _ _ Hs) as (Hg & Hg' & _). specialize (Hg (proj1 (rc_wf b Hr))).
  apply (store_ok_insert _ NewStore _ b); [|exact Hg'| |exact Hg|done|done|by left].
  - intros h bh Hbh. unfold GetBlockHeader, NewStore in Hbh. cbn in Hbh. by rewrite lookup_empty in Hbh.
  - intros h Hh. by eapply SaveBlock_header.
Qed.

Lemma init_links g checkpoint db :
  init_database g checkpoint (database ∅ ∅) = COk db -> received g -> checkpoint = genesisCheckpoint g -> links_inv (L := L) db.
Proof.
  unfold init_database. destruct (cp_of g) as [cb|] eqn:Hcb; [|done]. cbn [or_halt mbind cres_bind]. intros [= <-] Hr ->.
  assert (Hcp : cp_wf (genesisCheckpoint g)) by (split; [done|apply Hash_length]). pose proof (cp_of_wf _ _ Hcb Hr) as Hb.
  destruct (rc_wf g Hr) as [[(_ & _ & _ & _ & Hl & _) _] _]. split; cbn [database db_checkpoints db_blocks].
  - intros p. unfold get. cbn [database objs]. rewrite list_lookup_total_alt, lookup_nil. by split.
  - intros k c. rewrite insert_empty, lookup_singleton_Some. by intros [_ <-].
  - intros h sb. rewrite insert_empty, lookup_singleton_Some. by intros [_ <-].
Qed.

Lemma starts_inv g c :
  starts g c -> received g -> bh_Height (bHeader g) = 0 -> Transactions g <> [] -> contracts (Transactions g) = [] -> chain_inv (block_hash g) any c.
Proof.
  intros (fuel & tp & Hn) Hr Hz Ht Hc. destruct (rc_wf g Hr) as [Hw _]. unfold NewChain in Hn. cbn [NewStore GetStoreStatus db_status] in Hn.
  destruct (initChainStatus pending g NewStore) as [[st k]|e|] eqn:Hi; [|done..]. cbn [mbind cres_bind] in Hn.
  destruct (init_database g k (database ∅ ∅)) as [db|e|] eqn:Hdb; [|done..]. cbn [mbind cres_bind] in Hn.
  set (c0 := mkChain st db tp NewOrphanManage ∅ (bHeader g)). pose proof (initChainStatus_represents pending g st c0 k Hi Hw Hz Ht Hc eq_refl eq_refl) as Hrep.
  assert (Hst : exists status, GetStoreStatus st = Some status) by (destruct (rp_status _ _ Hrep) as (? & ? & ?); eauto). destruct Hst as [status Hst].
  assert (Hparts : Store.SaveBlock g NewStore <> None /\ store_ok (block_hash g) st /\ k = genesisCheckpoint g).
  { unfold initChainStatus in Hi. destruct (Store.SaveBlock g NewStore) as [st1|] eqn:Es; [|done]. cbn [or_err mbind cres_bind] in Hi.
    destruct (Utxo.ApplyBlock _ _ _) as [v [e|]]; [done|]. cbn [of_utxo mbind cres_bind] in Hi. injection Hi as <- <-. split_and!; [done| |done].
    by apply (SaveBlock_store_ok g st1). }
  destruct Hparts as (_ & Hok & Hk). pose proof (init_links g k db Hdb Hr Hk) as Hli.
  apply (restart_inv (block_hash g) fuel g tp st db c0); [|done|done|unfold NewChain; by rewrite Hst].
  split; [done| |done|].
  - exists [g]. split_and!; [done| |done]. symmetry. by apply (mc_stored _ _ (rp_chain _ _ Hrep) 0%nat).
  - intros h ob. cbn. by rewrite lookup_empty.
Qed.

(** A step of a node whose chain repeats nothing so far. *)
Definition proper_step (g : Block) c c' : Prop := (forall l, represents c l -> repeats_nothing l) /\ chain_step g c c'.

Lemma chain_reachable_inv g c c' :
  starts g c -> received g -> bh_Height (bHeader g) = 0 -> Transactions g <> [] -> contracts (Transactions g) = [] ->
  rtc (proper_step g) c c' -> chain_inv (block_hash g) any c'.
Proof.
  intros Hs Hr Hz Ht Hc Hst. pose proof (starts_inv g c Hs Hr Hz Ht Hc) as Hi. clear Hs.
  induction Hst as [|c c1 c2 [Hl H1] _ IH]; [done|]. apply IH. by eapply chain_step_inv.
Qed.

(** Where no list of received blocks repeats anything every step is one. *)
Lemma proper_run g c c' :
  starts g c -> received g -> bh_Height (bHeader g) = 0 -> Transactions g <> [] -> contracts (Transactions g) = [] ->
  (forall l, Forall received l -> linked l -> repeats_nothing l) ->
  rtc (chain_step g) c c' -> rtc (proper_step g) c c' /\ forall l, represents c' l -> repeats_nothing l.
Proof.
  intros Hs Hr Hz Ht Hc Hall Hst. pose proof (starts_inv g c Hs Hr Hz Ht Hc) as Hi. clear Hs.
  assert (Hl : forall c1, chain_inv (block_hash g) any c1 -> forall l, represents c1 l -> repeats_nothing l).
  { intros c1 Hc1 l Hl1. destruct (chain_linked _ _ _ (ci_store _ _ _ Hc1) (rp_chain _ _ Hl1)). by apply Hall. }
  induction Hst as [c|c c1 c2 H1 _ IH]; [split; [constructor|by apply Hl]|].
  destruct IH as [IH1 IH2]; [by eapply chain_step_inv; eauto|]. split; [|done]. eapply rtc_l; [split; eauto|done].
Qed.


End Reachable.
