(* ===== verification/ChainRuns.v ===== *)
(** * A concrete reorganisation

    Four blocks: two on the main chain after the genesis block, one on a branch
    that leaves it at the genesis block.  The hash function is a checksum, so
    that different blocks have different hashes.  The chain moves to the first
    branch and back to the shorter one. *)

From S2P Require Import Prelude Checked GoSlice VMTypes Opcode Machine Interp Script Utxo UtxoStore Encoding Entries TxData Merkle MapTx Validate Orphans Checkpoint Tree CasperState Casper CasperSafety CasperRuns BlockData BlockValidation TxPool ContractView Store Chain ChainSpec.
From Stdlib Require Import Strings.Byte.
#[local] Open Scope Z_scope.

(** A checksum of 32 bytes. *)
Definition checksum (b : bytes) : bytes := resize 32 x00 (le_bytes 6 (foldl (fun h x => Z.land (h * 257 + b2z x + 1) 281474976710655) 7 b)).
Definition SumCrypto : Crypto := {|
  sha256 := checksum;
  sha3_256 := checksum;
  ripemd160 := fun b => take 20 (checksum b);
  ed25519_verify := fun pk m s => bool_decide (s = pk ++ m);
|}.
#[local] Existing Instance ZUint256.
#[local] Existing Instance SumCrypto.

(** A coinbase that pays 5, with its own time range. *)
Definition run_coinbase (n : Z) : TxData :=
  mkTxData 1 54 n [mkTxInput 1 (Some (TCoinbase [x00; z2b n])) [] [x0b]]
    [mkTxOutput 1 (mkOutputCommitment (mkAssetAmount (Some BTMAssetID) 5) 1 [x51] []) [] originalTxOutput].
Definition run_tx (n : Z) : TypesTx :=
  default (mkTypesTx (run_coinbase n) (MapTx.mkTx (mkTxHeader 0 0 0 []) [] ∅ [] [])) (NewTx (run_coinbase n)).
Definition run_block (h n : Z) (prev : Hash) (others : list Z) : Block :=
  let txs := run_tx <$> n :: others in
  mkTypesBlock (mkBlockHeader 1 h prev (6000 * n) (SetWitness []) [] (TxMerkleRoot ((fun tx => MapTx.tx_ID (t_Tx tx)) <$> txs))) txs.

(** Transaction 13 is in both branches, 12 and 14 in one. *)
Definition run_g : Block := run_block 0 1 zeroHash [].
Definition run_a1 : Block := run_block 1 2 (block_hash run_g) [12].
Definition run_a2 : Block := run_block 2 3 (block_hash run_a1) [13].
Definition run_b1 : Block := run_block 1 4 (block_hash run_g) [13; 14].

Definition run_store : Store :=
  match initChainStatus [] run_g NewStore with
  | COk (st, _) => default NewStore (foldl (fun st b => st ← st; SaveBlock b st) (Some st) [run_a1; run_a2; run_b1])
  | _ => NewStore
  end.
Definition run_chain : Chain (L := MapLRU) :=
  mkChain run_store (init genesis) (NewTxPool 0) NewOrphanManage ∅ (bHeader run_g).

#[local] Abbreviation run_reorganize b c :=
  (reorganizeChain (L := MapLRU) [] (fun _ _ _ _ _ _ _ _ _ => inl true) 0 0 0 0 (fun _ => []) 10 (bHeader b) c).

Definition run_a : list Block := [run_g; run_a1; run_a2].
Definition run_b : list Block := [run_g; run_b1].
(** The chain on the first branch. *)
Definition run_chain_a : Chain (L := MapLRU) := (run_reorganize run_a2 run_chain).2.

(** ** The hypotheses of the theorems *)

(** The ledger, computed. *)
Fixpoint ledger_run (S : gset Hash) (txs : list (bc_tx (Hash := Hash))) : option (gset Hash) :=
  match txs with
  | [] => Some S
  | tx :: txs => if decide (NoDup (SpentOutputIDs tx) /\ spent tx ⊆ S) then ledger_run (created tx ∪ (S ∖ spent tx)) txs else None
  end.
Lemma ledger_run_steps S txs S' : ledger_run S txs = Some S' -> ledger_steps S txs S'.
Proof.
  revert S. induction txs as [|tx txs IH]; intros S; cbn [ledger_run]; [intros [= ->]; constructor|].
  destruct (decide _) as [[Hn Hs]|]; [|done]. intros H. constructor; auto.
Qed.
Fixpoint fresh_run (S : gset Hash) (txs : list (bc_tx (Hash := Hash))) : bool :=
  match txs with
  | [] => true
  | tx :: txs => bool_decide (created tx ## S) && fresh_run (created tx ∪ (S ∖ spent tx)) txs
  end.
Lemma fresh_run_fresh S txs : fresh_run S txs = true -> fresh S txs.
Proof.
  revert S. induction txs as [|tx txs IH]; intros S; cbn [fresh_run]; [constructor|].
  intros [H1%bool_decide_eq_true H2]%andb_true_iff. constructor; auto.
Qed.

(** An equation between values that can be compared. *)
Ltac compute_equal := refine (bool_decide_unpack _ _); vm_compute; exact I.
Lemma lookup_cons_inv {A} (x y : A) l i : (x :: l) !! i = Some y -> (i = 0%nat /\ y = x) \/ exists j, i = S j /\ l !! j = Some y.
Proof. destruct i as [|i]; cbn; [intros [= ->]; by left|right; by exists i]. Qed.
(** Each element of a short list. *)
Ltac each_block tac :=
  intros i b Hi;
  repeat (apply lookup_cons_inv in Hi as [[-> ->]|(? & -> & Hi)]; [tac|]);
  rewrite lookup_nil in Hi; discriminate Hi.
Ltac each_pair :=
  intros i b b' Hi Hi';
  repeat (apply lookup_cons_inv in Hi' as [[? ->]|(? & [= <-] & Hi')]; [discriminate|];
          apply lookup_cons_inv in Hi as [[-> ->]|(? & -> & Hi)];
          [first [apply lookup_cons_inv in Hi' as [[_ ->]|(? & ? & _)]; [reflexivity|discriminate]|rewrite lookup_nil in Hi'; discriminate Hi']|]);
  rewrite lookup_nil in Hi; discriminate Hi.
Ltac compute_chain :=
  unfold run_a, run_b; split; [each_block ltac:(compute_equal)|each_block ltac:(reflexivity)|each_pair|each_block ltac:(discriminate)].

Lemma run_main_g : main_chain (ch_store run_chain) [run_g].
Proof. compute_chain. Qed.
Lemma run_main_a : main_chain (ch_store run_chain) run_a.
Proof. compute_chain. Qed.
Lemma run_main_b : main_chain (ch_store run_chain_a) run_b.
Proof. compute_chain. Qed.

Lemma run_distinct l :
  forallb (fun tx => bool_decide (SpentOutputIDs tx = [])) (utxo_txs l) && fresh_run ∅ (utxo_txs l)
  && bool_decide (NoDup ((fun tx => MapTx.tx_ID (t_Tx tx)) <$> blocks_txs l)) = true -> distinct_txs l.
Proof.
  intros [[H1 H2]%andb_true_iff H3%bool_decide_eq_true]%andb_true_iff. split; [|by apply fresh_run_fresh|done].
  intros tx id Htx Hid. rewrite forallb_forall in H1. specialize (H1 tx). rewrite <- list_elem_of_In, bool_decide_eq_true in H1.
  rewrite H1 in Hid by done. by apply not_elem_of_nil in Hid.
Qed.

Lemma run_represents_g : represents run_chain [run_g].
Proof.
  split.
  - exact run_main_g.
  - done.
  - apply ledger_run_steps. compute_equal.
  - compute_equal.
  - each_block ltac:(compute_equal).
  - exists 0, (block_hash run_g). compute_equal.
Qed.

Lemma run_no_contracts l : contracts (blocks_txs l) = [] -> ~ collision (contracts (blocks_txs l)) (contracts (blocks_txs l)).
Proof. intros -> (a & b & Ha & _). by apply not_elem_of_nil in Ha. Qed.

Lemma run_represents_a : represents run_chain_a run_a.
Proof.
  apply (reorganize_done [] (fun _ _ _ _ _ _ _ _ _ => inl true) 0 0 0 0 (fun _ => []) 10 run_chain [run_g] run_a (bHeader run_a2)).
  - exact run_represents_g.
  - apply run_distinct. vm_compute. reflexivity.
  - exact run_main_a.
  - reflexivity.
  - reflexivity.
  - cbn. lia.
  - vm_compute. reflexivity.
  - apply run_no_contracts. vm_compute. reflexivity.
Qed.

Lemma reorganizeChain_represents_witness :
  match run_reorganize run_a2 run_chain with
  | (CErr e, c') => c' = run_chain /\ exists e', e = ErrUtxo e'
  | (_, c') => represents c' run_a \/ collision (contracts (blocks_txs [run_g])) (contracts (blocks_txs [run_g]))
  end.
Proof.
  apply (reorganizeChain_represents [] (fun _ _ _ _ _ _ _ _ _ => inl true) 0 0 0 0 (fun _ => []) 10 run_chain [run_g] run_a (bHeader run_a2)).
  - exact run_represents_g.
  - apply run_distinct. vm_compute. reflexivity.
  - exact run_main_a.
  - reflexivity.
  - reflexivity.
  - cbn. lia.
Defined.

Lemma InMainChain_iff_witness : InMainChain (block_hash run_a1) run_chain_a = true <-> run_a1 ∈ run_a.
Proof.
  apply (InMainChain_iff run_chain_a run_a (block_hash run_a1) run_a1).
  - exact run_represents_a.
  - compute_equal.
  - reflexivity.
  - vm_compute. split; [discriminate|reflexivity].
Defined.

(** The chain is left with one block after the genesis, and still takes the
    second block of the other branch for one of its own. *)
Lemma InMainChain_stale_witness : InMainChain (block_hash run_a2) (run_reorganize run_b1 run_chain_a).2 = true.
Proof.
  apply (InMainChain_stale [] (fun _ _ _ _ _ _ _ _ _ => inl true) 0 0 0 0 (fun _ => []) 10 run_chain_a run_a run_b (bHeader run_b1) 2 run_a2).
  - exact run_represents_a.
  - apply run_distinct. vm_compute. reflexivity.
  - exact run_main_b.
  - reflexivity.
  - reflexivity.
  - cbn. lia.
  - assert (Hok : (run_reorganize run_b1 run_chain_a).1 = COk tt) by (vm_compute; reflexivity).
    intros e He. rewrite Hok in He. discriminate.
  - reflexivity.
  - cbn. lia.
Defined.

Lemma reorganisation_pool_witness :
  exists P A B (removed restored : list (Hash * TypesTx)) c1,
    run_a = P ++ A /\ run_b = P ++ B
    /\ removed.*1 ≡ₚ elements (tx_id_set (pool_txs B) ∖ tx_id_set (pool_txs A))
    /\ restored.*1 ≡ₚ elements (tx_id_set (pool_txs A) ∖ tx_id_set (pool_txs B))
    /\ (forall h tx, (h, tx) ∈ restored -> tx ∈ pool_txs A /\ tx_id tx = h)
    /\ ch_best c1 = bHeader run_b1
    /\ ch_pool c1 = foldl (fun tp '(h, _) => RemoveTransaction 0 (mkPtr [] h) tp) (ch_pool run_chain_a) removed
    /\ (forall h, h ∈ removed.*1 -> pool (ch_pool c1) !! h = None)
    /\ run_reorganize run_b1 run_chain_a
       = for_each (restoreTransaction (fun _ _ _ _ _ _ _ _ _ => inl true) 0 0 0 0 (fun _ => [])) restored c1.
Proof.
  destruct (reorganisation_pool [] (fun _ _ _ _ _ _ _ _ _ => inl true) 0 0 0 0 (fun _ => []) 10 run_chain_a run_a run_b (bHeader run_b1)) as [[e He]|H].
  - exact run_represents_a.
  - apply run_distinct. vm_compute. reflexivity.
  - exact run_main_b.
  - compute_equal.
  - reflexivity.
  - reflexivity.
  - cbn. lia.
  - exfalso. assert (Ho : (if (run_reorganize run_b1 run_chain_a).1 is CErr _ then true else false) = false) by (vm_compute; reflexivity).
    rewrite He in Ho. discriminate Ho.
  - exact H.
Defined.

(** ** A coinbase that is repeated *)

(** Height 2 again, with the coinbase of height 1. *)
Definition run_r2 : Block := run_block 2 2 (block_hash run_a1) [].
Definition run_store_r : Store := default NewStore (SaveBlock run_r2 run_store).
Definition run_chain_r : Chain (L := MapLRU) :=
  mkChain run_store_r (init genesis) (NewTxPool 0) NewOrphanManage ∅ (bHeader run_g).
(** What the coinbase of height 1 pays is in the database. *)
Definition run_has (c : Chain (L := MapLRU)) : bool :=
  forallb (fun id => bool_decide (id ∈ unspent (db_utxos (ch_store c)))) (ResultIds (utxo_tx (t_Tx (run_tx 2)))).

(** Detaching the repetition takes the output away from the block that stays:
    on the way over it the chain ends with the blocks of [run_a] but without
    what the second of them has paid. *)
Lemma repeated_coinbase_is_lost :
  let direct := (run_reorganize run_a2 run_chain_r).2 in
  let detour := (run_reorganize run_a2 (run_reorganize run_r2 run_chain_r).2).2 in
  bh_Hash (ch_best direct) = block_hash run_a2 /\ bh_Hash (ch_best detour) = block_hash run_a2
  /\ run_has direct = true /\ run_has detour = false.
Proof. split_and!; vm_compute; reflexivity. Qed.
