(* ===== verification/ChainInvRuns.v ===== *)
(** * A node that runs

    A genesis block and signed blocks on two branches, on the network of
    [CasperRuns.v] with the checksum of [ChainRuns.v].  The node receives a block
    of one branch, then the second block of the other, an orphan, then its
    parent: both are stored and the chain moves over to them. *)

From S2P Require Import Prelude Checked GoSlice VMTypes Opcode Machine Interp Script Utxo UtxoStore Encoding Entries TxData Merkle MapTx Validate Orphans Checkpoint Tree CasperState Casper CasperSafety CasperRuns Restart BlockData BlockValidation TxPool ContractView Store Chain ChainSpec ChainRuns CasperLinks ChainInv.
From Stdlib Require Import Strings.Byte.
#[local] Open Scope Z_scope.

#[local] Existing Instance ZUint256.
#[local] Existing Instance SumCrypto.

#[local] Instance SumCrypto_laws : CryptoLaws SumCrypto.
Proof.
  split; intros b; unfold zlen; cbn [sha256 sha3_256 ripemd160 SumCrypto].
  - unfold checksum. by rewrite length_resize.
  - unfold checksum. by rewrite length_resize.
  - unfold checksum. rewrite length_take, length_resize. done.
Qed.

(** Arrays as large as needed. *)
#[local] Instance TightSlices : GoRuntime := fun _ need => need.

(** A coinbase that pays nothing. *)
Definition node_coinbase (n : Z) : TxData :=
  mkTxData 1 54 n [mkTxInput 1 (Some (TCoinbase [x00; z2b n])) [] [x0b]]
    [mkTxOutput 1 (mkOutputCommitment (mkAssetAmount (Some BTMAssetID) 0) 1 [x51] []) [] originalTxOutput].
Definition node_tx (n : Z) : TypesTx :=
  default (mkTypesTx (node_coinbase n) (MapTx.mkTx (mkTxHeader 0 0 0 []) [] ∅ [] [])) (NewTx (node_coinbase n)).
(** The federation's key signs. *)
Definition node_header (h n : Z) (prev : Hash) (w : bytes) : BlockHeader :=
  mkBlockHeader 1 h prev (6000 * n) w [] (TxMerkleRoot [MapTx.tx_ID (t_Tx (node_tx n))]).
Definition node_block (h n : Z) (prev : Hash) : Block :=
  mkTypesBlock (node_header h n prev (take 32 (x01 :: replicate 64 x00) ++ bh_Hash (node_header h n prev []))) [node_tx n].

Definition node_g : Block := node_block 0 1 zeroHash.
Definition node_b1 : Block := node_block 1 2 (block_hash node_g).
Definition node_a1 : Block := node_block 1 3 (block_hash node_g).
Definition node_a2 : Block := node_block 2 4 (block_hash node_a1).

Definition node_new : cres (Chain (L := MapLRU)) := NewChain [] 10 node_g (NewTxPool 0) NewStore (database ∅ ∅).
Definition no_chain : Chain (L := MapLRU) := mkChain NewStore (database ∅ ∅) (NewTxPool 0) NewOrphanManage ∅ (bHeader node_g).
Definition node_start : Chain (L := MapLRU) := match node_new with COk c => c | _ => no_chain end.

#[local] Abbreviation node_process b c :=
  (processBlock (L := MapLRU) 3000 [] (fun _ _ _ _ _ _ _ _ _ => inl true) 10 10 10 60000 (fun _ => []) 10 10 10 b c).

Definition node_c1 : Chain (L := MapLRU) := (node_process node_b1 node_start).2.
Definition node_c2 : Chain (L := MapLRU) := (node_process node_a2 node_c1).2.
Definition node_c3 : Chain (L := MapLRU) := (node_process node_a1 node_c2).2.
(** It starts again. *)
Definition node_again : cres (Chain (L := MapLRU)) := NewChain [] 10 node_g (NewTxPool 0) (ch_store node_c3) (ch_casper node_c3).
Definition node_c4 : Chain (L := MapLRU) := match node_again with COk c => c | _ => no_chain end.

(** ** The blocks it receives *)

Definition node_blocks : list Block := [node_g; node_b1; node_a1; node_a2].
(** With the links the consensus may give them. *)
Definition node_received (b : Block) : Prop :=
  exists x links, x ∈ node_blocks /\ Forall link_wf links /\ b = set_links links x.

Lemma node_each (P : Block -> Prop) : P node_g -> P node_b1 -> P node_a1 -> P node_a2 -> forall x, x ∈ node_blocks -> P x.
Proof.
  intros H1 H2 H3 H4 x Hx. unfold node_blocks in Hx. apply elem_of_cons in Hx as [->|Hx]; [exact H1|]. apply elem_of_cons in Hx as [->|Hx]; [exact H2|].
  apply elem_of_cons in Hx as [->|Hx]; [exact H3|]. apply elem_of_cons in Hx as [->|Hx]; [exact H4|]. by apply not_elem_of_nil in Hx.
Qed.

Lemma node_tx_canonical n : 0 <= n < 128 -> is_Some (NewTx (node_coinbase n)) ->
  (forall b, tx_writeTo (node_coinbase n) = inr b -> zlen b = 54) -> tx_canonical (node_tx n).
Proof.
  intros Hn [tx Htx] Hz. assert (node_tx n = tx) as -> by (unfold node_tx; by rewrite Htx).
  unfold tx_canonical. rewrite (NewTx_data _ _ Htx). split; [|split; [done|]].
  - split; [done|]. split; [cbn; lia|].
    split; (apply Forall_cons; split; [|apply Forall_nil_2]); (split; [done|]); cbn; [done|].
    split; [split; [by exists BTMAssetID|done]|done].
  - intros b Hb. rewrite (Hz b Hb). reflexivity.
Qed.
Lemma node_tx_ok n :
  (0 <=? n) && (n <? 128) && (if NewTx (node_coinbase n) is Some _ then true else false)
  && (match tx_writeTo (node_coinbase n) with inr b => zlen b =? 54 | inl _ => true end) = true -> tx_canonical (node_tx n).
Proof.
  intros [[[H1 H2]%andb_true_iff H3]%andb_true_iff H4]%andb_true_iff. apply node_tx_canonical; [lia|by destruct (NewTx _)|].
  intros b Hb. rewrite Hb in H4. lia.
Qed.

Lemma node_wf x links : x ∈ node_blocks -> Forall link_wf links -> block_wf (set_links links x).
Proof.
  intros Hx Hl. revert x Hx. apply node_each;
    (split; [|apply Forall_singleton, node_tx_ok; vm_compute; reflexivity]);
    (split; [done|]); (split; [done|]); (split; [|split; [done|split; [exact Hl|reflexivity]]]).
  - reflexivity.
  - change (length (block_hash node_g) = 32%nat). reflexivity.
  - change (length (block_hash node_g) = 32%nat). reflexivity.
  - change (length (block_hash node_a1) = 32%nat). reflexivity.
Qed.

Lemma node_hash x y : x ∈ node_blocks -> y ∈ node_blocks -> block_hash x = block_hash y -> x = y.
Proof.
  intros Hx Hy He. assert (Hn : NoDup (block_hash <$> node_blocks)) by (refine (bool_decide_unpack _ _); vm_compute; exact I).
  apply list_elem_of_lookup in Hx as [i Hi], Hy as [j Hj].
  assert (i = j) as ->; [|congruence]. apply (NoDup_lookup _ _ _ (block_hash x) Hn); rewrite list_lookup_fmap.
  - by rewrite Hi.
  - rewrite Hj. cbn [fmap option_fmap option_map]. by rewrite He.
Qed.

Lemma set_links_fields links x :
  block_hash (set_links links x) = block_hash x /\ bh_Height (bHeader (set_links links x)) = bh_Height (bHeader x)
  /\ PreviousBlockHash (bHeader (set_links links x)) = PreviousBlockHash (bHeader x) /\ Transactions (set_links links x) = Transactions x.
Proof.
  unfold block_hash, set_links. cbn [bHeader Transactions]. rewrite Hash_with_links. by destruct (bHeader x).
Qed.

(** The branches: prefixes of two chains. *)
Definition node_chains : list (list Block) := [[]; [node_g]; [node_g; node_b1]; [node_g; node_a1]; [node_g; node_a1; node_a2]].
Definition node_branch_ok (l : list Block) : bool :=
  forallb (fun tx => bool_decide (SpentOutputIDs tx = [])) (utxo_txs l) && fresh_run ∅ (utxo_txs l)
  && bool_decide (NoDup ((fun tx => MapTx.tx_ID (t_Tx tx)) <$> blocks_txs l)) && bool_decide (contracts (blocks_txs l) = []).
Lemma node_chains_ok l : l ∈ node_chains -> repeats_nothing l.
Proof.
  intros Hl. assert (Hall : forallb node_branch_ok node_chains = true) by (vm_compute; reflexivity).
  rewrite forallb_forall in Hall. specialize (Hall l ltac:(by apply list_elem_of_In)).
  apply andb_true_iff in Hall as [Hd Hc%bool_decide_eq_true]. split; [by apply run_distinct|by apply run_no_contracts].
Qed.

(** The core of a received block at a height, after a block. *)
Lemma node_at b i : node_received b -> bh_Height (bHeader b) = Z.of_nat i ->
  exists x links, x ∈ node_blocks /\ b = set_links links x /\ bh_Height (bHeader x) = Z.of_nat i.
Proof. intros (x & links & Hx & _ & ->) Hh. exists x, links. destruct (set_links_fields links x) as (_ & E & _). rewrite E in Hh. done. Qed.

Lemma node_chain l : Forall node_received l -> linked l -> exists l', l' ∈ node_chains /\ Transactions <$> l = Transactions <$> l'.
Proof.
  intros Hr [Hh Hp].
  assert (Hc : forall i b, l !! i = Some b -> exists x links, x ∈ node_blocks /\ b = set_links links x /\ bh_Height (bHeader x) = Z.of_nat i).
  { intros i b Hb. apply node_at; [|by apply Hh]. rewrite Forall_forall in Hr. apply Hr. by eapply list_elem_of_lookup_2. }
  assert (H0 : forall x, x ∈ node_blocks -> bh_Height (bHeader x) = 0 -> x = node_g)
    by (apply (node_each (fun x => bh_Height (bHeader x) = 0 -> x = node_g)); [reflexivity|discriminate..]).
  assert (H1 : forall x, x ∈ node_blocks -> bh_Height (bHeader x) = 1 -> x = node_b1 \/ x = node_a1) 
    by (apply (node_each (fun x => bh_Height (bHeader x) = 1 -> x = node_b1 \/ x = node_a1)); [discriminate|by left|by right|discriminate]).
  assert (H2 : forall x, x ∈ node_blocks -> bh_Height (bHeader x) = 2 -> x = node_a2)
    by (apply (node_each (fun x => bh_Height (bHeader x) = 2 -> x = node_a2)); [discriminate..|reflexivity]).
  assert (H3 : forall x, x ∈ node_blocks -> bh_Height (bHeader x) < 3)
    by (apply (node_each (fun x => bh_Height (bHeader x) < 3)); done).
  destruct l as [|b0 l]; [exists []; split; [left|done]|].
  destruct (Hc 0%nat b0 eq_refl) as (x0 & ls0 & Hx0 & -> & E0). rewrite (H0 x0 Hx0 E0) in *.
  destruct l as [|b1 l]; [exists [node_g]; split; [right; left|done]|].
  destruct (Hc 1%nat b1 eq_refl) as (x1 & ls1 & Hx1 & -> & E1).
  destruct l as [|b2 l].
  { destruct (H1 x1 Hx1 E1) as [->| ->]; [exists [node_g; node_b1]; split; [do 2 right; left|done]|exists [node_g; node_a1]; split; [do 3 right; left|done]]. }
  destruct (Hc 2%nat b2 eq_refl) as (x2 & ls2 & Hx2 & -> & E2). rewrite (H2 x2 Hx2 E2) in *.
  pose proof (Hp 1%nat _ _ eq_refl eq_refl) as Hprev.
  destruct (set_links_fields ls2 node_a2) as (_ & _ & Ep & _), (set_links_fields ls1 x1) as (Eh & _ & _ & _). rewrite Ep, Eh in Hprev. clear Ep Eh.
  assert (x1 = node_a1) as -> by (apply node_hash; [done|do 2 right; left|exact (eq_sym Hprev)]).
  destruct l as [|b3 l]; [exists [node_g; node_a1; node_a2]; split; [do 4 right; left|done]|].
  destruct (Hc 3%nat b3 eq_refl) as (x3 & ls3 & Hx3 & -> & E3). pose proof (H3 x3 Hx3). lia.
Qed.

#[local] Instance NodeReceived : Received.
Proof.
  refine {| received := node_received |}.
  - intros b (x & links & Hx & Hl & ->). split; [by apply node_wf|]. destruct (set_links_fields links x) as (_ & -> & _).
    revert x Hx. apply node_each; vm_compute; discriminate.
  - intros b links (x & links' & Hx & _ & ->) Hl. exists x, links. split_and!; [done|done|]. unfold set_links. cbn [bHeader Transactions].
    by destruct (bHeader x).
  - intros b b' (x & ls & Hx & _ & ->) (y & ls' & Hy & _ & ->).
    destruct (set_links_fields ls x) as (-> & -> & -> & _), (set_links_fields ls' y) as (-> & -> & -> & _). intros He.
    by rewrite (node_hash x y Hx Hy He).
Defined.

Lemma node_repeats_nothing l : Forall received l -> linked l -> repeats_nothing l.
Proof. intros Hr Hl. destruct (node_chain l Hr Hl) as (l' & Hl' & He). apply (repeats_nothing_txs l'); [done|by apply node_chains_ok]. Qed.

Lemma node_received_own x : x ∈ node_blocks -> Forall link_wf (bh_SupLinks (bHeader x)) -> received x.
Proof.
  intros Hx Hl. exists x, (bh_SupLinks (bHeader x)). split_and!; [done|done|]. unfold set_links. destruct x as [[] txs]. done.
Qed.

Lemma node_starts : starts [] node_g node_start.
Proof.
  exists 10%nat, (NewTxPool 0). change (node_new = COk node_start).
  assert (H : (if node_new is COk _ then true else false) = true) by (vm_compute; reflexivity).
  unfold node_start. destruct node_new; [reflexivity|discriminate..].
Qed.

(** Two messages, the second an orphan. *)
Lemma node_run_2 : rtc (chain_step 3000 [] (fun _ _ _ _ _ _ _ _ _ => inl true) node_g) node_start node_c2.
Proof.
  eapply rtc_l; [apply (step_block _ _ _ node_g 10 10 10 60000 (fun _ => []) 10 10 10 node_b1); apply node_received_own; [right; left|constructor]|].
  eapply rtc_l; [apply (step_block _ _ _ node_g 10 10 10 60000 (fun _ => []) 10 10 10 node_a2); apply node_received_own; [do 3 right; left|constructor]|].
  constructor.
Qed.

(** Its parent, and a restart. *)
Lemma node_run_4 : rtc (chain_step 3000 [] (fun _ _ _ _ _ _ _ _ _ => inl true) node_g) node_c2 node_c4.
Proof.
  eapply rtc_l; [apply (step_block _ _ _ node_g 10 10 10 60000 (fun _ => []) 10 10 10 node_a1); apply node_received_own; [do 2 right; left|constructor]|].
  eapply rtc_l; [|constructor]. apply (step_restart _ _ _ node_g 10 (NewTxPool 0) node_c3). change (node_again = COk node_c4).
  assert (H : (if node_again is COk _ then true else false) = true) by (vm_compute; reflexivity).
  unfold node_c4. destruct node_again; [reflexivity|discriminate..].
Qed.

Lemma node_proper c : rtc (chain_step 3000 [] (fun _ _ _ _ _ _ _ _ _ => inl true) node_g) node_start c ->
  rtc (proper_step 3000 [] (fun _ _ _ _ _ _ _ _ _ => inl true) node_g) node_start c /\ forall l, represents c l -> repeats_nothing l.
Proof.
  apply (proper_run 3000 []); [exact node_starts|apply node_received_own; [left|constructor]|reflexivity|discriminate|vm_compute; reflexivity|].
  exact node_repeats_nothing.
Qed.


