(* ===== verification/UtxoKeeper.v ===== *)
(** * The reservation of outputs: account/utxo_keeper.go

    The wallet picks outputs of an account for a transaction it builds and keeps
    them reserved until the transaction is cancelled or expires.  The database
    and the unconfirmed outputs are maps by output; a method holds the mutex and
    is one step.  [sort.Slice] is not stable, hence any sort by descending
    amount, the interface [SortSlice].

    What the methods promise is in [UtxoKeeperSpec.v]. *)

From S2P Require Import Prelude Orphans Checkpoint.
From Stdlib Require Import Strings.Byte.
#[local] Open Scope Z_scope.

(** ** Data *)

Record UTXO := mkUTXO {
  OutputID : Hash;
  SourceID : Hash;
  AssetID : bytes;
  Amount : Z;
  SourcePos : Z;
  ControlProgram : bytes;
  Vote : bytes;
  StateData : list bytes;
  AccountID : bytes;
  Address : bytes;
  ControlProgramIndex : Z;
  ValidHeight : Z;
  Change : bool;
}.
#[export] Instance UTXO_eq_dec : EqDecision UTXO.
Proof. solve_decision. Defined.

Record reservation := mkReservation { res_id : Z; res_utxos : list UTXO; res_change : Z; res_expiry : Z }.

Inductive keeper_error := ErrInsufficient | ErrImmature | ErrReserved | ErrMatchUTXO.

(** A result; [KPanic] is the nil dereference of an empty list's front. *)
Inductive kres (A : Type) := KOk (a : A) | KErr (e : keeper_error) | KPanic.
Arguments KOk {A} a.
Arguments KErr {A} e.
Arguments KPanic {A}.

(** [standard] and [contract] are the two key prefixes of the database. *)
Record utxoKeeper := mkKeeper {
  nextIndex : Z;
  db_standard : gmap Hash UTXO;
  db_contract : gmap Hash UTXO;
  unconfirmed : gmap Hash UTXO;
  reserved : gmap Hash Z;
  reservations : gmap Z reservation;
}.

Definition desireUtxoCount : Z := 5.

(** [sort.Slice(utxos, utxos[i].Amount > utxos[j].Amount)]. *)
Class SortSlice := sort_Slice : list UTXO -> list UTXO.
Class SortSliceLaws (S : SortSlice) : Prop := {
  sort_perm l : sort_Slice l ≡ₚ l;
  sort_sorted l i j u v : (i < j)%nat -> sort_Slice l !! i = Some u -> sort_Slice l !! j = Some v -> Amount v <= Amount u;
}.

Section Keeper.
Context {R : MapRange} {S : SortSlice}.
Implicit Types (uk : utxoKeeper) (u : UTXO).

Definition set_reservations (next : Z) (rd : gmap Hash Z) (rs : gmap Z reservation) uk : utxoKeeper :=
  mkKeeper next (db_standard uk) (db_contract uk) (unconfirmed uk) rd rs.
Definition set_unconfirmed (m : gmap Hash UTXO) uk : utxoKeeper :=
  mkKeeper (nextIndex uk) (db_standard uk) (db_contract uk) m (reserved uk) (reservations uk).

(** ** Unconfirmed outputs *)

Definition AddUnconfirmedUtxo (utxos : list UTXO) uk : utxoKeeper :=
  set_unconfirmed (foldl (fun m u => <[OutputID u := u]> m) (unconfirmed uk) utxos) uk.
Definition RemoveUnconfirmedUtxo (hashes : list Hash) uk : utxoKeeper :=
  set_unconfirmed (foldl (fun m h => delete h m) (unconfirmed uk) hashes) uk.
Definition ListUnconfirmed uk : list UTXO := snd <$> map_range (unconfirmed uk).

(** ** Finding outputs *)

(** [appendUtxo]. *)
Definition appendUtxo (accountID assetID vote : bytes) (currentHeight : Z) (acc : list UTXO * Z) u : list UTXO * Z :=
  let '(utxos, immatureAmount) := acc in
  if negb (bool_decide (AccountID u = accountID)) || negb (bool_decide (AssetID u = assetID)) || negb (bool_decide (Vote u = vote)) then acc
  else if ValidHeight u >? currentHeight then (utxos, u64 (immatureAmount + Amount u))
  else (utxos ++ [u], immatureAmount).

Definition findUtxos (accountID assetID : bytes) (useUnconfirmed : bool) (vote : bytes) (currentHeight : Z) uk : list UTXO * Z :=
  let acc := foldl (appendUtxo accountID assetID vote currentHeight) ([], 0) (snd <$> map_range (db_standard uk)) in
  if negb useUnconfirmed then acc
  else foldl (appendUtxo accountID assetID vote currentHeight) acc (snd <$> map_range (unconfirmed uk)).

Definition findUtxo (outHash : Hash) (useUnconfirmed : bool) uk : kres UTXO :=
  match (if useUnconfirmed then unconfirmed uk !! outHash else None) with
  | Some u => KOk u
  | None =>
      match db_standard uk !! outHash with
      | Some u => KOk u
      | None => match db_contract uk !! outHash with Some u => KOk u | None => KErr ErrMatchUTXO end
      end
  end.

(** ** Choosing outputs *)

(** The inner loop: outputs that replace the largest one.  [None]: there is nothing to be replaced. *)
Fixpoint replace_loop (amount room : Z) (replaceList : list UTXO) (replaceAmount : Z) (nodes : list UTXO) : option (list UTXO * Z * list UTXO) :=
  match nodes with
  | [] => None
  | u :: nodes =>
      if negb (Z.of_nat (length replaceList) <=? room) then None
      else
        let replaceList := replaceList ++ [u] in
        let replaceAmount := u64 (replaceAmount + Amount u) in
        if replaceAmount >=? amount then Some (replaceList, replaceAmount, nodes)
        else replace_loop amount room replaceList replaceAmount nodes
  end.
(** The outer loop, from the node [nodes] begins with. *)
Fixpoint opt_loop (fuel : nat) (amount : Z) (optList : list UTXO) (optAmount : Z) (nodes : list UTXO) : kres (list UTXO * Z) :=
  match fuel, nodes with
  | _, [] => KOk (optList, optAmount)
  | O, _ => KPanic
  | Datatypes.S fuel, u :: nodes' =>
      if optAmount <? amount then opt_loop fuel amount (optList ++ [u]) (u64 (optAmount + Amount u)) nodes'
      else
        match optList with
        | [] => KPanic
        | largest :: rest =>
            match replace_loop amount (desireUtxoCount - Z.of_nat (length optList)) [] (u64 (optAmount - Amount largest)) nodes with
            | Some (replaceList, replaceAmount, nodes'') => opt_loop fuel amount (rest ++ replaceList) replaceAmount nodes''
            | None => KOk (optList, optAmount)
            end
        end
  end.

Definition is_reserved uk u : bool := bool_decide (is_Some (reserved uk !! OutputID u)).
Definition optUTXOs (utxos : list UTXO) (amount : Z) uk : kres (list UTXO * Z * Z) :=
  let utxos := sort_Slice utxos in
  let reservedAmount := foldl (fun n u => if is_reserved uk u then u64 (n + Amount u) else n) 0 utxos in
  let utxoList := filter (fun u => is_reserved uk u = false) utxos in
  match opt_loop (Datatypes.S (length utxoList)) amount [] 0 utxoList with
  | KOk (optUtxos, optAmount) => KOk (optUtxos, optAmount, reservedAmount)
  | KErr e => KErr e
  | KPanic => KPanic
  end.

(** ** Reservations *)

(** [uk.reserved[u.OutputID] = result.id] for every output. *)
Definition record_reservation (result : reservation) uk : utxoKeeper :=
  set_reservations (res_id result) (foldl (fun m u => <[OutputID u := res_id result]> m) (reserved uk) (res_utxos result))
    (<[res_id result := result]> (reservations uk)) uk.

Definition Reserve (accountID assetID : bytes) (amount : Z) (useUnconfirmed : bool) (vote : bytes) (exp currentHeight : Z) uk : kres reservation * utxoKeeper :=
  let '(utxos, immatureAmount) := findUtxos accountID assetID useUnconfirmed vote currentHeight uk in
  match optUTXOs utxos amount uk with
  | KOk (optUtxos, optAmount, reservedAmount) =>
      if u64 (u64 (optAmount + reservedAmount) + immatureAmount) <? amount then (KErr ErrInsufficient, uk)
      else if u64 (optAmount + reservedAmount) <? amount then (KErr ErrImmature, uk)
      else if optAmount <? amount then (KErr ErrReserved, uk)
      else
        let result := mkReservation (u64 (nextIndex uk + 1)) optUtxos (u64 (optAmount - amount)) exp in
        (KOk result, record_reservation result uk)
  | KErr e => (KErr e, uk)
  | KPanic => (KPanic, uk)
  end.

Definition ReserveParticular (outHash : Hash) (useUnconfirmed : bool) (exp currentHeight : Z) uk : kres reservation * utxoKeeper :=
  if bool_decide (is_Some (reserved uk !! outHash)) then (KErr ErrReserved, uk)
  else
    match findUtxo outHash useUnconfirmed uk with
    | KOk u =>
        if ValidHeight u >? currentHeight then (KErr ErrImmature, uk)
        else
          let result := mkReservation (u64 (nextIndex uk + 1)) [u] 0 exp in
          (KOk result, record_reservation result uk)
    | KErr e => (KErr e, uk)
    | KPanic => (KPanic, uk)
    end.

Definition cancel (rid : Z) uk : utxoKeeper :=
  match reservations uk !! rid with
  | None => uk
  | Some res =>
      set_reservations (nextIndex uk) (foldl (fun m u => delete (OutputID u) m) (reserved uk) (res_utxos res)) (delete rid (reservations uk)) uk
  end.
Definition Cancel : Z -> utxoKeeper -> utxoKeeper := cancel.

(** Go ranges over the map while entries are deleted; only the one it stands on is. *)
Definition expireReservation (t : Z) uk : utxoKeeper :=
  foldl (fun uk '(rid, res) => if res_expiry res <? t then cancel rid uk else uk) uk (map_range (reservations uk)).
End Keeper.
