(* ===== verification/UtxoKeeperSpec.v ===== *)
(** * What a reservation holds

    [Reserve] is exact: it reaches the amount whenever the free outputs do, each
    error says what is missing, and it takes at most five outputs unless the
    amount needs more.  No output is promised to two reservations.  An output
    that is both in the database and among the unconfirmed ones counts twice. *)

From stdpp Require Import sorting.
From S2P Require Import Prelude Orphans Checkpoint UtxoKeeper.
From Stdlib Require Import Strings.Byte.
#[local] Open Scope Z_scope.

(** ** The selection *)

Section Selection.
Implicit Types (u : UTXO) (l opt nodes : list UTXO).

Fixpoint total l : Z := match l with [] => 0 | u :: l => Amount u + total l end.
Definition amounts_ok l : Prop := Forall (fun u => 0 <= Amount u) l /\ total l <= MaxUint64.
(** Larger amounts first. *)
Definition descending l : Prop := forall i j u v, (i < j)%nat -> l !! i = Some u -> l !! j = Some v -> Amount v <= Amount u.

Lemma total_app l1 l2 : total (l1 ++ l2) = total l1 + total l2.
Proof. induction l1 as [|u l1 IH]; cbn; lia. Qed.
#[global] Instance total_perm : Proper ((≡ₚ) ==> (=)) total.
Proof. induction 1; cbn; lia. Qed.
Lemma total_nonneg l : Forall (fun u => 0 <= Amount u) l -> 0 <= total l.
Proof. induction 1; cbn; lia. Qed.
Lemma total_submseteq l1 l2 : l1 ⊆+ l2 -> Forall (fun u => 0 <= Amount u) l2 -> total l1 <= total l2.
Proof.
  intros (k & Hk)%submseteq_Permutation Hl. rewrite Hk, total_app. rewrite Hk in Hl. apply Forall_app in Hl as [_ Hl].
  pose proof (total_nonneg _ Hl). lia.
Qed.
#[global] Instance amounts_ok_perm : Proper ((≡ₚ) ==> iff) amounts_ok.
Proof. intros l1 l2 E. unfold amounts_ok. by rewrite E. Qed.
Lemma amounts_sub l1 l2 : l1 ⊆+ l2 -> amounts_ok l2 -> amounts_ok l1.
Proof.
  intros Hs [Hl Ht]. split; [|pose proof (total_submseteq _ _ Hs Hl); lia].
  rewrite Forall_forall in *. intros u Hu. apply Hl. by eapply elem_of_submseteq.
Qed.
Lemma u64_total n l : 0 <= n -> amounts_ok l -> n + total l <= MaxUint64 -> forall u, u ∈ l -> u64 (n + Amount u) = n + Amount u.
Proof.
  intros Hn [Hl _] Ht u Hu. apply u64_id. apply list_elem_of_split in Hu as (l1 & l2 & ->). rewrite total_app in Ht. cbn in Ht.
  apply Forall_app in Hl as [H1 H2]. apply Forall_cons in H2 as [Hu H2]. pose proof (total_nonneg _ H1). pose proof (total_nonneg _ H2). lia.
Qed.

Lemma replace_loop_spec amount room rl ra nodes rl' ra' rest :
  replace_loop amount room rl ra nodes = Some (rl', ra', rest) -> 0 <= ra -> amounts_ok nodes -> ra + total nodes <= MaxUint64 ->
  exists taken, rl' = rl ++ taken /\ nodes = taken ++ rest /\ taken <> [] /\ ra' = ra + total taken /\ amount <= ra'
    /\ Z.of_nat (length rl') <= room + 1.
Proof.
  revert rl ra. induction nodes as [|u nodes IH]; intros rl ra; cbn [replace_loop]; [done|]. destruct (Z.leb_spec (Z.of_nat (length rl)) room); [|done].
  cbn [negb]. intros Hr Hra Ha Ht. pose proof (u64_total ra (u :: nodes) Hra Ha Ht u ltac:(left)) as Hu. rewrite Hu in Hr.
  destruct Ha as [[Hu0 Hn]%Forall_cons Ht']. cbn in Ht, Ht'. destruct (Z.geb_spec (ra + Amount u) amount).
  - injection Hr as <- <- <-. exists [u]. rewrite length_app. cbn. split_and!; [done|done|done|lia|lia|lia].
  - destruct (IH _ _ Hr) as (taken & -> & -> & Hne & -> & Hge & Hlen); [lia|split; [done|lia]|lia|].
    exists (u :: taken). rewrite <- app_assoc. cbn. split_and!; [done|done|done|lia|lia|]. rewrite !length_app in *. cbn in *. lia.
Qed.

(** Whatever the loop starts from, with enough fuel. *)
Lemma opt_loop_spec fuel amount opt nodes :
  (length nodes < fuel)%nat -> 0 < amount -> amounts_ok (opt ++ nodes) ->
  exists opt', opt_loop fuel amount opt (total opt) nodes = KOk (opt', total opt') /\ opt' ⊆+ opt ++ nodes
    /\ (amount <= total (opt ++ nodes) -> amount <= total opt') /\ (total (opt ++ nodes) < amount -> opt' = opt ++ nodes).
Proof.
  intros Hf Ham. revert opt nodes Hf. induction fuel as [|fuel IH]; intros opt [|u nodes] Hf Hok; cbn [length] in Hf; [lia|lia| |].
  { exists opt. cbn [opt_loop]. rewrite app_nil_r. done. }
  cbn [opt_loop]. destruct (Z.ltb_spec (total opt) amount) as [Hlt|Hge].
  - pose proof Hok as [[Ho Hn]%Forall_app Ht]. rewrite total_app in Ht.
    assert (u64 (total opt + Amount u) = total (opt ++ [u])) as ->.
    { rewrite total_app. cbn. rewrite Z.add_0_r. apply (u64_total (total opt) (u :: nodes)); [by apply total_nonneg| |lia|left].
      apply (amounts_sub _ (opt ++ u :: nodes)); [by apply submseteq_inserts_l|done]. }
    destruct (IH (opt ++ [u]) nodes) as (opt' & H1 & H2 & H3); [lia|by rewrite <- app_assoc|]. exists opt'. by rewrite <- app_assoc in H2, H3.
  - destruct opt as [|largest rest]; [cbn in Hge; lia|].
    pose proof Hok as [[[Hlg Ho]%Forall_cons Hn]%Forall_app Ht]. rewrite total_app in Ht. cbn [total] in Ht, Hge.
    pose proof (total_nonneg _ Ho) as Hr0. pose proof (total_nonneg _ Hn) as Hn0. cbn [total] in Hn0.
    assert (u64 (total (largest :: rest) - Amount largest) = total rest) as -> by (cbn; rewrite u64_id; lia).
    destruct (replace_loop _ _ _ _ _) as [[[rl ra] rest']|] eqn:Er.
    + assert (amounts_ok (u :: nodes)) as Hnok by (apply (amounts_sub _ ((largest :: rest) ++ u :: nodes)); [by apply submseteq_inserts_l|done]).
      destruct (replace_loop_spec _ _ _ _ _ _ _ _ Er) as (taken & -> & Hsplit & Hne & -> & Hge' & _); [lia|done|cbn [total]; lia|]. cbn [app] in *.
      rewrite <- total_app in Hge' |- *.
      assert (Hsub : (rest ++ taken) ++ rest' ⊆+ (largest :: rest) ++ u :: nodes)
        by (rewrite Hsplit, <- app_assoc; apply submseteq_skips_r, submseteq_cons; done).
      destruct (IH (rest ++ taken) rest') as (opt' & H1 & H2 & H3 & _).
      * apply (f_equal length) in Hsplit. rewrite length_app in Hsplit. cbn in Hsplit. destruct taken; [done|]. cbn in Hsplit. lia.
      * by eapply amounts_sub.
      * exists opt'. split; [done|]. split; [by etransitivity|].
        split; [intros _; apply H3|intros Hlt; exfalso].
        -- rewrite total_app. pose proof (amounts_sub _ _ Hsub Hok) as [[_ Hr']%Forall_app _]. pose proof (total_nonneg _ Hr'). lia.
        -- cbn [total] in Hlt. rewrite total_app in Hlt. cbn [total] in Hlt. lia.
    + exists (largest :: rest). split; [done|]. split; [by apply submseteq_inserts_r|]. split; [intros _; done|].
      rewrite total_app. cbn [total]. lia.
Qed.

(** *** How many outputs *)

(** Once the amount is reached, a list of at most five outputs stays one and a longer list stays as it is. *)
Lemma opt_loop_reached fuel amount opt nodes opt' n' :
  opt_loop fuel amount opt (total opt) nodes = KOk (opt', n') -> amounts_ok (opt ++ nodes) -> amount <= total opt ->
  (length opt' <= 5 `max` length opt)%nat.
Proof.
  revert opt nodes. induction fuel as [|fuel IH]; intros opt [|u nodes] Hr Hok Hge; cbn [opt_loop] in Hr; [injection Hr as <- _; lia|done|injection Hr as <- _; lia|].
  destruct (Z.ltb_spec (total opt) amount); [lia|]. destruct opt as [|largest rest]; [done|].
  pose proof Hok as [[[Hlg Ho]%Forall_cons Hn]%Forall_app Ht]. rewrite total_app in Ht. cbn [total] in Ht.
  pose proof (total_nonneg _ Ho) as Hr0. pose proof (total_nonneg _ Hn) as Hn0. cbn [total] in Hn0.
  assert (u64 (total (largest :: rest) - Amount largest) = total rest) as E by (cbn; rewrite u64_id; lia). rewrite E in Hr.
  destruct (replace_loop _ _ _ _ _) as [[[rl ra] rest']|] eqn:Er; [|injection Hr as <- _; lia].
  assert (amounts_ok (u :: nodes)) as Hnok by (apply (amounts_sub _ ((largest :: rest) ++ u :: nodes)); [by apply submseteq_inserts_l|done]).
  destruct (replace_loop_spec _ _ _ _ _ _ _ _ Er) as (taken & -> & Hsplit & Hne & -> & Hge' & Hlen); [lia|done|cbn [total]; lia|]. cbn [app] in *.
  rewrite <- total_app in Hr, Hge'.
  assert (Hsub : (rest ++ taken) ++ rest' ⊆+ (largest :: rest) ++ u :: nodes)
    by (rewrite Hsplit, <- app_assoc; apply submseteq_skips_r, submseteq_cons; done).
  apply IH in Hr; [|by eapply amounts_sub|done]. rewrite length_app in Hr. cbn [length] in Hlen |- *. unfold desireUtxoCount in Hlen.
  assert (0 < length taken)%nat by (destruct taken; cbn; [done|lia]). lia.
Qed.

(** The first outputs of the list are the fewest that reach the amount, if the list is sorted. *)
Lemma opt_loop_count fuel amount opt nodes opt' n' m :
  opt_loop fuel amount opt (total opt) nodes = KOk (opt', n') -> amounts_ok (opt ++ nodes) -> total opt < amount ->
  amount <= total (take m (opt ++ nodes)) -> (length opt' <= 5 `max` m)%nat.
Proof.
  revert opt nodes. induction fuel as [|fuel IH]; intros opt nodes Hr Hok Hlt Hm.
  all: assert (Hlen : (length opt < m)%nat) by (apply Nat.nle_gt; intros Hle; rewrite take_app_le in Hm by done;
    enough (total (take m opt) <= total opt) by lia; apply total_submseteq; [apply sublist_submseteq, sublist_take|by destruct Hok as [[? ?]%Forall_app _]]).
  all: destruct nodes as [|u nodes]; cbn [opt_loop] in Hr; [injection Hr as <- _; lia|].
  { done. }
  destruct (Z.ltb_spec (total opt) amount); [|lia].
  assert (u64 (total opt + Amount u) = total (opt ++ [u])) as E.
  { pose proof Hok as [[Ho Hn]%Forall_app Ht]. rewrite total_app in Ht |- *. cbn. rewrite Z.add_0_r.
    apply (u64_total (total opt) (u :: nodes)); [by apply total_nonneg| |lia|left].
    apply (amounts_sub _ (opt ++ u :: nodes)); [by apply submseteq_inserts_l|done]. }
  rewrite E in Hr. replace (opt ++ u :: nodes) with ((opt ++ [u]) ++ nodes) in Hok, Hm by (by rewrite <- app_assoc).
  destruct (Z.lt_ge_cases (total (opt ++ [u])) amount); [by eapply IH|].
  apply opt_loop_reached in Hr; [|done|done]. rewrite length_app in Hr. cbn in Hr. lia.
Qed.

Lemma descending_tail u l : descending (u :: l) -> descending l.
Proof. intros H i j v w Hij. apply (H (Datatypes.S i) (Datatypes.S j)). lia. Qed.
Lemma take_shift n u l : descending (u :: l) -> 0 <= Amount u -> total (take n l) <= total (take n (u :: l)).
Proof.
  intros Hd Hu. destruct n as [|n]; [done|]. cbn [take total]. destruct (l !! n) as [v|] eqn:E.
  - rewrite (take_S_r _ _ _ E), total_app. cbn. pose proof (Hd 0%nat (Datatypes.S n) u v ltac:(lia) eq_refl E). lia.
  - apply lookup_ge_None in E. rewrite !take_ge by lia. lia.
Qed.
Lemma greedy l sub : descending l -> Forall (fun u => 0 <= Amount u) l -> sub ⊆+ l -> total sub <= total (take (length sub) l).
Proof.
  revert sub. induction l as [|u l IH]; intros sub Hd Hn Hs.
  { apply submseteq_nil_r in Hs as ->. done. }
  apply Forall_cons in Hn as [Hu Hn]. pose proof (descending_tail _ _ Hd) as Hd'. apply submseteq_cons_r in Hs as [Hs|(sub' & -> & Hs)].
  - etransitivity; [by apply IH|]. by apply take_shift.
  - cbn. specialize (IH sub' Hd' Hn Hs). lia.
Qed.
End Selection.

(** ** What a reservation holds *)

Section Reserve.
Context {R : MapRange} {RL : MapRangeLaws R} {S : SortSlice} {SL : SortSliceLaws S}.
Context (accountID assetID vote : bytes) (useUnconfirmed : bool) (currentHeight : Z).
Implicit Types (uk : utxoKeeper) (u : UTXO).

(** The outputs [Reserve] looks at, in classes. *)
Definition wanted u : Prop := AccountID u = accountID /\ AssetID u = assetID /\ Vote u = vote.
#[global] Instance wanted_dec u : Decision (wanted u).
Proof. unfold wanted. apply _. Defined.
Definition listed uk : list UTXO :=
  (map_to_list (db_standard uk)).*2 ++ (if useUnconfirmed then (map_to_list (unconfirmed uk)).*2 else []).
Definition immature uk : list UTXO := filter (fun u => wanted u /\ currentHeight < ValidHeight u) (listed uk).
Definition mature uk : list UTXO := filter (fun u => wanted u /\ ValidHeight u <= currentHeight) (listed uk).
Definition locked uk : list UTXO := filter (fun u => is_reserved uk u = true) (mature uk).
Definition free uk : list UTXO := filter (fun u => is_reserved uk u = false) (mature uk).

Lemma appendUtxo_fold l acc imm :
  amounts_ok (filter wanted l) -> 0 <= imm -> imm + total (filter wanted l) <= MaxUint64 ->
  foldl (appendUtxo accountID assetID vote currentHeight) (acc, imm) l
  = (acc ++ filter (fun u => wanted u /\ ValidHeight u <= currentHeight) l, imm + total (filter (fun u => wanted u /\ currentHeight < ValidHeight u) l)).
Proof.
  revert acc imm. induction l as [|u l IH]; intros acc imm Ha Hi Ht.
  { cbn. rewrite app_nil_r. f_equal. lia. }
  rewrite !filter_cons in *. cbn [foldl appendUtxo]. destruct (decide (wanted u)) as [Hw|Hw].
  - pose proof Hw as (-> & -> & ->). rewrite !bool_decide_true by done. cbn [negb orb]. cbn [total] in Ht.
    pose proof Ha as [[Hu Hl]%Forall_cons Hm]. cbn [total] in Hm. pose proof (total_nonneg _ Hl). destruct (Z.gtb_spec (ValidHeight u) currentHeight).
    + rewrite (decide_False (P := wanted u /\ ValidHeight u <= _)), decide_True by (split; [done|lia] || (intros [_ ?]; lia)).
      rewrite u64_id by lia. rewrite IH; [cbn [total]; f_equal; lia|split; [done|lia]|lia|lia].
    + rewrite decide_True, decide_False by (split; [done|lia] || (intros [_ ?]; lia)).
      rewrite IH; [by rewrite <- app_assoc|split; [done|lia]|lia|lia].
  - rewrite !decide_False by tauto. rewrite <- (IH acc imm) by done. f_equal.
    destruct (decide (AccountID u = accountID)) as [H1|H1], (decide (AssetID u = assetID)) as [H2|H2], (decide (Vote u = vote)) as [H3|H3];
      rewrite ?(bool_decide_true _ H1), ?(bool_decide_true _ H2), ?(bool_decide_true _ H3), ?(bool_decide_false _ H1), ?(bool_decide_false _ H2), ?(bool_decide_false _ H3); cbn; try done.
    by exfalso; apply Hw.
Qed.

Lemma wanted_split l : filter wanted l ≡ₚ filter (fun u => wanted u /\ ValidHeight u <= currentHeight) l ++ filter (fun u => wanted u /\ currentHeight < ValidHeight u) l.
Proof.
  induction l as [|u l IH]; [done|]. rewrite !filter_cons. destruct (decide (wanted u)) as [Hw|Hw]; [|by rewrite !decide_False by tauto].
  destruct (Z.le_gt_cases (ValidHeight u) currentHeight).
  - rewrite decide_True, decide_False by (split; [done|lia] || (intros [_ ?]; lia)). cbn. by apply perm_skip.
  - rewrite decide_False, decide_True by (split; [done|lia] || (intros [_ ?]; lia)). rewrite IH. apply Permutation_middle.
Qed.
Lemma mature_split uk : mature uk ≡ₚ free uk ++ locked uk.
Proof.
  unfold free, locked. induction (mature uk) as [|u l IH]; [done|]. rewrite !filter_cons. destruct (is_reserved uk u); cbn.
  - rewrite IH. apply Permutation_middle.
  - by apply perm_skip.
Qed.

Lemma findUtxos_spec uk :
  amounts_ok (filter wanted (listed uk)) ->
  exists l, findUtxos accountID assetID useUnconfirmed vote currentHeight uk = (l, total (immature uk)) /\ l ≡ₚ mature uk.
Proof.
  intros Ha.
  assert (Hp : (snd <$> map_range (db_standard uk)) ++ (if useUnconfirmed then snd <$> map_range (unconfirmed uk) else []) ≡ₚ listed uk).
  { unfold listed. apply Permutation_app; [apply fmap_Permutation, map_range_perm|]. destruct useUnconfirmed; [apply fmap_Permutation, map_range_perm|done]. }
  set (l1 := snd <$> map_range (db_standard uk)) in *. set (l2 := snd <$> map_range (unconfirmed uk)) in *.
  assert (findUtxos accountID assetID useUnconfirmed vote currentHeight uk
    = foldl (appendUtxo accountID assetID vote currentHeight) ([], 0) (l1 ++ (if useUnconfirmed then l2 else []))) as ->.
  { unfold findUtxos. destruct useUnconfirmed; cbn [negb]; [by rewrite foldl_app|by rewrite app_nil_r]. }
  eexists. split; [|unfold mature; rewrite <- Hp; reflexivity]. unfold immature. rewrite <- Hp. rewrite <- Hp in Ha.
  rewrite appendUtxo_fold; [done|done|lia|destruct Ha; lia].
Qed.

Lemma reserved_amount uk l n :
  0 <= n -> Forall (fun u => 0 <= Amount u) l -> n + total l <= MaxUint64 ->
  foldl (fun n u => if is_reserved uk u then u64 (n + Amount u) else n) n l = n + total (filter (fun u => is_reserved uk u = true) l).
Proof.
  revert n. induction l as [|u l IH]; intros n Hn Hl Ht; cbn [foldl].
  { cbn. lia. }
  apply Forall_cons in Hl as [Hu Hl]. cbn [total] in Ht. pose proof (total_nonneg _ Hl). rewrite filter_cons.
  destruct (is_reserved uk u).
  - rewrite u64_id by lia. rewrite IH, decide_True by (done || lia). cbn [total]. lia.
  - rewrite IH, decide_False by (done || lia). done.
Qed.

Lemma descending_filter (P : UTXO -> Prop) `{!forall u, Decision (P u)} l : descending l -> descending (filter P l).
Proof.
  induction l as [|u l IH]; intros Hd; [done|]. pose proof (IH (descending_tail _ _ Hd)) as Hf. rewrite filter_cons. destruct (decide (P u)); [|done].
  intros [|i] [|j] v w Hij Hi Hj; try lia; [|cbn in Hi, Hj; apply (Hf i j); [lia|done|done]]. cbn in Hi, Hj. injection Hi as <-.
  apply list_elem_of_lookup_2, list_elem_of_filter in Hj as [_ [k Hk]%list_elem_of_lookup_1]. apply (Hd 0%nat (Datatypes.S k)); [lia|done|done].
Qed.

(** [optUTXOs]: enough of the outputs at hand, if there is enough, and at most five unless even the largest are more. *)
Lemma optUTXOs_spec uk utxos amount :
  amounts_ok utxos -> 0 < amount ->
  exists opt, optUTXOs utxos amount uk = KOk (opt, total opt, total (filter (fun u => is_reserved uk u = true) utxos))
    /\ opt ⊆+ filter (fun u => is_reserved uk u = false) utxos
    /\ (amount <= total (filter (fun u => is_reserved uk u = false) utxos) -> amount <= total opt)
    /\ (total (filter (fun u => is_reserved uk u = false) utxos) < amount -> total opt = total (filter (fun u => is_reserved uk u = false) utxos))
    /\ (forall sub, sub ⊆+ filter (fun u => is_reserved uk u = false) utxos -> amount <= total sub -> (length opt <= 5 `max` length sub)%nat).
Proof.
  intros Ha Ham. unfold optUTXOs. pose proof (sort_perm utxos) as Hp. assert (Ha' : amounts_ok (sort_Slice utxos)) by by rewrite Hp.
  assert (Hd : descending (sort_Slice utxos)) by (intros i j u v; apply sort_sorted).
  rewrite reserved_amount, Z.add_0_l by (lia || apply Ha'). set (fl := filter _ (sort_Slice utxos)).
  assert (Hf : fl ≡ₚ filter (fun u => is_reserved uk u = false) utxos) by (unfold fl; by rewrite Hp).
  assert (Hok : amounts_ok fl) by (eapply amounts_sub; [apply sublist_submseteq, sublist_filter|done]).
  destruct (opt_loop_spec (Datatypes.S (length fl)) amount [] fl) as (opt & Ho & Hs & Hge & Hlt); [lia|done|done|]. cbn [app total] in *.
  exists opt. rewrite Ho. split_and!; [by rewrite Hp|by rewrite <- Hf|by rewrite <- Hf|intros H; rewrite <- Hf in H; by rewrite (Hlt H), Hf|].
  intros sub Hsub Hle. rewrite <- Hf in Hsub.
  eapply opt_loop_count; [exact Ho|done|cbn; lia|]. cbn [app]. etransitivity; [exact Hle|]. apply greedy; [by apply descending_filter|apply Hok|done].
Qed.

Lemma Reserve_spec uk amount exp :
  0 < amount -> amounts_ok (filter wanted (listed uk)) ->
  match Reserve accountID assetID amount useUnconfirmed vote exp currentHeight uk with
  | (KOk r, uk') =>
      res_utxos r ⊆+ free uk /\ total (res_utxos r) = amount + res_change r /\ 0 <= res_change r
      /\ (forall sub, sub ⊆+ free uk -> amount <= total sub -> (length (res_utxos r) <= 5 `max` length sub)%nat)
      /\ res_expiry r = exp /\ res_id r = u64 (nextIndex uk + 1) /\ uk' = record_reservation r uk
  | (KErr e, uk') =>
      uk' = uk /\ total (free uk) < amount
      /\ e = (if total (free uk) + total (locked uk) + total (immature uk) <? amount then ErrInsufficient
              else if total (free uk) + total (locked uk) <? amount then ErrImmature else ErrReserved)
  | (KPanic, _) => False
  end.
Proof.
  intros Ham Ha. unfold Reserve. destruct (findUtxos_spec uk Ha) as (utxos & -> & Hp).
  pose proof (wanted_split (listed uk)) as Hw. fold (mature uk) (immature uk) in Hw. rewrite mature_split in Hw. rewrite Hw in Ha.
  assert (Hm : amounts_ok utxos) by (rewrite Hp, mature_split; eapply amounts_sub; [apply submseteq_inserts_r; reflexivity|exact Ha]).
  destruct (optUTXOs_spec uk utxos amount Hm Ham) as (opt & -> & Hs & Hge & Hlt & Hn).
  assert (Hfree : filter (fun u => is_reserved uk u = false) utxos ≡ₚ free uk) by (unfold free; by rewrite Hp).
  assert (total (filter (fun u => is_reserved uk u = true) utxos) = total (locked uk)) as -> by (unfold locked; by rewrite Hp).
  rewrite Hfree in Hs, Hge, Hlt. pose proof Ha as [[[Hf0 Hl0]%Forall_app Hi0]%Forall_app Ht]. rewrite !total_app in Ht.
  pose proof (total_nonneg _ Hf0). pose proof (total_nonneg _ Hl0). pose proof (total_nonneg _ Hi0).
  pose proof (total_submseteq _ _ Hs Hf0). assert (amounts_ok opt) as [Hopt _] by (apply (amounts_sub _ (free uk)); [done|split; [done|lia]]). pose proof (total_nonneg _ Hopt).
  rewrite (u64_id (total opt + total (locked uk))), u64_id by lia.
  destruct (Z.lt_ge_cases (total (free uk)) amount) as [Hc|Hc].
  - rewrite (Hlt Hc). destruct (Z.ltb_spec (total (free uk) + total (locked uk) + total (immature uk)) amount); [done|].
    destruct (Z.ltb_spec (total (free uk) + total (locked uk)) amount); [done|]. destruct (Z.ltb_spec (total (free uk)) amount); [done|lia].
  - specialize (Hge Hc). rewrite !(proj2 (Z.ltb_ge _ _)) by lia. cbn [res_utxos res_change res_expiry res_id]. rewrite u64_id by lia.
    split_and!; [done|lia|lia| |done|done|done]. intros sub Hsub. apply Hn. by rewrite Hfree.
Qed.

(** Outputs listed once are chosen once. *)
Lemma NoDup_reserved uk us : us ⊆+ free uk -> NoDup (OutputID <$> listed uk) -> NoDup (OutputID <$> us).
Proof.
  intros Hs Hd. assert (Hl : OutputID <$> us ⊆+ OutputID <$> listed uk).
  { apply fmap_submseteq. etrans; [exact Hs|]. unfold free, mature. apply sublist_submseteq. etrans; apply sublist_filter. }
  apply submseteq_Permutation in Hl as [k Hk]. rewrite Hk in Hd. by apply NoDup_app in Hd as [? _].
Qed.

(** C29.  What [Reserve] answers, for a positive amount and outputs whose sum fits
    a [uint64]: it succeeds exactly when the entries of the mature outputs of the
    account, asset and vote that are not reserved make up the amount; then it
    reserves some of these entries, the change is what they exceed the amount by,
    and they are at most five, or at most as many as any others that suffice. Else
    nothing changes, and the error says whether the reserved entries, or those and
    the immature ones, would have made up the amount. An output that is both in
    the database and in the unconfirmed map is two entries and counts twice
    ([Reserve_counts_twice]); if no id is listed twice, the outputs reserved are
    different. *)
Theorem Reserve_exact uk amount exp :
  0 < amount -> amounts_ok (filter wanted (listed uk)) ->
  match Reserve accountID assetID amount useUnconfirmed vote exp currentHeight uk with
  | (KOk r, uk') =>
      res_utxos r ⊆+ free uk /\ (NoDup (OutputID <$> listed uk) -> NoDup (OutputID <$> res_utxos r))
      /\ total (res_utxos r) = amount + res_change r /\ 0 <= res_change r
      /\ (forall sub, sub ⊆+ free uk -> amount <= total sub -> (length (res_utxos r) <= 5 `max` length sub)%nat)
      /\ res_expiry r = exp /\ res_id r = u64 (nextIndex uk + 1) /\ uk' = record_reservation r uk
  | (KErr e, uk') =>
      uk' = uk /\ total (free uk) < amount
      /\ e = (if total (free uk) + total (locked uk) + total (immature uk) <? amount then ErrInsufficient
              else if total (free uk) + total (locked uk) <? amount then ErrImmature else ErrReserved)
  | (KPanic, _) => False
  end.
Proof.
  intros Ham Ha. pose proof (Reserve_spec uk amount exp Ham Ha) as Hr. destruct (Reserve _ _ _ _ _ _ _ _) as [[r|e|] uk']; [|done..].
  destruct Hr as (Hs & Hr). split; [done|]. split; [|done]. intros Hd. by eapply NoDup_reserved.
Qed.
End Reserve.

(** ** Every output is promised once *)

(** What happens to a keeper: the calls of the wallet, the ticker, and the wallet's writes to the database. *)
Inductive keeper_op :=
| KReserve (accountID assetID : bytes) (amount : Z) (useUnconfirmed : bool) (vote : bytes) (exp height : Z)
| KReserveParticular (outHash : Hash) (useUnconfirmed : bool) (exp height : Z)
| KCancel (rid : Z)
| KExpire (t : Z)
| KAddUnconfirmed (utxos : list UTXO)
| KRemoveUnconfirmed (hashes : list Hash)
| KDatabase (standard contract : gmap Hash UTXO).

Definition keyed (m : gmap Hash UTXO) : Prop := forall h u, m !! h = Some u -> OutputID u = h.
(** The wallet stores an output under its identifier. *)
Definition op_keyed (op : keeper_op) : Prop :=
  match op with KDatabase st co => keyed st /\ keyed co | _ => True end.

Record keeper_inv (uk : utxoKeeper) : Prop := {
  ki_standard : keyed (db_standard uk);
  ki_contract : keyed (db_contract uk);
  ki_unconfirmed : keyed (unconfirmed uk);
  ki_index : 0 <= nextIndex uk;
  ki_ids : forall rid res, reservations uk !! rid = Some res -> res_id res = rid /\ 1 <= rid <= nextIndex uk;
  ki_held : forall rid res u, reservations uk !! rid = Some res -> u ∈ res_utxos res -> reserved uk !! OutputID u = Some rid;
  ki_back : forall h rid, reserved uk !! h = Some rid -> exists res u, reservations uk !! rid = Some res /\ u ∈ res_utxos res /\ OutputID u = h;
}.

Definition new_keeper : utxoKeeper := mkKeeper 0 ∅ ∅ ∅ ∅ ∅.

Section Exclusive.
Context {R : MapRange} {RL : MapRangeLaws R} {S : SortSlice} {SL : SortSliceLaws S}.
Implicit Types (uk : utxoKeeper) (u : UTXO).

Definition keeper_step (uk : utxoKeeper) (op : keeper_op) : utxoKeeper :=
  match op with
  | KReserve acc asset amount uu vote exp height => (Reserve acc asset amount uu vote exp height uk).2
  | KReserveParticular h uu exp height => (ReserveParticular h uu exp height uk).2
  | KCancel rid => Cancel rid uk
  | KExpire t => expireReservation t uk
  | KAddUnconfirmed utxos => AddUnconfirmedUtxo utxos uk
  | KRemoveUnconfirmed hashes => RemoveUnconfirmedUtxo hashes uk
  | KDatabase st co => mkKeeper (nextIndex uk) st co (unconfirmed uk) (reserved uk) (reservations uk)
  end.

Lemma replace_loop_incl amount room rl ra nodes rl' ra' rest :
  replace_loop amount room rl ra nodes = Some (rl', ra', rest) -> forall u, (u ∈ rl' -> u ∈ rl \/ u ∈ nodes) /\ (u ∈ rest -> u ∈ nodes).
Proof.
  revert rl ra. induction nodes as [|v nodes IH]; intros rl ra; cbn [replace_loop]; [done|]. destruct (negb _); [done|]. intros Hr u.
  destruct (_ >=? amount).
  - injection Hr as <- <- <-. set_solver.
  - destruct (IH _ _ Hr u). set_solver.
Qed.
Lemma opt_loop_incl fuel amount opt oa nodes opt' oa' : opt_loop fuel amount opt oa nodes = KOk (opt', oa') -> forall u, u ∈ opt' -> u ∈ opt \/ u ∈ nodes.
Proof.
  revert opt oa nodes. induction fuel as [|fuel IH]; intros opt oa [|v nodes] Hr u Hu; cbn [opt_loop] in Hr; try done.
  1,2: injection Hr as <- _; by left.
  destruct (oa <? amount).
  - destruct (IH _ _ _ Hr u Hu); set_solver.
  - destruct opt as [|largest rest]; [done|]. destruct (replace_loop _ _ _ _ _) as [[[rl ra] rest']|] eqn:Er; [|injection Hr as <- _; by left].
    destruct (replace_loop_incl _ _ _ _ _ _ _ _ Er u) as [H1 H2]. destruct (IH _ _ _ Hr u Hu); set_solver.
Qed.
(** What is chosen is not reserved, whatever the amounts. *)
Lemma optUTXOs_free uk utxos amount opt oa ra u : optUTXOs utxos amount uk = KOk (opt, oa, ra) -> u ∈ opt -> reserved uk !! OutputID u = None.
Proof.
  unfold optUTXOs. destruct (opt_loop _ _ _ _ _) as [[opt' oa']| |] eqn:E; [|done..]. intros [= <- <- <-] Hu.
  destruct (opt_loop_incl _ _ _ _ _ _ _ E u Hu) as [Hn|Hf]; [by apply not_elem_of_nil in Hn|].
  apply list_elem_of_filter in Hf as [Hf _]. unfold is_reserved in Hf. apply bool_decide_eq_false in Hf. by apply eq_None_not_Some.
Qed.

Lemma foldl_insert_id (l : list UTXO) (rid : Z) (m : gmap Hash Z) h :
  foldl (fun m u => <[OutputID u := rid]> m) m l !! h = if decide (h ∈ OutputID <$> l) then Some rid else m !! h.
Proof.
  revert m. induction l as [|u l IH]; intros m; cbn [foldl fmap list_fmap]; [done|]. rewrite IH. destruct (decide (h = OutputID u)) as [->|Hne].
  - rewrite lookup_insert_eq. rewrite (decide_True (P := _ ∈ OutputID u :: _)) by left. by destruct (decide _).
  - rewrite lookup_insert_ne by done. destruct (decide (h ∈ _)) as [H|H]; [rewrite decide_True by (by right); done|].
    rewrite decide_False; [done|]. by intros [->|?]%elem_of_cons.
Qed.
Lemma foldl_delete_id (l : list UTXO) (m : gmap Hash Z) h :
  foldl (fun m u => delete (OutputID u) m) m l !! h = if decide (h ∈ OutputID <$> l) then None else m !! h.
Proof.
  revert m. induction l as [|u l IH]; intros m; cbn [foldl fmap list_fmap]; [done|]. rewrite IH. destruct (decide (h = OutputID u)) as [->|Hne].
  - rewrite lookup_delete_eq. rewrite (decide_True (P := _ ∈ OutputID u :: _)) by left. by destruct (decide _).
  - rewrite lookup_delete_ne by done. destruct (decide (h ∈ _)) as [H|H]; [rewrite decide_True by (by right); done|].
    rewrite decide_False; [done|]. by intros [->|?]%elem_of_cons.
Qed.

Lemma record_inv uk utxos change exp :
  keeper_inv uk -> nextIndex uk < MaxUint64 -> (forall u, u ∈ utxos -> reserved uk !! OutputID u = None) ->
  keeper_inv (record_reservation (mkReservation (u64 (nextIndex uk + 1)) utxos change exp) uk).
Proof.
  intros [K1 K2 K3 K4 K5 K6 K7] Hn Hfree. rewrite u64_id by lia. set (rid := nextIndex uk + 1).
  assert (Hnew : reservations uk !! rid = None) by (apply eq_None_not_Some; intros [res E]; destruct (K5 _ _ E); lia).
  split; cbn; try done; [lia|intros id res..|intros h id].
  - intros [[<- <-]|[_ E]]%lookup_insert_Some; [cbn; lia|]. destruct (K5 _ _ E). split; [done|lia].
  - intros u [[<- <-]|[Hid E]]%lookup_insert_Some Hu; rewrite foldl_insert_id; cbn in *.
    + rewrite decide_True by by apply list_elem_of_fmap_2. done.
    + rewrite decide_False; [by eapply K6|]. intros (v & Ev & Hv)%list_elem_of_fmap. pose proof (K6 _ _ _ E Hu) as Hr. rewrite Ev, (Hfree v Hv) in Hr. done.
  - rewrite foldl_insert_id. destruct (decide _) as [(v & -> & Hv)%list_elem_of_fmap|Hh].
    + intros [= <-]. eexists _, v. rewrite lookup_insert_eq. done.
    + intros (res & u & Hres & Hu & <-)%K7. exists res, u. rewrite lookup_insert_ne; [done|]. intros <-. by rewrite Hnew in Hres.
Qed.
Lemma cancel_inv uk rid : keeper_inv uk -> keeper_inv (cancel rid uk).
Proof.
  intros HK. pose proof HK as [K1 K2 K3 K4 K5 K6 K7]. unfold cancel. destruct (reservations uk !! rid) as [res|] eqn:Er; [|done].
  split; cbn; try done; [intros id res'..|intros h id].
  - intros [_ E]%lookup_delete_Some. by apply K5.
  - intros u [Hne E]%lookup_delete_Some Hu. rewrite foldl_delete_id, decide_False; [by eapply K6|].
    intros (v & Ev & Hv)%list_elem_of_fmap. pose proof (K6 _ _ _ E Hu) as H1. pose proof (K6 _ _ _ Er Hv) as H2. rewrite Ev, H2 in H1. by injection H1.
  - rewrite foldl_delete_id. destruct (decide _) as [|Hh]; [done|]. intros (res' & u & E & Hu & <-)%K7. exists res', u.
    rewrite lookup_delete_ne; [done|]. intros <-. rewrite Er in E. injection E as <-. apply Hh. by apply list_elem_of_fmap_2.
Qed.
Lemma cancel_index uk rid : nextIndex (cancel rid uk) = nextIndex uk.
Proof. unfold cancel. by destruct (_ !! rid). Qed.
Lemma expire_inv uk t : keeper_inv uk -> keeper_inv (expireReservation t uk) /\ nextIndex (expireReservation t uk) = nextIndex uk.
Proof.
  unfold expireReservation. generalize (map_range (reservations uk)) as l. intros l. revert uk. induction l as [|[rid res] l IH]; intros uk HK; cbn [foldl]; [done|].
  destruct (res_expiry res <? t); [|by apply IH]. destruct (IH (cancel rid uk) (cancel_inv _ _ HK)) as [H1 H2]. rewrite H2, cancel_index. done.
Qed.

Lemma keyed_foldl utxos m : keyed m -> keyed (foldl (fun m u => <[OutputID u := u]> m) m utxos).
Proof.
  revert m. induction utxos as [|v utxos IH]; intros m Hm; cbn [foldl]; [done|]. apply IH. intros h u [[<- <-]|[_ E]]%lookup_insert_Some; [done|by apply Hm].
Qed.
Lemma keyed_delete (hashes : list Hash) (m : gmap Hash UTXO) : keyed m -> keyed (foldl (fun m h => delete h m) m hashes).
Proof. revert m. induction hashes as [|h' hashes IH]; intros m Hm; cbn [foldl]; [done|]. apply IH. intros h u [_ E]%lookup_delete_Some. by apply Hm. Qed.

Lemma findUtxo_keyed uk h uu u : keeper_inv uk -> findUtxo h uu uk = KOk u -> OutputID u = h.
Proof.
  intros [K1 K2 K3 _ _ _ _]. unfold findUtxo. destruct (if uu then unconfirmed uk !! h else None) as [v|] eqn:E.
  - intros [= <-]. destruct uu; [by apply K3|done].
  - destruct (db_standard uk !! h) as [v|] eqn:E1; [intros [= <-]; by apply K1|]. destruct (db_contract uk !! h) as [v|] eqn:E2; [intros [= <-]; by apply K2|done].
Qed.

Lemma keeper_step_inv uk op : op_keyed op -> keeper_inv uk -> nextIndex uk < MaxUint64 ->
  keeper_inv (keeper_step uk op) /\ nextIndex uk <= nextIndex (keeper_step uk op) <= nextIndex uk + 1.
Proof.
  intros Hop HK Hn. pose proof HK as [K1 K2 K3 K4 K5 K6 K7].
  destruct op as [acc asset amount uu vote exp height|h uu exp height|rid|t|utxos|hashes|st co]; cbn [keeper_step].
  - unfold Reserve. destruct (findUtxos _ _ _ _ _ _) as [utxos imm]. destruct (optUTXOs _ _ _) as [[[opt oa] ra]| |] eqn:Eo; cbn [snd]; [|by split; [|lia]..].
    repeat (destruct (_ <? amount); [cbn; by split; [|lia]|]). cbn [snd]. split; [apply record_inv; [done|done|intros u; by eapply optUTXOs_free]|]. cbn. rewrite u64_id; lia.
  - unfold ReserveParticular. destruct (bool_decide (is_Some (reserved uk !! h))) eqn:Eb; cbn [snd]; [by split; [|lia]|]. apply bool_decide_eq_false, eq_None_not_Some in Eb.
    destruct (findUtxo h uu uk) as [u| |] eqn:Ef; cbn [snd]; [|by split; [|lia]..]. destruct (_ >? height); cbn [snd]; [by split; [|lia]|].
    split; [apply record_inv; [done|done|]|cbn; rewrite u64_id; lia]. intros v ->%list_elem_of_singleton. by rewrite (findUtxo_keyed _ _ _ _ HK Ef).
  - unfold Cancel. rewrite cancel_index. split; [by apply cancel_inv|lia].
  - destruct (expire_inv uk t HK) as [H1 H2]. rewrite H2. split; [done|lia].
  - split; [|cbn; lia]. split; cbn; try done. by apply keyed_foldl.
  - split; [|cbn; lia]. split; cbn; try done. by apply keyed_delete.
  - destruct Hop. split; [|cbn; lia]. split; cbn; done.
Qed.
Lemma keeper_run_inv ops uk : Forall op_keyed ops -> keeper_inv uk -> nextIndex uk + Z.of_nat (length ops) <= MaxUint64 ->
  keeper_inv (foldl keeper_step uk ops).
Proof.
  revert uk. induction ops as [|op ops IH]; intros uk Hops HK Hn; cbn [foldl]; [done|]. apply Forall_cons in Hops as [Hop Hops]. cbn [length] in Hn.
  destruct (keeper_step_inv uk op Hop HK) as [H1 H2]; [lia|]. apply IH; [done|done|lia].
Qed.
Lemma new_keeper_inv : keeper_inv new_keeper.
Proof. split; cbn; try done. Qed.

(** C28.  No output is promised twice: whatever is reserved, cancelled, expired or
    written to the wallet's database, two reservations have no output in common,
    the outputs marked as reserved are exactly those of the reservations, and
    cancelling one frees exactly its own outputs. *)
Theorem reservations_exclusive ops :
  Forall op_keyed ops -> Z.of_nat (length ops) <= MaxUint64 ->
  let uk := foldl keeper_step new_keeper ops in
  (forall id1 id2 res1 res2 u1 u2, reservations uk !! id1 = Some res1 -> reservations uk !! id2 = Some res2 ->
     u1 ∈ res_utxos res1 -> u2 ∈ res_utxos res2 -> OutputID u1 = OutputID u2 -> id1 = id2)
  /\ (forall h, is_Some (reserved uk !! h) <-> exists rid res u, reservations uk !! rid = Some res /\ u ∈ res_utxos res /\ OutputID u = h)
  /\ (forall rid h, is_Some (reserved (Cancel rid uk) !! h) <-> exists rid', rid' <> rid /\ reserved uk !! h = Some rid').
Proof.
  intros Hops Hn uk. assert (HK : keeper_inv uk) by (apply keeper_run_inv; [done|apply new_keeper_inv|done]). clearbody uk. pose proof HK as [_ _ _ _ K5 K6 K7].
  split_and!.
  - intros id1 id2 res1 res2 u1 u2 H1 H2 Hu1 Hu2 E. pose proof (K6 _ _ _ H1 Hu1) as E1. rewrite E, (K6 _ _ _ H2 Hu2) in E1. by injection E1.
  - intros h. split; [intros [rid Hr]; destruct (K7 _ _ Hr) as (res & u & ?); by exists rid, res, u|]. intros (rid & res & u & H1 & H2 & <-). exists rid. by eapply K6.
  - intros rid h. unfold Cancel, cancel. destruct (reservations uk !! rid) as [res|] eqn:Er; cbn.
    + rewrite foldl_delete_id. destruct (decide _) as [(u & -> & Hu)%list_elem_of_fmap|Hh].
      * rewrite (K6 _ _ _ Er Hu). split; [by intros []|]. intros (rid' & Hne & [= <-]). done.
      * split; [intros [rid' Hr]|intros (rid' & _ & Hr); by eexists]. exists rid'. split; [|done]. intros ->. destruct (K7 _ _ Hr) as (res' & u & E & Hu & <-).
        rewrite Er in E. injection E as <-. apply Hh. by apply list_elem_of_fmap_2.
    + split; [intros [rid' Hr]|intros (rid' & _ & Hr); by eexists]. exists rid'. split; [|done]. intros ->. destruct (K7 _ _ Hr) as (res' & u & E & _). by rewrite Er in E.
Qed.

(** An output that is in the database and still among the unconfirmed ones counts twice, and is chosen twice. *)
Theorem Reserve_counts_twice u exp height :
  0 < Amount u -> 2 * Amount u <= MaxUint64 -> ValidHeight u <= height ->
  let uk := mkKeeper 0 {[OutputID u := u]} ∅ {[OutputID u := u]} ∅ ∅ in
  exists r, (Reserve (AccountID u) (AssetID u) (2 * Amount u) true (Vote u) exp height uk).1 = KOk r /\ res_utxos r = [u; u].
Proof.
  intros H0 H1 Hh uk.
  assert (Hl : listed true uk = [u; u]) by (unfold listed, uk; cbn -[map_to_list]; by rewrite !map_to_list_singleton).
  assert (Hw : filter (wanted (AccountID u) (AssetID u) (Vote u)) (listed true uk) = [u; u]) by (rewrite Hl; cbn; rewrite !decide_True by done; done).
  pose proof (Reserve_spec (AccountID u) (AssetID u) (Vote u) true height uk (2 * Amount u) exp ltac:(lia)) as Hr. rewrite Hw in Hr.
  assert (Hf : free (AccountID u) (AssetID u) (Vote u) true height uk = [u; u]).
  { unfold free, mature. rewrite Hl. rewrite !filter_cons_True by done. rewrite filter_nil. cbn. done. }
  rewrite Hf in Hr. destruct (Reserve _ _ _ _ _ _ _ _) as [[r| |] uk']; cbn [fst] in *.
  - exists r. split; [done|]. destruct Hr as (Hs & Ht & Hc & _); [split; [repeat constructor; lia|cbn; lia]|].
    apply submseteq_Permutation in Hs as (k & Hk). pose proof (Permutation_length Hk) as Hlen.
    destruct (res_utxos r) as [|v1 [|v2 [|v3 l]]]; cbn in Hlen; try lia.
    + cbn in Ht. lia.
    + assert (v1 = u) as -> by (assert (v1 ∈ [u; u]) by (rewrite Hk; left); set_solver). cbn in Ht. lia.
    + rewrite (proj1 (length_zero_iff_nil k)) in Hk by lia. rewrite app_nil_r in Hk. symmetry. by apply Permutation_length_2_inv in Hk as [?|?].
  - destruct Hr as (_ & Hlt & _); [split; [repeat constructor; lia|cbn; lia]|]. cbn in Hlt. lia.
  - destruct Hr. split; [repeat constructor; lia|cbn; lia].
Qed.
End Exclusive.

(** ** A run *)

Module Run.
Definition larger (u v : UTXO) : Prop := Amount v <= Amount u.
#[export] Instance larger_dec u v : Decision (larger u v).
Proof. unfold larger. apply _. Defined.
#[export] Instance larger_trans : Transitive larger.
Proof. unfold larger. intros u v w. lia. Qed.
#[export] Instance larger_total : Total larger.
Proof. unfold larger. intros u v. lia. Qed.
#[export] Instance merge_Slice : SortSlice := merge_sort larger.
#[export] Instance merge_Slice_laws : SortSliceLaws merge_Slice.
Proof.
  split; [apply merge_sort_Permutation|]. intros l. unfold sort_Slice, merge_Slice.
  induction (StronglySorted_merge_sort larger l) as [|u l' Hs IH Hu]; intros i j v w Hij; [done|].
  destruct i as [|i], j as [|j]; [lia| |lia|cbn; apply IH; lia]. cbn. intros [= <-] Hj. rewrite Forall_forall in Hu. apply Hu. by eapply list_elem_of_lookup_2.
Qed.

Definition coin (n : Z) (b : byte) (height : Z) : UTXO :=
  mkUTXO (repeat b 32) [] [x01] n 0 [] [] [] [x0a] [] 0 height false.
Definition wallet : gmap Hash UTXO :=
  list_to_map ((fun u => (OutputID u, u)) <$> [coin 10 x01 0; coin 20 x02 0; coin 30 x03 0; coin 40 x04 0; coin 50 x05 99]).
(** The largest output is locked, another one is immature. *)
Definition before : utxoKeeper := foldl keeper_step new_keeper [KDatabase wallet ∅; KReserveParticular (repeat x04 32) false 7 5].

Lemma Reserve_exact_witness :
  (0 < 25 /\ amounts_ok (filter (wanted [x0a] [x01] []) (listed false before)))
  /\ exists r uk', Reserve [x0a] [x01] 25 false [] 9 5 before = (KOk r, uk') /\ Amount <$> res_utxos r = [20; 10] /\ res_change r = 5
     /\ total (res_utxos r) = 25 + res_change r
     /\ (Reserve [x0a] [x01] 61 false [] 9 5 before).1 = KErr ErrReserved /\ (Reserve [x0a] [x01] 101 false [] 9 5 before).1 = KErr ErrImmature
     /\ (Reserve [x0a] [x01] 151 false [] 9 5 before).1 = KErr ErrInsufficient.
Proof.
  assert (Ha : amounts_ok (filter (wanted [x0a] [x01] []) (listed false before))) by (split; [apply (bool_decide_unpack _); vm_compute; exact I|vm_compute; discriminate]).
  split; [split; [lia|exact Ha]|]. pose proof (Reserve_exact [x0a] [x01] [] false 5 before 25 9 ltac:(lia) Ha) as Hr.
  assert (E : Amount <$> match (Reserve [x0a] [x01] 25 false [] 9 5 before).1 with KOk r => res_utxos r | _ => [] end = [20; 10]) by (vm_compute; reflexivity).
  assert (E' : match (Reserve [x0a] [x01] 25 false [] 9 5 before).1 with KOk r => res_change r | _ => 0 end = 5) by (vm_compute; reflexivity).
  destruct (Reserve [x0a] [x01] 25 false [] 9 5 before) as [[r|e|] uk']; cbn [fst] in E, E'; [|discriminate E|discriminate E].
  exists r, uk'. split; [reflexivity|]. split; [exact E|]. split; [exact E'|]. split; [apply Hr|]. split; [vm_compute; reflexivity|]. split; vm_compute; reflexivity.
Defined.

Definition ops : list keeper_op :=
  [KDatabase wallet ∅; KReserveParticular (repeat x04 32) false 7 5; KReserve [x0a] [x01] 25 false [] 9 5; KExpire 8; KReserve [x0a] [x01] 35 false [] 20 5].
Lemma reservations_exclusive_witness :
  (Forall op_keyed ops /\ Z.of_nat (length ops) <= MaxUint64)
  /\ (let uk := foldl keeper_step new_keeper ops in
      (fun '(rid, res) => (rid, Amount <$> res_utxos res)) <$> map_to_list (reservations uk) = [(3, [40]); (2, [20; 10])]
      /\ forall u1 u2, u1 ∈ from_option res_utxos [] (reservations uk !! 2) -> u2 ∈ from_option res_utxos [] (reservations uk !! 3) -> OutputID u1 <> OutputID u2).
Proof.
  assert (H : Forall op_keyed ops /\ Z.of_nat (length ops) <= MaxUint64).
  { split; [|vm_compute; discriminate]. repeat constructor; [|by intros h u Hu].
    intros h u Hu. apply elem_of_list_to_map_2 in Hu. by repeat (apply elem_of_cons in Hu as [[= -> ->]|Hu]; [reflexivity|]); apply not_elem_of_nil in Hu. }
  split; [exact H|]. destruct H as [H1 H2]. destruct (reservations_exclusive ops H1 H2) as [He _]. intros uk. split; [vm_compute; reflexivity|].
  intros u1 u2 Hu1 Hu2 E. destruct (reservations uk !! 2) as [r2|] eqn:E2; [|by apply not_elem_of_nil in Hu1].
  destruct (reservations uk !! 3) as [r3|] eqn:E3; [|by apply not_elem_of_nil in Hu2]. discriminate (He 2 3 r2 r3 u1 u2 E2 E3 Hu1 Hu2 E).
Defined.
End Run.
