(* ===== verification/Proposal.v ===== *)
(** * The block proposer: proposal/proposal.go and proposal/sort.go

    [NewBlockTemplate] builds the next block on the best one: transactions of
    the pool in the order they were added, as many as the gas and the time
    allow, behind a coinbase that pays the rewards of the checkpoint, under a
    signed header.  Transactions that do not validate leave the pool.

    The builder runs in one go here; in the node a block may arrive between two
    of its batches.  [sort.Sort] is not stable: any sort by time, the interface
    [SortByTime].  What the two timers say at the end of a batch is an argument,
    and so are the program and the arbitrary data of the account manager, which
    come from the wallet's database. *)

From S2P Require Import Prelude Checked GoSlice VMTypes Opcode Machine Interp Script Utxo Encoding Entries TxData Merkle MapTx Validate Orphans Checkpoint Tree CasperState Casper Ledger BlockData BlockValidation TxPool Store Chain.
From Stdlib Require Import Strings.Byte.
#[local] Open Scope Z_scope.

Definition batchApplyNum : nat := 16.
Definition softMaxTxNum : nat := 1024.
Definition SignatureSize : nat := 64.

Inductive timeout := timeoutOk | timeoutWarn | timeoutCritical.
Definition timeout_rank (t : timeout) : nat := match t with timeoutOk => 0 | timeoutWarn => 1 | timeoutCritical => 2 end.

Inductive proposal_error :=
  | ErrCoinbaseProgram                  (* of the builder of programs, or the account manager *)
  | ErrCoinbaseArbitrary                (* ErrCoinbaseArbitraryOversize *)
  | ErrCheckpoint (e : chain_error)
  | ErrBadAmount
  | ErrHexProgram
  | ErrSerialize (e : wire_error)
  | ErrCoinbaseTx (e : tx_error).

(** A result; [PHalt] is a panic, or exhausted fuel. *)
Inductive pres (A : Type) := POk (a : A) | PErr (e : proposal_error) | PHalt.
Arguments POk {A} a.
Arguments PErr {A} e.
Arguments PHalt {A}.
#[export] Instance pres_ret : MRet pres := fun A a => POk a.
#[export] Instance pres_bind : MBind pres := fun A B f m =>
  match m with POk a => f a | PErr e => PErr e | PHalt => PHalt end.

(** Why a transaction is skipped. *)
Inductive skip_reason := SkipInvalid (e : tx_error) | SkipUnmarshal | SkipUtxo (e : utxo_error).

Class SortByTime := sort_byTime : list TxDesc -> list TxDesc.
Class SortByTimeLaws (S : SortByTime) : Prop := {
  byTime_perm l : sort_byTime l ≡ₚ l;
  byTime_sorted l i j u v : (i < j)%nat -> sort_byTime l !! i = Some u -> sort_byTime l !! j = Some v -> d_Added u <= d_Added v;
}.

(** ** txbuilder: the parts the proposer uses *)

Record TemplateBuilder := mkTemplate { tb_inputs : list TxInput; tb_outputs : list TxOutput }.
Definition NewTemplateBuilder : TemplateBuilder := mkTemplate [] [].

(** A coinbase has no amount to be checked. *)
Definition AddInput (input : TxInput) (b : TemplateBuilder) : pres TemplateBuilder :=
  let ok := POk (mkTemplate (tb_inputs b ++ [input]) (tb_outputs b)) in
  match ti_TypedInput input with
  | None => PHalt
  | Some (TCoinbase _) => ok
  | Some _ => if input_Amount input >? MaxInt64 then PErr ErrBadAmount else ok
  end.
Definition AddOutput (output : TxOutput) (b : TemplateBuilder) : pres TemplateBuilder :=
  if aa_Amount (output_value output) >? MaxInt64 then PErr ErrBadAmount
  else POk (mkTemplate (tb_inputs b) (tb_outputs b ++ [output])).
(** [builder.Outputs()[0].Amount = amount]. *)
Definition set_amount (amount : Z) (output : TxOutput) : TxOutput :=
  let 'mkTxOutput v (mkOutputCommitment (mkAssetAmount id _) vm cp st) suffix t := output in
  mkTxOutput v (mkOutputCommitment (mkAssetAmount id amount) vm cp st) suffix t.
Definition set_first_amount (amount : Z) (b : TemplateBuilder) : pres TemplateBuilder :=
  match tb_outputs b with
  | [] => PHalt
  | output :: outputs => POk (mkTemplate (tb_inputs b) (set_amount amount output :: outputs))
  end.

Definition NewCoinbaseInput (arbitrary : bytes) : TxInput := mkTxInput 1 (Some (TCoinbase arbitrary)) [] [].
Definition NewOriginalTxOutput (assetID : AssetID) (amount : Z) (controlProgram : bytes) (stateData : list bytes) : TxOutput :=
  mkTxOutput 1 (mkOutputCommitment (mkAssetAmount (Some assetID) amount) 1 controlProgram stateData) [] originalTxOutput.

Section Proposal.
Context {R : MapRange} {U : Uint256} {Cr : Crypto} {L : LRU} {N : Node_} {GR : GoRuntime} {S : SortByTime}.
Variable checkOutput : Entry -> gmap Hash Entry -> Z -> Z -> bytes -> Z -> bytes -> list bytes -> bool -> bool + error.
(** Fuel of the interpreter, of the walk over the entries, of the consensus; the
    clock; what the timers say after each batch. *)
Variables (vmfuel vfuel cfuel : nat) (pending : list VotePendingBlockNum) (now : Z) (ticks : nat -> option timeout).
(** The control program and the arbitrary data of the account manager, if there is one. *)
Variable accountManager : option (option bytes * bytes).

(** Copies no transaction: [Build] puts the parts into a new one. *)
Definition Build (b : TemplateBuilder) : pres TxData :=
  let tx := mkTxData 1 0 0 (tb_inputs b) (tb_outputs b) in
  match NewTx tx with None => PHalt | Some _ => POk tx end.

(** The variables of [blockBuilder] that change: the transactions behind the coinbase, and the rest. *)
Record blockBuilder := mkBuilder {
  bb_Transactions : list TypesTx;
  bb_utxoView : gmap Hash UtxoEntry;
  bb_timeoutStatus : timeout;
  bb_gasLeft : Z;
}.

Definition getTimeoutStatus (tick : option timeout) (status : timeout) : timeout :=
  match status with timeoutCritical => timeoutCritical | _ => default status tick end.

(** ** Transactions of the pool *)

(** [Chain.GetTransactionsUtxo] for one transaction; the view keeps what was read before an error. *)
Fixpoint load_spent (db : utxo_db) (prevouts : list Hash) (view : gmap Hash UtxoEntry) : gmap Hash UtxoEntry * bool :=
  match prevouts with
  | [] => (view, true)
  | prevout :: prevouts =>
      if HasUtxo prevout view then load_spent db prevouts view
      else
        match db prevout with
        | None => load_spent db prevouts view
        | Some None => (view, false)
        | Some (Some utxo) => load_spent db prevouts (<[prevout := utxo]> view)
        end
  end.

(** The loop over the results; those of the model are in one list with the
    transactions.  [break] ends it. *)
Fixpoint preValidate_loop (db : utxo_db) (height : Z) (txs : list (TypesTx * (tx_error + GasState))) (view : gmap Hash UtxoEntry) (gasLeft : Z)
  : list (TypesTx * option skip_reason) * gmap Hash UtxoEntry * Z :=
  match txs with
  | [] => ([], view, gasLeft)
  | (tx, result) :: txs =>
      if negb (gasLeft >? 0) then ([], view, gasLeft)
      else
        let skip reason view := let '(rs, view, gasLeft) := preValidate_loop db height txs view gasLeft in ((tx, Some reason) :: rs, view, gasLeft) in
        match result with
        | inl e => skip (SkipInvalid e) view
        | inr gasStatus =>
            match load_spent db (tx_spends tx) view with
            | (view, false) => skip SkipUnmarshal view
            | (view, true) =>
                if i64 (gasLeft - GasUsed gasStatus) <? 0 then ([], view, gasLeft)
                else
                  match ApplyTransaction pending (mkBlock height []) (utxo_tx (t_Tx tx)) view with
                  | (view, Some e) => skip (SkipUtxo e) view
                  | (view, None) =>
                      let '(rs, view, gasLeft) := preValidate_loop db height txs view (i64 (gasLeft - GasUsed gasStatus)) in
                      ((tx, None) :: rs, view, gasLeft)
                  end
            end
        end
  end.

(** [bc.Block{BlockHeader: &bc.BlockHeader{Height: ...}}]: no version, no transactions. *)
Definition preValidateTxs (c : Chain) (txs : list TxDesc) (view : gmap Hash UtxoEntry) (gasLeft : Z)
  : pres (list (TypesTx * option skip_reason) * gmap Hash UtxoEntry * Z) :=
  let height := u64 (BestBlockHeight c + 1) in
  match ValidateTxs (ProgramConverter (fun hash => GetContract hash (ch_store c))) checkOutput vmfuel vfuel (d_Tx <$> txs) (mkBcBlock 0 height []) with
  | BOk validateResults => POk (preValidate_loop (st_utxos (ch_store c)) height (zip (d_Tx <$> txs) validateResults) view gasLeft)
  | _ => PHalt
  end.

(** The loop over the results: a skipped transaction leaves the pool. *)
Definition take_result (p : list TypesTx * Chain) (result : TypesTx * option skip_reason) : list TypesTx * Chain :=
  let '(txs, c) := p in
  let '(tx, err) := result in
  match err with
  | Some _ => (txs, set_pool (RemoveTransaction now (mkPtr [] (tx_id tx)) (ch_pool c)) c)
  | None => (txs ++ [tx], c)
  end.
Definition apply_batch (n : nat) (batchTxs : list TxDesc) (b : blockBuilder) (c : Chain) : pres (blockBuilder * Chain) :=
  '(results, view, gasLeft) ← preValidateTxs c batchTxs (bb_utxoView b) (bb_gasLeft b);
  let '(txs, c) := foldl take_result (bb_Transactions b, c) results in
  POk (mkBuilder txs view (getTimeoutStatus (ticks n) (bb_timeoutStatus b)) gasLeft, c).

(** [batchTxs] is applied when it is full, or at the last transaction.  The
    block has a place for the coinbase already. *)
Fixpoint applyTransactions (n : nat) (timeoutStatus : timeout) (batchTxs txs : list TxDesc) (b : blockBuilder) (c : Chain)
  : pres (blockBuilder * Chain) :=
  match txs with
  | [] => POk (b, c)
  | tx :: txs =>
      let batchTxs := batchTxs ++ [tx] in
      if (length batchTxs <? batchApplyNum)%nat && negb (bool_decide (txs = [])) then applyTransactions n timeoutStatus batchTxs txs b c
      else
        '(b, c) ← apply_batch n batchTxs b c;
        if (timeout_rank timeoutStatus <=? timeout_rank (bb_timeoutStatus b))%nat || (softMaxTxNum <? 1 + length (bb_Transactions b))%nat then POk (b, c)
        else applyTransactions (1 + n) timeoutStatus [] txs b c
  end.
Definition applyTransactionFromPool (b : blockBuilder) (c : Chain) : pres (blockBuilder * Chain) :=
  applyTransactions 0 timeoutWarn [] (sort_byTime (GetTransactions (ch_pool c))) b c.

(** ** The coinbase *)

(** [strconv.FormatUint(height, 10)]. *)
Definition FormatUint (n : Z) : bytes := String.list_byte_of_string (decimal_fuel 20 n String.EmptyString).

(** The loop over the rewards. *)
Fixpoint add_rewards (script : bytes) (rewards : list (bytes * Z)) (b : TemplateBuilder) : pres TemplateBuilder :=
  match rewards with
  | [] => POk b
  | (controlProgram, amount) :: rewards =>
      b ← (if bool_decide (controlProgram = hex_encode script) then set_first_amount amount b
           else
             match hex_decode controlProgram with
             | None => PErr ErrHexProgram
             | Some controlProgramBytes => AddOutput (NewOriginalTxOutput BTMAssetID amount controlProgramBytes []) b
             end);
      add_rewards script rewards b
  end.

Definition coinbase_script : pres bytes :=
  match (match accountManager with
         | None => match DefaultCoinbaseProgram with Done script => Some script | _ => None end
         | Some (script, _) => script
         end) with
  | Some script => POk script
  | None => PErr ErrCoinbaseProgram
  end.
Definition coinbase_arbitrary (height : Z) : bytes :=
  x00 :: FormatUint height ++ (match accountManager with Some (_, arbitrary) => arbitrary | None => [] end).

(** [getPrevCheckpoint]; the result, and the consensus after it. *)
Definition getPrevCheckpoint (prevBlockHash : Hash) (c : Chain) : pres Checkpoint * Chain :=
  match (p ← consensus (ParentCheckpointByPrevHash cfuel prevBlockHash); consensus (read p)) c with
  | (COk checkpoint, c) => (POk checkpoint, c)
  | (CErr e, c) => (PErr (ErrCheckpoint e), c)
  | (CHalt, c) => (PHalt, c)
  end.

Definition coinbase_txdata (height : Z) (script arbitrary : bytes) (checkpoint : Checkpoint) : pres TxData :=
  builder ← AddInput (NewCoinbaseInput arbitrary) NewTemplateBuilder;
  builder ← AddOutput (NewOriginalTxOutput BTMAssetID 0 script []) builder;
  builder ← (if (height mod BlocksOfEpoch net =? 1) && negb (height =? 1) then add_rewards script (map_range (Rewards checkpoint)) builder
             else POk builder);
  Build builder.
Definition createCoinbaseTx (height : Z) (prevBlockHash : Hash) (c : Chain) : pres TypesTx * Chain :=
  match (script ← coinbase_script;
         if zlen (coinbase_arbitrary height) >? CoinbaseArbitrarySizeLimit then PErr ErrCoinbaseArbitrary else POk script) with
  | PErr e => (PErr e, c)
  | PHalt => (PHalt, c)
  | POk script =>
      let '(checkpoint, c) := getPrevCheckpoint prevBlockHash c in
      (checkpoint ← checkpoint;
       txData ← coinbase_txdata height script (coinbase_arbitrary height) checkpoint;
       match MarshalText txData with
       | inl e => PErr (ErrSerialize e)
       | inr byteData =>
           let txData := mkTxData (TxData.Version txData) (zlen byteData) (TxData.TimeRange txData) (TxData.Inputs txData) (TxData.Outputs txData) in
           match NewTx txData with None => PHalt | Some tx => POk tx end
       end, c)
  end.

(** The transaction it validates is the only one of the block it is validated in. *)
Definition applyCoinbaseTransaction (height : Z) (prevBlockHash : Hash) (b : blockBuilder) (c : Chain) : pres (TypesTx * blockBuilder) * Chain :=
  let '(coinbaseTx, c) := createCoinbaseTx height prevBlockHash c in
  (coinbaseTx ← coinbaseTx;
   match ValidateTx (ProgramConverter (fun hash => GetContract hash (ch_store c))) checkOutput (t_Tx coinbaseTx) 0 (mkBcBlock 0 height [0%nat]) vmfuel vfuel with
   | VErr e => PErr (ErrCoinbaseTx e)
   | VPanic | VFuel => PHalt
   | VOk gasState => POk (coinbaseTx, mkBuilder (bb_Transactions b) (bb_utxoView b) (bb_timeoutStatus b) (i64 (bb_gasLeft b - GasUsed gasState)))
   end, c).

(** ** The block *)

Definition calculateBlockCommitment (txs : list TypesTx) (bh : BlockHeader) : BlockHeader :=
  let 'mkBlockHeader v h p t w links _ := bh in mkBlockHeader v h p t w links (TxMerkleRoot (tx_id <$> txs)).
(** [BlockWitness.Set] copies into an array of [SignatureSize] bytes. *)
Definition set_witness (data : bytes) (bh : BlockHeader) : BlockHeader :=
  let 'mkBlockHeader v h p t _ links r := bh in
  mkBlockHeader v h p t (take SignatureSize (data ++ replicate SignatureSize x00)) links r.
(** protocol.go *)
Definition SignBlockHeader (bh : BlockHeader) : BlockHeader := set_witness (node_Sign (bh_Hash bh)) bh.

Definition newBlockHeader (preBlockHeader : BlockHeader) (timestamp : Z) : BlockHeader :=
  mkBlockHeader 1 (u64 (bh_Height preBlockHeader + 1)) (bh_Hash preBlockHeader) timestamp [] [] zeroHash.
Definition newBlockBuilder : blockBuilder := mkBuilder [] NewUtxoViewpoint timeoutOk MaxBlockGas.

Definition build (bh : BlockHeader) (b : blockBuilder) (c : Chain) : pres Block * Chain :=
  match applyTransactionFromPool b c with
  | PErr e => (PErr e, c)
  | PHalt => (PHalt, c)
  | POk (b, c) =>
      let '(r, c) := applyCoinbaseTransaction (bh_Height bh) (PreviousBlockHash bh) b c in
      ('(coinbaseTx, b) ← r;
       let txs := coinbaseTx :: bb_Transactions b in
       POk (mkTypesBlock (SignBlockHeader (calculateBlockCommitment txs bh)) txs), c)
  end.
Definition NewBlockTemplate (timestamp : Z) (c : Chain) : pres Block * Chain :=
  build (newBlockHeader (ch_best c) timestamp) newBlockBuilder c.
End Proposal.
