(* ===== verification/ProposalSpec.v ===== *)
(** * What the proposer promises

    A block of [NewBlockTemplate] is one [ValidateBlock] accepts, if the node is
    the validator in charge at a time that fits.  The pool was filled by
    [Chain.ValidateTx], which admits version 1 only under a best block of
    version 1; the proposer itself validates in a block without a version.  That
    no transaction uses a negative amount of gas is a hypothesis, since a program
    can end with more gas than it was given ([Mint.v]). *)

From S2P Require Import Prelude Checked GoSlice VMTypes Opcode Machine Interp Script Utxo Encoding Entries TxData Merkle MapTx Validate ValidateSpec Orphans Checkpoint Tree CasperState Casper Ledger Fees BlockData BlockValidation Supply TxPool Store Chain Proposal.
From Stdlib Require Import Strings.Byte FunctionalExtensionality.
#[local] Open Scope Z_scope.

(** ** Where a transaction stands does not matter to its validity *)

Section Position.
Context {R : MapRange} {U : Uint256} {Cr : Crypto}.
Variable converter : bytes -> option bytes.
Variable checkOutput : Entry -> gmap Hash Entry -> Z -> Z -> bytes -> Z -> bytes -> list bytes -> bool -> bool + error.
Variables (tx : Tx) (i j : nat) (b1 b2 : Validate.Block) (vmfuel : nat).
Hypothesis same_height : bk_Height b1 = bk_Height b2.
Hypothesis same_place : bool_decide (head (bk_Transactions b1) = Some i) = bool_decide (head (bk_Transactions b2) = Some j).

Lemma run_program_block : run_program converter checkOutput tx b1 vmfuel = run_program converter checkOutput tx b2 vmfuel.
Proof. unfold run_program, NewTxVMContext. by rewrite same_height. Qed.
Lemma check_entry_block : check_entry converter checkOutput tx i b1 vmfuel = check_entry converter checkOutput tx j b2 vmfuel.
Proof. unfold check_entry, check_spend. by rewrite run_program_block, same_place. Qed.
Lemma checkValid_block fuel :
  checkValid converter checkOutput tx i b1 vmfuel fuel = checkValid converter checkOutput tx j b2 vmfuel fuel.
Proof.
  induction fuel as [|fuel IH]; [done|]. extensionality vs. extensionality e. cbn [checkValid]. rewrite IH.
  destruct e; [by rewrite check_entry_block|done].
Qed.
(** The version of the block counts for the version of the transaction. *)
Lemma ValidateTx_block fuel g :
  (bk_Version b2 = 1 -> hd_Version (tx_Header tx) = 1) ->
  ValidateTx converter checkOutput tx i b1 vmfuel fuel = VOk g -> ValidateTx converter checkOutput tx j b2 vmfuel fuel = VOk g.
Proof.
  intros Hv. unfold ValidateTx. destruct (ValidateTx_body converter checkOutput tx i b1 vmfuel fuel _) as [[[]| | |] s] eqn:Hb; try done.
  intros [= <-]. enough (ValidateTx_body converter checkOutput tx j b2 vmfuel fuel (mkV (mkGas 0 0 0 0) ∅) = (VOk tt, s)) as -> by done.
  unfold ValidateTx_body, checkTimeRange in *. apply b_require in Hb as [_ Hb]. rewrite checkValid_block, same_height in Hb.
  replace (negb ((bk_Version b2 =? 1) && negb (hd_Version (tx_Header tx) =? 1))) with true; [exact Hb|].
  destruct (Z.eqb_spec (bk_Version b2) 1) as [E|]; [|done]. by rewrite (Hv E).
Qed.
End Position.

(** ** The coinbase pays the rewards *)

Section Rewards.
Context {R : MapRange} {RL : MapRangeLaws R}.

(** What [applyValidatorReward] makes of a checkpoint: programs in hexadecimal, and something for each. *)
Definition rewards_ok (rewards : gmap bytes Z) : Prop :=
  map_Forall (fun cp n => (exists p, cp = hex_encode p) /\ 0 < n <= MaxUint64) rewards.
#[local] Abbreviation out script amount := (NewOriginalTxOutput BTMAssetID amount script []).

Definition reward_output (o : TxOutput) (p : bytes * Z) : Prop := exists script, hex_decode p.1 = Some script /\ o = out script p.2.

Lemma add_rewards_form script l ins a0 rest b :
  add_rewards script l (mkTemplate ins (out script a0 :: rest)) = POk b -> NoDup l.*1 ->
  exists others, b = mkTemplate ins (out script (default a0 ((list_to_map l : gmap bytes Z) !! hex_encode script)) :: rest ++ others)
    /\ Forall2 reward_output others (filter (fun p => p.1 <> hex_encode script) l).
Proof.
  revert a0 rest. induction l as [|[cp n] l IH]; intros a0 rest H Hnd; cbn [add_rewards] in H.
  { injection H as <-. exists []. rewrite app_nil_r. split; [done|constructor]. }
  cbn in Hnd. apply NoDup_cons in Hnd as [Hni Hnd]. rewrite filter_cons. cbn [list_to_map foldr fst snd]. change (foldr _ ∅ l) with (list_to_map l : gmap bytes Z).
  case_bool_decide as E.
  - subst cp. cbn [mbind pres_bind set_first_amount tb_outputs tb_inputs set_amount NewOriginalTxOutput] in H.
    destruct (IH n rest H Hnd) as (others & -> & Ho). exists others. rewrite decide_False by (cbn; tauto). rewrite lookup_insert_eq.
    split; [|done]. by rewrite (not_elem_of_list_to_map_1 l) by done.
  - rewrite decide_True by done. rewrite lookup_insert_ne by done. destruct (hex_decode cp) as [p|] eqn:Ed; [|done]. unfold AddOutput in H.
    cbn [mbind pres_bind tb_outputs tb_inputs] in H. destruct (_ >? MaxInt64); [done|]. cbn [mbind pres_bind app] in H.
    destruct (IH a0 (rest ++ [out p n]) H Hnd) as (others & -> & Ho). exists (out p n :: others). rewrite <- app_assoc. split; [done|].
    constructor; [by exists p|done].
Qed.

Lemma coinbase_outputs_fold l others k m :
  Forall2 reward_output others l -> NoDup l.*1 -> Forall (fun p => (exists q, p.1 = hex_encode q) /\ 0 < p.2 <= MaxUint64 /\ m !! p.1 = None) l ->
  foldl add_coinbase_output m (imap (fun i o => (Datatypes.S (k + i), o)) others) = (list_to_map l : gmap bytes Z) ∪ m.
Proof.
  intros Ho. revert k m. induction Ho as [|o [cp n] others l (script & Hs & ->) _ IH]; intros k m Hnd Hl.
  { cbn. by rewrite (left_id ∅ _). }
  apply NoDup_cons in Hnd as [Hni Hnd]. apply Forall_cons in Hl as [((q & Hq) & Hn & Hm) Hl]. cbn [fst snd] in *. subst cp.
  rewrite hex_roundtrip in Hs. injection Hs as <-.
  assert (E : add_coinbase_output m (Datatypes.S (k + 0), out q n) = <[hex_encode q := n]> m).
  { unfold add_coinbase_output. cbn -[hex_encode]. rewrite Hm. change (default 0 None + n) with (0 + n). by rewrite Z.add_0_l, u64_id by lia. }
  cbn [imap foldl]. rewrite E. clear E. cbn [list_to_map foldr fst snd]. change (foldr _ ∅ l) with (list_to_map l : gmap bytes Z).
  rewrite (imap_ext _ (fun i o => (Datatypes.S (Datatypes.S k + i), o))) by (intros j y; cbn; by rewrite Nat.add_succ_r). rewrite (IH (Datatypes.S k)).
  - rewrite <- insert_union_l. symmetry. apply insert_union_r. by apply not_elem_of_list_to_map_1.
  - done.
  - apply Forall_forall. intros [cp' n'] Hin. rewrite Forall_forall in Hl. destruct (Hl _ Hin) as (H1 & H2 & H3).
    split; [done|]. split; [done|]. rewrite lookup_insert_ne; [exact H3|]. cbn. intros Eq. apply Hni. apply (list_elem_of_fmap_2 fst) in Hin. cbn in Hin. by rewrite Eq.
Qed.

Lemma coinbase_rewards script rewards ins b :
  add_rewards script (map_range rewards) (mkTemplate ins [out script 0]) = POk b -> rewards_ok rewards ->
  tb_inputs b = ins /\ Forall (fun o => plain_btm o /\ u64_ok (aa_Amount (output_value o))) (tb_outputs b) /\ coinbase_outputs (tb_outputs b) = rewards.
Proof.
  intros H Hr. assert (Hp : map_range rewards ≡ₚ map_to_list rewards) by apply map_range_perm.
  assert (Hnd : NoDup (map_range rewards).*1) by (rewrite Hp; apply NoDup_fst_map_to_list).
  assert (Hm : (list_to_map (map_range rewards) : gmap bytes Z) = rewards) by (rewrite <- (list_to_map_to_list rewards) at 2; by apply list_to_map_proper).
  destruct (add_rewards_form _ _ _ _ _ _ H Hnd) as (others & -> & Ho). cbn [app tb_inputs tb_outputs]. rewrite Hm. split; [done|]. split.
  { constructor.
    - split; [done|]. cbn. destruct (rewards !! hex_encode script) as [n|] eqn:En; cbn; [|unfold u64_ok; words; lia]. apply Hr in En as [_ ?]. unfold u64_ok. lia.
    - apply Forall_forall. intros o [i Hi]%list_elem_of_lookup. destruct (Forall2_lookup_l _ _ _ _ _ Ho Hi) as ([cp n] & Hl & script' & _ & ->).
      split; [done|]. apply list_elem_of_lookup_2, list_elem_of_filter in Hl as [_ Hl]. rewrite Hp, elem_of_map_to_list in Hl. apply Hr in Hl as [_ ?].
      cbn. unfold u64_ok. lia. }
  unfold coinbase_outputs. set (P := fun p : bytes * Z => p.1 <> hex_encode script) in *. set (a := default 0 (rewards !! hex_encode script)).
  assert (Hfr : Forall (fun p => (exists q, p.1 = hex_encode q) /\ 0 < p.2 <= MaxUint64) (map_range rewards)).
  { rewrite Hp. apply Forall_forall. intros [cp n] Hin%elem_of_map_to_list. by apply Hr in Hin. }
  assert (E : add_coinbase_output ∅ (0%nat, out script a) = if decide (a = 0) then ∅ else {[hex_encode script := a]}).
  { unfold add_coinbase_output, a. cbn -[hex_encode]. destruct (rewards !! hex_encode script) as [n|] eqn:En; cbn -[hex_encode]; [|by rewrite decide_True].
    apply Hr in En as [_ Hn]. rewrite decide_False by lia. destruct (Z.eqb_spec n 0); [lia|]. rewrite lookup_empty. cbn -[hex_encode].
    by rewrite u64_id by lia. }
  cbn [imap foldl]. change (imap _ others) with (imap (fun i o => (Datatypes.S (0 + i), o)) others). rewrite E, (coinbase_outputs_fold (filter P (map_range rewards))); [|done|..].
  - transitivity (filter P rewards ∪ (if decide (a = 0) then ∅ else {[hex_encode script := a]})).
    { f_equal. rewrite map_filter_alt. apply list_to_map_proper; [|by rewrite Hp]. eapply sublist_NoDup; [exact Hnd|]. apply fmap_sublist, sublist_filter. }
    apply map_eq. intros cp. destruct (decide (cp = hex_encode script)) as [->|Hne].
    + rewrite lookup_union, map_lookup_filter_None_2 by (right; intros n _ Hn; by apply Hn). rewrite (left_id None _). unfold a.
      destruct (rewards !! hex_encode script) as [n|] eqn:En; cbn; [|by rewrite decide_True].
      apply Hr in En as [_ Hn]. rewrite decide_False by lia. by rewrite lookup_singleton_eq.
    + rewrite lookup_union_l; [|by destruct (decide (a = 0)); rewrite ?lookup_empty, ?lookup_singleton_ne].
      destruct (rewards !! cp) as [n|] eqn:En; [by apply map_lookup_filter_Some_2|]. apply map_lookup_filter_None_2. by left.
  - eapply sublist_NoDup; [exact Hnd|]. apply fmap_sublist, sublist_filter.
  - apply Forall_forall. intros p [Hne Hin]%list_elem_of_filter. rewrite Forall_forall in Hfr. destruct (Hfr p Hin). split; [done|]. split; [done|].
    destruct (decide (a = 0)); [apply lookup_empty|]. apply lookup_singleton_ne. by intros E'; apply Hne.
Qed.
End Rewards.

Section Template.
Context {R : MapRange} {RL : MapRangeLaws R} {U : Uint256} {Cr : Crypto} {L : LRU} {N : Node_} {GR : GoRuntime} {S : SortByTime} {SL : SortByTimeLaws S}.
Variable checkOutput : Entry -> gmap Hash Entry -> Z -> Z -> bytes -> Z -> bytes -> list bytes -> bool -> bool + error.
Variables (vmfuel vfuel cfuel : nat) (pending : list VotePendingBlockNum) (now : Z) (ticks : nat -> option timeout).
Variable accountManager : option (option bytes * bytes).

(** ** The transactions taken from the pool *)

Definition conv (c : Chain) : bytes -> option bytes := ProgramConverter (fun hash => GetContract hash (ch_store c)).
Definition valid_next (c : Chain) (tx : TypesTx) (g : GasState) : Prop :=
  exists i, ValidateTx (conv c) checkOutput (t_Tx tx) i (mkBcBlock 0 (u64 (BestBlockHeight c + 1)) []) vmfuel vfuel = VOk g.
(** What is known of the transactions of a pool. *)
Definition decent (c : Chain) (tx : TypesTx) : Prop :=
  hd_Version (tx_Header (t_Tx tx)) = 1 /\ forall g, valid_next c tx g -> 0 <= GasUsed g <= MaxInt64.
(** Everything but the pool. *)
Definition same_chain (c1 c2 : Chain) : Prop :=
  ch_store c1 = ch_store c2 /\ ch_casper c1 = ch_casper c2 /\ ch_best c1 = ch_best c2.

Definition taken (rs : list (TypesTx * option skip_reason)) : list TypesTx := omap (fun '(tx, e) => if e is None then Some tx else None) rs.

Lemma gas_total_app l1 l2 : gas_total (l1 ++ l2) = gas_total l1 + gas_total l2.
Proof. unfold gas_total. induction l1 as [|g l1 IH]; cbn [foldr app]; lia. Qed.

Lemma preValidate_gas (P : TypesTx -> GasState -> Prop) db height txs view gl rs view' gl' :
  preValidate_loop pending db height txs view gl = (rs, view', gl') -> 0 <= gl <= MaxBlockGas ->
  (forall tx g, (tx, inr g) ∈ txs -> P tx g /\ 0 <= GasUsed g <= MaxInt64) ->
  exists gs, Forall2 P (taken rs) gs /\ gas_total gs + gl' = gl /\ 0 <= gl' <= gl /\ Forall (fun g => 0 <= GasUsed g) gs.
Proof.
  revert view gl rs. induction txs as [|[tx result] txs IH]; intros view gl rs Hr Hgl HP; cbn [preValidate_loop] in Hr.
  { injection Hr as <- _ <-. exists []. cbn. split_and!; [constructor|lia..|constructor]. }
  assert (HP' : forall tx g, (tx, inr g) ∈ txs -> P tx g /\ 0 <= GasUsed g <= MaxInt64) by (intros; apply HP; by right).
  assert (Hstop : forall v, ([], v, gl) = (rs, view', gl') -> exists gs, Forall2 P (taken rs) gs /\ gas_total gs + gl' = gl /\ 0 <= gl' <= gl /\ Forall (fun g => 0 <= GasUsed g) gs).
  { intros v [= <- _ <-]. exists []. cbn. split_and!; [constructor|lia..|constructor]. }
  assert (Hskip : forall v e, (let '(rs, view, gasLeft) := preValidate_loop pending db height txs v gl in ((tx, Some e) :: rs, view, gasLeft)) = (rs, view', gl') ->
    exists gs, Forall2 P (taken rs) gs /\ gas_total gs + gl' = gl /\ 0 <= gl' <= gl /\ Forall (fun g => 0 <= GasUsed g) gs).
  { intros v e. destruct (preValidate_loop _ _ _ _ v gl) as [[rs1 v1] gl1] eqn:E. intros [= <- <- <-]. by apply (IH v gl rs1 E). }
  destruct (negb (gl >? 0)); [by eapply Hstop|]. destruct result as [e|g]; [by eapply Hskip|].
  destruct (load_spent db (tx_spends tx) view) as [v []]; [|by eapply Hskip].
  destruct (HP tx g ltac:(left)) as [Hp Hu]. unfold MaxBlockGas in Hgl.
  rewrite i64_id in Hr by (words; lia). destruct (Z.ltb_spec (gl - GasUsed g) 0); [by eapply Hstop|].
  destruct (ApplyTransaction _ _ _ v) as [v2 [e|]]; [by eapply Hskip|].
  destruct (preValidate_loop _ _ _ _ v2 _) as [[rs1 v1] gl1] eqn:E. injection Hr as <- <- <-.
  destruct (IH _ _ _ E) as (gs & H1 & H2 & H3 & H4); [unfold MaxBlockGas; lia|done|]. exists (g :: gs). cbn [taken omap list_omap]. change (gas_total (g :: gs)) with (GasUsed g + gas_total gs).
  split_and!; [by constructor|lia..|]. constructor; [lia|done].
Qed.

Lemma collect_lookup rs out i g : collect_results rs = BOk out -> out !! i = Some (inr g) -> rs !! i = Some (VOk g).
Proof.
  unfold collect_results. destruct (existsb _ rs) eqn:E1; [done|]. destruct (existsb (fun r => if r is VFuel then true else false) rs) eqn:E2; [done|].
  intros [= <-]. revert i E1 E2. induction rs as [|r rs IH]; intros i E1 E2 Hi; [done|]. destruct r as [g'|e| |]; cbn in *; try done.
  all: destruct i as [|i]; cbn in *; [|by apply IH]. - by injection Hi as ->. - done.
Qed.
Lemma ValidateTxs_lookup c txs rs tx g :
  ValidateTxs (conv c) checkOutput vmfuel vfuel txs (mkBcBlock 0 (u64 (BestBlockHeight c + 1)) []) = BOk rs ->
  (tx, inr g) ∈ zip txs rs -> tx ∈ txs /\ valid_next c tx g.
Proof.
  intros Hv [i Hi]%list_elem_of_lookup. apply lookup_zip_with_Some in Hi as (t & r & [= <- <-] & Ht & Hr).
  split; [by eapply list_elem_of_lookup_2|]. exists i. eapply collect_lookup in Hv; [|done]. rewrite list_lookup_imap, Ht in Hv. by injection Hv.
Qed.

Lemma take_results txs c rs : exists c', foldl (take_result now) (txs, c) rs = (txs ++ taken rs, c') /\ same_chain c c'.
Proof.
  revert txs c. induction rs as [|[tx [e|]] rs IH]; intros txs c; cbn [foldl take_result].
  - exists c. by rewrite app_nil_r.
  - destruct (IH txs (set_pool (RemoveTransaction now (mkPtr [] (tx_id tx)) (ch_pool c)) c)) as (c' & -> & Hs). exists c'. split; [done|]. by destruct c.
  - destruct (IH (txs ++ [tx]) c) as (c' & -> & Hs). exists c'. split; [|done]. cbn [taken omap list_omap]. by rewrite <- app_assoc.
Qed.

Lemma valid_next_same c1 c2 tx g : same_chain c1 c2 -> valid_next c1 tx g -> valid_next c2 tx g.
Proof. intros (E1 & _ & E2). unfold valid_next, conv, BestBlockHeight. by rewrite E1, E2. Qed.
Lemma same_chain_sym c1 c2 : same_chain c1 c2 -> same_chain c2 c1.
Proof. intros (? & ? & ?). by split_and!. Qed.
Lemma same_chain_trans c1 c2 c3 : same_chain c1 c2 -> same_chain c2 c3 -> same_chain c1 c3.
Proof. intros (? & ? & ?) (? & ? & ?). split_and!; congruence. Qed.
Lemma decent_same c1 c2 tx : same_chain c1 c2 -> decent c1 tx -> decent c2 tx.
Proof. intros Hs [Hv Hg]. split; [done|]. intros g Hn. apply Hg. eapply valid_next_same; [|done]. by apply same_chain_sym. Qed.

(** What the builder has so far: valid transactions within the gas. *)
Definition good_tx (c : Chain) (tx : TypesTx) (g : GasState) : Prop := valid_next c tx g /\ hd_Version (tx_Header (t_Tx tx)) = 1 /\ 0 <= GasUsed g.
Definition builder_ok (c : Chain) (b : blockBuilder) : Prop :=
  exists gs, Forall2 (good_tx c) (bb_Transactions b) gs /\ gas_total gs + bb_gasLeft b = MaxBlockGas /\ 0 <= bb_gasLeft b.

Lemma Forall2_and_r {A B} (P Q : A -> B -> Prop) l k : Forall2 P l k -> (forall x y, P x y -> y ∈ k -> Q x y) -> Forall2 Q l k.
Proof. induction 1 as [|x y l k HP _ IH]; intros HQ; constructor; [apply HQ; [done|left]|apply IH; intros; apply HQ; [done|by right]]. Qed.

Lemma apply_batch_ok n batch b c b' c' :
  apply_batch checkOutput vmfuel vfuel pending now ticks n batch b c = POk (b', c') -> Forall (decent c) (d_Tx <$> batch) -> builder_ok c b ->
  same_chain c c' /\ builder_ok c b'.
Proof.
  intros H Hd (gs & Hgs & Hsum & H0). unfold apply_batch, preValidateTxs in H. fold (conv c) in H.
  destruct (ValidateTxs _ _ _ _ _ _) as [rs| | |] eqn:Ev; [|done..]. cbn [mbind pres_bind] in H.
  destruct (preValidate_loop _ _ _ _ _ _) as [[results view] gl] eqn:Ep. cbn [mbind pres_bind] in H.
  destruct (take_results (bb_Transactions b) c results) as (c1 & Et & Hsame). rewrite Et in H. injection H as <- <-. split; [done|].
  apply (preValidate_gas (fun tx g => tx ∈ d_Tx <$> batch /\ valid_next c tx g)) in Ep as (gs' & H1 & H2 & H3 & H4).
  - exists (gs ++ gs'). cbn. rewrite gas_total_app. split_and!; [|lia|lia]. apply Forall2_app; [done|].
    eapply Forall2_and_r; [exact H1|]. intros tx g [Hin Hv] Hg. rewrite Forall_forall in Hd. rewrite Forall_forall in H4. destruct (Hd tx Hin). split_and!; [done|done|by apply H4].
  - assert (0 <= gas_total gs); [|lia]. clear -Hgs. induction Hgs as [|tx g txs gs (_ & _ & Hg) _ IH]; [done|]. change (gas_total (g :: gs)) with (GasUsed g + gas_total gs). lia.
  - intros tx g Hin. destruct (ValidateTxs_lookup _ _ _ _ _ Ev Hin) as [Hm Hv]. split; [done|]. rewrite Forall_forall in Hd. by apply (Hd tx Hm).
Qed.

Lemma builder_ok_same c1 c2 b : same_chain c1 c2 -> builder_ok c1 b -> builder_ok c2 b.
Proof.
  intros Hs (gs & Hgs & H). exists gs. split; [|done]. eapply Forall2_impl; [exact Hgs|]. intros tx g (Hv & ?). split; [|done]. by eapply valid_next_same.
Qed.
Lemma applyTransactions_ok n ts batch txs b c b' c' :
  applyTransactions checkOutput vmfuel vfuel pending now ticks n ts batch txs b c = POk (b', c') ->
  Forall (decent c) (d_Tx <$> batch ++ txs) -> builder_ok c b -> same_chain c c' /\ builder_ok c b'.
Proof.
  revert n batch b c. induction txs as [|tx txs IH]; intros n batch b c H Hd Hb; cbn [applyTransactions] in H.
  { injection H as <- <-. by split_and!. }
  replace (batch ++ tx :: txs) with ((batch ++ [tx]) ++ txs) in Hd by by rewrite <- app_assoc.
  destruct (_ && _) in H; [by eapply IH|]. rewrite fmap_app in Hd. apply Forall_app in Hd as [Hd1 Hd2].
  destruct (apply_batch _ _ _ _ _ _ _ _ _ _) as [[b1 c1]| |] eqn:Ea; cbn [mbind pres_bind] in H; [|done..].
  apply apply_batch_ok in Ea as [Hs Hb1]; [|done..]. destruct (_ || _) in H; [by injection H as <- <-|].
  apply IH in H as [Hs' Hb']; [|cbn [app]|by eapply builder_ok_same].
  - split; [by eapply same_chain_trans|]. eapply builder_ok_same; [|exact Hb']. by apply same_chain_sym.
  - eapply Forall_impl; [exact Hd2|]. intros t. by apply decent_same.
Qed.

(** ** The coinbase *)

Lemma getPrevCheckpoint_ok prev c r c' :
  getPrevCheckpoint cfuel prev c = (r, c') ->
  ch_store c' = ch_store c /\ ch_best c' = ch_best c
  /\ forall cp, r = POk cp -> exists s', (p ← ParentCheckpointByPrevHash cfuel prev; read p) (ch_casper c) = (Ret cp, s').
Proof.
  unfold getPrevCheckpoint, mbind, M_bind, C_bind, consensus. destruct c as [st k po o bo be]. cbn [ch_casper set_casper].
  destruct (ParentCheckpointByPrevHash cfuel prev k) as [[p|e| | |] s1] eqn:E; cbn [ch_casper set_casper].
  2-5: cbn; intros [= <- <-]; by split_and!.
  destruct (read p s1) as [[cp|e| | |] s2] eqn:E2; cbn; intros [= <- <-]; split_and!; try done. intros cp' [= <-]. by exists s2.
Qed.

(** What a coinbase of the proposer is. *)
Record coinbase_of (height : Z) (cp : Checkpoint) (d : TxData) : Prop := {
  co_version : TxData.Version d = 1;
  co_input : exists arbitrary, TxData.Inputs d = [NewCoinbaseInput arbitrary];
  co_outputs : Forall (fun o => plain_btm o /\ u64_ok (aa_Amount (output_value o))) (TxData.Outputs d);
  co_pays : if (height mod BlocksOfEpoch net =? 1) && negb (height =? 1) then coinbase_outputs (TxData.Outputs d) = Rewards cp
            else exists o, TxData.Outputs d = [o] /\ aa_Amount (output_value o) = 0;
}.
Lemma coinbase_txdata_ok height script arbitrary cp d :
  coinbase_txdata height script arbitrary cp = POk d -> rewards_ok (Rewards cp) -> coinbase_of height cp d.
Proof.
  unfold coinbase_txdata, AddInput, AddOutput, Build. cbn [mbind pres_bind NewCoinbaseInput ti_TypedInput NewTemplateBuilder tb_inputs tb_outputs app].
  cbn [NewOriginalTxOutput output_value to_Commitment oc_AssetAmount aa_Amount]. change (0 >? MaxInt64) with false. cbn [mbind pres_bind]. intros H Hr.
  destruct (_ && _) eqn:Ee.
  - destruct (add_rewards _ _ _) as [b| |] eqn:Ea; cbn [mbind pres_bind] in H; [|done..]. destruct (NewTx _); [|done]. injection H as <-.
    destruct (coinbase_rewards _ _ _ _ Ea Hr) as (Hi & Ho & Hp). split; cbn [TxData.Version TxData.Inputs TxData.Outputs]; [done|by eexists|done|by rewrite Ee].
  - cbn [mbind pres_bind tb_inputs tb_outputs] in H. destruct (NewTx _); [|done]. injection H as <-.
    split; cbn [TxData.Version TxData.Inputs TxData.Outputs]; [done|by eexists| |rewrite Ee; by eexists].
    constructor; [|constructor]. split; [done|]. split; vm_compute; discriminate.
Qed.

Lemma add_rewards_inputs script l b b' : add_rewards script l b = POk b' -> tb_inputs b' = tb_inputs b.
Proof.
  revert b. induction l as [|[cp n] l IH]; intros b H; cbn [add_rewards] in H; [by injection H as <-|].
  destruct (if bool_decide _ then _ else _) as [b1| |] eqn:E; [|done..]. cbn [mbind pres_bind] in H. rewrite (IH _ H).
  case_bool_decide; [unfold set_first_amount in E; destruct (tb_outputs b); [done|]; by injection E as <-|].
  destruct (hex_decode cp); [|done]. unfold AddOutput in E. destruct (_ >? _); [done|]. by injection E as <-.
Qed.
Lemma coinbase_txdata_input height script arbitrary cp d :
  coinbase_txdata height script arbitrary cp = POk d -> TxData.Inputs d = [NewCoinbaseInput arbitrary].
Proof.
  unfold coinbase_txdata, AddInput, AddOutput, Build. cbn [mbind pres_bind NewCoinbaseInput ti_TypedInput NewTemplateBuilder tb_inputs tb_outputs app].
  cbn [NewOriginalTxOutput output_value to_Commitment oc_AssetAmount aa_Amount]. change (0 >? MaxInt64) with false. cbn [mbind pres_bind]. intros H.
  destruct (if _ && _ then _ else _) as [b| |] eqn:E; cbn [mbind pres_bind] in H; [|done..]. destruct (NewTx _); [|done]. injection H as <-. cbn [TxData.Inputs].
  destruct (_ && _) in E; [by rewrite (add_rewards_inputs _ _ _ _ E)|by injection E as <-].
Qed.

Lemma createCoinbaseTx_ok height prev c r c' :
  createCoinbaseTx cfuel accountManager height prev c = (r, c') ->
  ch_store c' = ch_store c /\ ch_best c' = ch_best c
  /\ forall tx, r = POk tx -> exists cp s', (p ← ParentCheckpointByPrevHash cfuel prev; read p) (ch_casper c) = (Ret cp, s')
       /\ MapTx (t_TxData tx) = Some (t_Tx tx) /\ 0 <= TxData.SerializedSize (t_TxData tx)
       /\ (exists arbitrary, TxData.Inputs (t_TxData tx) = [NewCoinbaseInput arbitrary]) /\ (rewards_ok (Rewards cp) -> coinbase_of height cp (t_TxData tx)).
Proof.
  unfold createCoinbaseTx. destruct (coinbase_script _ ≫= _) as [script| |]; [|intros [= <- <-]; by split_and!..].
  destruct (getPrevCheckpoint cfuel prev c) as [rc c1] eqn:Eg. apply getPrevCheckpoint_ok in Eg as (H1 & H2 & H3). intros [= <- <-].
  split_and!; [done..|]. intros tx. destruct rc as [cp| |]; cbn [mbind pres_bind]; [|done..].
  destruct (coinbase_txdata _ _ _ _) as [d| |] eqn:Ed; cbn [mbind pres_bind]; [|done..]. destruct (MarshalText d) as [|data]; [done|].
  unfold NewTx. destruct (MapTx _) as [t|] eqn:Em; [|done]. cbn. intros [= <-]. destruct (H3 cp eq_refl) as [s' Hs]. exists cp, s'. cbn. split_and!; [done|done|unfold zlen; lia|eexists; by eapply coinbase_txdata_input|].
  intros Hr. by destruct (coinbase_txdata_ok _ _ _ _ _ Ed Hr).
Qed.

Lemma totalAmount_le outs : Forall (fun o => u64_ok (aa_Amount (output_value o))) outs -> totalAmount outs <= amount_sum outs.
Proof.
  intros Ho. unfold totalAmount. enough (H : forall n, 0 <= n -> foldl (fun n o => u64 (n + aa_Amount (oc_AssetAmount (to_Commitment o)))) n outs <= n + amount_sum outs) by (apply (H 0); lia).
  induction Ho as [|o outs Ha _ IH]; intros n Hn; [cbn; lia|]. cbn [foldl]. change (amount_sum (o :: outs)) with (aa_Amount (output_value o) + amount_sum outs).
  unfold u64_ok, output_value in *. assert (0 <= u64 (n + aa_Amount (oc_AssetAmount (to_Commitment o))) <= n + aa_Amount (oc_AssetAmount (to_Commitment o))).
  { unfold u64. split; [apply Z.mod_pos_bound; lia|apply Z.mod_le; lia]. }
  specialize (IH (u64 (n + aa_Amount (oc_AssetAmount (to_Commitment o)))) ltac:(lia)). lia.
Qed.

(** The coinbase costs no gas. *)
Lemma coinbase_gas c height cp d tx i block g :
  coinbase_of height cp d -> MapTx d = Some tx -> 0 <= TxData.SerializedSize d <= MaxInt64 ->
  ValidateTx (conv c) checkOutput tx i block vmfuel vfuel = VOk g -> clash (built d) \/ GasUsed g = 0.
Proof.
  intros [Hv (arb & Hin) Ho _] Hm Hs HV. pose proof (Forall_impl _ (fun o => u64_ok (aa_Amount (output_value o))) _ Ho ltac:(by intros ? [])) as Hu.
  assert (Ht : typed d).
  { split; [|exact Hu]. rewrite Hin. constructor; [|constructor]. unfold input_value. cbn [NewCoinbaseInput ti_TypedInput aa_Amount].
    unfold totalAmount. generalize (TxData.Outputs d). intros l. enough (H : forall n, u64_ok n -> u64_ok (foldl (fun n o => u64 (n + aa_Amount (oc_AssetAmount (to_Commitment o)))) n l)) by (apply H; split; words; lia).
    induction l as [|o l IH]; intros n Hn; [done|]. apply IH. unfold u64_ok, u64, MaxUint64. pose proof (Z.mod_pos_bound (n + aa_Amount (oc_AssetAmount (to_Commitment o))) 18446744073709551616 ltac:(lia)). lia. }
  destruct (accepted_gas (conv c) checkOutput True d tx i block vmfuel vfuel g Hm Ht Hv) as [|[_ Hl Hused Hq]]; [|exact HV|by left|].
  { intros _. split; [|done]. rewrite Hin. constructor; [by eexists|constructor]. }
  destruct (ValidateTx_totals d (conv c) checkOutput tx i block vmfuel vfuel g Hm Ht Hv HV) as [|Htot]; [by left|right].
  destruct (Htot BTMAssetID) as [_ Hle]. rewrite bool_decide_eq_true_2 in Hle by done. destruct (Hq I) as [_ Hmax].
  assert (input_total d BTMAssetID = totalAmount (TxData.Outputs d)) as Ei.
  { unfold input_total. rewrite Hin. cbn -[BTMAssetID totalAmount]. rewrite bool_decide_eq_true_2 by done. lia. }
  assert (output_total d BTMAssetID = amount_sum (TxData.Outputs d)) as Eo.
  { unfold output_total. rewrite plain_totals, bool_decide_eq_true_2; [done|done|]. eapply Forall_impl; [exact Ho|]. by intros ? []. }
  pose proof (totalAmount_le _ Hu). assert (input_total d BTMAssetID - output_total d BTMAssetID = 0) as E by lia. rewrite E in Hused, Hmax.
  change (gas_limit 0) with 0 in *. rewrite Hused. assert (GasLeft g = 0) as -> by lia. done.
Qed.

(** ** The block *)

Lemma SignBlockHeader_hash bh : bh_Hash (SignBlockHeader bh) = bh_Hash bh.
Proof. by destruct bh. Qed.

Lemma gas_prefix gs k : Forall (fun g => 0 <= GasUsed g) gs -> 0 <= gas_total (take k gs) <= gas_total gs.
Proof.
  intros H. revert k. induction H as [|g gs Hg _ IH]; intros k; [by destruct k|]. pose proof (IH 0%nat) as H0. rewrite take_0 in H0. change (gas_total []) with 0 in H0.
  change (gas_total (g :: gs)) with (GasUsed g + gas_total gs). destruct k as [|k]; [rewrite take_0; change (gas_total []) with 0; lia|]. cbn [take].
  change (gas_total (g :: take k gs)) with (GasUsed g + gas_total (take k gs)). specialize (IH k). lia.
Qed.

(** The node signs with the key of the validator in charge. *)
Class NodeSigns := {
  sign_length m : length (node_Sign m) = SignatureSize;
  sign_verifies m : xpub_verify node_XPub m (node_Sign m) = true;
}.

Lemma POk_inj {A} (x y : A) : POk x = POk y -> x = y.
Proof. by intros [= ->]. Qed.

Lemma template_valid_block {NS : NodeSigns} MaxTimeOffsetMs now' timestamp c b c' checkpoint s' v :
  NewBlockTemplate checkOutput vmfuel vfuel cfuel pending now ticks accountManager timestamp c = (POk b, c') ->
  Forall (decent c) (d_Tx <$> GetTransactions (ch_pool c)) ->
  (p ← ParentCheckpointByPrevHash cfuel (BestBlockHash c); read p) (ch_casper c) = (Ret checkpoint, s') ->
  rewards_ok (Rewards checkpoint) -> (u64 (BestBlockHeight c + 1) = 1 -> Rewards checkpoint = ∅) ->
  GetValidator net timestamp checkpoint = Some (Some v) -> hex_decode (PubKey v) = Some node_XPub ->
  u64 (bh_Timestamp (ch_best c) + BlockTimeInterval net) <= timestamp <= u64 (now' + MaxTimeOffsetMs) ->
  Forall (fun tx => TxData.SerializedSize (t_TxData tx) <= MaxInt64) (Transactions b) ->
  Exists (fun tx => clash (built (t_TxData tx))) (Transactions b)
  \/ exists gs, valid_block net MaxTimeOffsetMs (conv c) checkOutput vmfuel vfuel now' b (ch_best c) checkpoint gs.
Proof.
  intros H Hd Hcp Hr H1 Hval Hkey Htime Hsize. unfold NewBlockTemplate, build in H.
  destruct (applyTransactionFromPool _ _ _ _ _ _ _ _) as [[b1 c1]| |] eqn:Ea; [|done..].
  unfold applyTransactionFromPool in Ea. apply applyTransactions_ok in Ea as [(Es & Ec & Eb) (gs & Hgs & Hsum & H0)].
  2: { rewrite app_nil_l, byTime_perm. done. }
  2: { exists []. cbn. split_and!; [constructor|done|done]. }
  cbn [newBlockHeader bh_Height PreviousBlockHash] in H. fold (BestBlockHash c) in H.
  destruct (applyCoinbaseTransaction _ _ _ _ _ _ _ _ _) as [r c2] eqn:Eco. unfold applyCoinbaseTransaction in Eco.
  destruct (createCoinbaseTx _ _ _ _ _) as [rt c3] eqn:Ecr. apply createCoinbaseTx_ok in Ecr as (Es3 & Eb3 & Htx).
  injection Eco as <- <-. destruct rt as [tx| |]; cbn [mbind pres_bind] in H; [|done..].
  destruct (Htx tx eq_refl) as (cp & s1 & Hcp1 & Hm & Hs0 & _ & Hco). rewrite <- Ec in Hcp1. unfold BestBlockHash in Hcp. unfold BestBlockHash in Hcp1.
  rewrite Hcp in Hcp1. injection Hcp1 as <- <-. specialize (Hco Hr). replace (ch_store c3) with (ch_store c) in H by congruence. fold (conv c) in H.
  set (height := u64 (bh_Height (ch_best c) + 1)) in *. destruct (ValidateTx _ _ _ _ _ _ _) as [g0| | |] eqn:Ev; [|done..]. cbn [mbind pres_bind] in H.
  apply (f_equal fst), POk_inj in H as Hb. clear H. assert (Etx : Transactions b = tx :: bb_Transactions b1) by by rewrite <- Hb.
  assert (Ebh : bHeader b = SignBlockHeader (calculateBlockCommitment (tx :: bb_Transactions b1) (newBlockHeader (ch_best c) timestamp))) by exact (eq_sym (f_equal bHeader Hb)).
  rewrite Etx in Hsize. apply Forall_cons in Hsize as [Hsize _].
  destruct (coinbase_gas c _ _ _ _ _ _ _ Hco Hm ltac:(lia) Ev) as [|Hg0]; [left; rewrite Etx; by left|right]. exists (g0 :: gs).
  assert (Hmap : MapBlock b = mkBcBlock 1 height (seq 0 (length (Transactions b)))) by (unfold MapBlock; by rewrite Ebh).
  assert (Hnn : Forall (fun g => 0 <= GasUsed g) gs) by (clear -Hgs; induction Hgs as [|? ? ? ? (_ & _ & ?)]; by constructor).
  split; rewrite ?Hmap.
  - by rewrite Ebh.
  - by rewrite Ebh.
  - by rewrite Ebh.
  - by rewrite Ebh.
  - exists v, node_XPub. rewrite Ebh, SignBlockHeader_hash. split_and!; [done|done|].
    change (BlockWitness (SignBlockHeader ?bh)) with (take SignatureSize (node_Sign (bh_Hash bh) ++ replicate SignatureSize x00)).
    rewrite take_app_length' by (symmetry; apply sign_length). apply sign_verifies.
  - rewrite Etx. intros [|i] t Ht; cbn [lookup list_lookup] in Ht.
    + injection Ht as <-. exists g0. split; [done|]. eapply ValidateTx_block; [..|exact Ev]; [done|done|]. intros _.
      destruct (MapTx_mapped _ _ Hm) as (? & ? & M). rewrite (mp_version _ _ _ _ _ M). apply Hco.
    + destruct (Forall2_lookup_l _ _ _ _ _ Hgs Ht) as (g & Hg & (i' & Hv) & Hver & _). exists g. split; [done|].
      eapply ValidateTx_block; [..|exact Hv]; [done|done|done].
  - rewrite Etx. cbn [length]. f_equal. symmetry. by eapply Forall2_length.
  - intros [|k]; [done|]. cbn [take]. change (gas_total (g0 :: take k gs)) with (GasUsed g0 + gas_total (take k gs)). pose proof (gas_prefix gs k Hnn).
    rewrite Hg0, Z.add_0_l, u64_id; unfold MaxBlockGas in *; words; lia.
  - exists tx. rewrite Etx. split; [done|]. cbn zeta. destruct Hco as [_ _ Ho Hpay]. split; [eapply Forall_impl; [exact Ho|by intros ? []]|].
    replace (bh_Height (bHeader b)) with height by by rewrite Ebh. destruct (height mod BlocksOfEpoch net =? 1) eqn:Em; cbn [andb] in Hpay; [|exact Hpay].
    destruct (Z.eqb_spec height 1) as [E1|]; cbn [negb] in Hpay.
    + destruct Hpay as (o & -> & Ho0). unfold pays. rewrite (H1 E1). unfold coinbase_outputs. cbn [imap foldl add_coinbase_output]. rewrite Ho0. cbn. split; [done|].
      intros cp' n Hn. by rewrite lookup_empty in Hn.
    + unfold pays. rewrite Hpay. split; [done|]. intros k amount Hk. by rewrite Hk.
  - rewrite Ebh. unfold tx_ids. by rewrite Etx.
Qed.

(** ** A transaction that fails half way *)

(** Its first output is marked as spent: the next transaction that spends it is
    skipped too, and leaves the pool, although it is valid. *)
Theorem skipped_tx_spends db height bad good g1 g2 x y gasLeft :
  tx_spends bad = [y; x] -> tx_spends good = [y] -> x <> y -> db x = None -> db y = Some (Some (NewUtxoEntry NormalUTXOType 0 false)) ->
  0 < gasLeft <= MaxBlockGas -> 0 <= GasUsed g1 <= gasLeft -> 0 <= GasUsed g2 <= gasLeft ->
  (preValidate_loop pending db height [(bad, inr g1); (good, inr g2)] ∅ gasLeft).1.1
    = [(bad, Some (SkipUtxo ErrNoEntry)); (good, Some (SkipUtxo ErrSpent))]
  /\ (preValidate_loop pending db height [(good, inr g2)] ∅ gasLeft).1.1 = [(good, None)].
Proof.
  intros Hb Hg Hne Hx Hy Hl H1 H2. assert (Hi : forall g, 0 <= GasUsed g <= gasLeft -> i64 (gasLeft - GasUsed g) <? 0 = false).
  { intros g Hgu. unfold MaxBlockGas in Hl. rewrite i64_id by (words; lia). lia. }
  assert (Hgt : gasLeft >? 0 = true) by lia. unfold tx_spends in Hb, Hg.
  cbn [preValidate_loop]. rewrite Hgt, !Hi by done. cbn [negb]. unfold tx_spends. rewrite Hb, Hg. cbn [load_spent]. unfold HasUtxo. rewrite !lookup_empty.
  rewrite (bool_decide_eq_false_2 (is_Some None)) by (intros []; done). rewrite Hy, lookup_insert_ne, lookup_empty by done.
  rewrite (bool_decide_eq_false_2 (is_Some None)) by (intros []; done). rewrite Hx. unfold ApplyTransaction, applySpendUtxo.
  change (SpentOutputIDs (utxo_tx (t_Tx bad))) with (tx_SpentOutputIDs (t_Tx bad)). change (SpentOutputIDs (utxo_tx (t_Tx good))) with (tx_SpentOutputIDs (t_Tx good)).
  rewrite Hb, Hg. cbn [applySpendUtxo_loop]. rewrite !lookup_insert_eq. cbn [NewUtxoEntry utxo_Spent maturity utxo_Type NormalUTXOType].
  rewrite lookup_insert_ne, lookup_insert_ne, lookup_empty by done.
  assert (Hm : maturity pending (mkBlock (Hash := Hash) height []) (NewUtxoEntry NormalUTXOType 0 false : UtxoEntry) = None) by done. rewrite !Hm.
  rewrite !lookup_insert_eq, (bool_decide_eq_true_2 (is_Some (Some _))) by by eexists. rewrite lookup_insert_eq. split; [done|].
  unfold applyOutputUtxo. done.
Qed.
End Template.
