(* ===== verification/ProposalUtxo.v ===== *)
(** * The block proposer and the unspent outputs

    The chain can attach a block of [NewBlockTemplate]: with the outputs it
    spends loaded from the store, [UtxoViewpoint.ApplyBlock] finds every one of
    them unspent and mature.  The proposer has applied the transactions one by
    one to a view of its own, in a block that does not have the coinbase yet;
    skipped transactions have left marks in that view. *)

From S2P Require Import Prelude Checked GoSlice VMTypes Opcode Machine Interp Script Utxo UtxoStore Encoding Entries TxData Merkle MapTx Validate ValidateSpec Orphans Checkpoint Tree CasperState Casper Ledger Fees BlockData BlockValidation Supply TxPool Store Chain Proposal ProposalSpec.
From Stdlib Require Import Strings.Byte.
#[local] Open Scope Z_scope.

(** ** Two views *)

Section Views.
Context (pending : list VotePendingBlockNum) (db : gmap Hash UtxoEntry) (C : list Hash).
Implicit Types (bv rv : gmap Hash UtxoEntry) (block : bc_block (Hash := Hash)) (tx : bc_tx (Hash := Hash)).

(** But for [C], what the builder's view, laid over the database, has unspent is so in [rv]. *)
Definition below bv rv : Prop :=
  forall id e, id ∉ C -> (bv ∪ db) !! id = Some e -> utxo_Spent e = false -> rv !! id = Some e.

Lemma below_insert bv rv id e : below bv rv -> below (<[id := e]> bv) (<[id := e]> rv).
Proof.
  intros H i x Hi. rewrite <- insert_union_l. destruct (decide (i = id)) as [->|]; [by rewrite !lookup_insert_eq|].
  rewrite !lookup_insert_ne by done. by apply H.
Qed.
Lemma below_mark bv rv id e : below bv rv -> below (<[id := SpendOutput e]> bv) rv.
Proof.
  intros H i x Hi. rewrite <- insert_union_l. destruct (decide (i = id)) as [->|]; [rewrite lookup_insert_eq; by intros [= <-]|].
  rewrite lookup_insert_ne by done. by apply H.
Qed.
Lemma below_same bv bv' rv : bv' ∪ db = bv ∪ db -> below bv rv -> below bv' rv.
Proof. unfold below. by intros ->. Qed.

(** Spending marks the view, also when it fails half way. *)
Lemma spend_marks block ids bv rv : below bv rv -> below (applySpendUtxo_loop pending block ids bv).1 rv.
Proof.
  revert bv. induction ids as [|id ids IH]; intros bv Hb; cbn [applySpendUtxo_loop]; [done|].
  destruct (bv !! id) as [e|]; [|done]. destruct (utxo_Spent e); [done|]. destruct (maturity pending block e); [done|]. by apply IH, below_mark.
Qed.
Lemma spend_below b1 b2 ids bv rv bv' :
  block_Height b1 = block_Height b2 -> below bv rv -> (forall id, id ∈ ids -> id ∉ C) ->
  applySpendUtxo_loop pending b1 ids bv = (bv', None) -> exists rv', applySpendUtxo_loop pending b2 ids rv = (rv', None) /\ below bv' rv'.
Proof.
  intros Hh. revert bv rv. induction ids as [|id ids IH]; intros bv rv Hb HC; cbn [applySpendUtxo_loop]; [intros [= <-]; by exists rv|].
  destruct (bv !! id) as [e|] eqn:E; [|done]. destruct (utxo_Spent e) eqn:Es; [done|].
  destruct (maturity pending b1 e) eqn:Em; [done|]. intros H.
  assert (Hr : rv !! id = Some e) by (apply Hb; [apply HC; left|by apply lookup_union_Some_l|done]).
  assert (maturity pending b2 e = None) as Em2 by (rewrite <- Em; unfold maturity; by rewrite Hh). rewrite Hr, Es, Em2.
  apply (IH _ _ (below_insert bv rv id (SpendOutput e) Hb)); [|done]. intros j Hj. apply HC. by right.
Qed.

Lemma outputs_below b1 b2 tx ids bv rv :
  block_Height b1 = block_Height b2 -> is_coinbase b1 tx = false -> is_coinbase b2 tx = false -> below bv rv ->
  below (applyOutputUtxo_loop b1 tx ids bv) (applyOutputUtxo_loop b2 tx ids rv).
Proof.
  intros Hh H1 H2. revert bv rv. induction ids as [|id ids IH]; intros bv rv Hb; cbn [applyOutputUtxo_loop]; [done|].
  destruct (Utxo.tx_Entries tx !! id) as [e|]; [|by apply IH]. destruct (output_type e) as [[t a]|]; [|by apply IH].
  destruct (a =? 0); [by apply IH|]. cbn zeta. rewrite H1, H2, Hh. by apply IH, below_insert.
Qed.

Lemma tx_below b1 b2 tx bv rv bv' :
  block_Height b1 = block_Height b2 -> is_coinbase b1 tx = false -> is_coinbase b2 tx = false -> below bv rv ->
  (forall id, id ∈ SpentOutputIDs tx -> id ∉ C) -> ApplyTransaction pending b1 tx bv = (bv', None) ->
  exists rv', ApplyTransaction pending b2 tx rv = (rv', None) /\ below bv' rv'.
Proof.
  unfold ApplyTransaction, applySpendUtxo, applyOutputUtxo. intros Hh H1 H2 Hb HC H.
  destruct (applySpendUtxo_loop pending b1 _ bv) as [bv1 [e|]] eqn:E; [done|]. injection H as <-.
  destruct (spend_below b1 b2 _ _ _ _ Hh Hb HC E) as (rv1 & -> & Hb1). eexists. split; [done|]. by apply outputs_below.
Qed.
Lemma failed_below block tx bv rv bv' e : below bv rv -> ApplyTransaction pending block tx bv = (bv', Some e) -> below bv' rv.
Proof.
  unfold ApplyTransaction, applySpendUtxo, applyOutputUtxo. intros Hb H. pose proof (spend_marks block (SpentOutputIDs tx) bv rv Hb) as Hm.
  destruct (applySpendUtxo_loop pending block _ bv) as [bv1 [e'|]]; [|done]. by injection H as <- _.
Qed.

Lemma load_spent_reads ids bv : exists bv', load_spent (db_reads db) ids bv = (bv', true) /\ bv' ∪ db = bv ∪ db.
Proof.
  revert bv. induction ids as [|id ids IH]; intros bv; cbn [load_spent]; [by exists bv|].
  unfold HasUtxo. case_bool_decide as Hv; [apply IH|]. change (db_reads db id) with (Some <$> db !! id).
  destruct (db !! id) as [u|] eqn:E; cbn [fmap option_fmap option_map]; [|apply IH]. destruct (IH (<[id := u]> bv)) as (bv' & -> & He). exists bv'. split; [done|].
  rewrite He, <- insert_union_l. apply insert_id. rewrite lookup_union, E. apply eq_None_not_Some in Hv. by rewrite Hv.
Qed.

(** The transactions a batch accepts apply to the reference view in turn. *)
Definition spends_old (t : TypesTx) : Prop := forall id, id ∈ tx_spends t -> id ∉ C.
Lemma preValidate_below block height txs bv gl rs bv' gl' rv :
  preValidate_loop pending (db_reads db) height txs bv gl = (rs, bv', gl') -> block_Height block = height -> below bv rv ->
  (forall t, t ∈ taken rs -> is_coinbase block (utxo_tx (t_Tx t)) = false /\ spends_old t) ->
  exists rv', apply_txs pending block ((fun t => utxo_tx (t_Tx t)) <$> taken rs) rv = (rv', None) /\ below bv' rv'.
Proof.
  intros H Hh. revert bv gl rs rv H. induction txs as [|[tx result] txs IH]; intros bv gl rs rv H Hb Ht; cbn [preValidate_loop] in H.
  { injection H as <- <- _. by exists rv. }
  assert (Hskip : forall v e, below v rv -> (let '(rs, view, gasLeft) := preValidate_loop pending (db_reads db) height txs v gl in ((tx, Some e) :: rs, view, gasLeft)) = (rs, bv', gl') ->
    exists rv', apply_txs pending block ((fun t => utxo_tx (t_Tx t)) <$> taken rs) rv = (rv', None) /\ below bv' rv').
  { intros v e Hv. destruct (preValidate_loop _ _ _ _ v gl) as [[rs1 v1] gl1] eqn:E. intros [= <- <- <-]. by apply (IH v gl rs1 rv E). }
  destruct (negb (gl >? 0)); [injection H as <- <- _; by exists rv|]. destruct result as [e|g]; [by eapply Hskip|].
  destruct (load_spent_reads (tx_spends tx) bv) as (v & Ev & Hv). rewrite Ev in H. pose proof (below_same _ _ _ Hv Hb) as Hbv.
  destruct (_ <? 0); [injection H as <- <- _; by exists rv|].
  destruct (ApplyTransaction pending _ _ v) as [v2 [e|]] eqn:Ea; [eapply Hskip; [|exact H]; by eapply failed_below|].
  destruct (preValidate_loop _ _ _ _ v2 _) as [[rs1 v1] gl1] eqn:E. injection H as <- <- <-. cbn [taken omap list_omap] in Ht |- *.
  destruct (Ht tx ltac:(left)) as [Hc Ho].
  destruct (tx_below (mkBlock height []) block (utxo_tx (t_Tx tx)) v rv v2) as (rv2 & Er & Hb2); [done|done|done|done|exact Ho|done|].
  rewrite fmap_cons. cbn [apply_txs]. rewrite Er. apply (IH v2 _ rs1 rv2 E Hb2). intros t Hin. apply Ht. by right.
Qed.
End Views.

(** ** The coinbase spends nothing *)

Section Spends.
Context {Cr : Crypto}.
Implicit Types (txData : TxData).

Definition spends_kept {A} (m : H A) : Prop := forall h a h', m h = Some (a, h') -> spentOutputIDs h' = spentOutputIDs h.
Lemma kept_bind {A B} (m : H A) (f : A -> H B) : spends_kept m -> (forall a, spends_kept (f a)) -> spends_kept (m ≫= f).
Proof. intros Hm Hf h b h' (a & h1 & H1 & H2)%H_bind_ok. rewrite (Hf _ _ _ _ H2). by eapply Hm. Qed.
Lemma kept_ret {A} (a : A) : spends_kept (mret a).
Proof. by intros h b h' [= _ <-]. Qed.
Lemma kept_gets {A} (f : mapHelper -> A) : spends_kept (hgets f).
Proof. by intros h b h' [= _ <-]. Qed.
Lemma kept_panics {A} (x : option A) : spends_kept (or_panics x).
Proof. intros h b h'. unfold or_panics. destruct x; [by intros [= _ <-]|done]. Qed.
Lemma kept_modify f : (forall h, spentOutputIDs (f h) = spentOutputIDs h) -> spends_kept (hmodify f).
Proof. intros Hf h b h' [= _ <-]. apply Hf. Qed.
Lemma kept_for_each {A} (f : nat -> A -> H unit) i l : (forall i x, spends_kept (f i x)) -> spends_kept (MapTx.for_each f i l).
Proof. intros Hf. revert i. induction l as [|x l IH]; intros i; [apply kept_ret|]. by apply kept_bind. Qed.
Ltac kept := repeat first
  [ apply kept_ret | apply kept_gets | apply kept_panics | apply kept_modify; by intros [] | apply kept_for_each; intros ? ?
  | apply kept_bind; [|intros ?] | match goal with |- spends_kept (match ?x with _ => _ end) => destruct x end ].
Lemma kept_addEntry e : spends_kept (addEntry e).
Proof. unfold addEntry. kept. Qed.
Lemma kept_connect vote muxID p : spends_kept (connect vote muxID p).
Proof. unfold connect, MapTx.update. kept. Qed.
Lemma kept_coinbase txData i a : spends_kept (mapCoinbaseInput txData i a).
Proof. unfold mapCoinbaseInput. apply kept_bind; [apply kept_addEntry|intros [p id]]. kept. Qed.
Lemma kept_initMux : spends_kept initMux.
Proof.
  unfold initMux, MapTx.update. apply kept_bind; [apply kept_gets|intros s]. apply kept_bind; [apply kept_addEntry|intros [p id]].
  kept; apply kept_connect.
Qed.
Lemma kept_mapOutputs txData : spends_kept (mapOutputs txData).
Proof.
  unfold mapOutputs, mapOutput, MapTx.update. kept.
Qed.
Lemma kept_generateTx txData h tx h' : generateTx txData h = Some (tx, h') -> tx_SpentOutputIDs tx = spentOutputIDs h.
Proof.
  unfold generateTx. intros H. apply H_bind_ok in H as (ids & h1 & H1 & H). injection H1 as _ <-.
  apply H_bind_ok in H as ([p id] & h1 & H1 & H). apply kept_addEntry in H1. apply H_bind_ok in H as (h2 & h3 & H2 & H).
  injection H2 as <- _. injection H as <- _. exact H1.
Qed.
Lemma coinbase_spends txData arbitrary tx :
  TxData.Inputs txData = [NewCoinbaseInput arbitrary] -> MapTx txData = Some tx -> tx_SpentOutputIDs tx = [].
Proof.
  intros Hi H. unfold MapTx in H. apply fmap_Some in H as ([t h'] & H & ->). apply H_bind_ok in H as ([] & h1 & H1 & H).
  apply H_bind_ok in H as ([] & h2 & H2 & H). apply H_bind_ok in H as ([] & h3 & H3 & H). apply kept_generateTx in H. cbn [fst]. rewrite H.
  rewrite (kept_mapOutputs _ _ _ _ H3), (kept_initMux _ _ _ H2). unfold mapInputs in H1. rewrite Hi in H1. cbn [MapTx.for_each] in H1.
  apply H_bind_ok in H1 as ([] & h0 & H0 & H1). injection H1 as <-. by rewrite (kept_coinbase txData 0%nat arbitrary _ _ _ H0).
Qed.
End Spends.

(** ** The block of the proposer *)

Section Template.
Context {R : MapRange} {RL : MapRangeLaws R} {U : Uint256} {Cr : Crypto} {L : LRU} {N : Node_} {GR : GoRuntime} {S : SortByTime} {SL : SortByTimeLaws S}.
Variable checkOutput : Entry -> gmap Hash Entry -> Z -> Z -> bytes -> Z -> bytes -> list bytes -> bool -> bool + error.
Variables (vmfuel vfuel cfuel : nat) (pending : list VotePendingBlockNum) (now : Z) (ticks : nat -> option timeout).
Variable accountManager : option (option bytes * bytes).

Definition applies (block : bc_block (Hash := Hash)) (db : gmap Hash UtxoEntry) (C : list Hash) (bv bv' : gmap Hash UtxoEntry) (ts : list TypesTx) : Prop :=
  forall rv, below db C bv rv -> (forall t, t ∈ ts -> is_coinbase block (utxo_tx (t_Tx t)) = false /\ spends_old C t) ->
  exists rv', apply_txs pending block ((fun t => utxo_tx (t_Tx t)) <$> ts) rv = (rv', None) /\ below db C bv' rv'.

Lemma apply_txs_app (block : bc_block (Hash := Hash)) (ts1 ts2 : list (bc_tx (Hash := Hash))) (v : gmap Hash UtxoEntry) : apply_txs pending block (ts1 ++ ts2) v = let '(v', e) := apply_txs pending block ts1 v in match e with None => apply_txs pending block ts2 v' | Some e => (v', Some e) end.
Proof. revert v. induction ts1 as [|t ts1 IH]; intros v; cbn [app apply_txs]; [done|]. destruct (ApplyTransaction _ _ _ v) as [v' [e|]]; [done|apply IH]. Qed.
Lemma applies_app block db C bv1 bv2 bv3 ts1 ts2 : applies block db C bv1 bv2 ts1 -> applies block db C bv2 bv3 ts2 -> applies block db C bv1 bv3 (ts1 ++ ts2).
Proof.
  intros H1 H2 rv Hb Ht. destruct (H1 rv Hb) as (rv1 & E1 & Hb1); [intros t Hin; apply Ht, elem_of_app; by left|].
  destruct (H2 rv1 Hb1) as (rv2 & E2 & Hb2); [intros t Hin; apply Ht, elem_of_app; by right|]. exists rv2.
  rewrite fmap_app, apply_txs_app, E1. done.
Qed.

Lemma apply_batch_applies block C n batch b c b' c' :
  apply_batch checkOutput vmfuel vfuel pending now ticks n batch b c = POk (b', c') -> block_Height block = u64 (BestBlockHeight c + 1) ->
  same_chain c c' /\ exists ts, bb_Transactions b' = bb_Transactions b ++ ts /\ applies block (db_utxos (ch_store c)) C (bb_utxoView b) (bb_utxoView b') ts.
Proof.
  intros H Hh. unfold apply_batch, preValidateTxs in H. destruct (ValidateTxs _ _ _ _ _ _) as [rs| | |]; [|done..]. cbn [mbind pres_bind] in H.
  destruct (preValidate_loop _ _ _ _ _ _) as [[results view] gl] eqn:Ep. cbn [mbind pres_bind] in H.
  destruct (take_results now (bb_Transactions b) c results) as (c1 & Et & Hsame). rewrite Et in H. injection H as <- <-. split; [done|].
  exists (taken results). split; [done|]. intros rv Hb Ht. by eapply preValidate_below.
Qed.
Lemma applyTransactions_applies block C n ts0 batch txs b c b' c' :
  applyTransactions checkOutput vmfuel vfuel pending now ticks n ts0 batch txs b c = POk (b', c') -> block_Height block = u64 (BestBlockHeight c + 1) ->
  same_chain c c' /\ exists ts, bb_Transactions b' = bb_Transactions b ++ ts /\ applies block (db_utxos (ch_store c)) C (bb_utxoView b) (bb_utxoView b') ts.
Proof.
  assert (Hnil : forall (b : blockBuilder) (c : Chain), exists ts, bb_Transactions b = bb_Transactions b ++ ts /\ applies block (db_utxos (ch_store c)) C (bb_utxoView b) (bb_utxoView b) ts).
  { intros b0 c0. exists []. rewrite app_nil_r. split; [done|]. intros rv Hb _. by exists rv. }
  revert n batch b c. induction txs as [|tx txs IH]; intros n batch b c H Hh; cbn [applyTransactions] in H.
  { injection H as <- <-. split; [by split_and!|]. apply Hnil. }
  destruct (_ && _) in H; [by eapply IH|].
  destruct (apply_batch _ _ _ _ _ _ _ _ _ _) as [[b1 c1]| |] eqn:Ea; cbn [mbind pres_bind] in H; [|done..].
  apply (apply_batch_applies block C) in Ea as [Hs (ts1 & E1 & A1)]; [|done]. destruct (_ || _) in H; [injection H as <- <-; split; [done|by exists ts1]|].
  apply IH in H as [Hs' (ts2 & E2 & A2)]; [|unfold BestBlockHeight; destruct Hs as (_ & _ & <-); exact Hh].
  split; [by eapply same_chain_trans|]. exists (ts1 ++ ts2). split; [by rewrite E2, E1, app_assoc|]. eapply applies_app; [exact A1|].
  destruct Hs as (-> & _). exact A2.
Qed.

Lemma template_attaches timestamp c b c' :
  NewBlockTemplate checkOutput vmfuel vfuel cfuel pending now ticks accountManager timestamp c = (POk b, c') ->
  (forall coinbase txs t, Transactions b = coinbase :: txs -> t ∈ txs ->
     tx_id t <> tx_id coinbase /\ forall id, id ∈ tx_spends t -> id ∉ tx_results coinbase) ->
  exists v v', load_utxos (ch_store c) (utxo_block b) NewUtxoViewpoint = COk v /\ Utxo.ApplyBlock pending (utxo_block b) v = (v', None).
Proof.
  intros H Hfresh. unfold NewBlockTemplate, build in H.
  destruct (applyTransactionFromPool _ _ _ _ _ _ _ _) as [[b1 c1]| |] eqn:Ea; [|done..]. unfold applyTransactionFromPool in Ea.
  destruct (applyCoinbaseTransaction _ _ _ _ _ _ _ _ _) as [r c2] eqn:Eco. unfold applyCoinbaseTransaction in Eco.
  destruct (createCoinbaseTx _ _ _ _ _) as [rt c3] eqn:Ecr. apply createCoinbaseTx_ok in Ecr as (_ & _ & Htx).
  apply (f_equal fst) in H, Eco. cbn [fst] in H, Eco. subst r. destruct rt as [tx| |]; cbn [mbind pres_bind] in H; [|done..].
  destruct (Htx tx eq_refl) as (_ & _ & _ & Hm & _ & (arb & Hin) & _). clear Htx.
  destruct (ValidateTx _ _ _ _ _ _ _) as [g0| | |]; [|done..]. cbn [mbind pres_bind] in H. apply POk_inj in H.
  assert (Etx : Transactions b = tx :: bb_Transactions b1) by exact (eq_sym (f_equal Transactions H)).
  assert (Eh : bh_Height (bHeader b) = u64 (BestBlockHeight c + 1)) by exact (eq_sym (f_equal (fun b => bh_Height (bHeader b)) H)).
  clear H. set (C := tx_results tx). set (block := utxo_block b).
  apply (applyTransactions_applies block C) in Ea as [_ (ts & Ets & Ha)]; [|exact Eh]. cbn [newBlockBuilder bb_Transactions app] in Ets. rewrite Ets in Etx.
  destruct (getTransactionsUtxo_spec (db_utxos (ch_store c)) (SpentOutputIDs <$> Utxo.Transactions block) NewUtxoViewpoint) as (v & Ev & Ho & _ & Hl).
  exists v. unfold load_utxos. fold block. change (st_utxos (ch_store c)) with (db_reads (db_utxos (ch_store c))). rewrite Ev. cbn [or_err].
  assert (Etxs : Utxo.Transactions block = utxo_tx (t_Tx tx) :: ((fun t => utxo_tx (t_Tx t)) <$> ts)) by (unfold block, utxo_block; cbn [Utxo.Transactions]; by rewrite Etx).
  pose proof (apply_txs_over pending block (Utxo.Transactions block) v (db_utxos (ch_store c)) Hl) as (_ & E2 & _).
  unfold Utxo.ApplyBlock. destruct (apply_txs pending block (Utxo.Transactions block) v) as [v' e]. exists v'. split; [done|]. f_equal. cbn [snd] in E2. rewrite <- E2. clear E2.
  rewrite Ho. unfold NewUtxoViewpoint. rewrite (left_id_L ∅ (∪)). rewrite Etxs. cbn [apply_txs]. unfold ApplyTransaction, applySpendUtxo.
  change (SpentOutputIDs (utxo_tx (t_Tx tx))) with (tx_SpentOutputIDs (t_Tx tx)). rewrite (coinbase_spends _ _ _ Hin Hm). cbn [applySpendUtxo_loop applyOutputUtxo].
  destruct (Ha (applyOutputUtxo_loop block (utxo_tx (t_Tx tx)) (ResultIds (utxo_tx (t_Tx tx))) (db_utxos (ch_store c)))) as (rv & -> & _); [| |done].
  - intros id x Hid. replace (bb_utxoView newBlockBuilder ∪ db_utxos (ch_store c)) with (db_utxos (ch_store c)) by (symmetry; apply (left_id_L ∅ (∪))). intros He _. rewrite <- He.
    change (ResultIds (utxo_tx (t_Tx tx))) with C. clear -Hid. revert Hid. generalize (db_utxos (ch_store c)) as m. induction C as [|i C IH]; intros m Hid; cbn [applyOutputUtxo_loop]; [done|].
    apply not_elem_of_cons in Hid as [Hne Hid]. destruct (Utxo.tx_Entries _ !! i) as [en|]; [|by apply IH]. destruct (output_type en) as [[t a]|]; [|by apply IH].
    destruct (a =? 0); [by apply IH|]. cbn zeta. rewrite IH by done. by apply lookup_insert_ne.
  - intros t Ht. destruct (Hfresh tx ts t Etx Ht) as [Hne Hsp]. split; [|exact Hsp]. unfold is_coinbase. rewrite Etxs. by apply bool_decide_eq_false_2.
Qed.

(** C9.  A block template can be attached to the chain it was built on: the
    outputs its transactions spend load from the store, and [ApplyBlock] applies
    all of them to the view, coinbase included, without an error, provided that no
    transaction is the coinbase again or spends an output of it. *)
Theorem NewBlockTemplate_attaches timestamp c b c' :
  NewBlockTemplate checkOutput vmfuel vfuel cfuel pending now ticks accountManager timestamp c = (POk b, c') ->
  (forall coinbase txs t, Transactions b = coinbase :: txs -> t ∈ txs ->
     tx_id t <> tx_id coinbase /\ forall id, id ∈ tx_spends t -> id ∉ tx_results coinbase) ->
  exists v v', load_utxos (ch_store c) (utxo_block b) NewUtxoViewpoint = COk v /\ Utxo.ApplyBlock pending (utxo_block b) v = (v', None).
Proof. apply template_attaches. Qed.
End Template.
