(* ===== verification/ProposalRuns.v ===== *)
(** * A node that proposes

    A genesis block with an output that is free at once; a transaction that
    spends it enters the pool; the node proposes its first three blocks and
    processes each.  The third is the first of an epoch and pays the rewards. *)

From S2P Require Import Prelude Checked GoSlice VMTypes Opcode Machine Interp Script Utxo UtxoStore Encoding Entries TxData Merkle MapTx Validate Orphans Checkpoint Tree CasperState Casper Restart Ledger Fees BlockData BlockValidation TxPool ContractView Store Chain Proposal ProposalSpec ProposalUtxo.
From Stdlib Require Import Strings.Byte.
From stdpp Require Import sorting.
#[local] Open Scope Z_scope.

(** A checksum of 32 bytes, and signatures that repeat the message behind the key. *)
Definition run_sum (b : bytes) : bytes := resize 32 x00 (le_bytes 6 (foldl (fun h x => Z.land (h * 257 + b2z x + 1) 281474976710655) 7 b)).
#[local] Instance RunCrypto : Crypto := {|
  sha256 := run_sum;
  sha3_256 := run_sum;
  ripemd160 := fun b => take 20 (run_sum b);
  ed25519_verify := fun pk m s => bool_decide (s = resize 64 x00 (pk ++ m));
|}.
#[local] Existing Instance ZUint256.

Definition run_key : bytes := replicate 64 x07.
#[local] Instance ProposerNode : Node_ := {|
  net := mkNet 6000 2 10 [hex_encode run_key];
  node_XPub := run_key;
  node_Sign := fun m => resize 64 x00 (take 32 run_key ++ m);
  chain_reply := fun _ _ => Some None;
|}.
#[local] Instance ProposerSigns : NodeSigns.
Proof.
  split.
  - intros m. apply length_resize.
  - intros m. unfold xpub_verify. cbn [ed25519_verify RunCrypto]. apply bool_decide_eq_true. reflexivity.
Qed.
#[local] Instance ProposerSlices : GoRuntime := fun _ need => need.

Definition earlier (u v : TxDesc) : Prop := d_Added u <= d_Added v.
#[local] Instance earlier_dec u v : Decision (earlier u v).
Proof. unfold earlier. apply _. Defined.
#[local] Instance merge_byTime : SortByTime := merge_sort earlier.
#[local] Instance merge_byTime_laws : SortByTimeLaws merge_byTime.
Proof.
  split; [apply merge_sort_Permutation|]. intros l. unfold sort_byTime, merge_byTime.
  assert (Transitive earlier) by (unfold earlier; intros ? ? ?; lia). assert (Total earlier) by (unfold earlier; intros ? ?; lia).
  induction (StronglySorted_merge_sort earlier l) as [|u l' Hs IH Hu]; intros i j v w Hij; [done|].
  destruct i as [|i], j as [|j]; [lia| |lia|cbn; apply IH; lia]. cbn. intros [= <-] Hj. rewrite Forall_forall in Hu. apply Hu. by eapply list_elem_of_lookup_2.
Qed.

Definition run_tx (data : TxData) : TypesTx := default (mkTypesTx data (MapTx.mkTx (mkTxHeader 0 0 0 []) [] ∅ [] [])) (NewTx data).
Definition btm_output (amount : Z) : TxOutput := NewOriginalTxOutput BTMAssetID amount [x51] [].

(** The second transaction of the genesis block, and one that spends its output. *)
Definition run_funds : TypesTx := run_tx (mkTxData 1 60 0 [] [btm_output 1000000]).
Definition source_of (tx : TypesTx) : Hash :=
  match tx_Entries (t_Tx tx) !! default zeroHash (head (tx_results tx)) with
  | Some (OriginalOutput o) => default zeroHash (s ← o_Source o; src_Ref s)
  | _ => zeroHash
  end.
Definition pass_on (tx : TypesTx) (amount : Z) : TypesTx :=
  let spent := mkSpendCommitment (mkAssetAmount (Some BTMAssetID) amount) (source_of tx) 0 1 [x51] [] in
  run_tx (mkTxData 1 200 0 [mkTxInput 1 (Some (TSpend [] [] spent)) [] []] [btm_output (amount - 100000)]).
Definition run_spend : TypesTx := pass_on run_funds 1000000.
Definition run_spend2 : TypesTx := pass_on run_spend 900000.
Definition run_genesis : Block :=
  let txs := [run_tx (mkTxData 1 54 0 [NewCoinbaseInput [x00]] [btm_output 0]); run_funds] in
  mkTypesBlock (mkBlockHeader 1 0 zeroHash 6000 [] [] (TxMerkleRoot (tx_id <$> txs))) txs.

#[local] Abbreviation any_output := (fun _ _ _ _ _ _ _ _ _ => inl true).
Definition empty_chain : Chain (L := MapLRU) := mkChain NewStore (database ∅ ∅) (NewTxPool 0) NewOrphanManage ∅ (bHeader run_genesis).
Definition run_new : cres (Chain (L := MapLRU)) := NewChain [] 10 run_genesis (NewTxPool 0) NewStore (database ∅ ∅).
Definition submit (tx : TypesTx) (c : Chain (L := MapLRU)) : Chain (L := MapLRU) :=
  match Chain_ValidateTx (fun hash => GetContract hash (ch_store c)) any_output 10 10 10 (st_utxos (ch_store c)) 1 (ch_best c) [] tx (ch_pool c) with
  | Some (_, tp) => set_pool tp c
  | None => c
  end.
Definition run_0 : Chain (L := MapLRU) := match run_new with COk c => submit run_spend c | _ => empty_chain end.
Definition propose (timestamp : Z) (c : Chain (L := MapLRU)) : pres Block * Chain (L := MapLRU) :=
  NewBlockTemplate any_output 10 10 10 [] 9 (fun _ => None) None timestamp c.
Definition process (b : Block) (c : Chain (L := MapLRU)) : cres bool * Chain (L := MapLRU) :=
  processBlock (L := MapLRU) 3000 [] any_output 10 10 10 60000 (fun _ => []) 10 10 10 b c.
Definition step (timestamp : Z) (c : Chain (L := MapLRU)) : Chain (L := MapLRU) :=
  match propose timestamp c with
  | (POk b, c) => (process b c).2
  | _ => empty_chain
  end.

(** After two blocks, with a transaction in the pool that spends what the first one paid. *)
Definition run_2 : Chain (L := MapLRU) := submit run_spend2 (step 18000 (step 12000 run_0)).
Definition run_prev : CasperState.outcome Checkpoint * Casper MapLRU := (p ← ParentCheckpointByPrevHash 10 (BestBlockHash run_2); read p) (ch_casper run_2).

Lemma rewards_check (r : gmap bytes Z) :
  forallb (fun '(cp, n) => (if hex_decode cp is Some p then bool_decide (hex_encode p = cp) else false) && (0 <? n) && (n <=? MaxUint64)) (map_to_list r) = true ->
  rewards_ok r.
Proof.
  rewrite forallb_forall. intros H cp n Hn. specialize (H (cp, n)). cbn beta iota in H.
  destruct (hex_decode cp) as [p|] eqn:E; (rewrite !andb_true_iff in H; destruct H as [[H1 H2] H3]; [apply list_elem_of_In; by apply elem_of_map_to_list|]); [|done].
  apply bool_decide_eq_true in H1. split; [by exists p|lia].
Qed.
Lemma decent_check (c : Chain (L := MapLRU)) tx :
  hd_Version (tx_Header (t_Tx tx)) = 1 ->
  (if ValidateTx (conv c) any_output (t_Tx tx) 0 (mkBcBlock 0 (u64 (BestBlockHeight c + 1)) []) 10 10 is VOk g then (0 <=? GasUsed g) && (GasUsed g <=? MaxInt64) else false) = true ->
  decent any_output 10 10 c tx.
Proof.
  intros Hv Hc. split; [done|]. intros g [i Hi].
  apply (ValidateTx_block (conv c) any_output (t_Tx tx) i 0 _ (mkBcBlock 0 (u64 (BestBlockHeight c + 1)) [])) in Hi; [|done..]. rewrite Hi in Hc. lia.
Qed.

Lemma NewBlockTemplate_attaches_witness :
  exists b v v', (propose 24000 run_2).1 = POk b /\ length (Transactions b) = 2%nat
    /\ load_utxos (ch_store run_2) (utxo_block b) NewUtxoViewpoint = COk v /\ Utxo.ApplyBlock [] (utxo_block b) v = (v', None).
Proof.
  assert (H1 : (if (propose 24000 run_2).1 is POk b then
      if Transactions b is coinbase :: txs then
        bool_decide (length (Transactions b) = 2%nat)
        && forallb (fun t => bool_decide (tx_id t <> tx_id coinbase) && forallb (fun id => bool_decide (id ∉ tx_results coinbase)) (tx_spends t)) txs
      else false else false) = true) by (vm_compute; reflexivity).
  destruct (propose 24000 run_2) as [[b| |] c'] eqn:Ep; [|discriminate H1|discriminate H1]. cbn [fst] in H1.
  destruct (NewBlockTemplate_attaches any_output 10 10 10 [] 9 (fun _ => None) None 24000 run_2 b c' Ep) as (v & v' & Hv & Hv').
  - intros coinbase txs t E Ht. rewrite E in H1. apply andb_true_iff in H1 as [_ H1].
    pose proof (proj1 (forallb_forall _ _) H1 t (proj1 (list_elem_of_In _ _) Ht)) as H. apply andb_true_iff in H as [Hn Hs].
    apply bool_decide_eq_true in Hn. split; [exact Hn|]. intros id Hid.
    exact (proj1 (bool_decide_eq_true _) (proj1 (forallb_forall _ _) Hs id (proj1 (list_elem_of_In _ _) Hid))).
  - exists b, v, v'. destruct (Transactions b); [discriminate H1|]. apply andb_true_iff in H1 as [H1 _]. apply bool_decide_eq_true in H1. auto.
Defined.

(** The node accepts its own block, and the pool is empty again. *)
Example run_accepted :
  (if propose 24000 run_2 is (POk b, c) then
     let '(r, c) := process b c in (if r is COk false then true else false) && (bh_Height (ch_best c) =? 3) && bool_decide (pool (ch_pool c) = ∅)
   else false) = true.
Proof. vm_compute. reflexivity. Qed.
