(* ===== verification/BlockProposer.v ===== *)
(** * The loop of the block proposer: proposal/blockproposer/blockproposer.go

    Every quarter of a block interval the proposer works out the next multiple
    of the interval, asks who is in charge then, and if it is the node itself
    builds a block and hands it to the chain.  One iteration is modelled; the
    broadcast of the block is not.

    The theorem: a block that gets that far is valid, if the best block's time
    is a multiple of the interval or lies two intervals back.  Else its time may
    be too early, [nextBlockTime_early]: the genesis blocks of the test and solo
    networks are not on a multiple. *)

From S2P Require Import Prelude Checked GoSlice VMTypes Opcode Machine Interp Script Utxo Encoding Entries TxData Merkle MapTx Validate Orphans Checkpoint Tree CasperState Casper Ledger Fees BlockData BlockValidation TxPool Store Chain Proposal ProposalSpec ProposalUtxo ProposalRuns.
From Stdlib Require Import Strings.Byte.
#[local] Open Scope Z_scope.

(** The times are in milliseconds, 64-bit numbers all. *)
Definition nextBlockTime (interval bestTimestamp now : Z) : Z :=
  let base := if now >? u64 (bestTimestamp + interval) then u64 (now - interval) else bestTimestamp in
  let minTimeToNextBlock := u64 (interval - base mod interval) in
  let next := u64 (base + minTimeToNextBlock) in
  if u64 (next - now) <? interval / 10 then u64 (next + interval) else next.

(** How an iteration ends. *)
Inductive proposer_result :=
  | ProposerWaits
  | ProposerNoValidator (e : chain_error)
  | ProposerNotInCharge
  | ProposerNoTemplate (e : proposal_error)
  | ProposerProcessed (b : Block) (r : cres bool)
  | ProposerPanics.

Section Proposer.
Context {R : MapRange} {U : Uint256} {Cr : Crypto} {L : LRU} {N : Node_} {GR : GoRuntime} {S : SortByTime}.
Context (MaxTimeOffsetMs : Z) (pending : list VotePendingBlockNum).
Variable checkOutput : Entry -> gmap Hash Entry -> Z -> Z -> bytes -> Z -> bytes -> list bytes -> bool -> bool + error.
(** Fuel and clocks as in [Chain.v] and [Proposal.v]. *)
Variables (vmfuel vfuel pfuel fuel cfuel rfuel : nat) (clock : Z) (addr : TypesTx -> bytes) (ticks : nat -> option timeout).
Variable accountManager : option (option bytes * bytes).

(** protocol.go; the outer [None] of [Checkpoint.GetValidator] is a division by zero. *)
Definition Chain_GetValidator (prevHash : Hash) (timeStamp : Z) (c : Chain) : cres (option Validator) * Chain :=
  (p ← consensus (ParentCheckpointByPrevHash cfuel prevHash);
   parentCheckpoint ← consensus (read p);
   lift (fun _ => or_halt (GetValidator net timeStamp parentCheckpoint))) c.

(** An iteration of [generateBlocks] at the time [now]; a nil validator is dereferenced. *)
Definition generateBlocks (now : Z) (c : Chain) : proposer_result * Chain :=
  let bestBlockHeader := ch_best c in
  let next := nextBlockTime (BlockTimeInterval net) (bh_Timestamp bestBlockHeader) now in
  if next >? now then (ProposerWaits, c)
  else
    match Chain_GetValidator (bh_Hash bestBlockHeader) next c with
    | (CErr e, c) => (ProposerNoValidator e, c)
    | (CHalt, c) | (COk None, c) => (ProposerPanics, c)
    | (COk (Some validator), c) =>
        if negb (bool_decide (hex_encode node_XPub = PubKey validator)) then (ProposerNotInCharge, c)
        else
          match NewBlockTemplate checkOutput vmfuel vfuel cfuel pending clock ticks accountManager next c with
          | (PErr e, c) => (ProposerNoTemplate e, c)
          | (PHalt, c) => (ProposerPanics, c)
          | (POk block, c) =>
              let '(r, c) := processBlock MaxTimeOffsetMs pending checkOutput vmfuel vfuel pfuel clock addr fuel cfuel rfuel block c in
              (ProposerProcessed block r, c)
          end
    end.
End Proposer.

(** ** The time of the next block *)

Lemma nextBlockTime_spec interval best now :
  10 <= interval -> 0 <= best -> 0 <= now -> now + 2 * interval <= MaxUint64 -> best + 2 * interval <= MaxUint64 ->
  nextBlockTime interval best now <= now ->
  nextBlockTime interval best now mod interval = 0 /\ now - interval < nextBlockTime interval best now
  /\ (best mod interval = 0 \/ best + 2 * interval <= now -> best + interval <= nextBlockTime interval best now).
Proof.
  intros Hi Hb Hn Hmax Hbmax. unfold nextBlockTime. rewrite (u64_id (best + interval)) by lia.
  assert (Hbase : forall base, 0 <= base -> base + interval <= MaxUint64 ->
    u64 (base + u64 (interval - base mod interval)) = interval * (base / interval + 1)).
  { intros base H1 H2. pose proof (Z.mod_pos_bound base interval ltac:(lia)). pose proof (Z.div_mod base interval ltac:(lia)).
    rewrite (u64_id (interval - _)) by (words; lia). rewrite u64_id; [lia|]. lia. }
  assert (Hmod : forall k, (interval * k) mod interval = 0) by (intros k; rewrite Z.mul_comm; apply Z.mod_mul; lia).
  destruct (Z.gtb_spec now (best + interval)) as [Hfar|Hnear].
  - rewrite (u64_id (now - interval)) by lia. rewrite Hbase by lia. set (k := (now - interval) / interval + 1).
    pose proof (Z.mul_succ_div_gt (now - interval) interval ltac:(lia)) as Hgt. pose proof (Z.mul_div_le (now - interval) interval ltac:(lia)) as Hle.
    assert (Hk : now - interval < interval * k <= now) by (unfold k; lia).
    destruct (Z.ltb_spec (u64 (interval * k - now)) (interval / 10)) as [Ht|Ht].
    + rewrite u64_id by lia. intros Hle'. lia.
    + intros _. split; [apply Hmod|]. split; [lia|]. intros [Ha|Ha]; [|lia].
      apply Z.mod_divide in Ha as [j ->]; [|lia]. assert (j < k); [|nia]. nia.
  - rewrite Hbase by lia. set (k := best / interval + 1).
    pose proof (Z.mul_succ_div_gt best interval ltac:(lia)) as Hgt. pose proof (Z.mul_div_le best interval ltac:(lia)) as Hle.
    assert (Hk : best < interval * k <= best + interval) by (unfold k; lia).
    destruct (Z.ltb_spec (u64 (interval * k - now)) (interval / 10)) as [Ht|Ht].
    + rewrite u64_id by lia. intros H. split; [rewrite <- (Z.mul_1_r interval) at 2; rewrite <- Z.mul_add_distr_l; apply Hmod|]. lia.
    + intros H. split; [apply Hmod|]. split; [lia|]. intros [Ha|Ha]; [|lia].
      apply Z.mod_divide in Ha as [j ->]; [|lia]. assert (j < k); [|nia]. nia.
Qed.

(** The best block's time is 4000 behind a multiple of 6000, as that of the genesis
    block of the solo network: for a while the next time is before the earliest valid one. *)
Example nextBlockTime_early : forall now, 10000 < now < 12000 -> nextBlockTime 6000 4000 now = 6000 /\ 6000 <= now /\ 6000 < 4000 + 6000.
Proof.
  intros now Hn. unfold nextBlockTime. rewrite (u64_id (4000 + 6000)) by done. destruct (Z.gtb_spec now (4000 + 6000)); [|lia].
  rewrite (u64_id (now - 6000)) by (words; lia). rewrite (Z.mod_small (now - 6000)) by lia. rewrite (u64_id (6000 - _)) by (words; lia).
  replace (now - 6000 + (6000 - (now - 6000))) with 6000 by lia. rewrite (u64_id 6000) by done.
  destruct (Z.ltb_spec (u64 (6000 - now)) (6000 / 10)) as [Hlt|Hge]; [|lia]. exfalso. change (6000 / 10) with 600 in Hlt. revert Hlt. words.
  rewrite <- (Z.mod_unique (6000 - now) 18446744073709551616 (-1) (6000 - now + 18446744073709551616)); lia.
Qed.

(** ** The block of the loop *)

Section Valid.
Context {R : MapRange} {RL : MapRangeLaws R} {U : Uint256} {Cr : Crypto} {L : LRU} {N : Node_} {GR : GoRuntime} {S : SortByTime} {SL : SortByTimeLaws S} {NS : NodeSigns}.
Context (MaxTimeOffsetMs : Z) (pending : list VotePendingBlockNum).
Variable checkOutput : Entry -> gmap Hash Entry -> Z -> Z -> bytes -> Z -> bytes -> list bytes -> bool -> bool + error.
Variables (vmfuel vfuel pfuel fuel cfuel rfuel : nat) (clock : Z) (addr : TypesTx -> bytes) (ticks : nat -> option timeout).
Variable accountManager : option (option bytes * bytes).

(** [getPrevCheckpoint] and [GetValidator] ask for the same checkpoint. *)
Definition prev_checkpoint (c : Chain) : C (L := L) Checkpoint := p ← ParentCheckpointByPrevHash cfuel (BestBlockHash c); read p.

Lemma Chain_GetValidator_ok ts c r c' :
  Chain_GetValidator cfuel (BestBlockHash c) ts c = (r, c') ->
  ch_store c' = ch_store c /\ ch_best c' = ch_best c /\ ch_pool c' = ch_pool c
  /\ forall v, r = COk v -> exists cp, prev_checkpoint c (ch_casper c) = (Ret cp, ch_casper c') /\ GetValidator net ts cp = Some v.
Proof.
  unfold Chain_GetValidator, prev_checkpoint, mbind, M_bind, C_bind, consensus, lift. destruct c as [st k po o bo be]. cbn [ch_casper set_casper].
  destruct (ParentCheckpointByPrevHash cfuel _ k) as [[p|e| | |] s1] eqn:E; cbn [ch_casper set_casper].
  2-5: cbn; intros [= <- <-]; by split_and!.
  destruct (read p s1) as [[cp|e| | |] s2] eqn:E2; cbn; intros [= <- <-]; split_and!; try done.
  intros v Hv. exists cp. split; [done|]. destruct (GetValidator net ts cp) as [v'|]; [|done]. cbn in Hv. by injection Hv as ->.
Qed.

(** The links of a checkpoint do not count for who is in charge; they grow whenever it is looked up. *)
Lemma GetValidator_links ts cp1 cp2 : set_SupLinks [] cp1 = set_SupLinks [] cp2 -> GetValidator net ts cp1 = GetValidator net ts cp2.
Proof. intros E. change (GetValidator net ts (set_SupLinks [] cp1) = GetValidator net ts (set_SupLinks [] cp2)). by rewrite E. Qed.

(** C8.  The proposer and the validator agree: a block that an iteration of the
    proposer builds and hands to its own chain is a valid block after the best
    one, for every later clock, unless two entries of one transaction clash. The
    node signs its own header, the best block's time is a multiple of the interval
    or lies two intervals back, the pool holds decent transactions of the present
    state, the rewards are amounts of distinct programs, and the sizes are within
    their bounds. *)
Theorem generateBlocks_valid now now' c b r c' cp1 checkpoint s1 s2 :
  generateBlocks MaxTimeOffsetMs pending checkOutput vmfuel vfuel pfuel fuel cfuel rfuel clock addr ticks accountManager now c = (ProposerProcessed b r, c') ->
  10 <= BlockTimeInterval net -> 0 <= bh_Timestamp (ch_best c) -> bh_Timestamp (ch_best c) + 2 * BlockTimeInterval net <= MaxUint64 ->
  0 <= now <= now' -> now + 2 * BlockTimeInterval net <= MaxUint64 -> 0 <= MaxTimeOffsetMs -> now' + MaxTimeOffsetMs <= MaxUint64 ->
  bh_Timestamp (ch_best c) mod BlockTimeInterval net = 0 \/ bh_Timestamp (ch_best c) + 2 * BlockTimeInterval net <= now ->
  Forall (decent checkOutput vmfuel vfuel c) (d_Tx <$> GetTransactions (ch_pool c)) ->
  prev_checkpoint c (ch_casper c) = (Ret cp1, s1) -> prev_checkpoint c s1 = (Ret checkpoint, s2) -> set_SupLinks [] cp1 = set_SupLinks [] checkpoint ->
  rewards_ok (Rewards checkpoint) -> (u64 (BestBlockHeight c + 1) = 1 -> Rewards checkpoint = ∅) ->
  Forall (fun tx => TxData.SerializedSize (t_TxData tx) <= MaxInt64) (Transactions b) ->
  Exists (fun tx => clash (built (t_TxData tx))) (Transactions b)
  \/ ValidateBlock net MaxTimeOffsetMs (conv c) checkOutput vmfuel vfuel now' b (ch_best c) checkpoint = BOk tt.
Proof.
  intros H Hi H0 Hmax Hn Hnmax Ho Homax Hal Hd Hcp Hcp2 Hlinks Hr H1 Hs. unfold generateBlocks in H. fold (BestBlockHash c) in H.
  set (next := nextBlockTime (BlockTimeInterval net) (bh_Timestamp (ch_best c)) now) in *. destruct (Z.gtb_spec next now) as [|Hnext]; [done|].
  destruct (nextBlockTime_spec _ _ _ Hi H0 (proj1 Hn) Hnmax Hmax Hnext) as (_ & _ & Htime). specialize (Htime Hal).
  destruct (Chain_GetValidator cfuel (BestBlockHash c) next c) as [rv c1] eqn:Ev. apply Chain_GetValidator_ok in Ev as (Es & Eb & Ep & Hv).
  destruct rv as [[v|]| |]; [|done..]. destruct (Hv _ eq_refl) as (cp & Hcp' & Hval). rewrite Hcp in Hcp'. injection Hcp' as <- ->. rewrite (GetValidator_links _ _ _ Hlinks) in Hval.
  case_bool_decide as Ek; cbn [negb] in H; [|done].
  destruct (NewBlockTemplate _ _ _ _ _ _ _ _ next c1) as [[b'| |] c2] eqn:Et; [|done..].
  assert (b' = b) as -> by (destruct (processBlock _ _ _ _ _ _ _ _ _ _ _ b' c2) as [r' c3]; by injection H).
  assert (Esame : same_chain c1 c1) by by split_and!. unfold conv, decent, valid_next, BestBlockHeight in *.
  destruct (template_valid_block checkOutput vmfuel vfuel cfuel pending clock ticks accountManager MaxTimeOffsetMs now' next c1 b c2 checkpoint s2 v Et)
    as [|[gs Hvalid]]; [| | | | | | |done|by left|right].
  - unfold decent, valid_next, BestBlockHeight, conv. rewrite Ep, Es, Eb. exact Hd.
  - unfold BestBlockHash. rewrite Eb. exact Hcp2.
  - exact Hr.
  - unfold BestBlockHeight. rewrite Eb. exact H1.
  - exact Hval.
  - rewrite <- Ek. apply hex_roundtrip.
  - rewrite Eb, !u64_id by lia. lia.
  - rewrite Eb in Hvalid. apply ValidateBlock_valid. exists gs. unfold conv in Hvalid. by rewrite Es in Hvalid.
Qed.
End Valid.

(** ** An iteration *)

#[local] Existing Instance RunCrypto.
#[local] Existing Instance ZUint256.
#[local] Existing Instance ProposerNode.
#[local] Existing Instance ProposerSigns.
#[local] Existing Instance ProposerSlices.
#[local] Existing Instance merge_byTime.
#[local] Existing Instance merge_byTime_laws.
#[local] Abbreviation any_output := (fun _ _ _ _ _ _ _ _ _ => inl true).

#[local] Instance Checkpoint_eq_dec : EqDecision Checkpoint.
Proof. solve_decision. Defined.

(** At 24001 the node builds the third block, for the time 24000. *)
Definition run_iteration : proposer_result * Chain (L := MapLRU) :=
  generateBlocks 3000 [] any_output 10 10 10 10 10 10 24001 (fun _ => []) (fun _ => None) None 24001 run_2.

Lemma generateBlocks_valid_witness :
  exists b cp s1 s2, run_iteration.1 = ProposerProcessed b (COk false) /\ prev_checkpoint 10 run_2 s1 = (Ret cp, s2)
    /\ (fun tx => (fun o => aa_Amount (output_value o)) <$> TxData.Outputs (t_TxData tx)) <$> Transactions b = [[570876254]; [800000]]
    /\ (Exists (fun tx => clash (built (t_TxData tx))) (Transactions b)
        \/ ValidateBlock net 3000 (conv run_2) any_output 10 10 24001 b (ch_best run_2) cp = BOk tt).
Proof.
  assert (H1 : (if run_iteration.1 is ProposerProcessed b (COk false) then
      bool_decide ((fun tx => (fun o => aa_Amount (output_value o)) <$> TxData.Outputs (t_TxData tx)) <$> Transactions b = [[570876254]; [800000]])
      && forallb (fun tx => TxData.SerializedSize (t_TxData tx) <=? MaxInt64) (Transactions b) else false) = true) by (vm_compute; reflexivity).
  assert (H2 : (if prev_checkpoint 10 run_2 (ch_casper run_2) is (Ret cp1, s1) then
      if prev_checkpoint 10 run_2 s1 is (Ret cp, _) then
        forallb (fun '(cp, n) => (if hex_decode cp is Some p then bool_decide (hex_encode p = cp) else false) && (0 <? n) && (n <=? MaxUint64)) (map_to_list (Rewards cp))
        && bool_decide (set_SupLinks [] cp1 = set_SupLinks [] cp)
      else false else false) = true) by (vm_compute; reflexivity).
  destruct run_iteration as [[| | | |b [[|]| |]|] c'] eqn:Er; try discriminate H1. cbn [fst] in H1. apply andb_true_iff in H1 as [H1 Hs]. apply bool_decide_eq_true in H1.
  destruct (prev_checkpoint 10 run_2 (ch_casper run_2)) as [[cp1|e| | |] s1] eqn:E1; try discriminate H2.
  destruct (prev_checkpoint 10 run_2 s1) as [[cp|e| | |] s2] eqn:E2; try discriminate H2. apply andb_true_iff in H2 as [Hr H2]. apply bool_decide_eq_true in H2.
  exists b, cp, s1, s2. split; [reflexivity|]. split; [exact E2|]. split; [exact H1|]. unfold run_iteration in Er.
  apply (generateBlocks_valid 3000 [] any_output 10 10 10 10 10 10 24001 (fun _ => []) (fun _ => None) None 24001 24001 run_2 b (COk false) c' cp1 cp s1 s2 Er).
  4: lia.
  1-6: vm_compute; discriminate.
  - left. vm_compute. reflexivity.
  - assert (E : d_Tx <$> GetTransactions (ch_pool run_2) = [run_spend2]) by (apply (bool_decide_unpack _); vm_compute; exact I).
    rewrite E. constructor; [|constructor]. apply decent_check; vm_compute; reflexivity.
  - exact E1.
  - exact E2.
  - exact H2.
  - by apply rewards_check.
  - intros H. exfalso. revert H. vm_compute. discriminate.
  - apply Forall_forall. intros tx Hin. apply Z.leb_le. exact (proj1 (forallb_forall _ _) Hs tx (proj1 (list_elem_of_In _ _) Hin)).
Defined.
