(* ===== verification/Bech32.v ===== *)
(** * Addresses: common/bech32/bech32.go

    Bech32 strings (BIP 173): a readable part, the character 1, and data in
    characters of five bits of which the last six are a checksum; [ConvertBits]
    regroups bytes for it.  Strings are bytes.

    What the codec promises is in [Bech32Spec.v]. *)

From S2P Require Import Prelude.
From Stdlib Require Import Strings.Byte Strings.String.
#[local] Open Scope Z_scope.

Definition charset : bytes := String.list_byte_of_string "qpzry9x8gf2tvdw0s3jn54khce6mua7l".
(** The coefficients of the generator of the code, for each of the five bits that are shifted out. *)
Definition gen : list Z := [0x3b6a57b2; 0x26508e6d; 0x1ea119fa; 0x3d4233dd; 0x2a1462b3].

Inductive bech_error :=
  | ErrBechLength
  | ErrBechCharacter
  | ErrMixedCase
  | ErrSeparator            (* "invalid index of 1" *)
  | ErrCharset              (* a character that is not in the charset *)
  | ErrDataByte             (* a number that has no character *)
  | ErrBechChecksum
  | ErrBitGroups            (* "only bit groups between 1 and 8 allowed" *)
  | ErrIncompleteGroup.

(** A result; the loop of [ConvertBits] runs on fuel. *)
Inductive bech (A : Type) := BechOk (a : A) | BechErr (e : bech_error) | BechFuel.
Arguments BechOk {A} a.
Arguments BechErr {A} e.
Arguments BechFuel {A}.
#[export] Instance bech_ret : MRet bech := fun A a => BechOk a.
#[export] Instance bech_bind : MBind bech := fun A B f m =>
  match m with BechOk a => f a | BechErr e => BechErr e | BechFuel => BechFuel end.

(** ** What package strings does on ASCII *)

Definition lower_byte (c : byte) : byte := if (65 <=? b2z c) && (b2z c <=? 90) then z2b (b2z c + 32) else c.
Definition upper_byte (c : byte) : byte := if (97 <=? b2z c) && (b2z c <=? 122) then z2b (b2z c - 32) else c.
Definition lower (s : bytes) : bytes := lower_byte <$> s.
Definition upper (s : bytes) : bytes := upper_byte <$> s.

Fixpoint index_from (i : Z) (s : bytes) (c : byte) : Z :=
  match s with [] => -1 | x :: s => if bool_decide (x = c) then i else index_from (1 + i) s c end.
Definition IndexByte (s : bytes) (c : byte) : Z := index_from 0 s c.
Fixpoint LastIndexByte (s : bytes) (c : byte) : Z :=
  match s with
  | [] => -1
  | x :: s => let i := LastIndexByte s c in if i <? 0 then (if bool_decide (x = c) then 0 else -1) else 1 + i
  end.

(** ** Characters *)

Fixpoint toBytes (chars : bytes) : bech bytes :=
  match chars with
  | [] => BechOk []
  | c :: chars =>
      let index := IndexByte charset c in
      if index <? 0 then BechErr ErrCharset
      else decoded ← toBytes chars; BechOk (z2b index :: decoded)
  end.
Fixpoint toChars (data : bytes) : bech bytes :=
  match data with
  | [] => BechOk []
  | b :: data =>
      match zlookup charset (b2z b) with
      | None => BechErr ErrDataByte
      | Some c => result ← toChars data; BechOk (c :: result)
      end
  end.

(** ** The checksum *)

(** The inner loop, over the bits of [b] and [gen]. *)
Definition mix (b chk : Z) : Z :=
  foldl (fun chk '(i, g) => if Z.land (Z.shiftr b i) 1 =? 1 then Z.lxor chk g else chk) chk (zip (seqZ 0 5) gen).
Definition polymod_step (chk v : Z) : Z :=
  let b := Z.shiftr chk 25 in
  let chk := Z.lxor (Z.shiftl (Z.land chk 0x1ffffff) 5) v in
  mix b chk.
Definition bech32Polymod (values : list Z) : Z := foldl polymod_step 1 values.

Definition bech32HrpExpand (hrp : bytes) : list Z :=
  ((fun c => Z.shiftr (b2z c) 5) <$> hrp) ++ [0] ++ ((fun c => Z.land (b2z c) 31) <$> hrp).
Definition bech32VerifyChecksum (hrp data : bytes) : bool :=
  bech32Polymod (bech32HrpExpand hrp ++ (b2z <$> data)) =? 1.
Definition bech32Checksum (hrp data : bytes) : bytes :=
  let values := bech32HrpExpand hrp ++ (b2z <$> data) ++ [0; 0; 0; 0; 0; 0] in
  let polymod := Z.lxor (bech32Polymod values) 1 in
  (fun i => z2b (Z.land (Z.shiftr polymod (5 * (5 - i))) 31)) <$> seqZ 0 6.

(** ** Encoding and decoding *)

Definition Bech32Decode (str : bytes) : bech (bytes * bytes) :=
  if (zlen str <? 8) || (zlen str >? 90) then BechErr ErrBechLength
  else if negb (forallb (fun c => (33 <=? b2z c) && (b2z c <=? 126)) str) then BechErr ErrBechCharacter
  else if negb (bool_decide (str = lower str)) && negb (bool_decide (str = upper str)) then BechErr ErrMixedCase
  else
    let str := lower str in
    let one := LastIndexByte str x31 in
    if (one <? 1) || (one + 7 >? zlen str) then BechErr ErrSeparator
    else
      let hrp := subseq str 0 one in
      let data := subseq str (one + 1) (zlen str) in
      decoded ← toBytes data;
      if negb (bech32VerifyChecksum hrp decoded) then BechErr ErrBechChecksum
      else BechOk (hrp, subseq decoded 0 (zlen decoded - 6)).

Definition Bech32Encode (hrp data : bytes) : bech bytes :=
  let combined := data ++ bech32Checksum hrp data in
  dataChars ← toChars combined;
  BechOk (hrp ++ [x31] ++ dataChars).

(** ** Groups of bits *)

Definition u8 (z : Z) : Z := z mod 256.

(** The inner loop: the bits of one byte, the next ones on top; each iteration
    takes one bit at least. *)
Fixpoint extract_loop (fuel : nat) (toBits b remFromBits nextByte filledBits : Z) (regrouped : bytes) : bech (bytes * Z * Z) :=
  if negb (remFromBits >? 0) then BechOk (regrouped, nextByte, filledBits)
  else
    match fuel with
    | O => BechFuel
    | S fuel =>
        let remToBits := u8 (toBits - filledBits) in
        let toExtract := if remToBits <? remFromBits then remToBits else remFromBits in
        let nextByte := Z.lor (u8 (Z.shiftl nextByte toExtract)) (Z.shiftr b (u8 (8 - toExtract))) in
        let b := u8 (Z.shiftl b toExtract) in
        let remFromBits := u8 (remFromBits - toExtract) in
        let filledBits := u8 (filledBits + toExtract) in
        if filledBits =? toBits then extract_loop fuel toBits b remFromBits 0 0 (regrouped ++ [z2b nextByte])
        else extract_loop fuel toBits b remFromBits nextByte filledBits regrouped
    end.
Fixpoint convert_loop (fromBits toBits : Z) (data : bytes) (nextByte filledBits : Z) (regrouped : bytes) : bech (bytes * Z * Z) :=
  match data with
  | [] => BechOk (regrouped, nextByte, filledBits)
  | b :: data =>
      '(regrouped, nextByte, filledBits) ← extract_loop 8 toBits (u8 (Z.shiftl (b2z b) (8 - fromBits))) fromBits nextByte filledBits regrouped;
      convert_loop fromBits toBits data nextByte filledBits regrouped
  end.

Definition ConvertBits (data : bytes) (fromBits toBits : Z) (pad : bool) : bech bytes :=
  if (fromBits <? 1) || (fromBits >? 8) || (toBits <? 1) || (toBits >? 8) then BechErr ErrBitGroups
  else
    '(regrouped, nextByte, filledBits) ← convert_loop fromBits toBits data 0 0 [];
    if pad && (filledBits >? 0) then BechOk (regrouped ++ [z2b (u8 (Z.shiftl nextByte (toBits - filledBits)))])
    else if (filledBits >? 0) && ((filledBits >? 4) || negb (nextByte =? 0)) then BechErr ErrIncompleteGroup
    else BechOk regrouped.

(** Examples of BIP 173. *)
Example decode_bip173 :
  exists data, Bech32Decode (String.list_byte_of_string "A12UEL5L") = BechOk ([x61], data) /\ data = [].
Proof. eexists. split; vm_compute; reflexivity. Qed.
Example encode_bip173 :
  Bech32Encode (String.list_byte_of_string "split")
    (match toBytes (String.list_byte_of_string "checkupstagehandshakeupstreamerranterredcaperred") with BechOk d => d | _ => [] end)
  = BechOk (String.list_byte_of_string "split1checkupstagehandshakeupstreamerranterredcaperred2y9e3w").
Proof. vm_compute. reflexivity. Qed.
