(* ===== verification/Bech32Spec.v ===== *)
(** * What the address codec promises

    [ConvertBits] is worked out on lists of bits: what it returns are the groups
    of the input's bits.  The checksum is the remainder of a linear code, so that
    it is unique and [Bech32Decode] is the inverse of [Bech32Encode]. *)

From S2P Require Import Prelude Bech32.
From Stdlib Require Import Strings.Byte.
#[local] Open Scope Z_scope.

(** ** Bits, the highest first *)

Fixpoint bits (n : nat) (z : Z) : list bool :=
  match n with O => [] | S n => Z.testbit z (Z.of_nat n) :: bits n z end.
Definition val (l : list bool) : Z := foldl (fun a b => 2 * a + Z.b2z b) 0 l.

Lemma length_bits n z : length (bits n z) = n.
Proof. induction n; cbn; by f_equal. Qed.
Lemma val_from a l : foldl (fun a b => 2 * a + Z.b2z b) a l = a * 2 ^ zlen l + val l.
Proof.
  unfold val. revert a. induction l as [|x l IH]; intros a; cbn [foldl]; [rewrite zlen_nil; lia|].
  rewrite IH, (IH (2 * 0 + Z.b2z x)), zlen_cons, Z.pow_add_r by (pose proof (zlen_nonneg l); lia). ring.
Qed.
Lemma val_app a b : val (a ++ b) = val a * 2 ^ zlen b + val b.
Proof. unfold val at 1. by rewrite foldl_app, val_from. Qed.
Lemma val_snoc a x : val (a ++ [x]) = 2 * val a + Z.b2z x.
Proof. rewrite val_app. change (zlen [x]) with 1. change (val [x]) with (2 * 0 + Z.b2z x). lia. Qed.
Lemma val_range l : 0 <= val l < 2 ^ zlen l.
Proof.
  induction l as [|x l IH] using rev_ind; [by cbn|]. rewrite val_snoc, zlen_app, Z.pow_add_r by (pose proof (zlen_nonneg l); try change (zlen [x]) with 1; lia).
  change (zlen [x]) with 1. destruct x; cbn [Z.b2z]; lia.
Qed.
Lemma val_zeros n : val (replicate n false) = 0.
Proof. induction n as [|n IH]; [done|]. cbn [replicate]. change (false :: ?l) with ([false] ++ l). rewrite val_app, IH. cbn. lia. Qed.
Lemma val_zero l : val l = 0 -> l = replicate (length l) false.
Proof.
  induction l as [|x l IH]; [done|]. change (x :: l) with ([x] ++ l). rewrite val_app. pose proof (val_range l).
  intros H0. assert (val [x] = 0 /\ val l = 0) as [Hx Hl] by (pose proof (val_range [x]); nia).
  cbn [app length replicate]. rewrite <- (IH Hl). by destruct x.
Qed.
Lemma bits_mod n z m : Z.of_nat n <= m -> bits n (z mod 2 ^ m) = bits n z.
Proof. intros Hm. induction n as [|n IH]; [done|]. cbn. rewrite IH by lia. by rewrite Z.mod_pow2_bits_low by lia. Qed.
Lemma bits_val l : bits (length l) (val l) = l.
Proof.
  induction l as [|x l IH]; [done|]. cbn [length bits]. change (val (x :: l)) with (val ([x] ++ l)). rewrite val_app. pose proof (val_range l) as Hl.
  change (zlen l) with (Z.of_nat (length l)) in *. f_equal.
  - rewrite Z.testbit_eqb, Z.div_add_l, Z.div_small by lia. by destruct x.
  - rewrite <- (bits_mod _ _ (Z.of_nat (length l))), Z.add_comm, Z.mod_add, Z.mod_small by lia. done.
Qed.
Lemma val_bits n z : 0 <= z < 2 ^ Z.of_nat n -> val (bits n z) = z.
Proof.
  revert z. induction n as [|n IH]; intros z Hz; [cbn in *; lia|]. cbn [bits]. change (?x :: ?l) with ([x] ++ l). rewrite val_app.
  unfold zlen. rewrite length_bits. rewrite Nat2Z.inj_succ, Z.pow_succ_r in Hz by lia.
  rewrite <- (bits_mod _ _ (Z.of_nat n)), IH by (try apply Z.mod_pos_bound; lia).
  rewrite Z.testbit_eqb by lia. pose proof (Z.div_mod z (2 ^ Z.of_nat n) ltac:(lia)) as Hd.
  assert (0 <= z / 2 ^ Z.of_nat n < 2) as Hq by (split; [apply Z.div_pos; lia|apply Z.div_lt_upper_bound; lia]).
  assert (z / 2 ^ Z.of_nat n = 0 \/ z / 2 ^ Z.of_nat n = 1) as [E|E] by lia; rewrite E in *; cbn [Z.eqb]; [change (val [_]) with 0|change (val [_]) with 1]; lia.
Qed.

Lemma u8_id z : 0 <= z < 256 -> u8 z = z.
Proof. apply Z.mod_small. Qed.
Lemma u8_range z : 0 <= u8 z < 256.
Proof. by apply Z.mod_pos_bound. Qed.

(** *** Bytes and shifts: every case *)

Lemma in_seqZ (P : Z -> bool) n z : forallb P (seqZ 0 n) = true -> 0 <= z < n -> P z = true.
Proof. intros H Hz. rewrite forallb_forall in H. apply H, list_elem_of_In, elem_of_seqZ. lia. Qed.

Lemma shift_cases b t : 0 <= b < 256 -> 0 <= t <= 8 ->
  Z.shiftr b (8 - t) = val (take (Z.to_nat t) (bits 8 b))
  /\ bits 8 (u8 (Z.shiftl b t)) = drop (Z.to_nat t) (bits 8 b) ++ replicate (Z.to_nat t) false
  /\ take (Z.to_nat t) (bits 8 (u8 (Z.shiftl b (8 - t)))) = bits (Z.to_nat t) b.
Proof.
  intros Hb Ht.
  assert (H : forallb (fun b => forallb (fun t =>
      bool_decide (Z.shiftr b (8 - t) = val (take (Z.to_nat t) (bits 8 b)))
      && bool_decide (bits 8 (u8 (Z.shiftl b t)) = drop (Z.to_nat t) (bits 8 b) ++ replicate (Z.to_nat t) false)
      && bool_decide (take (Z.to_nat t) (bits 8 (u8 (Z.shiftl b (8 - t)))) = bits (Z.to_nat t) b)) (seqZ 0 9)) (seqZ 0 256) = true) by (vm_compute; reflexivity).
  apply (in_seqZ _ _ b) in H; [|done]. apply (in_seqZ _ _ t) in H; [|lia].
  apply andb_true_iff in H as [[H1 H2]%andb_true_iff H3]. by apply bool_decide_eq_true in H1, H2, H3.
Qed.
Lemma lor_cases t next x : 0 <= t <= 8 -> 0 <= next < 2 ^ (8 - t) -> 0 <= x < 2 ^ t -> Z.lor (u8 (Z.shiftl next t)) x = next * 2 ^ t + x.
Proof.
  intros Ht Hn Hx.
  assert (H : forallb (fun t => forallb (fun next => forallb (fun x => Z.lor (u8 (Z.shiftl next t)) x =? next * 2 ^ t + x) (seqZ 0 (2 ^ t))) (seqZ 0 (2 ^ (8 - t)))) (seqZ 0 9) = true)
    by (vm_compute; reflexivity).
  apply (in_seqZ _ _ t) in H; [|lia]. apply (in_seqZ _ _ next) in H; [|done]. apply (in_seqZ _ _ x) in H; [|done]. by apply Z.eqb_eq in H.
Qed.

(** ** Regrouping *)

Section Regroup.
Context (to : Z) (Hto : 1 <= to <= 8).

(** One more bit, behind the groups that are full and those of the next one. *)
Definition feed (st : bytes * list bool) (x : bool) : bytes * list bool :=
  let '(groups, f) := st in
  let f := f ++ [x] in
  if zlen f =? to then (groups ++ [z2b (val f)], []) else (groups, f).
Definition regroup (l : list bool) : bytes * list bool := foldl feed ([], []) l.

Lemma feed_take groups f l :
  zlen f < to -> zlen f + zlen l <= to ->
  foldl feed (groups, f) l = (if zlen (f ++ l) =? to then (groups ++ [z2b (val (f ++ l))], []) else (groups, f ++ l)).
Proof.
  revert f. induction l as [|x l IH]; intros f Hf Hl; cbn [foldl].
  - rewrite app_nil_r. by rewrite (proj2 (Z.eqb_neq _ _)) by lia.
  - rewrite zlen_cons in Hl. pose proof (zlen_nonneg l). cbn [feed]. destruct (Z.eqb_spec (zlen (f ++ [x])) to) as [E|E]; rewrite zlen_app in E; change (zlen [x]) with 1 in E.
    + assert (l = []) as -> by (apply zlen_0_inv; lia). cbn [foldl]. rewrite zlen_app. change (zlen [x]) with 1. by rewrite (proj2 (Z.eqb_eq _ _) E).
    + rewrite IH by (rewrite zlen_app; change (zlen [x]) with 1; lia). by rewrite <- app_assoc.
Qed.

Lemma feed_short l groups f groups' f' : zlen f < to -> foldl feed (groups, f) l = (groups', f') -> zlen f' < to.
Proof.
  revert groups f. induction l as [|x l IH]; intros groups f Hf; cbn [foldl]; [by intros [= _ <-]|]. cbn [feed]. destruct (Z.eqb_spec (zlen (f ++ [x])) to) as [E|E]; apply IH.
  - rewrite zlen_nil. lia.
  - rewrite zlen_app in *. change (zlen [x]) with 1 in *. lia.
Qed.
Lemma regroup_concat gs r g0 :
  Forall (fun g => b2z g < 2 ^ to) gs -> zlen r < to ->
  foldl feed (g0, []) (concat ((fun g => bits (Z.to_nat to) (b2z g)) <$> gs) ++ r) = (g0 ++ gs, r).
Proof.
  revert g0. induction gs as [|g gs IH]; intros g0 Hg Hr.
  - cbn [fmap list_fmap concat app]. rewrite feed_take by (rewrite zlen_nil; lia). cbn [app]. rewrite (proj2 (Z.eqb_neq _ _)) by lia. by rewrite app_nil_r.
  - apply Forall_cons in Hg as [Hg Hgs]. cbn [fmap list_fmap concat]. rewrite <- app_assoc, foldl_app.
    assert (Hl : zlen (bits (Z.to_nat to) (b2z g)) = to) by (unfold zlen; rewrite length_bits; lia).
    rewrite feed_take; [|rewrite zlen_nil; lia|rewrite zlen_nil; lia]. cbn [app]. rewrite Hl, Z.eqb_refl.
    rewrite val_bits by (pose proof (b2z_range g); rewrite Z2Nat.id by lia; lia). rewrite z2b_b2z. rewrite IH by done. by rewrite <- app_assoc.
Qed.

(** The groups of [l], and the bits left over. *)
Lemma regroup_spec l :
  exists gs r, regroup l = (gs, r) /\ l = concat ((fun g => bits (Z.to_nat to) (b2z g)) <$> gs) ++ r
    /\ Forall (fun g => b2z g < 2 ^ to) gs /\ zlen r < to.
Proof.
  induction l as [|x l (gs & r & Hr & Hl & Hg & Hlt)] using rev_ind; [by exists [], []; split_and!; [..|rewrite zlen_nil; lia]|].
  unfold regroup in *. rewrite foldl_app, Hr. cbn [foldl feed]. assert (Hrx : zlen (r ++ [x]) = zlen r + 1) by (by rewrite zlen_app).
  destruct (Z.eqb_spec (zlen (r ++ [x])) to) as [E|E].
  - pose proof (val_range (r ++ [x])) as Hv. rewrite E in Hv. assert (2 ^ to <= 256) by (change 256 with (2 ^ 8); apply Z.pow_le_mono_r; lia).
    eexists _, []. split; [done|]. split_and!.
    + rewrite fmap_app, concat_app. cbn [fmap list_fmap concat]. rewrite b2z_z2b_small by lia.
      pose proof (bits_val (r ++ [x])) as Hb. replace (length (r ++ [x])) with (Z.to_nat to) in Hb by (rewrite <- E; unfold zlen; lia).
      rewrite Hb, !app_nil_r, app_assoc. by rewrite <- Hl.
    + apply Forall_app. split; [done|]. constructor; [|done]. rewrite b2z_z2b_small; lia.
    + rewrite zlen_nil. lia.
  - exists gs, (r ++ [x]). split; [done|]. split_and!; [by rewrite app_assoc, <- Hl|done|lia].
Qed.

(** *** The loops *)

Lemma extract_loop_spec fuel b rem f groups :
  0 <= b < 256 -> 0 <= rem <= 8 -> rem <= Z.of_nat fuel -> zlen f < to ->
  extract_loop fuel to b rem (val f) (zlen f) groups
  = let '(groups, f) := foldl feed (groups, f) (take (Z.to_nat rem) (bits 8 b)) in BechOk (groups, val f, zlen f).
Proof.
  revert b rem f groups. induction fuel as [|fuel IH]; intros b rem f groups Hb Hrem Hfuel Hf; cbn [extract_loop].
  { assert (rem = 0) as -> by lia. done. }
  destruct (Z.gtb_spec rem 0) as [Hr|Hr]; cbn [negb]; [|by assert (rem = 0) as -> by lia].
  pose proof (zlen_nonneg f) as Hf0. rewrite !(u8_id (to - zlen f)) by lia.
  set (t := if to - zlen f <? rem then to - zlen f else rem). assert (Ht : 1 <= t /\ t <= rem /\ t <= to - zlen f /\ (t = rem \/ t = to - zlen f)) by (unfold t; case_if; lia).
  clearbody t. rewrite !(u8_id (8 - t)), !(u8_id (rem - t)), !(u8_id (zlen f + t)) by lia.
  destruct (shift_cases b t Hb ltac:(lia)) as (E1 & E2 & _).
  assert (Hsplit : take (Z.to_nat rem) (bits 8 b) = take (Z.to_nat t) (bits 8 b) ++ take (Z.to_nat (rem - t)) (bits 8 (u8 (Z.shiftl b t)))).
  { rewrite E2, take_app_le by (rewrite length_drop, length_bits; lia). rewrite take_drop_commute. replace (Z.to_nat t + Z.to_nat (rem - t))%nat with (Z.to_nat rem) by lia.
    rewrite <- (take_drop (Z.to_nat t) (take (Z.to_nat rem) (bits 8 b))) at 1. rewrite take_take. by rewrite Nat.min_l by lia. }
  set (l := take (Z.to_nat t) (bits 8 b)) in *. assert (Hl : zlen l = t) by (unfold l, zlen; rewrite length_take, length_bits; lia).
  rewrite Hsplit, foldl_app, feed_take, zlen_app, Hl by lia. rewrite E1.
  assert (Ev : Z.lor (u8 (Z.shiftl (val f) t)) (val l) = val (f ++ l)).
  { rewrite val_app, Hl. pose proof (val_range l) as Hvl. rewrite Hl in Hvl. pose proof (val_range f). apply lor_cases; [lia| |done].
    split; [lia|]. apply Z.lt_le_trans with (2 ^ zlen f); [lia|]. apply Z.pow_le_mono_r; lia. }
  rewrite Ev. pose proof (u8_range (Z.shiftl b t)). destruct (Z.eqb_spec (zlen f + t) to) as [E|E].
  - rewrite <- (IH (u8 (Z.shiftl b t)) (rem - t) [] (groups ++ [z2b (val (f ++ l))])) by (rewrite ?zlen_nil; lia). done.
  - rewrite <- (IH (u8 (Z.shiftl b t)) (rem - t) (f ++ l) groups) by (rewrite ?zlen_app; lia). by rewrite zlen_app, Hl.
Qed.

Lemma convert_loop_spec from data f groups :
  1 <= from <= 8 -> zlen f < to ->
  convert_loop from to data (val f) (zlen f) groups
  = let '(groups, f) := foldl feed (groups, f) (concat ((fun b => bits (Z.to_nat from) (b2z b)) <$> data)) in BechOk (groups, val f, zlen f).
Proof.
  intros Hfrom. revert f groups. induction data as [|b data IH]; intros f groups Hf; [done|]. cbn [convert_loop fmap list_fmap concat].
  pose proof (b2z_range b) as Hb. rewrite foldl_app. rewrite extract_loop_spec by (try apply u8_range; lia).
  destruct (shift_cases (b2z b) from Hb ltac:(lia)) as (_ & _ & ->). destruct (foldl feed (groups, f) (bits (Z.to_nat from) (b2z b))) as [g1 f1] eqn:E.
  cbn [mbind bech_bind]. apply IH. by eapply feed_short.
Qed.
End Regroup.

(** [ConvertBits] in one line: the groups of the bits, the last one padded, or
    refused. *)
Lemma ConvertBits_groups data from to pad :
  1 <= from <= 8 -> 1 <= to <= 8 ->
  ConvertBits data from to pad
  = let '(gs, r) := regroup to (concat ((fun b => bits (Z.to_nat from) (b2z b)) <$> data)) in
    if pad && (zlen r >? 0) then BechOk (gs ++ [z2b (val (r ++ replicate (Z.to_nat (to - zlen r)) false))])
    else if (zlen r >? 0) && ((zlen r >? 4) || negb (val r =? 0)) then BechErr ErrIncompleteGroup
    else BechOk gs.
Proof.
  intros Hf Ht. unfold ConvertBits. rewrite !(proj2 (Z.ltb_ge _ _)), !Z.gtb_ltb, !(proj2 (Z.ltb_ge _ _)) by lia. cbn [orb].
  change (convert_loop from to data 0 0 []) with (convert_loop from to data (val []) (zlen (@nil bool)) []). rewrite convert_loop_spec by (rewrite ?zlen_nil; lia). unfold regroup.
  destruct (foldl (feed to) ([], []) _) as [gs r] eqn:E. cbn [mbind bech_bind]. destruct pad; cbn [andb]; [|done]. destruct (Z.gtb_spec (zlen r) 0) as [Hr|Hr]; [|done].
  do 4 f_equal. apply (feed_short to Ht) in E; [|rewrite zlen_nil; lia]. rewrite val_app, val_zeros. unfold zlen at 2. rewrite length_replicate, Z2Nat.id, Z.add_0_r by lia.
  rewrite Z.shiftl_mul_pow2 by lia. apply u8_id. pose proof (val_range r) as Hv. split; [apply Z.mul_nonneg_nonneg; lia|].
  apply Z.lt_le_trans with (2 ^ zlen r * 2 ^ (to - zlen r)); [apply Z.mul_lt_mono_pos_r; lia|]. rewrite <- Z.pow_add_r by lia.
  change 256 with (2 ^ 8). apply Z.pow_le_mono_r; lia.
Qed.

Abbreviation bits8 data := (concat ((fun b => bits 8 (b2z b)) <$> data)).
Abbreviation bits5 data := (concat ((fun b => bits 5 (b2z b)) <$> data)).
Abbreviation five_bits := (Forall (fun b => b2z b < 32)).

Lemma length_concat_bits n (data : bytes) : zlen (concat ((fun b => bits n (b2z b)) <$> data)) = Z.of_nat n * zlen data.
Proof.
  induction data as [|b data IH]; [change (0 = Z.of_nat n * 0); lia|].
  cbn [fmap list_fmap concat]. rewrite zlen_app, IH, zlen_cons. change (zlen (bits n (b2z b))) with (Z.of_nat (length (bits n (b2z b)))). rewrite length_bits. lia.
Qed.
Lemma bits5_inj d d' r r' : five_bits d -> five_bits d' -> zlen r < 5 -> zlen r' < 5 -> bits5 d ++ r = bits5 d' ++ r' -> d = d' /\ r = r'.
Proof.
  intros H1 H2 H3 H4 E. pose proof (regroup_concat 5 ltac:(lia) d r [] H1 H3) as A. pose proof (regroup_concat 5 ltac:(lia) d' r' [] H2 H4) as B.
  change (Z.to_nat 5) with 5%nat in *. rewrite E, B in A. by injection A as <- <-.
Qed.
Lemma all_bytes (data : bytes) : Forall (fun b => b2z b < 2 ^ 8) data.
Proof. apply Forall_forall. intros b _. pose proof (b2z_range b). lia. Qed.

(** Five-bit groups that spell the bits of [data] and less than a group of zeros. *)
Definition spells (d5 data : bytes) : Prop :=
  five_bits d5 /\ exists n, (n < 5)%nat /\ bits5 d5 = bits8 data ++ replicate n false.

Lemma spells_unique d5 d5' data : spells d5 data -> spells d5' data -> d5 = d5'.
Proof.
  intros [H1 (n & Hn & E)] [H2 (m & Hm & E')]. assert (n = m) as ->.
  { apply (f_equal zlen) in E, E'. rewrite zlen_app, length_concat_bits in E, E'. unfold zlen at 3 in E. unfold zlen at 3 in E'. rewrite length_replicate in E, E'. lia. }
  rewrite <- E' in E. apply (bits5_inj _ _ [] []); rewrite ?zlen_nil, ?app_nil_r; done.
Qed.
Lemma spells_length d5 data : spells d5 data -> 8 * zlen data <= 5 * zlen d5 <= 8 * zlen data + 4.
Proof.
  intros [_ (n & Hn & E)]. apply (f_equal zlen) in E. rewrite zlen_app, !length_concat_bits in E. unfold zlen at 3 in E. rewrite length_replicate in E. lia.
Qed.

(** To groups of five bits, and back. *)
Lemma ConvertBits_8_5 data : exists d5, ConvertBits data 8 5 true = BechOk d5 /\ spells d5 data.
Proof.
  rewrite ConvertBits_groups by lia. change (Z.to_nat 8) with 8%nat.
  destruct (regroup_spec 5 ltac:(lia) (bits8 data)) as (gs & r & -> & El & Hg & Hr). change (Z.to_nat 5) with 5%nat in *. change (2 ^ 5) with 32 in *. cbn [andb].
  destruct (Z.gtb_spec (zlen r) 0) as [H0|H0].
  - set (x := r ++ replicate (Z.to_nat (5 - zlen r)) false). assert (Hx : length x = 5%nat) by (unfold x, zlen in *; rewrite length_app, length_replicate; lia).
    pose proof (val_range x) as Hv. unfold zlen at 1 in Hv. rewrite Hx in Hv. change (2 ^ Z.of_nat 5) with 32 in Hv.
    eexists. split; [done|]. split; [apply Forall_app; split; [done|]; constructor; [|done]; rewrite b2z_z2b_small; lia|].
    exists (Z.to_nat (5 - zlen r)). split; [lia|]. rewrite fmap_app, concat_app. cbn [fmap list_fmap concat]. rewrite b2z_z2b_small, app_nil_r by lia.
    pose proof (bits_val x) as Hb. rewrite Hx in Hb. rewrite Hb. unfold x. by rewrite El, app_assoc.
  - assert (r = []) as -> by (apply zlen_0_inv; pose proof (zlen_nonneg r); lia). exists gs. split; [done|]. split; [done|]. exists 0%nat. split; [lia|]. by rewrite El, !app_nil_r.
Qed.
Lemma ConvertBits_5_8 d5 data : five_bits d5 -> (ConvertBits d5 5 8 false = BechOk data <-> spells d5 data).
Proof.
  intros H5. rewrite ConvertBits_groups by lia. change (Z.to_nat 5) with 5%nat. cbn [andb]. split.
  - destruct (regroup_spec 8 ltac:(lia) (bits5 d5)) as (gs & r & -> & El & _ & _). change (Z.to_nat 8) with 8%nat in *.
    destruct ((zlen r >? 0) && ((zlen r >? 4) || negb (val r =? 0))) eqn:E; [done|]. intros [= <-]. split; [done|]. exists (length r).
    destruct (Z.gtb_spec (zlen r) 0) as [H0|H0]; cbn [andb] in E.
    + apply orb_false_iff in E as [E1 E2]. rewrite Z.gtb_ltb in E1. apply Z.ltb_ge in E1. apply negb_false_iff, Z.eqb_eq in E2.
      split; [unfold zlen in *; lia|]. by rewrite <- (val_zero r E2).
    + assert (r = []) as -> by (apply zlen_0_inv; pose proof (zlen_nonneg r); lia). split; [cbn; lia|done].
  - intros [_ (n & Hn & ->)]. assert (Hz : zlen (replicate n false) = Z.of_nat n) by (unfold zlen; by rewrite length_replicate).
    pose proof (regroup_concat 8 ltac:(lia) data (replicate n false) [] (all_bytes data) ltac:(lia)) as Hr. change (Z.to_nat 8) with 8%nat in Hr. unfold regroup. rewrite Hr. cbn [app].
    rewrite Hz, val_zeros. rewrite !Z.gtb_ltb, (proj2 (Z.ltb_ge 4 _)) by lia. cbn [orb negb Z.eqb]. by rewrite andb_false_r.
Qed.

(** ** The checksum is a remainder *)

(** A step on a state below 2^30, without the value that comes in. *)
Definition advance (c : Z) : Z := polymod_step c 0.
Definition poly (c : Z) (vs : list Z) : Z := foldl polymod_step c vs.

Lemma mix_foldl b l chk v :
  foldl (fun chk '(i, g) => if Z.land (Z.shiftr b i) 1 =? 1 then Z.lxor chk g else chk) (Z.lxor chk v) l
  = Z.lxor (foldl (fun chk '(i, g) => if Z.land (Z.shiftr b i) 1 =? 1 then Z.lxor chk g else chk) chk l) v.
Proof.
  revert chk. induction l as [|[i g] l IH]; intros chk; [done|]. cbn [foldl]. rewrite <- IH. f_equal.
  destruct (_ =? 1); [|done]. by rewrite !Z.lxor_assoc, (Z.lxor_comm v).
Qed.
Lemma step_advance c v : polymod_step c v = Z.lxor (advance c) v.
Proof. unfold advance, polymod_step, mix. by rewrite Z.lxor_0_r, mix_foldl. Qed.

Lemma bit_test b i : 0 <= i -> (Z.land (Z.shiftr b i) 1 =? 1) = Z.testbit b i.
Proof.
  intros Hi. change 1 with (Z.ones 1) at 1. rewrite Z.land_ones, Z.shiftr_div_pow2, Z.testbit_eqb by lia. done.
Qed.
Lemma mix_sum b chk :
  mix b chk = Z.lxor chk (Z.lxor (if Z.testbit b 0 then 0x3b6a57b2 else 0) (Z.lxor (if Z.testbit b 1 then 0x26508e6d else 0)
    (Z.lxor (if Z.testbit b 2 then 0x1ea119fa else 0) (Z.lxor (if Z.testbit b 3 then 0x3d4233dd else 0) (if Z.testbit b 4 then 0x2a1462b3 else 0))))).
Proof.
  unfold mix. change (zip (seqZ 0 5) gen) with [(0, 0x3b6a57b2); (1, 0x26508e6d); (2, 0x1ea119fa); (3, 0x3d4233dd); (4, 0x2a1462b3)]. cbn [foldl].
  rewrite !bit_test by lia. destruct (Z.testbit b 0), (Z.testbit b 1), (Z.testbit b 2), (Z.testbit b 3), (Z.testbit b 4);
    rewrite ?Z.lxor_0_l, ?Z.lxor_0_r, ?Z.lxor_assoc; done.
Qed.
Lemma mix_lxor a b c d : Z.lxor (mix a c) (mix b d) = mix (Z.lxor a b) (Z.lxor c d).
Proof.
  assert (H : forall x y g : Z, forall p q, (if xorb p q then g else 0) = Z.lxor (if p then g else 0) (if q then g else 0))
    by (intros _ _ g [] []; by rewrite ?Z.lxor_0_l, ?Z.lxor_0_r, ?Z.lxor_nilpotent).
  rewrite !mix_sum, !Z.lxor_spec, !H by exact 0. apply Z.bits_inj'. intros n Hn. rewrite !Z.lxor_spec.
  repeat match goal with |- context [Z.testbit ?z n] => destruct (Z.testbit z n) end; done.
Qed.
Lemma advance_lxor c d : advance (Z.lxor c d) = Z.lxor (advance c) (advance d).
Proof.
  unfold advance, polymod_step. rewrite mix_lxor, !Z.lxor_0_r. f_equal; [apply Z.shiftr_lxor|]. rewrite <- Z.shiftl_lxor. f_equal.
  apply Z.bits_inj'. intros n Hn. rewrite !Z.land_spec, !Z.lxor_spec, !Z.land_spec.
  by destruct (Z.testbit c n), (Z.testbit d n), (Z.testbit _ n).
Qed.
Lemma poly_lxor c d vs ws :
  length vs = length ws -> poly (Z.lxor c d) (zip_with Z.lxor vs ws) = Z.lxor (poly c vs) (poly d ws).
Proof.
  revert c d ws. induction vs as [|v vs IH]; intros c d [|w ws] Hl; try done. cbn [zip_with poly foldl]. unfold poly in IH. rewrite <- IH by (cbn in Hl; lia). f_equal.
  rewrite !step_advance, advance_lxor. apply Z.bits_inj'. intros n Hn. rewrite !Z.lxor_spec.
  by destruct (Z.testbit (advance c) n), (Z.testbit (advance d) n), (Z.testbit v n), (Z.testbit w n).
Qed.
Lemma poly_app c vs ws : poly c (vs ++ ws) = poly (poly c vs) ws.
Proof. apply foldl_app. Qed.
Lemma poly_zeros n : poly 0 (replicate n 0) = 0.
Proof. induction n as [|n IH]; [done|]. cbn [replicate]. change (poly 0 (0 :: ?l)) with (poly (polymod_step 0 0) l). by replace (polymod_step 0 0) with 0 by (vm_compute; reflexivity). Qed.

(** *** Bounds *)

Lemma lxor_bound n a b : 0 <= n -> 0 <= a < 2 ^ n -> 0 <= b < 2 ^ n -> 0 <= Z.lxor a b < 2 ^ n.
Proof.
  intros Hn Ha Hb. assert (0 <= Z.lxor a b) by (apply Z.lxor_nonneg; lia). split; [done|].
  destruct (Z.eq_dec (Z.lxor a b) 0) as [->|Hne]; [lia|]. apply Z.log2_lt_pow2; [lia|].
  pose proof (Z.log2_lxor a b ltac:(lia) ltac:(lia)) as Hl.
  assert (forall x, 0 <= x < 2 ^ n -> Z.log2 x < n \/ x = 0) as Hx.
  { intros x Hx. destruct (Z.eq_dec x 0); [by right|left]. apply Z.log2_lt_pow2; lia. }
  assert (n <> 0) by (intros ->; change (2 ^ 0) with 1 in *; assert (a = 0) as -> by lia; assert (b = 0) as -> by lia; done).
  destruct (Hx a Ha) as [|E1], (Hx b Hb) as [|E2]; subst; cbn in Hl; lia.
Qed.
Lemma advance_bound c : 0 <= c < 2 ^ 30 -> 0 <= advance c < 2 ^ 30.
Proof.
  intros Hc. unfold advance, polymod_step. rewrite Z.lxor_0_r, mix_sum. change 0x1ffffff with (Z.ones 25). rewrite Z.land_ones, Z.shiftl_mul_pow2 by lia.
  pose proof (Z.mod_pos_bound c (2 ^ 25) ltac:(lia)). apply lxor_bound; [lia|change (2 ^ 30) with (2 ^ 25 * 2 ^ 5); nia|].
  repeat apply lxor_bound; try (destruct (Z.testbit _ _)); lia.
Qed.
Lemma poly_bound c vs : 0 <= c < 2 ^ 30 -> Forall (fun v => 0 <= v < 32) vs -> 0 <= poly c vs < 2 ^ 30.
Proof.
  intros Hc Hvs. revert c Hc. induction Hvs as [|v vs Hv _ IH]; intros c Hc; [done|]. cbn [poly foldl]. apply IH. rewrite step_advance.
  apply lxor_bound; [lia|by apply advance_bound|]. change (2 ^ 30) with 1073741824. lia.
Qed.

(** *** The step loses nothing *)

Lemma mix_low b : 0 <= b < 32 -> Z.land (mix b 0) 31 = 0 -> b = 0.
Proof.
  intros Hb H0. assert (H : forallb (fun b => negb (Z.land (mix b 0) 31 =? 0) || (b =? 0)) (seqZ 0 32) = true) by (vm_compute; reflexivity).
  apply (in_seqZ _ _ b) in H; [|done]. cbv beta in H. rewrite H0 in H. by apply Z.eqb_eq in H.
Qed.
Lemma advance_zero c : 0 <= c < 2 ^ 30 -> advance c = 0 -> c = 0.
Proof.
  intros Hc H0. unfold advance, polymod_step in H0. rewrite Z.lxor_0_r in H0. set (b := Z.shiftr c 25) in *. set (x := Z.shiftl (Z.land c 0x1ffffff) 5) in *.
  assert (Hm : mix b x = Z.lxor x (mix b 0)) by (rewrite !mix_sum; by rewrite Z.lxor_0_l). rewrite Hm in H0. apply Z.lxor_eq in H0.
  assert (Hb : 0 <= b < 32).
  { unfold b. rewrite Z.shiftr_div_pow2 by lia. split; [apply Z.div_pos; lia|]. apply Z.div_lt_upper_bound; [lia|]. change (2 ^ 25 * 32) with (2 ^ 30). lia. }
  assert (b = 0) as E.
  { apply mix_low; [done|]. rewrite <- H0. unfold x. change 31 with (Z.ones 5). rewrite Z.land_ones, Z.shiftl_mul_pow2 by lia. apply Z.mod_mul. lia. }
  rewrite E in H0. change (mix 0 0) with 0 in H0. unfold x in H0. rewrite Z.shiftl_mul_pow2 in H0 by lia. change 0x1ffffff with (Z.ones 25) in H0.
  rewrite Z.land_ones in H0 by lia. unfold b in E. rewrite Z.shiftr_div_pow2 in E by lia. rewrite (Z.div_mod c (2 ^ 25)), E by lia. lia.
Qed.
Lemma poly_advance_zero n c : 0 <= c < 2 ^ 30 -> poly c (replicate n 0) = 0 -> c = 0.
Proof.
  revert c. induction n as [|n IH]; intros c Hc H0; [done|]. cbn [replicate] in H0. change (poly c (0 :: ?l)) with (poly (advance c) l) in H0.
  apply IH in H0; [by apply advance_zero|by apply advance_bound].
Qed.

(** *** Six characters are the coefficients of a remainder *)

Definition num (l : list Z) : Z := foldl (fun a v => 32 * a + v) 0 l.
Abbreviation digits := (Forall (fun v => 0 <= v < 32)).

Lemma num_snoc l v : num (l ++ [v]) = 32 * num l + v.
Proof. unfold num. by rewrite foldl_app. Qed.
Lemma num_range l : digits l -> 0 <= num l < 32 ^ zlen l.
Proof.
  induction l as [|v l IH] using rev_ind; intros Hl; [by cbn|]. apply Forall_app in Hl as [Hl Hv]. apply Forall_inv in Hv. cbv beta in Hv. specialize (IH Hl).
  rewrite num_snoc, zlen_app, Z.pow_add_r by (pose proof (zlen_nonneg l); try change (zlen [v]) with 1; lia).
  change (32 ^ zlen [v]) with 32. lia.
Qed.
Lemma num_inj l l' : digits l -> digits l' -> length l = length l' -> num l = num l' -> l = l'.
Proof.
  revert l'. induction l as [|v l IH] using rev_ind; intros l' H1 H2 Hl Hn; [by symmetry; apply length_zero_iff_nil|].
  destruct l' as [|v' l' _] using rev_ind; [rewrite length_app in Hl; cbn in Hl; lia|].
  apply Forall_app in H1 as [H1 Hv%Forall_inv], H2 as [H2 Hv'%Forall_inv]. cbv beta in Hv, Hv'. rewrite !num_snoc in Hn. rewrite !length_app in Hl. cbn in Hl.
  assert (v = v' /\ num l = num l') as [-> He] by lia. f_equal. apply IH; [done..|lia|done].
Qed.
Lemma advance_small c : 0 <= c < 2 ^ 25 -> advance c = 32 * c.
Proof.
  intros Hc. unfold advance, polymod_step. rewrite Z.lxor_0_r, Z.shiftr_div_pow2, Z.div_small by lia. rewrite mix_sum. cbn [Z.testbit]. rewrite !Z.lxor_0_r.
  change 0x1ffffff with (Z.ones 25). rewrite Z.land_ones, Z.mod_small, Z.shiftl_mul_pow2 by lia. change (2 ^ 5) with 32. lia.
Qed.
Lemma lxor_digit c v : 0 <= c -> 0 <= v < 32 -> Z.lxor (32 * c) v = 32 * c + v.
Proof.
  intros Hc Hv. rewrite Z.add_nocarry_lxor; [done|]. apply Z.bits_inj'. intros n Hn. rewrite Z.land_spec, Z.bits_0. change 32 with (2 ^ 5). rewrite Z.mul_comm.
  destruct (Z.lt_ge_cases n 5); [by rewrite Z.mul_pow2_bits_low by lia|]. rewrite andb_comm, Z.bits_above_log2; [done|lia|].
  destruct (Z.eq_dec v 0) as [->|]; [cbn; lia|]. apply Z.lt_le_trans with 5; [apply Z.log2_lt_pow2; lia|lia].
Qed.
Lemma poly_num l : digits l -> (length l <= 6)%nat -> poly 0 l = num l.
Proof.
  induction l as [|v l IH] using rev_ind; intros Hl Hn; [done|]. apply Forall_app in Hl as [Hl Hv%Forall_inv]. cbv beta in Hv. rewrite length_app in Hn. cbn in Hn.
  rewrite poly_app, IH by (done || lia). cbn [poly foldl]. rewrite step_advance, num_snoc. pose proof (num_range l Hl) as Hr.
  assert (32 ^ zlen l <= 2 ^ 25) by (change (2 ^ 25) with (32 ^ 5); apply Z.pow_le_mono_r; unfold zlen; lia).
  rewrite advance_small by lia. apply lxor_digit; lia.
Qed.

(** The digits of a remainder. *)
Lemma num_digits p : 0 <= p < 2 ^ 30 -> num ((fun i => Z.land (Z.shiftr p (5 * (5 - i))) 31) <$> seqZ 0 6) = p.
Proof.
  intros Hp. change (seqZ 0 6) with [0; 1; 2; 3; 4; 5]. cbn [fmap list_fmap num foldl]. change 31 with (Z.ones 5). rewrite !Z.land_ones, !Z.shiftr_div_pow2 by lia.
  change (2 ^ 5) with 32. repeat match goal with |- context [2 ^ ?k] => let x := eval vm_compute in (2 ^ k) in change (2 ^ k) with x end. change (2 ^ 30) with 1073741824 in Hp.
  pose proof (Z.div_div p 32 32 ltac:(lia) ltac:(lia)) as E1. pose proof (Z.div_div p 1024 32 ltac:(lia) ltac:(lia)) as E2.
  pose proof (Z.div_div p 32768 32 ltac:(lia) ltac:(lia)) as E3. pose proof (Z.div_div p 1048576 32 ltac:(lia) ltac:(lia)) as E4.
  change (32 * 32) with 1024 in E1. change (1024 * 32) with 32768 in E2. change (32768 * 32) with 1048576 in E3. change (1048576 * 32) with 33554432 in E4. rewrite Z.div_1_r.
  assert (0 <= p / 33554432 < 32) by (split; [apply Z.div_pos; lia|apply Z.div_lt_upper_bound; lia]).
  pose proof (Z.div_mod p 32 ltac:(lia)). pose proof (Z.div_mod (p / 32) 32 ltac:(lia)). pose proof (Z.div_mod (p / 1024) 32 ltac:(lia)).
  pose proof (Z.div_mod (p / 32768) 32 ltac:(lia)). pose proof (Z.div_mod (p / 1048576) 32 ltac:(lia)). rewrite (Z.mod_small (p / 33554432)) by lia. lia.
Qed.

#[local] Instance b2z_Inj : Inj (=) (=) b2z := b2z_inj.
Lemma five_digits data : five_bits data -> digits (b2z <$> data).
Proof. intros H. apply Forall_fmap. eapply Forall_impl; [exact H|]. intros b Hb. unfold compose. cbv beta in Hb. pose proof (b2z_range b). lia. Qed.
Lemma HrpExpand_digits hrp : digits (bech32HrpExpand hrp).
Proof.
  unfold bech32HrpExpand. apply Forall_app. split; [|constructor; [lia|]]; apply Forall_fmap, Forall_forall; intros c _; unfold compose; pose proof (b2z_range c).
  - rewrite Z.shiftr_div_pow2 by lia. change (2 ^ 5) with 32. split; [apply Z.div_pos; lia|apply Z.div_lt_upper_bound; lia].
  - change 31 with (Z.ones 5). rewrite Z.land_ones by lia. apply Z.mod_pos_bound. lia.
Qed.

Lemma Checksum_digits hrp data : five_bits data -> five_bits (bech32Checksum hrp data) /\ length (bech32Checksum hrp data) = 6%nat
  /\ num (b2z <$> bech32Checksum hrp data) = Z.lxor (poly 1 (bech32HrpExpand hrp ++ (b2z <$> data) ++ replicate 6 0)) 1.
Proof.
  intros H5. unfold bech32Checksum, bech32Polymod. change [0; 0; 0; 0; 0; 0] with (replicate 6 0). fold (poly 1 (bech32HrpExpand hrp ++ (b2z <$> data) ++ replicate 6 0)).
  set (p := Z.lxor _ 1). assert (Hp : 0 <= p < 2 ^ 30).
  { apply lxor_bound; [lia| |lia]. apply poly_bound; [lia|]. apply Forall_app. split; [apply HrpExpand_digits|]. apply Forall_app. split; [by apply five_digits|]. apply Forall_replicate. lia. }
  assert (Hd : forall i, 0 <= Z.land (Z.shiftr p (5 * (5 - i))) 31 < 32) by (intros i; change 31 with (Z.ones 5); rewrite Z.land_ones by lia; apply Z.mod_pos_bound; lia).
  split; [|split; [done|]].
  - apply Forall_fmap, Forall_forall. intros i _. unfold compose. rewrite b2z_z2b_small; apply Hd || (specialize (Hd i); lia).
  - rewrite <- list_fmap_compose. etransitivity; [|exact (num_digits p Hp)]. f_equal. apply list_fmap_ext. intros _ i _. unfold compose. apply b2z_z2b_small. specialize (Hd i). lia.
Qed.

(** The last six characters are the only ones that fit the rest. *)
Lemma VerifyChecksum_iff hrp data ck :
  five_bits data -> five_bits ck -> length ck = 6%nat -> (bech32VerifyChecksum hrp (data ++ ck) = true <-> ck = bech32Checksum hrp data).
Proof.
  intros Hd Hk Hl. destruct (Checksum_digits hrp data Hd) as (Hk' & Hl' & Hn). unfold bech32VerifyChecksum, bech32Polymod.
  rewrite Z.eqb_eq, fmap_app. change (foldl polymod_step 1 ?l) with (poly 1 l). rewrite !app_assoc in *. rewrite !poly_app in *. set (s := poly (poly 1 _) _) in *.
  assert (Hx : poly s (b2z <$> ck) = Z.lxor (poly s (replicate 6 0)) (num (b2z <$> ck))).
  { rewrite <- poly_num by (by apply five_digits || (rewrite length_fmap; lia)). rewrite <- poly_lxor by (by rewrite length_fmap, Hl). rewrite Z.lxor_0_r. f_equal.
    clear -Hl. assert (Hz : forall l : list Z, zip_with Z.lxor (replicate (length l) 0) l = l) by (induction l as [|v l IH]; [done|]; cbn; by rewrite Z.lxor_0_l, IH).
    rewrite <- (Hz (b2z <$> ck)) at 1. by rewrite length_fmap, Hl. }
  rewrite Hx. split.
  - intros H1. assert (b2z <$> ck = b2z <$> bech32Checksum hrp data) as E.
    { apply num_inj; [by apply five_digits..|by rewrite !length_fmap, Hl|]. rewrite Hn, <- H1. by rewrite <- Z.lxor_assoc, Z.lxor_nilpotent, Z.lxor_0_l. }
    by apply (inj (fmap b2z)) in E.
  - intros ->. rewrite Hn. by rewrite <- Z.lxor_assoc, Z.lxor_nilpotent, Z.lxor_0_l.
Qed.

(** ** Characters *)

#[local] Opaque IndexByte charset.

Definition printable (c : byte) : bool := (33 <=? b2z c) && (b2z c <=? 126).

Lemma byte_cases (P : byte -> bool) : forallb (fun z => P (z2b z)) (seqZ 0 256) = true -> forall c, P c = true.
Proof. intros H c. rewrite <- (z2b_b2z c). apply (in_seqZ (fun z => P (z2b z)) 256); [done|apply b2z_range]. Qed.

Lemma char_of b : b2z b < 32 -> exists c, zlookup charset (b2z b) = Some c /\ IndexByte charset c = b2z b /\ c <> x31 /\ lower_byte c = c /\ printable c = true.
Proof.
  intros Hb. assert (H : (fun b => negb (b2z b <? 32) || match zlookup charset (b2z b) with
    | Some c => (IndexByte charset c =? b2z b) && negb (bool_decide (c = x31)) && bool_decide (lower_byte c = c) && printable c | None => false end) b = true) by (clear; revert b; apply byte_cases; vm_compute; reflexivity). cbv beta in H. rewrite (proj2 (Z.ltb_lt _ _) Hb) in H. cbn [negb orb] in H.
  destruct (zlookup charset (b2z b)) as [c|]; [|done]. apply andb_true_iff in H as [[[H1%Z.eqb_eq H2%negb_true_iff%bool_decide_eq_false]%andb_true_iff H3%bool_decide_eq_true]%andb_true_iff H4].
  by exists c.
Qed.
Lemma no_char b : 32 <= b2z b -> zlookup charset (b2z b) = None.
Proof.
  intros Hb. assert (H : (fun b => (b2z b <? 32) || match zlookup charset (b2z b) with Some _ => false | None => true end) b = true) by (clear; revert b; apply byte_cases; vm_compute; reflexivity).
  cbv beta in H. rewrite (proj2 (Z.ltb_ge _ _) Hb) in H. by destruct (zlookup charset (b2z b)).
Qed.
Lemma index_char c : 0 <= IndexByte charset c -> IndexByte charset c < 32 /\ zlookup charset (IndexByte charset c) = Some c.
Proof.
  intros Hc. assert (H : (fun c => (IndexByte charset c <? 0) || (IndexByte charset c <? 32) && bool_decide (zlookup charset (IndexByte charset c) = Some c)) c = true) by (clear; revert c; apply byte_cases; vm_compute; reflexivity). cbv beta in H.
  generalize dependent (IndexByte charset c). intros i Hc H. rewrite (proj2 (Z.ltb_ge _ _) Hc) in H. cbn [orb] in H.
  apply andb_true_iff in H as [H1 H2%bool_decide_eq_true]. split; [by apply Z.ltb_lt|done].
Qed.
Lemma lower_cases c : lower_byte (lower_byte c) = lower_byte c /\ lower_byte (upper_byte c) = lower_byte c /\ (printable c = true -> printable (lower_byte c) = true).
Proof.
  assert (H : (fun c => bool_decide (lower_byte (lower_byte c) = lower_byte c) && bool_decide (lower_byte (upper_byte c) = lower_byte c)
    && (negb (printable c) || printable (lower_byte c))) c = true) by (clear; revert c; apply byte_cases; vm_compute; reflexivity). cbv beta in H.
  apply andb_true_iff in H as [[H1%bool_decide_eq_true H2%bool_decide_eq_true]%andb_true_iff H3]. split_and!; [done|done|]. intros Hp. by rewrite Hp in H3.
Qed.
Lemma lower_lower s : lower (lower s) = lower s.
Proof. unfold lower. rewrite <- list_fmap_compose. apply list_fmap_ext. intros _ c _. apply lower_cases. Qed.
Lemma zlen_lower s : zlen (lower s) = zlen s.
Proof. apply zlen_map. Qed.

Lemma toChars_iff data chars : toChars data = BechOk chars <-> toBytes chars = BechOk data.
Proof.
  revert chars. induction data as [|b data IH]; intros [|c chars]; cbn [toChars toBytes].
  - done.
  - split; [done|]. destruct (_ <? 0); [done|]. by destruct (toBytes chars).
  - split; [|done]. destruct (zlookup charset (b2z b)); [|done]. by destruct (toChars data).
  - split.
    + destruct (Z.lt_ge_cases (b2z b) 32) as [Hb|Hb]; [|by rewrite no_char]. destruct (char_of b Hb) as (c' & -> & Hi & _).
      destruct (toChars data) as [r|e|] eqn:E; [|done..]. cbn [mbind bech_bind]. intros [= <- <-]. rewrite Hi, (proj2 (Z.ltb_ge _ _)) by apply b2z_range.
      apply IH in E || (rewrite (proj1 (IH r) eq_refl)). cbn [mbind bech_bind]. by rewrite z2b_b2z.
    + destruct (Z.ltb_spec (IndexByte charset c) 0) as [|Hc]; [done|]. destruct (index_char c Hc) as [Hlt Hz]. destruct (toBytes chars) as [r|e|] eqn:E; [|done..].
      cbn [mbind bech_bind]. intros [= <- <-]. rewrite b2z_z2b_small, Hz by lia. by rewrite (proj2 (IH chars) E).
Qed.
Lemma toChars_spec data : five_bits data -> exists chars, toChars data = BechOk chars.
Proof.
  induction 1 as [|b data Hb _ [chars IH]]; [by exists []|]. cbn [toChars]. destruct (char_of b Hb) as (c & -> & _). rewrite IH. by eexists.
Qed.
Lemma toChars_ok data chars : toChars data = BechOk chars ->
  five_bits data /\ zlen chars = zlen data /\ Forall (fun c => c <> x31 /\ lower_byte c = c /\ printable c = true) chars.
Proof.
  revert chars. induction data as [|b data IH]; intros chars; cbn [toChars]; [by intros [= <-]|].
  destruct (Z.lt_ge_cases (b2z b) 32) as [Hb|Hb]; [|by rewrite no_char]. destruct (char_of b Hb) as (c & -> & _ & H1 & H2 & H3).
  destruct (toChars data) as [r|e|]; [|done..]. cbn [mbind bech_bind]. intros [= <-]. destruct (IH r eq_refl) as (H4 & H5 & H6). rewrite !zlen_cons, H5.
  split_and!; [by constructor|done|by constructor].
Qed.

Lemma LastIndexByte_none s c : c ∉ s -> LastIndexByte s c = -1.
Proof.
  induction s as [|x s IH]; [done|]. intros [Hx Hs]%not_elem_of_cons. cbn [LastIndexByte]. rewrite (IH Hs). cbn. by rewrite bool_decide_false by congruence.
Qed.
Lemma LastIndexByte_app a c b : c ∉ b -> LastIndexByte (a ++ c :: b) c = zlen a.
Proof.
  intros Hb. induction a as [|x a IH]; cbn [app LastIndexByte]; [rewrite LastIndexByte_none by done; cbn; by rewrite bool_decide_true|].
  rewrite IH, zlen_cons, (proj2 (Z.ltb_ge _ _)) by apply zlen_nonneg. done.
Qed.
Lemma LastIndexByte_split s c : LastIndexByte s c = -1 /\ c ∉ s \/ exists a b, s = a ++ c :: b /\ c ∉ b /\ LastIndexByte s c = zlen a.
Proof.
  induction s as [|x s [[E Hn]|(a & b & -> & Hb & E)]]; [left; split; [done|apply not_elem_of_nil]| |].
  - cbn [LastIndexByte]. rewrite E. cbn. case_bool_decide as Hx; [right; by exists [], s; subst|left; split; [done|]]. apply not_elem_of_cons. split; [congruence|done].
  - right. exists (x :: a), b. split; [done|]. split; [done|]. exact (LastIndexByte_app (x :: a) c b Hb).
Qed.

(** ** Encoding and decoding *)

Lemma Bech32Encode_eq hrp data s :
  Bech32Encode hrp data = BechOk s <-> exists chars, toChars (data ++ bech32Checksum hrp data) = BechOk chars /\ s = hrp ++ x31 :: chars.
Proof.
  unfold Bech32Encode. destruct (toChars (data ++ bech32Checksum hrp data)) as [chars|e|]; cbn [mbind bech_bind]; split; try done.
  - intros [= <-]. by exists chars.
  - by intros (? & [= ->] & ->).
  - by intros (? & ? & _).
  - by intros (? & ? & _).
Qed.

(** Decoding is the inverse of encoding: it accepts the strings of the right
    length whose lower-case form encodes something, in one case throughout. *)
Lemma Bech32Decode_spec s hrp data :
  Bech32Decode s = BechOk (hrp, data)
  <-> 8 <= zlen s <= 90 /\ forallb printable s = true /\ (s = lower s \/ s = upper s) /\ hrp <> [] /\ Bech32Encode hrp data = BechOk (lower s).
Proof.
  unfold Bech32Decode. fold printable. rewrite Bech32Encode_eq. split.
  - destruct (Z.ltb_spec (zlen s) 8) as [|H8]; [done|]. destruct (Z.gtb_spec (zlen s) 90) as [|H90]; [done|]. cbn [orb].
    destruct (forallb _ s) eqn:Ep; cbn [negb]; [|done].
    destruct (negb (bool_decide (s = lower s)) && negb (bool_decide (s = upper s))) eqn:Ec; [done|].
    destruct (LastIndexByte_split (lower s) x31) as [[-> _]|(a & b & E & Hb & El)]; [done|]. rewrite El.
    destruct (Z.ltb_spec (zlen a) 1) as [|Ha]; [done|]. destruct (Z.gtb_spec (zlen a + 7) (zlen (lower s))) as [|H7]; [done|]. cbn [orb].
    assert (subseq (lower s) 0 (zlen a) = a /\ subseq (lower s) (zlen a + 1) (zlen (lower s)) = b) as [-> ->].
    { rewrite E. split; [apply (subseq_app_mid [] a)|]. pose proof (subseq_app_mid (a ++ [x31]) b []) as Hs. rewrite app_nil_r, <- app_assoc, zlen_app in Hs.
      change (zlen [x31]) with 1 in Hs. rewrite zlen_app, zlen_cons. replace (zlen a + (1 + zlen b)) with (zlen a + 1 + zlen b) by lia. exact Hs. }
    destruct (toBytes b) as [d|e|] eqn:Ed; [|done..]. cbn [mbind bech_bind]. destruct (bech32VerifyChecksum a d) eqn:Ev; [|done]. cbn [negb].
    apply toChars_iff in Ed as Ed'. destruct (toChars_ok _ _ Ed') as (H5 & Hlen & _). rewrite E, zlen_app, zlen_cons in H7.
    set (d1 := subseq d 0 (zlen d - 6)). intros [= <- <-].
    assert (Hd : d = d1 ++ drop (Z.to_nat (zlen d - 6)) d) by (unfold d1, subseq; rewrite Z.sub_0_r, drop_0; by rewrite take_drop).
    split_and!; [done|done|done| |intros ->; done|].
    { destruct (bool_decide (s = lower s)) eqn:E1; [left; by apply bool_decide_eq_true in E1|]. right. cbn [negb andb] in Ec. by apply negb_false_iff, bool_decide_eq_true in Ec. }
    exists b. split; [|by rewrite E]. rewrite <- Ed'. f_equal. etransitivity; [|symmetry; exact Hd]. f_equal. symmetry.
    assert (five_bits d1 /\ five_bits (drop (Z.to_nat (zlen d - 6)) d)) as [H51 H52] by (apply Forall_app; by rewrite <- Hd).
    apply VerifyChecksum_iff; [done..|rewrite length_drop; unfold zlen in *; lia|]. by rewrite <- Hd.
  - intros ([H8 H90] & Hp & Hc & Hne & chars & Hch & E). rewrite (proj2 (Z.ltb_ge _ _) H8), Z.gtb_ltb, (proj2 (Z.ltb_ge _ _) H90). cbn [orb]. rewrite Hp. cbn [negb].
    assert (negb (bool_decide (s = lower s)) && negb (bool_decide (s = upper s)) = false) as ->.
    { destruct Hc as [Hc|Hc]; rewrite (bool_decide_true _ Hc); [done|apply andb_false_r]. }
    destruct (toChars_ok _ _ Hch) as (H5 & Hlen & Hchars). assert (Hn : x31 ∉ chars) by (intros Hin; rewrite Forall_forall in Hchars; by apply Hchars in Hin as [? _]).
    pose proof H5 as [Hd Hk]%Forall_app. destruct (Checksum_digits hrp data Hd) as (_ & Hl6 & _). rewrite E, LastIndexByte_app by done.
    rewrite zlen_app in Hlen. unfold zlen at 3 in Hlen. rewrite Hl6 in Hlen. pose proof (zlen_nonneg data). pose proof (zlen_nonneg hrp).
    assert (zlen hrp <> 0) by (intros Hz; by apply zlen_0_inv in Hz). rewrite (proj2 (Z.ltb_ge _ _)) by lia. rewrite Z.gtb_ltb, (proj2 (Z.ltb_ge _ _)) by (rewrite zlen_app, zlen_cons; lia). cbn [orb].
    assert (subseq (hrp ++ x31 :: chars) 0 (zlen hrp) = hrp /\ subseq (hrp ++ x31 :: chars) (zlen hrp + 1) (zlen (hrp ++ x31 :: chars)) = chars) as [-> ->].
    { split; [apply (subseq_app_mid [] hrp)|]. pose proof (subseq_app_mid (hrp ++ [x31]) chars []) as Hs. rewrite app_nil_r, <- app_assoc, zlen_app in Hs.
      change (zlen [x31]) with 1 in Hs. rewrite zlen_app, zlen_cons. replace (zlen hrp + (1 + zlen chars)) with (zlen hrp + 1 + zlen chars) by lia. exact Hs. }
    apply toChars_iff in Hch. rewrite Hch. cbn [mbind bech_bind].
    rewrite (proj2 (VerifyChecksum_iff hrp data _ Hd Hk Hl6) eq_refl). cbn [negb]. do 2 f_equal. unfold subseq. rewrite drop_0. apply take_app_length'.
    rewrite zlen_app. unfold zlen. rewrite Hl6. lia.
Qed.
