(* ===== verification/Address.v ===== *)
(** * Addresses: common/address.go

    A segwit address spells the witness program of an output in Bech32
    ([Bech32.v]).  The wallet turns control programs into addresses
    ([getAddressFromControlProgram] of wallet/annotated.go), the accounts turn
    addresses into control programs ([getProgramByAddress] of
    account/accounts.go); one is the inverse of the other. *)

From S2P Require Import Prelude VMTypes Opcode Script Bech32 Bech32Spec.
From Stdlib Require Import Strings.Byte Strings.String.
#[local] Open Scope Z_scope.

(** [strings.ToLower], of which this file needs what it does on ASCII. *)
Class GoStrings := {
  ToLower : bytes -> bytes;
  ToLower_ascii s : Forall (fun c => b2z c < 128) s -> ToLower s = lower s;
}.

Inductive addr_error :=
  | ErrBech (e : bech_error)
  | ErrNoVersion                  (* "no witness version" *)
  | ErrVersion                    (* "invalid witness version" *)
  | ErrDataLength                 (* "invalid data length" *)
  | ErrDataLengthV0               (* "invalid data length for witness version 0" *)
  | ErrInvalidSegwit              (* "invalid segwit address" *)
  | ErrWitnessProgram             (* "witness program must be ... bytes" *)
  | ErrUnknownAddressType
  | ErrUnsupportedWitnessVer
  | ErrUnsupportedWitnessProgLen
  | ErrProgram (e : script_error).

(** A result, or neither a result nor an error: a panic, or no fuel. *)
Inductive addr (A : Type) := AOk (a : A) | AErr (e : addr_error) | AHalt.
Arguments AOk {A} a.
Arguments AErr {A} e.
Arguments AHalt {A}.
#[export] Instance addr_ret : MRet addr := fun A a => AOk a.
#[export] Instance addr_bind : MBind addr := fun A B f m =>
  match m with AOk a => f a | AErr e => AErr e | AHalt => AHalt end.
Definition of_bech {A} (m : bech A) : addr A :=
  match m with BechOk a => AOk a | BechErr e => AErr (ErrBech e) | BechFuel => AHalt end.
Definition of_outcome {A} (m : outcome A) : addr A :=
  match m with Done a => AOk a | Failed e => AErr (ErrProgram e) | _ => AHalt end.

(** ** Segwit addresses *)

Definition decodeSegWitAddress (address : bytes) : addr (byte * bytes) :=
  '(_, data) ← of_bech (Bech32Decode address);
  match data with
  | [] => AErr ErrNoVersion
  | version :: data =>
      if b2z version >? 16 then AErr ErrVersion
      else
        regrouped ← of_bech (ConvertBits data 5 8 false);
        if (zlen regrouped <? 2) || (zlen regrouped >? 40) then AErr ErrDataLength
        else if (b2z version =? 0) && negb (zlen regrouped =? 20) && negb (zlen regrouped =? 32) then AErr ErrDataLengthV0
        else AOk (version, regrouped)
  end.

Definition encodeSegWitAddress (hrp : bytes) (witnessVersion : byte) (witnessProgram : bytes) : addr bytes :=
  converted ← of_bech (ConvertBits witnessProgram 8 5 true);
  let combined := witnessVersion :: converted in
  bech ← of_bech (Bech32Encode hrp combined);
  '(version, program) ← decodeSegWitAddress bech;
  if negb (bool_decide (version = witnessVersion)) || negb (bool_decide (program = witnessProgram)) then AErr ErrInvalidSegwit
  else AOk bech.

Inductive Address :=
  | AddressWitnessPubKeyHash (hrp : bytes) (witnessVersion : byte) (witnessProgram : bytes)
  | AddressWitnessScriptHash (hrp : bytes) (witnessVersion : byte) (witnessProgram : bytes).

Definition ScriptAddress (a : Address) : bytes :=
  match a with AddressWitnessPubKeyHash _ _ p | AddressWitnessScriptHash _ _ p => p end.
Definition Hrp (a : Address) : bytes :=
  match a with AddressWitnessPubKeyHash h _ _ | AddressWitnessScriptHash h _ _ => h end.
Definition IsForNet (param : bytes) (a : Address) : bool := bool_decide (Hrp a = param).
(** An error is the empty string. *)
Definition EncodeAddress (a : Address) : addr bytes :=
  match a with
  | AddressWitnessPubKeyHash hrp version program | AddressWitnessScriptHash hrp version program =>
      match encodeSegWitAddress hrp version program with AErr _ => AOk [] | str => str end
  end.

Section Address.
Context {U : Uint256} {GS : GoStrings}.

Definition newAddressWitnessPubKeyHash (hrp witnessProg : bytes) : addr Address :=
  if negb (zlen witnessProg =? 20) then AErr ErrWitnessProgram
  else AOk (AddressWitnessPubKeyHash (ToLower hrp) x00 witnessProg).
Definition newAddressWitnessScriptHash (hrp witnessProg : bytes) : addr Address :=
  if negb (zlen witnessProg =? 32) then AErr ErrWitnessProgram
  else AOk (AddressWitnessScriptHash (ToLower hrp) x00 witnessProg).

(** Of the parameters of a network only [Bech32HRPSegwit] counts. *)
Definition NewAddressWitnessPubKeyHash (witnessProg param : bytes) : addr Address := newAddressWitnessPubKeyHash param witnessProg.
Definition NewAddressWitnessScriptHash (witnessProg param : bytes) : addr Address := newAddressWitnessScriptHash param witnessProg.
Definition IsBech32SegwitPrefix (prefix param : bytes) : bool := bool_decide (ToLower prefix = param ++ [x31]).

Definition DecodeAddress (address param : bytes) : addr Address :=
  let oneIndex := LastIndexByte address x31 in
  if oneIndex >? 1 then
    let prefix := subseq address 0 (oneIndex + 1) in
    if IsBech32SegwitPrefix prefix param then
      '(witnessVer, witnessProg) ← decodeSegWitAddress address;
      if negb (b2z witnessVer =? 0) then AErr ErrUnsupportedWitnessVer
      else
        let hrp := subseq prefix 0 (zlen prefix - 1) in
        if zlen witnessProg =? 20 then newAddressWitnessPubKeyHash hrp witnessProg
        else if zlen witnessProg =? 32 then newAddressWitnessScriptHash hrp witnessProg
        else AErr ErrUnsupportedWitnessProgLen
    else AErr ErrUnknownAddressType
  else AErr ErrUnknownAddressType.

(** ** Addresses and control programs *)

Definition getProgramByAddress (param address : bytes) : addr bytes :=
  a ← DecodeAddress address param;
  let redeemContract := ScriptAddress a in
  match a with
  | AddressWitnessPubKeyHash _ _ _ => of_outcome (P2WPKHProgram redeemContract)
  | AddressWitnessScriptHash _ _ _ => of_outcome (P2WSHProgram redeemContract)
  end.

Definition buildP2PKHAddress (param pubHash : bytes) : addr bytes :=
  match NewAddressWitnessPubKeyHash pubHash param with AOk a => EncodeAddress a | AErr _ => AOk [] | AHalt => AHalt end.
Definition buildP2SHAddress (param scriptHash : bytes) : addr bytes :=
  match NewAddressWitnessScriptHash scriptHash param with AOk a => EncodeAddress a | AErr _ => AOk [] | AHalt => AHalt end.
Definition getAddressFromControlProgram (param prog : bytes) : addr bytes :=
  if IsP2WPKHScript prog then
    match of_outcome (GetHashFromStandardProg prog) with
    | AOk pubHash => buildP2PKHAddress param pubHash | AErr _ => AOk [] | AHalt => AHalt end
  else if IsP2WSHScript prog then
    match of_outcome (GetHashFromStandardProg prog) with
    | AOk scriptHash => buildP2SHAddress param scriptHash | AErr _ => AOk [] | AHalt => AHalt end
  else AOk [].
End Address.
