(* ===== verification/AddressSpec.v ===== *)
(** * An address names one control program

    The strings [DecodeAddress] accepts are the addresses the code writes, in
    lower or in upper case; so the control programs of standard outputs and the
    addresses of a network correspond one to one. *)

From S2P Require Import Prelude VMTypes Opcode Script Bech32 Bech32Spec Address.
From Stdlib Require Import Strings.Byte Strings.String.
#[local] Open Scope Z_scope.

(** The readable part of a network: long enough for [DecodeAddress], short
    enough for a program of 32 bytes, in lower case. *)
Definition network_hrp (hrp : bytes) : Prop :=
  2 <= zlen hrp <= 30 /\ Forall (fun c => lower_byte c = c /\ printable c = true) hrp.

(** ** Decoding a witness program *)

Lemma decodeSegWit_iff s version prog :
  decodeSegWitAddress s = AOk (version, prog)
  <-> exists h d5, Bech32Decode s = BechOk (h, version :: d5) /\ spells d5 prog /\ b2z version <= 16
      /\ 2 <= zlen prog <= 40 /\ (b2z version = 0 -> zlen prog = 20 \/ zlen prog = 32).
Proof.
  unfold decodeSegWitAddress. destruct (Bech32Decode s) as [[h data]|e|] eqn:E; cbn [of_bech mbind addr_bind].
  2-3: by split; [|intros (? & ? & ? & _)].
  destruct data as [|v d5]; [by split; [|intros (? & ? & ? & _)]|].
  apply Bech32Decode_spec in E as (_ & _ & _ & _ & (chars & Hc & _)%Bech32Encode_eq). apply toChars_ok in Hc as ([_ H5]%Forall_cons & _).
  apply Forall_app in H5 as [H5 _]. split.
  - destruct (Z.gtb_spec (b2z v) 16) as [|Hv]; [done|]. destruct (ConvertBits d5 5 8 false) as [p|e|] eqn:Ep; [|done..]. cbn [of_bech mbind addr_bind].
    apply (ConvertBits_5_8 d5 p H5) in Ep. destruct (Z.ltb_spec (zlen p) 2) as [|H2]; [done|]. destruct (Z.gtb_spec (zlen p) 40) as [|H40]; [done|]. cbn [orb].
    destruct ((b2z v =? 0) && negb (zlen p =? 20) && negb (zlen p =? 32)) eqn:E0; [done|]. intros [= <- <-]. exists h, d5. split_and!; try done.
    intros Hz. rewrite Hz in E0. cbn [Z.eqb andb] in E0. destruct (Z.eqb_spec (zlen p) 20); [by left|]. destruct (Z.eqb_spec (zlen p) 32); [by right|done].
  - intros (h' & d' & [= <- <- <-] & Hs & Hv & H240 & H0). rewrite Z.gtb_ltb, (proj2 (Z.ltb_ge _ _)) by lia.
    apply (ConvertBits_5_8 d5 prog H5) in Hs. rewrite Hs. cbn [of_bech mbind addr_bind].
    rewrite (proj2 (Z.ltb_ge _ _)), Z.gtb_ltb, (proj2 (Z.ltb_ge _ _)) by lia. cbn [orb].
    destruct (Z.eqb_spec (b2z v) 0) as [Hz|]; [|done]. by destruct (H0 Hz) as [-> | ->].
Qed.

Lemma printable_ascii c : printable c = true -> b2z c < 128.
Proof. unfold printable. intros [_ H%Z.leb_le]%andb_true_iff. lia. Qed.
Lemma lower_id s : Forall (fun c => lower_byte c = c /\ printable c = true) s -> lower s = s /\ forallb printable s = true.
Proof.
  induction 1 as [|c s [Hc Hp] _ [IH1 IH2]]; [done|]. cbn. rewrite Hp, IH2. split; [|done]. unfold lower in *. cbn. by rewrite Hc, IH1.
Qed.

(** ** Encoding *)

Section Spec.
Context {U : Uint256} {GS : GoStrings}.

Definition program_size (prog : bytes) : Prop := zlen prog = 20 \/ zlen prog = 32.

(** The address of a program: an encoding that is decoded to it. *)
Lemma encode_program hrp prog :
  network_hrp hrp -> program_size prog ->
  exists d5 s, spells d5 prog /\ Bech32Encode hrp (x00 :: d5) = BechOk s /\ lower s = s /\ s <> []
    /\ Bech32Decode s = BechOk (hrp, x00 :: d5) /\ encodeSegWitAddress hrp x00 prog = AOk s.
Proof.
  intros [Hl Hh] Hp. destruct (ConvertBits_8_5 prog) as (d5 & Hc & Hs). pose proof (spells_length _ _ Hs) as Hlen.
  assert (H5 : five_bits (x00 :: d5)) by (constructor; [done|apply Hs]).
  destruct (Checksum_digits hrp (x00 :: d5) H5) as (Hck & H6 & _).
  destruct (toChars_spec ((x00 :: d5) ++ bech32Checksum hrp (x00 :: d5))) as [chars Hch]; [by apply Forall_app|].
  destruct (toChars_ok _ _ Hch) as (_ & Hcl & Hcs). set (s := hrp ++ x31 :: chars).
  assert (He : Bech32Encode hrp (x00 :: d5) = BechOk s) by (apply Bech32Encode_eq; by exists chars).
  assert (Hlow : lower s = s /\ forallb printable s = true).
  { apply lower_id. unfold s. apply Forall_app. split; [done|]. constructor; [done|]. eapply Forall_impl; [exact Hcs|]. naive_solver. }
  destruct Hlow as [Hlow Hpr].
  assert (Hz : zlen s = zlen hrp + zlen d5 + 8).
  { unfold s. rewrite zlen_app, zlen_cons, Hcl, zlen_app, zlen_cons. unfold zlen at 3. rewrite H6. lia. }
  assert (Hd : Bech32Decode s = BechOk (hrp, x00 :: d5)).
  { apply Bech32Decode_spec. rewrite Hlow. unfold program_size in Hp. split_and!; [lia|lia|done|by left| |done]. intros ->. rewrite zlen_nil in Hl. lia. }
  exists d5, s. split_and!; [done|done|done|by destruct hrp|done|]. unfold encodeSegWitAddress. rewrite Hc. cbn [of_bech mbind addr_bind]. rewrite He. cbn [of_bech mbind addr_bind].
  rewrite (proj2 (decodeSegWit_iff s x00 prog)).
  - cbn [mbind addr_bind]. by rewrite !bool_decide_true.
  - exists hrp, d5. split_and!; try done; unfold program_size in Hp; lia.
Qed.

(** ** Decoding an address *)

Lemma printable_lower s : forallb printable (lower s) = forallb printable s.
Proof.
  induction s as [|c s IH]; [done|]. cbn [lower fmap list_fmap forallb] in *. unfold lower in IH. rewrite IH.
  assert (H : (fun c => bool_decide (printable (lower_byte c) = printable c)) c = true)
    by (clear; revert c; apply byte_cases; vm_compute; reflexivity). apply bool_decide_eq_true in H. by rewrite H.
Qed.

Lemma lower_one s : LastIndexByte (lower s) x31 = LastIndexByte s x31.
Proof.
  induction s as [|c s IH]; [done|]. cbn [lower fmap list_fmap LastIndexByte] in *. unfold lower in IH. rewrite IH.
  assert (H : (fun c => bool_decide (bool_decide (lower_byte c = x31) = bool_decide (c = x31))) c = true)
    by (clear; revert c; apply byte_cases; vm_compute; reflexivity). apply bool_decide_eq_true in H. by rewrite H.
Qed.
Lemma lower_subseq s i j : lower (subseq s i j) = subseq (lower s) i j.
Proof. unfold lower, subseq. by rewrite fmap_take, fmap_drop. Qed.

Lemma DecodeAddress_eq s param h data :
  Bech32Decode s = BechOk (h, data) ->
  DecodeAddress s param =
  if (zlen h >? 1) && bool_decide (h = param) then
    '(witnessVer, witnessProg) ← decodeSegWitAddress s;
    if negb (b2z witnessVer =? 0) then AErr ErrUnsupportedWitnessVer
    else if zlen witnessProg =? 20 then AOk (AddressWitnessPubKeyHash h x00 witnessProg)
    else if zlen witnessProg =? 32 then AOk (AddressWitnessScriptHash h x00 witnessProg)
    else AErr ErrUnsupportedWitnessProgLen
  else AErr ErrUnknownAddressType.
Proof.
  intros Hd. apply Bech32Decode_spec in Hd as (_ & Hp & _ & _ & (chars & Hch & E)%Bech32Encode_eq).
  destruct (toChars_ok _ _ Hch) as (_ & _ & Hcs).
  assert (Hn : x31 ∉ chars) by (intros Hin; rewrite Forall_forall in Hcs; by apply Hcs in Hin as [? _]).
  assert (Hone : LastIndexByte s x31 = zlen h) by (by rewrite <- lower_one, E, LastIndexByte_app).
  assert (Hascii : forall i j, ToLower (subseq s i j) = subseq (lower s) i j).
  { intros i j. rewrite ToLower_ascii, lower_subseq; [done|]. unfold subseq. apply Forall_take, Forall_drop, Forall_forall. intros c Hc.
    rewrite forallb_forall in Hp. by apply printable_ascii, Hp, list_elem_of_In. }
  unfold DecodeAddress. rewrite Hone. destruct (Z.gtb_spec (zlen h) 1) as [H1|H1]; cbn [andb]; [|done].
  assert (Hpre : subseq (lower s) 0 (zlen h + 1) = h ++ [x31]).
  { rewrite E. pose proof (subseq_app_mid [] (h ++ [x31]) chars) as Hs. rewrite zlen_nil, zlen_app, <- app_assoc in Hs. exact Hs. }
  assert (Hlen : zlen (subseq s 0 (zlen h + 1)) = zlen h + 1).
  { rewrite <- (zlen_lower (subseq _ _ _)), lower_subseq, Hpre, zlen_app. done. }
  unfold IsBech32SegwitPrefix. rewrite Hascii, Hpre.
  assert (bool_decide (h ++ [x31] = param ++ [x31]) = bool_decide (h = param)) as ->.
  { apply bool_decide_ext. split; [intros He; by apply app_inj_2 in He as [? _]|by intros ->]. }
  case_bool_decide as Hparam; [|done]. destruct (decodeSegWitAddress s) as [[v p]|e|]; [|done..]. cbn [mbind addr_bind]. destruct (negb _); [done|].
  rewrite Hlen. replace (zlen h + 1 - 1) with (zlen h) by lia.
  assert (Hh : ToLower (subseq (subseq s 0 (zlen h + 1)) 0 (zlen h)) = h).
  { assert (subseq (subseq s 0 (zlen h + 1)) 0 (zlen h) = subseq s 0 (zlen h)) as ->.
    { unfold subseq. rewrite !drop_0, take_take. f_equal. lia. }
    rewrite Hascii, E. exact (subseq_app_mid [] h (x31 :: chars)). }
  unfold newAddressWitnessPubKeyHash, newAddressWitnessScriptHash. rewrite Hh. destruct (Z.eqb_spec (zlen p) 20); [done|]. by destruct (Z.eqb_spec (zlen p) 32).
Qed.

(** The address of [prog], by its size. *)
Definition address_of (hrp prog : bytes) : Address :=
  if zlen prog =? 20 then AddressWitnessPubKeyHash hrp x00 prog else AddressWitnessScriptHash hrp x00 prog.

Lemma EncodeAddress_of hrp prog s :
  encodeSegWitAddress hrp x00 prog = AOk s -> EncodeAddress (address_of hrp prog) = AOk s.
Proof. intros E. unfold address_of. by case_if; cbn [EncodeAddress]; rewrite E. Qed.

Lemma DecodeAddress_iff hrp s a :
  network_hrp hrp ->
  DecodeAddress s hrp = AOk a
  <-> (s = lower s \/ s = upper s)
      /\ exists prog, program_size prog /\ a = address_of hrp prog /\ EncodeAddress a = AOk (lower s).
Proof.
  intros Hn. split.
  - intros Hd. destruct (Bech32Decode s) as [[h data]|e|] eqn:E.
    2-3: unfold DecodeAddress, decodeSegWitAddress in Hd; rewrite E in Hd; cbn [of_bech mbind addr_bind] in Hd; repeat case_match; discriminate Hd.
    rewrite (DecodeAddress_eq s hrp h data E) in Hd. destruct (_ >? 1); cbn [andb] in Hd; [|done]. case_bool_decide as Hh; [subst h|done].
    destruct (decodeSegWitAddress s) as [[v prog]|e|] eqn:Ep; [|done..]. cbn [mbind addr_bind] in Hd.
    destruct (Z.eqb_spec (b2z v) 0) as [Hv|]; cbn [negb] in Hd; [|done].
    apply decodeSegWit_iff in Ep as (h & d5 & E' & Hs & _ & _ & Hsz). rewrite E in E'. injection E' as -> ->. specialize (Hsz Hv).
    assert (v = x00) as -> by (by apply b2z_inj). assert (Ha : a = address_of h prog).
    { unfold address_of. destruct (Z.eqb_spec (zlen prog) 20); [by injection Hd as <-|]. destruct (Z.eqb_spec (zlen prog) 32); [by injection Hd as <-|done]. }
    apply Bech32Decode_spec in E as (_ & _ & Hc & _ & He). split; [done|]. exists prog. split_and!; [done|done|]. rewrite Ha. apply EncodeAddress_of.
    destruct (encode_program h prog Hn Hsz) as (d' & s' & Hs' & He' & _ & _ & _ & ->). rewrite (spells_unique _ _ _ Hs' Hs), He in He'. by injection He' as <-.
  - intros (Hc & prog & Hsz & -> & He). destruct (encode_program hrp prog Hn Hsz) as (d5 & s' & Hs & He' & Hlow & _ & Hd' & Henc).
    apply EncodeAddress_of in Henc. rewrite He in Henc. injection Henc as <-. pose proof Hd' as (H890 & Hp & _ & Hne & _)%Bech32Decode_spec. rewrite zlen_lower in H890. rewrite printable_lower in Hp.
    assert (Hd : Bech32Decode s = BechOk (hrp, x00 :: d5)) by (apply Bech32Decode_spec; split; [exact H890|]; split; [exact Hp|]; split; [exact Hc|]; by split).
    rewrite (DecodeAddress_eq s hrp hrp _ Hd). destruct Hn as [Hl _]. rewrite Z.gtb_ltb, (proj2 (Z.ltb_lt _ _)), bool_decide_true by (done || lia). cbn [andb].
    rewrite (proj2 (decodeSegWit_iff s x00 prog)); [|exists hrp, d5; split_and!; try done; unfold program_size in Hsz; lia].
    cbn [mbind addr_bind]. unfold address_of. by destruct Hsz as [-> | ->].
Qed.

(** ** Control programs *)

Lemma witness_program h : P2WPKHProgram h = Done (x00 :: PushDataBytes h) /\ P2WSHProgram h = P2WPKHProgram h.
Proof. done. Qed.

Lemma ToLower_network hrp : network_hrp hrp -> ToLower hrp = hrp.
Proof.
  intros [_ Hh]. rewrite ToLower_ascii; [by apply lower_id|]. eapply Forall_impl; [exact Hh|]. intros c [_ Hc]. by apply printable_ascii.
Qed.

Lemma program_of_address hrp s prog :
  network_hrp hrp ->
  getProgramByAddress hrp s = AOk prog
  <-> (s = lower s \/ s = upper s)
      /\ exists h, program_size h /\ P2WPKHProgram h = Done prog /\ EncodeAddress (address_of hrp h) = AOk (lower s).
Proof.
  intros Hn. unfold getProgramByAddress. split.
  - destruct (DecodeAddress s hrp) as [a|e|] eqn:E; [|done..]. apply DecodeAddress_iff in E as (Hc & h & Hh & -> & He); [|done]. cbn [mbind addr_bind].
    intros Hp. split; [done|]. exists h. split_and!; [done| |done]. unfold address_of in Hp. destruct (zlen h =? 20); cbn [ScriptAddress] in Hp; rewrite ?(proj2 (witness_program h)) in Hp;
      destruct (P2WPKHProgram h); cbn [of_outcome] in Hp; by simplify_eq.
  - intros (Hc & h & Hh & Hp & He). assert (Hd : DecodeAddress s hrp = AOk (address_of hrp h)) by (apply DecodeAddress_iff; [done|]; split; [done|]; by exists h).
    rewrite Hd. cbn [mbind addr_bind]. unfold address_of. destruct (zlen h =? 20); cbn [ScriptAddress]; rewrite ?(proj2 (witness_program h)), Hp; done.
Qed.

Lemma address_of_program hrp prog s :
  network_hrp hrp -> zlen prog <= MaxInt32 ->
  getAddressFromControlProgram hrp prog = AOk s /\ s <> []
  <-> exists h, program_size h /\ P2WPKHProgram h = Done prog /\ EncodeAddress (address_of hrp h) = AOk s.
Proof.
  intros Hn Hl. destruct (IsP2WScript_iff prog Hl) as [H20 H32]. unfold getAddressFromControlProgram.
  assert (Hhash : forall h, program_size h -> P2WPKHProgram h = Done prog -> GetHashFromStandardProg prog = Done h)
    by (intros h Hh Hp; apply (witness_program_roundtrip h prog); [unfold program_size in Hh; lia|by left]).
  assert (Hb : forall h, program_size h -> (if zlen h =? 20 then buildP2PKHAddress hrp h else buildP2SHAddress hrp h) = EncodeAddress (address_of hrp h)).
  { intros h Hh. unfold buildP2PKHAddress, buildP2SHAddress, NewAddressWitnessPubKeyHash, NewAddressWitnessScriptHash, newAddressWitnessPubKeyHash, newAddressWitnessScriptHash, address_of. rewrite !ToLower_network by done.
    by destruct Hh as [-> | ->]. }
  split.
  - intros [Hs Hne]. destruct (IsP2WPKHScript prog) eqn:E20.
    + destruct (proj1 H20 eq_refl) as (h & Hh & Hp). assert (Hsz : program_size h) by (by left). rewrite (Hhash h Hsz Hp) in Hs. cbn [of_outcome] in Hs.
      exists h. split_and!; [done|done|]. by rewrite <- Hb, Hh.
    + destruct (IsP2WSHScript prog) eqn:E32; [|by injection Hs as <-]. destruct (proj1 H32 eq_refl) as (h & Hh & Hp). assert (Hsz : program_size h) by (by right).
      rewrite (proj2 (witness_program h)) in Hp. rewrite (Hhash h Hsz Hp) in Hs. cbn [of_outcome] in Hs. exists h. split_and!; [done|done|]. by rewrite <- Hb, Hh.
  - intros (h & Hh & Hp & He). destruct (encode_program hrp h Hn Hh) as (d5 & s' & _ & _ & _ & Hne & _ & Henc). apply EncodeAddress_of in Henc. rewrite He in Henc. injection Henc as <-.
    split; [|done]. rewrite (Hhash h Hh Hp). cbn [of_outcome]. rewrite <- (Hb h Hh) in He.
    assert (Hsize : forall n h', zlen h' = n -> program_size h' -> P2WPKHProgram h' = Done prog -> zlen h = n).
    { intros n h' Hn' Hh' Hp'. rewrite (Hhash h' Hh' Hp') in Hhash. specialize (Hhash h Hh Hp). by injection Hhash as <-. }
    destruct (IsP2WPKHScript prog) eqn:E20.
    + destruct (proj1 H20 eq_refl) as (h' & Hh' & Hp'). rewrite (Hsize 20 h' Hh' (or_introl Hh') Hp') in He. exact He.
    + destruct Hh as [Hh|Hh]; [exfalso; assert (false = true) by (apply H20; by exists h); done|]. rewrite Hh in He.
      replace (IsP2WSHScript prog) with true; [exact He|]. symmetry. apply H32. exists h. by rewrite (proj2 (witness_program h)).
Qed.

(** C40.  Addresses and control programs of a network correspond one to one: the
    accounts read a program of at most 2^31 - 1 bytes out of a string exactly when
    the string, in lower or in upper case throughout, is the address the wallet
    writes for that program; and for every program that [IsP2WPKHScript] or
    [IsP2WSHScript] accepts the wallet writes an address. The human-readable part
    of the network has 2 to 30 printable characters in lower case. *)
Theorem address_iff_program hrp prog :
  network_hrp hrp -> zlen prog <= MaxInt32 ->
  (forall s, getProgramByAddress hrp s = AOk prog
     <-> (s = lower s \/ s = upper s) /\ lower s <> [] /\ getAddressFromControlProgram hrp prog = AOk (lower s))
  /\ (IsP2WPKHScript prog || IsP2WSHScript prog = true ->
      exists s, getAddressFromControlProgram hrp prog = AOk s /\ s <> [] /\ getProgramByAddress hrp s = AOk prog).
Proof.
  intros Hn Hl. split.
  - intros s. rewrite program_of_address by done. rewrite <- (address_of_program hrp prog (lower s) Hn Hl). tauto.
  - intros Hp. assert (exists h, program_size h /\ P2WPKHProgram h = Done prog) as (h & Hh & Hd).
    { destruct (IsP2WScript_iff prog Hl) as [H20 H32]. apply orb_true_iff in Hp as [(h & Hh & Hp)%H20|(h & Hh & Hp)%H32]; exists h; (split; [|done]); [by left|by right]. }
    destruct (encode_program hrp h Hn Hh) as (d5 & s & _ & _ & Hlow & _ & _ & Henc%EncodeAddress_of). exists s.
    destruct (proj2 (address_of_program hrp prog s Hn Hl)) as [Ha Hne]; [by exists h|]. split_and!; [done|done|].
    apply program_of_address; [done|]. split; [by left|]. exists h. by rewrite Hlow.
Qed.
End Spec.

(** The program of 20 zeros on the main network, and an address in upper case. *)
#[local] Instance LowerStrings : GoStrings := {| ToLower := lower; ToLower_ascii s _ := eq_refl |}.
#[local] Existing Instance ZUint256.
Definition mainnet_hrp : bytes := String.list_byte_of_string "bn".
Definition zeros_program : bytes := x00 :: x14 :: replicate 20 x00.
Definition zeros_address : bytes := String.list_byte_of_string "bn1qqqqqqqqqqqqqqqqqqqqqqqqqqqqqqqqq3kc3g2".

Lemma address_iff_program_witness :
  network_hrp mainnet_hrp /\ zlen zeros_program <= MaxInt32
  /\ getAddressFromControlProgram mainnet_hrp zeros_program = AOk zeros_address
  /\ getProgramByAddress mainnet_hrp zeros_address = AOk zeros_program
  /\ getProgramByAddress mainnet_hrp (upper zeros_address) = AOk zeros_program.
Proof.
  assert (Hn : network_hrp mainnet_hrp) by (split; [split; discriminate|repeat constructor]).
  assert (Hl : zlen zeros_program <= MaxInt32) by discriminate.
  assert (Ha : getAddressFromControlProgram mainnet_hrp zeros_program = AOk zeros_address) by (vm_compute; reflexivity).
  split; [exact Hn|]. split; [exact Hl|]. split; [exact Ha|]. destruct (address_iff_program mainnet_hrp zeros_program Hn Hl) as [H1 _].
  split; apply H1; (split; [|split; [discriminate|exact Ha]]); [left|right]; vm_compute; reflexivity.
Defined.
